(* ===== verification/_CoqProject ===== *)
-Q . S2P
Prelude.v
Doubles.v
Text.v
Config.v
HttpClient.v
RdpGate.v
Pack.v
Credential.v
CredentialSafety.v
Logon.v
Forget.v
Display.v
Verdict.v
ComModule.v
Provider.v
CredentialImage.v
ReedSolomon.v
QrSegments.v
QrCode.v
QrReader.v
QrDrawing.v
QrLayout.v
QrBlocks.v
QrTrials.v
QrEncoding.v
QrRoundtrip.v
TileImages.v
TileResources.v
Secrets.v
TileObject.v
WebAuthn.v
LogFile.v
ProviderFiles.v
Service.v
DebugFields.v
DebugLog.v
Diagnostics.v
LinkBinding.v
LinkHost.v
InputQueue.v
RemoteMouse.v
Startup.v
InputBlock.v
ServiceControl.v
Capture.v
CaptureThread.v
Window.v
LinuxRunner.v
