(* ===== verification/Prelude.v ===== *)
(** * Ligament 2FA for Windows: a verification development

    The C++ side of Ligament on Windows (under [src/windows]) is a credential
    provider, a system service and the native part of a desktop application.

    The credential provider ([credential_provider]) puts a second factor before a
    Windows logon. LogonUI loads it, asks it for a tile, feeds it the name, the
    password and the clicks, and asks it again and again for a credential to hand
    to LSA. The tile gives one only after a push, a passkey or a one-time code was
    confirmed by the Ligament server. A worker thread does all network traffic;
    LogonUI's thread starts it, joins it and reads its record. The service
    ([service]) keeps the client running in the sessions of machines whose policy
    forbids leaving it. The application ([runner]) shows the client, or, started
    as a worker by the Link service, lets a remote operator see the screen and
    inject input while the local user's is held back; it also hands an enrolment
    token to the Link service. This library models that code and proves what
    makes it correct.

    ** The parts

    Shared:
    - [Prelude] (this file): machine integers, byte and UTF-16 strings, the
      [std::string] searches the code uses, record update, shared lemmas.
    - [Doubles]: IEEE doubles ([SpecFloat]'s binary64), with what a quotient, a scaled
      and a rounded [int] are.
    - [Text]: the helpers of [credential_provider/common.h] ([EscapeJson],
      [Base64UrlEncode] and [Base64UrlDecode], [ExtractJsonString],
      [ExtractJsonBool], [ExtractJsonInt], [InferCPLogLevel]), and [JsonString] of
      [runner/link_agent_binding_bridge.cpp].
    - [LogFile]: [service/log_utils.h], the log files of service and provider, over
      any file system of the class [FileSystem]: a map from paths to contents, and
      in [ProviderFiles] a volume with links.

    Credential provider:
    - [Config]: [Config::LoadFromRegistry] (registry values as typed byte buffers
      with their size arguments), [ClassifyUrlScheme], [Config::IsBypassAccount].
    - [HttpClient]: [HttpApiClient.cpp]. The network is an oracle: the [n]-th
      exchange of a run is answered by a function of [n] and the request, and
      every exchange is kept in a log. Theorems about requests and approvals are
      theorems about the log.
    - [RdpGate]: [rdp_gate.cpp], the assertion of the RDP gateway.
    - [Pack]: the serialisation half of [LigamentCredential.cpp], that is the
      plain password, the LSA package, the [KERB_INTERACTIVE_UNLOCK_LOGON] buffer
      byte by byte, CredUI packing, [PackAndFinish].
    - [Credential]: the tile. The members of [LigamentCredential] (record [Sys]),
      every LogonUI method that changes them, and [RunAsyncJob]. The code of both
      threads is a [prog]: a tree of atomic steps on the members (one per critical
      section, network call or unlocked access) with the two points where
      LogonUI's thread creates the worker ([Spawn]) and waits for it ([Join]).
      [step] interleaves the two threads step by step; [exec] runs a LogonUI call
      with the worker standing still except at joins.
    - [CredentialSafety]: the invariant and its preservation by every step.
    - [Logon]: the reachable tiles ([tile_step]: a worker step, a LogonUI call, an
      initialisation of an idle tile) and the theorems about them.
    - [Forget]: what a changed name or password leaves behind, in every interleaving.
    - [Verdict]: what the worker achieves when it is left alone.
    - [Provider]: [LigamentProvider.cpp]. It uses the tile through a class,
      [Tile], whose laws its theorems rest on; [credential_Tile] shows that the
      tile of [Credential] obeys them.
    - [ComModule]: [dllmain.cpp], [ClassFactory.cpp] and the reference counts of
      the provider and the credential on a heap; the registration.
    - [Display]: what the tile shows, in every interleaving of the two threads.
    - [CredentialImage]: [credential_image.h], the PNG encoder of the tile's image,
      against a reference reader.
    - [ReedSolomon], [QrSegments], [QrCode]: the QR encoder, [qrcodegen.cpp], that is the
      error correction codewords, the segments of a text, and the square of modules
      with its choice of version, level and mask. [QrReader] is a reader written from
      the standard (ISO/IEC 18004), which shares with the encoder the tables of the
      blocks, the alphanumeric alphabet and the multiplication of the field; [QrDrawing], [QrLayout], [QrBlocks],
      [QrTrials] and [QrEncoding] show step by step what the encoder draws and writes,
      and [QrRoundtrip] that the reader gets the text back.
    - [TileImages]: the pictures themselves, that is the drawing of the QR code and the
      logo into a bitmap and the two ways of handing a bitmap to LogonUI.
    - [WebAuthn]: [WebAuthnClient.cpp], loading [webauthn.dll] and asking for a passkey
      assertion; the tile holds such a client but calls none of its operations.
    - [TileResources]: the references on LogonUI's event interfaces, the interface
      table, the bitmap handles of the tile and the copies it makes for LogonUI, with
      the notifications of both threads as interleaved steps.
    - [Secrets]: the cells of the strings that hold the password and the code, what
      [SecureWipe] overwrites of them, and the copies that nobody wipes; [TileObject]: the interface table, the worker's
      thread procedure, the PNG logo and the methods that are not implemented.
    - [ProviderFiles]: the log [cp.log], on a volume with hard links and junctions, and
      the single sign-on ticket file, on top of [LogFile].

    Service:
    - [Service]: [service.cpp], the watchdog round by round, and the lines it logs.
    - [ServiceControl]: [SvcMain], [SvcHandler] and [wmain] as threads whose steps
      interleave with the controls of the service manager.

    Application:
    - [DebugFields], [DebugLog]: [debug_log.h] and [debug_log.cpp], what may be
      written to the diagnostic log and how it is protected on disk.
    - [Diagnostics]: the method channel of [flutter_window.cpp] on top of them.
    - [LinkBinding]: [link_agent_binding_bridge.cpp] and [link_pipe_session.h], the
      enrolment of the machine through the service's pipe.
    - [LinkHost]: [link_host_bridge.cpp], the worker's pipe to the service.
    - [InputQueue]: the queue and the input worker of [input_block.cpp], with the
      gate before the secure desktop and the hook procedures.
    - [InputBlock]: the installation and removal of the hooks, with the thread
      that owns them.
    - [Capture]: monitors, screen capture and the BMP fallback of the same file.
    - [CaptureThread]: the same capture call by call, with a ledger of the handles that
      the thread takes and gives back; it answers as [Capture] does.
    - [Window]: [win32_window.cpp] and [flutter_window.cpp], a window from constructor to
      destructor, with the messages delivered inside [CreateWindow] and [DestroyWindow].
    - [RemoteMouse]: [remote_mouse_input.h], which only its test uses.
    - [Startup]: [main.cpp] and [utils.cpp], how a process starts.
    - [LinuxRunner]: [linux/runner], the application object of the Linux build.

    ** What is shown

    - A credential needs a reason. [Logon.GetSerialization_second_factor]: in
      every reachable state, whatever calls LogonUI made and however the worker's
      steps fell between them, a credential is handed over only for an account on
      the bypass list, under a fail-open policy after a network error, or with an
      approval in the log (or from the gate) for the name and password on the
      tile. [Forget.SetStringValue_forgets] and [Logon.ReportResult_ends_attempt]
      say what is dropped when the input changes, whatever the worker does meanwhile,
      and when an attempt ends;
      [Logon.GetSerialization_confirmed] and [Verdict.RunAsyncJob_verdict] say
      that a confirmed tile does log on and that the worker always decides, in a
      bounded number of requests, and tells LogonUI.
    - What the user sees. The QR code and the control number on the tile were
      issued by the server, whatever the interleaving ([Display.tile_shows_servers]);
      a reader of the picture gets exactly the link ([TileImages.qr_tile_reads_back]),
      because the encoder's codes read back
      ([QrRoundtrip.encodeText_reads]), are the smallest that hold the text
      ([QrRoundtrip.encodeText_smallest]), keep the distance that error correction needs
      ([ReedSolomon.codewords_far]) and take the mask of least penalty
      ([QrTrials.new_qr_mask]);
      the tile gives back what it holds ([TileResources.tile_resources]) and leaves no
      secret as a value, nor in the cells of its own strings if the fields were only
      typed forwards; what the copies for LogonUI and for the requests leave is part of
      the statement ([Secrets.secrets_wiped]).
    - The tile is there when the stock one is not ([Provider.Filter_agrees]), in
      exactly the documented scenarios ([Provider.SetUsageScenario_policy]), and
      the DLL stays loaded exactly as long as it is needed
      ([ComModule.DllCanUnloadNow_exact]).
    - Traffic. Requests leave only over the configured channels
      ([HttpClient.client_requests_secure]) and carry exactly the intended fields
      ([HttpClient.request_bodies_faithful]); answers are accepted exactly when
      they should be ([HttpClient.VerifyCombined_accepts],
      [HttpClient.StartPush_outcome], [RdpGate.CheckRdpMfaSatisfied_fail_closed]).
      A token goes only to a trusted service ([LinkBinding.BindOverNamedPipe_trusted],
      [LinkBinding.bridge_calls], [LinkHost.host_session]).
    - The remote operator. An interactive session injects nothing into a desktop whose
      name Windows gave as a secure one ([InputQueue.worker_gate]), releases of keys are
      never dropped and events never reordered ([InputQueue.EnqueueNativeInput_keeps]),
      local input is held back while the
      block is on ([InputBlock.install_holds_input]); the capture thread answers as
      [Capture] says, with a picture scaled in doubles that is within the box and keeps
      its proportions ([Capture.capture_fits], [Capture.target_size_spec]), and
      keeps the books of Windows, with the exceptions the statement names
      ([CaptureThread.capture_gives_back]).
    - The window. Whatever messages arrive, the engine, channel and bridges of a window
      are created and destroyed in order and once ([Window.window_life]).
    - The service. The watchdog launches what the policy asks for
      ([Service.worker_tick_relaunches], [Service.WorkerLoop_watch]); a stop ends the
      service after the sessions of the round it falls into
      ([ServiceControl.service_stops]), which reports the states in order as long as
      the event can be created and there is one stop, after the start
      ([ServiceControl.service_life]).
    - Files. Each log is written only where its owner is right
      ([DebugLog.CheckHandle_secure], [ProviderFiles.cp_log_safe]) and gains
      exactly the intended bytes ([DebugLog.Write_appends]), a log in two files keeps
      its newest lines ([LogFile.AppendUtf8LogLine_log]); no field can forge a line
      ([DebugFields.ValidContext_fields], [Diagnostics.HandleDiagnostics_write]);
      the ticket file changes in one step ([ProviderFiles.WriteSsoTicketFile_atomic]).
    - Data. Escaping, Base64URL and the field extractors ([Text]), the registry
      ([Config]), the logon buffer ([Pack]), images ([CredentialImage],
      [Capture]) and the registration ([ComModule.registration_roundtrip]) are
      inverted or characterised.
    - Departures, where the code does not do what its comments or its purpose say:
      [Logon.bypass_ignores_typed_domain], [Logon.Initialize_keeps_refused_push],
      [Logon.rename_keeps_late_approval], [Secrets.deleted_characters_stay],
      [ProviderFiles.cp_log_follows_links], [InputQueue.releases_unbounded],
      [ServiceControl.shutdown_while_stopping], [ServiceControl.shutdown_while_starting],
      [ServiceControl.stop_without_event], [Capture.captured_past_int],
      [TileObject.GetGIT_race],
      [Logon.network_errors_never_end_the_poll],
      [Provider.declined_prompt_leaves_stale_tile],
      [InputQueue.unnamed_desktop_passes_gate], [InputBlock.failed_install_final],
      [Capture.bmp_upside_down]; and, as parts of their statements,
      [Startup.wWinMain_policy] (the clean-up ends processes of other roles),
      [CaptureThread.capture_gives_back] (each capture leaves a desktop open, and
      [CoUninitialize] is called whatever [CoInitializeEx] answered),
      [LogFile.AppendUtf8LogLine_log] (a rotation that fails half-way loses the backup),
      [Secrets.secrets_wiped] (the copies that stay),
      [HttpClient.VerifyCombined_accepts] (a server's text can pass for a network error),
      [TileImages.qr_tile_reads_back] (the decorative ring cuts into the code's light
      border), [TileResources.tile_resources] (a logo is lost per re-initialisation),
      [ComModule.registration_roundtrip] (success without a key written) and
      [ProviderFiles.WriteSsoTicketFile_atomic] (no ticket without the directory
      that nothing creates).

    ** Conventions and bounds

    Bytes and UTF-16 code units are [Z], strings are lists of them; wrap-around
    is written with [u8], [u16], [u32], [i32]. What the code asks of Windows
    (WinHTTP, the registry, LSA, WTS, pipes, tokens, files, desktops, the
    conversions between UTF-8 and UTF-16) is an argument of the definitions,
    gathered in records ([World], [GateEnv], [PackEnv], [Host], [Tick], [BindEnv],
    [HostEnv] and others). [_wcsicmp] folds ASCII letters. Loops over data are
    structural; the poll runs [pushTimeoutSec] rounds, as the code's does, and the
    pipe loop its 100. The loops of the QR encoder over indices are [for_from], with the
    number of rounds known beforehand; its zigzag, version search and padding run on
    fuel that their lemmas show to be enough, for all forty versions and four levels. Threads are step relations or sequences of steps, a step
    being one critical section, call or unlocked access. The block loop of the
    PNG encoder and the reference readers (the JSON reader of [HttpClient] and the
    PNG reader of [CredentialImage]) run on fuel, the length of their input, which
    each of their steps shortens.

    ** What is not modelled

    In the modelled files: the screen (a function of its rectangle), COM
    marshalling, calls of LogonUI back into the tile during a notification, time-outs,
    what Windows and LogonUI do with the password they are given, exceptions of the
    standard library, the console of [utils.cpp], starting GDI+, the DPI helper of old
    systems, and the read past the buffer of [readString] when a registry value fills all
    its 4096 bytes without a terminator. [g_winsta0] is taken to be looked after by one
    thread at a time, and between two lines of [cp.log] nobody else is taken to change
    the volume. The theorem
    about credentials is for calls that the worker does not interrupt except at
    joins; what an interruption inside [ResetAuthState] does is the subject of
    [Logon.rename_keeps_late_approval]. User names with a leading backslash are
    excluded from the reachable states ([typed_name]): such a name is stored with
    an empty domain, and typing its tail afterwards is taken for no change.

    Whole files: [app_logo_data.h] and [credential_logo_png.h] (image data, which the
    definitions take as an argument), the generated plugin registrants, the native
    tests, and the parts of the repository in Dart, Go, Swift and Kotlin. *)
From stdpp Require Export prelude gmap strings pretty relations.
Open Scope Z_scope.

(** ** Machine integers

    A w-bit integer is a [Z]; every place where the code's type wraps says so
    with one of these. *)
Definition u8 (z : Z) : Z := z mod 2 ^ 8.
Definition u16 (z : Z) : Z := z mod 2 ^ 16.
Definition u32 (z : Z) : Z := z mod 2 ^ 32.
Definition u64 (z : Z) : Z := z mod 2 ^ 64.
Definition i32 (z : Z) : Z := (z + 2 ^ 31) mod 2 ^ 32 - 2 ^ 31.
Definition INT_MAX : Z := 2147483647.

(** ** Strings

    [std::string] is the list of its bytes (0..255), [std::wstring] the list
    of its UTF-16 code units; both are lists of [Z], so the search functions
    of [std::basic_string] are written once. *)
Abbreviation str := (list Z).
Abbreviation wstr := (list Z).

Definition is_byte (z : Z) : Prop := 0 <= z < 256.

#[export] Instance is_byte_dec z : Decision (is_byte z).
Proof. unfold is_byte. apply _. Defined.

(** A narrow literal: its UTF-8 bytes, as the compiler emits them with /utf-8. *)
Fixpoint B (s : string) : str :=
  match s with
  | EmptyString => []
  | String a s' => Z.of_N (Ascii.N_of_ascii a) :: B s'
  end.

(** A narrow literal that contains double quotes, written with single ones. *)
Definition dq : Z := 34.
Definition J (s : string) : str := (λ c, if decide (c = 39) then dq else c) <$> B s.

(** Decoding of a literal's UTF-8 bytes to UTF-16 code units. *)
Fixpoint utf8_to_utf16 (l : str) : wstr :=
  match l with
  | [] => []
  | a :: l1 =>
    if decide (a < 128) then a :: utf8_to_utf16 l1 else
    match l1 with
    | b :: l2 =>
      if decide (a < 224) then ((a - 192) * 64 + (b - 128)) :: utf8_to_utf16 l2 else
      match l2 with
      | c :: l3 =>
        if decide (a < 240)
        then ((a - 224) * 4096 + (b - 128) * 64 + (c - 128)) :: utf8_to_utf16 l3 else
        match l3 with
        | d :: l4 =>
          let u := (a - 240) * 262144 + (b - 128) * 4096 + (c - 128) * 64 + (d - 128) - 65536 in
          (55296 + u / 1024) :: (56320 + u mod 1024) :: utf8_to_utf16 l4
        | [] => []
        end
      | [] => []
      end
    | [] => []
    end
  end.

(** A wide literal [L"..."]. *)
Definition W (s : string) : wstr := utf8_to_utf16 (B s).

(** [std::to_string] *)
Definition to_string (z : Z) : str := B (pretty z).

(** [s.c_str()] read by a C function: the prefix before the first NUL. *)
Fixpoint c_str (s : list Z) : list Z :=
  match s with
  | [] => []
  | c :: s' => if decide (c = 0) then [] else c :: c_str s'
  end.

(** [_wcsicmp a b == 0]: the comparison of the C locale folds A-Z only. *)
Definition lower (c : Z) : Z := if decide (65 <= c <= 90) then c + 32 else c.
Definition ieq (a b : list Z) : Prop := lower <$> c_str a = lower <$> c_str b.

#[export] Instance ieq_dec a b : Decision (ieq a b).
Proof. unfold ieq. apply _. Defined.

(** [std::basic_string::find], [find_first_of] and their relatives; [None] is
    [npos]. *)
Fixpoint prefixb (p s : list Z) : bool :=
  match p, s with
  | [], _ => true
  | _ :: _, [] => false
  | a :: p', b :: s' => bool_decide (a = b) && prefixb p' s'
  end.

Fixpoint find0 (needle s : list Z) : option nat :=
  if prefixb needle s then Some 0%nat else
  match s with
  | [] => None
  | _ :: s' => S <$> find0 needle s'
  end.

Definition find (s needle : list Z) (pos : nat) : option nat :=
  if decide (pos <= length s)%nat
  then (λ i, (pos + i)%nat) <$> find0 needle (drop pos s) else None.

Definition find_ch (s : list Z) (c : Z) (pos : nat) : option nat := find s [c] pos.

Fixpoint find_if (f : Z → bool) (s : list Z) : option nat :=
  match s with
  | [] => None
  | c :: s' => if f c then Some 0%nat else S <$> find_if f s'
  end.

Definition one_of (set : list Z) (c : Z) : bool := bool_decide (c ∈ set).

Definition find_first_of (s set : list Z) (pos : nat) : option nat :=
  (λ i, (pos + i)%nat) <$> find_if (one_of set) (drop pos s).

Definition find_first_not_of (s set : list Z) : option nat :=
  find_if (λ c, negb (one_of set c)) s.

Definition find_last_if (f : Z → bool) (s : list Z) : option nat :=
  (λ i, (length s - 1 - i)%nat) <$> find_if f (rev s).

Definition find_last_of (s set : list Z) : option nat := find_last_if (one_of set) s.
Definition find_last_not_of (s set : list Z) : option nat :=
  find_last_if (λ c, negb (one_of set c)) s.

(** [s.substr(pos, n)] for [pos <= s.size()]; [substr_from] is [s.substr(pos)]. *)
Definition substr (s : list Z) (pos n : nat) : list Z := take n (drop pos s).
Definition substr_from (s : list Z) (pos : nat) : list Z := drop pos s.

(** [wcsstr(s, n) != nullptr] *)
Definition containsb (s needle : list Z) : bool := bool_decide (is_Some (find0 needle s)).

Definition prefixof (p s : list Z) : bool := prefixb p s.
Definition suffixof (p s : list Z) : bool := prefixb (rev p) (rev s).

(** ** Record update

    [s <| f := v |>] for the records that declare an eta-expansion. *)
Class Settable (R : Type) := eta_of : R → R.
Class Setter {R T : Type} (proj : R → T) := set_field : T → R → R.

Ltac solve_setter :=
  match goal with
  | |- @Setter ?R ?T ?proj =>
    let inst := constr:(_ : Settable R) in
    let eta := eval hnf in inst in
    match eval pattern proj in eta with
    | ?s _ => let f := eval cbv beta in (fun (v : T) (r : R) => s (fun _ => v) r) in exact f
    end
  end.

#[export] Hint Extern 1 (Setter _) => solve_setter : typeclass_instances.

Notation "s '<|' f ':=' v '|>'" := (set_field (proj := f) v s)
  (at level 1, left associativity, f at level 99, v at level 99, format "s  <| f  :=  v |>").

(** ** Tactics shared by the components *)
Ltac destr_if :=
  match goal with
  | |- context [if decide ?P then _ else _] => destruct (decide P)
  | |- context [if ?b then _ else _] => let E := fresh "E" in destruct b eqn:E
  end.
Ltac destr_match :=
  match goal with
  | |- context [match ?x with _ => _ end] => let E := fresh "E" in destruct x eqn:E
  end.
Ltac destr_match_in H :=
  match type of H with
  | context [match ?x with _ => _ end] => let E := fresh "E" in destruct x eqn:E
  end.

Ltac compute_term t := let x := eval vm_compute in t in change t with x.

(** Case analysis on the integer comparisons of the goal. *)
Ltac zcase :=
  match goal with
  | |- context [?a =? ?b] => destruct (Z.eqb_spec a b); try lia
  | |- context [?a <? ?b] => destruct (Z.ltb_spec a b); try lia
  | |- context [?a <=? ?b] => destruct (Z.leb_spec a b); try lia
  end.
Ltac zcases := repeat zcase.

Arguments B : simpl never.
Arguments W : simpl never.
Arguments J : simpl never.

Create HintDb strs.

(** ** Search lemmas *)
Lemma prefixb_spec p s : prefixb p s = true ↔ ∃ r, s = p ++ r.
Proof.
  revert s; induction p as [|a p IH]; intros s; simpl; [naive_solver|].
  destruct s as [|b s]; [naive_solver|].
  rewrite andb_true_iff, bool_decide_eq_true, IH. naive_solver.
Qed.

Lemma prefixb_app p r : prefixb p (p ++ r) = true.
Proof. apply prefixb_spec. eauto. Qed.

Lemma prefixb_refl p : prefixb p p = true.
Proof. rewrite <- (app_nil_r p) at 2. apply prefixb_app. Qed.

Lemma find0_Some n s i :
  find0 n s = Some i → ∃ l r, s = l ++ n ++ r ∧ length l = i.
Proof.
  revert i; induction s as [|c s IH]; intros i; simpl.
  - destruct (prefixb n []) eqn:E; [|done]. intros [= <-].
    apply prefixb_spec in E as [r Hr]. by exists [], r.
  - destruct (prefixb n (c :: s)) eqn:E.
    + intros [= <-]. apply prefixb_spec in E as [r Hr]. by exists [], r.
    + destruct (find0 n s) as [j|] eqn:Ej; [|done]. intros [= <-].
      destruct (IH _ eq_refl) as (l & r & -> & <-). by exists (c :: l), r.
Qed.

Lemma find0_first n s i l r :
  find0 n s = Some i → s = l ++ n ++ r → (i <= length l)%nat.
Proof.
  revert i l; induction s as [|c s IH]; intros i l Hi Hs.
  - simpl in Hi. destruct (prefixb n []); naive_solver lia.
  - simpl in Hi. destruct (prefixb n (c :: s)) eqn:E; [injection Hi as <-; lia|].
    destruct (find0 n s) as [j|] eqn:Ej; [|done]. injection Hi as <-.
    destruct l as [|d l]; simpl in Hs.
    + assert (prefixb n (c :: s) = true) by (apply prefixb_spec; eauto). congruence.
    + injection Hs as -> Hs. simpl. specialize (IH _ _ eq_refl Hs). lia.
Qed.

Lemma find0_complete n l r : is_Some (find0 n (l ++ n ++ r)).
Proof.
  induction l as [|c l IH]; simpl.
  - destruct n as [|a n]; simpl; [destruct r; simpl; eauto|].
    rewrite bool_decide_eq_true_2 by done. rewrite prefixb_app. simpl. eauto.
  - destr_if; [eauto|]. destruct IH as [j ->]. simpl. eauto.
Qed.

Lemma find0_None n s : find0 n s = None ↔ ¬ ∃ l r, s = l ++ n ++ r.
Proof.
  split.
  - intros H (l & r & ->). destruct (find0_complete n l r) as [? E]. congruence.
  - intros H. destruct (find0 n s) as [i|] eqn:E; [|done].
    apply find0_Some in E as (l & r & ? & ?). naive_solver.
Qed.

Lemma find0_ch_app c l r : c ∉ l → find0 [c] (l ++ c :: r) = Some (length l).
Proof.
  induction l as [|d l IH]; intros Hc; simpl.
  - by rewrite bool_decide_eq_true_2.
  - rewrite bool_decide_eq_false_2 by set_solver. simpl.
    rewrite IH by set_solver. done.
Qed.

Lemma find0_ch_notin c l : c ∉ l → find0 [c] l = None.
Proof.
  induction l as [|d l IH]; intros Hc; simpl; [done|].
  rewrite bool_decide_eq_false_2 by set_solver. simpl. by rewrite IH by set_solver.
Qed.

Lemma find_app_l n l s pos :
  length l = pos → find (l ++ s) n pos = (λ i, (pos + i)%nat) <$> find0 n s.
Proof.
  intros <-. unfold find. rewrite decide_True by (rewrite length_app; lia).
  by rewrite drop_app_length.
Qed.

Lemma find_ch_app c a l r pos :
  length a = pos → c ∉ l → find_ch (a ++ l ++ c :: r) c pos = Some (pos + length l)%nat.
Proof.
  intros Ha Hc. unfold find_ch. rewrite find_app_l by done.
  by rewrite find0_ch_app.
Qed.

Lemma find_ch_first c l r : c ∉ l → find_ch (l ++ c :: r) c 0 = Some (length l).
Proof. intros. by apply (find_ch_app c [] l r). Qed.

Lemma find_ch_notin c l : c ∉ l → find_ch l c 0 = None.
Proof.
  intros. unfold find_ch, find. rewrite decide_True, drop_0 by lia. by rewrite find0_ch_notin.
Qed.

Lemma find_ch_some s c i : find_ch s c 0 = Some i → ∃ l r, s = l ++ c :: r ∧ length l = i ∧ (c ∉ l).
Proof.
  unfold find_ch, find. rewrite decide_True, drop_0 by lia.
  destruct (find0 [c] s) as [j|] eqn:E; [|done]. intros [= <-].
  pose proof (find0_first [c] s j) as Hfirst.
  pose proof E as (l & r & -> & <-)%find0_Some. exists l, r. split_and!; [done|done|].
  intros Hc. apply list_elem_of_split in Hc as (l1 & l2 & ->).
  specialize (Hfirst l1 (l2 ++ [c] ++ r) E). rewrite <- app_assoc in Hfirst.
  specialize (Hfirst eq_refl). rewrite length_app in Hfirst. simpl in Hfirst. lia.
Qed.

Lemma find_ch_none s c : find_ch s c 0 = None → c ∉ s.
Proof.
  unfold find_ch, find. rewrite decide_True, drop_0 by lia.
  destruct (find0 [c] s) as [j|] eqn:E; [done|]. intros _ Hc.
  apply find0_None in E. apply list_elem_of_split in Hc as (l & r & ->). apply E. by exists l, r.
Qed.

Lemma substr_app_mid a l r pos n :
  length a = pos → length l = n → substr (a ++ l ++ r) pos n = l.
Proof. intros <- <-. unfold substr. by rewrite drop_app_length, take_app_length. Qed.

Lemma containsb_spec s n : containsb s n = true ↔ ∃ l r, s = l ++ n ++ r.
Proof.
  unfold containsb. rewrite bool_decide_eq_true. split.
  - intros [i E]. apply find0_Some in E as (l & r & ? & ?). eauto.
  - intros (l & r & ->). apply find0_complete.
Qed.

Lemma suffixof_spec p s : suffixof p s = true ↔ ∃ l, s = l ++ p.
Proof.
  unfold suffixof. rewrite prefixb_spec. split.
  - intros [r Hr]. exists (rev r). apply (f_equal (@rev Z)) in Hr.
    by rewrite rev_involutive, rev_app_distr, rev_involutive in Hr.
  - intros [l ->]. exists (rev l). by rewrite rev_app_distr.
Qed.

Lemma find_if_Some f s i :
  find_if f s = Some i ↔
  ∃ c, s !! i = Some c ∧ f c = true ∧ ∀ j d, (j < i)%nat → s !! j = Some d → f d = false.
Proof.
  revert i; induction s as [|a s IH]; intros i; simpl.
  { split; [done|]. by intros (c & Hc & _). }
  destruct (f a) eqn:Ea.
  - split.
    + intros [= <-]. exists a. split_and!; [done..|]. intros; lia.
    + intros (c & Hc & Hf & Hj). destruct i as [|i]; [done|].
      specialize (Hj 0%nat a ltac:(lia) eq_refl). congruence.
  - destruct i as [|i]; simpl.
    + split; [by destruct (find_if f s)|]. intros (c & [= ->] & Hc & _). congruence.
    + rewrite fmap_Some. split.
      * intros (j & Hj & [= ->]). apply IH in Hj as (c & Hc & Hf & Hj).
        exists c. split_and!; [done..|]. intros [|k] d ?; simpl; [by intros [= <-]|].
        apply Hj; lia.
      * intros (c & Hc & Hf & Hj). exists i. split; [|done]. apply IH. exists c.
        split_and!; [done..|]. intros k d ? Hk. apply (Hj (S k)); [lia|done].
Qed.

Lemma find_if_None f s : find_if f s = None ↔ Forall (λ c, f c = false) s.
Proof.
  induction s as [|a s IH]; simpl; [by split|].
  destruct (f a) eqn:E; [split; [done|by inversion_clear 1; congruence]|].
  rewrite fmap_None, IH, Forall_cons. naive_solver.
Qed.

Lemma find_if_app f l c r :
  Forall (λ c, f c = false) l → f c = true → find_if f (l ++ c :: r) = Some (length l).
Proof.
  induction 1 as [|d l Hd Hl IH]; intros Hc; simpl; [by rewrite Hc|].
  by rewrite Hd, IH.
Qed.

Lemma rev_reverse {A} (l : list A) : rev l = reverse l.
Proof. apply rev_alt. Qed.

Lemma rev_lookup {A} (l : list A) i :
  (i < length l)%nat → rev l !! i = l !! (length l - S i)%nat.
Proof. intros. rewrite rev_reverse. by apply reverse_lookup. Qed.

(** The last element that satisfies [f]. *)
Lemma find_last_if_app f l c r :
  Forall (λ c, f c = false) r → f c = true → find_last_if f (l ++ c :: r) = Some (length l).
Proof.
  intros Hr Hc. unfold find_last_if. rewrite rev_app_distr. simpl. rewrite <- app_assoc.
  cbn [app]. rewrite find_if_app; [|by apply Forall_rev|done].
  cbn. f_equal. rewrite length_app, length_rev. simpl. lia.
Qed.

Lemma find_last_if_Some f s i :
  find_last_if f s = Some i →
  ∃ c, s !! i = Some c ∧ f c = true ∧ ∀ j d, (i < j)%nat → s !! j = Some d → f d = false.
Proof.
  unfold find_last_if. rewrite fmap_Some. intros (j & Hj & ->).
  apply find_if_Some in Hj as (c & Hc & Hf & Hj).
  pose proof (lookup_lt_Some _ _ _ Hc) as Hl. rewrite length_rev in Hl.
  exists c. rewrite rev_lookup in Hc by done. split_and!; [|done|].
  - rewrite <- Hc. f_equal. lia.
  - intros k d Hk Hd. pose proof (lookup_lt_Some _ _ _ Hd) as Hkl.
    apply (Hj (length s - S k)%nat); [lia|]. rewrite rev_lookup by lia.
    rewrite <- Hd. f_equal. lia.
Qed.

Lemma find_last_if_None f s : find_last_if f s = None ↔ Forall (λ c, f c = false) s.
Proof.
  unfold find_last_if. rewrite fmap_None, find_if_None. split; intros H.
  - rewrite <- (rev_involutive s). by apply Forall_rev.
  - by apply Forall_rev.
Qed.

(** ** Decimal numbers *)
Definition decimal_char (c : Z) : Prop := c = 45 ∨ 48 <= c <= 57.

Lemma pretty_N_char_digit x : (x < 10)%N → 48 <= Z.of_N (Ascii.N_of_ascii (pretty_N_char x)) <= 57.
Proof.
  intros Hx.
  assert (x = 0 ∨ x = 1 ∨ x = 2 ∨ x = 3 ∨ x = 4 ∨ x = 5 ∨ x = 6 ∨ x = 7 ∨ x = 8 ∨ x = 9)%N as H by lia.
  repeat destruct H as [->|H]; [by vm_compute..|]. subst x. by vm_compute.
Qed.

Lemma pretty_N_go_digits x s :
  Forall decimal_char (B s) → Forall decimal_char (B (pretty_N_go x s)).
Proof.
  revert s. induction (N.lt_wf_0 x) as [x _ IH]. intros s Hs.
  destruct (decide (x = 0)%N) as [->|]; [by rewrite pretty_N_go_0|].
  rewrite pretty_N_go_step by lia. apply IH; [apply N.div_lt; lia|].
  apply Forall_cons. split; [|done]. right. apply pretty_N_char_digit. apply N.mod_lt. lia.
Qed.

Lemma pretty_N_digits (x : N) : Forall decimal_char (B (pretty x)).
Proof.
  unfold pretty, pretty_N. destruct (decide _); [|by apply pretty_N_go_digits].
  apply Forall_cons. split; [right; by vm_compute|constructor].
Qed.

Lemma to_string_decimal z : Forall decimal_char (to_string z).
Proof.
  unfold to_string. destruct z as [|p|p].
  - apply (pretty_N_digits 0).
  - apply (pretty_N_digits (Npos p)).
  - apply Forall_cons. split; [by left|apply (pretty_N_digits (Npos p))].
Qed.

Lemma pretty_N_go_length (w : nat) x s :
  Z.of_N x < 10 ^ Z.of_nat w → (length (B (pretty_N_go x s)) <= w + length (B s))%nat.
Proof.
  revert x s. induction w as [|w IH]; intros x s Hx.
  - assert (x = 0%N) as -> by (change (10 ^ Z.of_nat 0) with 1 in Hx; lia). by rewrite pretty_N_go_0.
  - destruct (decide (x = 0)%N) as [->|]; [rewrite pretty_N_go_0; lia|].
    rewrite pretty_N_go_step by lia. rewrite Nat2Z.inj_succ, Z.pow_succ_r in Hx by lia.
    specialize (IH (x `div` 10)%N (String (pretty_N_char (x `mod` 10)) s)). cbn [B length] in IH.
    rewrite N2Z.inj_div in IH. change (Z.of_N 10) with 10 in IH. assert (Hd : Z.of_N x `div` 10 < 10 ^ Z.of_nat w) by (apply Z.div_lt_upper_bound; lia). specialize (IH Hd). simpl in IH. lia.
Qed.

(** A number below [10 ^ w] has at most [w] digits. *)
Lemma to_string_length (w : nat) z :
  0 <= z < 10 ^ Z.of_nat w → (1 <= w)%nat → (length (to_string z) <= w)%nat.
Proof.
  intros Hz Hw. unfold to_string. destruct z as [|p|p]; [change (length (B (pretty 0))) with 1%nat; lia| |lia].
  change (pretty (Z.pos p)) with (pretty (N.pos p)). unfold pretty, pretty_N.
  destruct (decide _); [done|].
  pose proof (pretty_N_go_length w (N.pos p) "" (proj2 Hz)) as H. change (length (B "")) with 0%nat in H. lia.
Qed.

(** ** Arithmetic of machine integers *)
Lemma u8_byte z : is_byte (u8 z).
Proof. unfold u8, is_byte. apply Z.mod_pos_bound. lia. Qed.

Lemma u8_small z : is_byte z → u8 z = z.
Proof. intros. by apply Z.mod_small. Qed.

Lemma i32_mod z k : 0 <= k <= 32 → i32 z mod 2 ^ k = z mod 2 ^ k.
Proof.
  intros Hk. unfold i32.
  assert (Hd : (2 ^ k | 2 ^ 32)).
  { exists (2 ^ (32 - k)). rewrite <- Z.pow_add_r by lia. f_equal. lia. }
  pose proof (Z.div_mod (z + 2 ^ 31) (2 ^ 32) ltac:(lia)) as E.
  replace ((z + 2 ^ 31) mod 2 ^ 32 - 2 ^ 31) with (z + (- ((z + 2 ^ 31) / 2 ^ 32)) * 2 ^ 32) by lia.
  destruct Hd as [q ->]. rewrite Z.mul_assoc. apply Z.mod_add. lia.
Qed.

Lemma i32_small z : - 2 ^ 31 <= z < 2 ^ 31 → i32 z = z.
Proof. intros. unfold i32. rewrite Z.mod_small by lia. lia. Qed.

(** The [w]-bit field of [z] at bit [k]. *)
Lemma field_bits z k w : 0 <= k → 0 <= w →
  Z.land (Z.shiftr z k) (Z.ones w) = (z / 2 ^ k) mod 2 ^ w.
Proof. intros. rewrite Z.land_ones, Z.shiftr_div_pow2 by lia. done. Qed.

Lemma div_mod_pow2 z k w : 0 <= k → 0 <= w →
  (z / 2 ^ k) mod 2 ^ w = (z mod 2 ^ (k + w)) / 2 ^ k.
Proof.
  intros. rewrite Z.pow_add_r by lia.
  rewrite Z.rem_mul_r by (apply Z.pow_nonzero || apply Z.pow_pos_nonneg; lia).
  rewrite (Z.mul_comm (2 ^ k)), Z.div_add by (apply Z.pow_nonzero; lia).
  rewrite (Z.div_small (z mod 2 ^ k)) by (apply Z.mod_pos_bound, Z.pow_pos_nonneg; lia).
  lia.
Qed.

(** ** Loops and groups *)

(** [for (int i = 0; i < hi; ++i)], with a body that may fail. *)
Fixpoint for_from {A} (body : Z → A → option A) (i : Z) (n : nat) (a : A) : option A :=
  match n with O => Some a | S n => a ← body i a; for_from body (i + 1) n a end.
Definition for_ {A} (hi : Z) (body : Z → A → option A) (a : A) : option A :=
  for_from body 0 (Z.to_nat hi) a.

(** An invariant of the counter and the state. *)
Lemma for_from_inv {A} (body : Z → A → option A) (J : Z → A → Prop) n : ∀ i a, J i a →
  (∀ j b, i <= j < i + Z.of_nat n → J j b → ∃ b', body j b = Some b' ∧ J (j + 1) b') →
  ∃ r, for_from body i n a = Some r ∧ J (i + Z.of_nat n) r.
Proof.
  induction n as [|n IH]; intros i a Ha H; [exists a; rewrite Z.add_0_r; by split|]. cbn [for_from].
  destruct (H i a ltac:(lia) Ha) as (b & -> & Hb). cbn [mbind option_bind].
  destruct (IH (i + 1) b Hb) as (r & -> & Hr); [intros j c Hj; apply H; lia|]. exists r. split; [done|].
  by replace (i + Z.of_nat (S n)) with (i + 1 + Z.of_nat n) by lia.
Qed.

(** Lists taken two, or three, elements at a time. *)
Lemma group2_ind {A} (P : list A → Prop) :
  P [] → (∀ a, P [a]) → (∀ a b r, P r → P (a :: b :: r)) → ∀ l, P l.
Proof.
  intros H0 H1 H2. assert (∀ l a, P l ∧ P (a :: l)) as H; [|intros l; destruct l as [|a l]; [done|apply H]].
  induction l as [|b l IH]; intros a; [by split|]. split; [apply IH|]. apply H2, IH. exact a.
Qed.

Lemma group3_ind {A} (P : list A → Prop) :
  P [] → (∀ a, P [a]) → (∀ a b, P [a; b]) → (∀ a b c r, P r → P (a :: b :: c :: r)) →
  ∀ l, P l.
Proof.
  intros H0 H1 H2 H3 l. remember (length l) as n eqn:Hn.
  revert l Hn. induction (lt_wf n) as [n _ IH]. intros l ->.
  destruct l as [|a [|b [|c r]]]; [done..|]. apply H3. eapply (IH (length r)); simpl; lia.
Qed.
