(* ===== verification/Doubles.v ===== *)
(** * IEEE doubles

    The [double]s of the code are [SpecFloat]'s binary64 with rounding to nearest
    even. The code computes with them on [int]s only: it scales by a quotient and
    cuts or rounds the fraction off. Here is what each of these operations returns,
    as inequalities between integers; a finite double [m * 2 ^ e] is compared with a
    quotient [A / d] after both are multiplied by [d] and a power of two. *)
From Stdlib Require Import SpecFloat.
From S2P Require Import Prelude.

Definition double := spec_float.
Definition of_int (z : Z) : double := binary_normalize 53 1024 z 0 false.
Definition ddiv : double → double → double := SFdiv 53 1024.
Definition dmul : double → double → double := SFmul 53 1024.
Definition dsub : double → double → double := SFsub 53 1024.
(** [std::min], which returns its first argument unless the second is smaller. *)
Definition dmin (a b : double) : double := if SFltb b a then b else a.

(** [static_cast<int>]: the fraction is cut off. *)
Definition to_int (x : double) : Z :=
  match x with
  | S754_finite s m e =>
    let v := if 0 <=? e then Zpos m * 2 ^ e else Zpos m / 2 ^ (- e) in if s then - v else v
  | _ => 0
  end.

(** [std::round]: to the nearest integer, halves away from zero. *)
Definition dround (x : double) : double :=
  match x with
  | S754_finite s m e =>
    if 0 <=? e then x else
    match (Zpos m + 2 ^ (- e - 1)) / 2 ^ (- e) with
    | Zpos v => of_int (if s then Zneg v else Zpos v)
    | _ => S754_zero s
    end
  | _ => x
  end.
(** [std::clamp]. *)
Definition dclamp (v lo hi : double) : double := if SFltb v lo then lo else if SFltb hi v then hi else v.

(** ** Rounding *)

Lemma digits_bounds z : 0 < z → 2 ^ (Zdigits2 z - 1) <= z < 2 ^ Zdigits2 z.
Proof.
  destruct z as [|p|p]; [done| |done]. intros _. cbn [Zdigits2].
  induction p as [p IH|p IH|]; cbn [digits2_pos]; [| |done];
    rewrite Pos2Z.inj_succ, Z.sub_succ_l, !Z.pow_succ_r by lia; lia.
Qed.
Lemma digits_pos z : 0 < z → 0 < Zdigits2 z.
Proof. by destruct z. Qed.
Lemma digits_unique z k : 0 < k → 2 ^ (k - 1) <= z < 2 ^ k → Zdigits2 z = k.
Proof.
  intros Hk [H1 H2]. assert (0 < z) as Hz by (pose proof (Z.pow_pos_nonneg 2 (k - 1)); lia).
  pose proof (digits_bounds z Hz) as [H3 H4]. pose proof (digits_pos z Hz).
  assert (Zdigits2 z - 1 < k) by (apply (Z.pow_lt_mono_r_iff 2); lia).
  assert (k - 1 < Zdigits2 z) by (apply (Z.pow_lt_mono_r_iff 2); lia). lia.
Qed.
Lemma digits_shift z n : 0 < z → 0 <= n → Zdigits2 (z * 2 ^ n) = Zdigits2 z + n.
Proof.
  intros Hz Hn. pose proof (digits_pos z Hz). pose proof (digits_bounds z Hz) as [H1 H2].
  apply digits_unique; [lia|]. replace (Zdigits2 z + n - 1) with (Zdigits2 z - 1 + n) by lia.
  rewrite !Z.pow_add_r by lia. pose proof (Z.pow_pos_nonneg 2 n). nia.
Qed.

(** A shift record stands for [A / d]: the quotient, whether half of [d] or more
    remains, and whether the remainder is neither nothing nor the half. *)
Definition represents (A d : Z) (r : shr_record) : Prop :=
  shr_m r = A / d ∧ shr_r r = (d <=? 2 * (A mod d)) ∧
  shr_s r = negb (A mod d =? 0) && negb (2 * (A mod d) =? d).

Lemma shr_1_spec m b s : 0 <= m → shr_1 {| shr_m := m; shr_r := b; shr_s := s |} = {| shr_m := m / 2; shr_r := m mod 2 =? 1; shr_s := b || s |}.
Proof.
  intros Hm. destruct m as [|p|p]; [done| |lia]. unfold shr_1. rewrite Zmod_odd. rewrite <- Z.div2_div. by destruct p.
Qed.

Lemma represents_shift A d r : 0 <= A → 0 < d → represents A d r → represents A (2 * d) (shr_1 r).
Proof.
  intros HA Hd (E1 & E2 & E3). destruct r as [m b s]; cbn in E1, E2, E3.
  pose proof (Z.mod_pos_bound A d Hd) as Hr. assert (0 <= m) as Hm by (rewrite E1; apply Z.div_pos; lia).
  rewrite shr_1_spec by done. unfold represents; cbn.
  assert (A / (2 * d) = m / 2) as -> by (rewrite Z.mul_comm, E1; symmetry; apply Z.div_div; lia).
  assert (A mod (2 * d) = m mod 2 * d + A mod d) as ->.
  { rewrite E1. rewrite (Z.mul_comm 2 d), Z.rem_mul_r by lia. lia. }
  assert (m mod 2 = 0 ∨ m mod 2 = 1) as Hm2 by (pose proof (Z.mod_pos_bound m 2); lia).
  split_and!; [done| |]; [destruct Hm2 as [-> | ->]|destruct Hm2 as [-> | ->]].
  - destruct (Z.leb_spec (2 * d) (2 * (0 * d + A mod d))); lia || done.
  - destruct (Z.leb_spec (2 * d) (2 * (1 * d + A mod d))); lia || done.
  - rewrite E2, E3, Z.mul_0_l, Z.add_0_l.
    destruct (Z.leb_spec d (2 * (A mod d))), (Z.eqb_spec (A mod d) 0), (Z.eqb_spec (2 * (A mod d)) d),
      (Z.eqb_spec (2 * (A mod d)) (2 * d)); lia || done.
  - rewrite E2, E3, Z.mul_1_l.
    destruct (Z.leb_spec d (2 * (A mod d))), (Z.eqb_spec (A mod d) 0), (Z.eqb_spec (2 * (A mod d)) d),
      (Z.eqb_spec (d + A mod d) 0), (Z.eqb_spec (2 * (d + A mod d)) (2 * d)); lia || done.
Qed.

Lemma represents_shr A d r e n : 0 <= A → 0 < d → 0 <= n → represents A d r →
  represents A (2 ^ n * d) (shr r e n).1 ∧ (shr r e n).2 = e + n.
Proof.
  intros HA Hd Hn Hr. destruct n as [|p|p]; [|cbn [shr fst snd]|done].
  { rewrite Z.pow_0_r, Z.mul_1_l. split; [done|cbn; lia]. }
  split; [|done]. revert d Hd r Hr. clear Hn. 
  assert (∀ q r, SpecFloat.iter_pos shr_1 q r = Nat.iter (Pos.to_nat q) shr_1 r) as E.
  { intros q. induction q as [q IH|q IH|]; intros r; cbn [SpecFloat.iter_pos]; rewrite ?IH.
    - rewrite Pos2Nat.inj_xI, <- Nat.iter_succ_r, <- Nat.iter_add. f_equal. lia.
    - rewrite Pos2Nat.inj_xO, <- Nat.iter_add. f_equal. lia.
    - done. }
  intros d Hd r Hr. rewrite E, <- (positive_nat_Z p). generalize (Pos.to_nat p) as k. intros k.
  induction k as [|k IH]; [by rewrite Z.pow_0_r, Z.mul_1_l|].
  rewrite Nat2Z.inj_succ, Z.pow_succ_r by lia. rewrite <- Z.mul_assoc. cbn [Nat.iter].
  apply represents_shift; [done|pose proof (Z.pow_pos_nonneg 2 (Z.of_nat k)); nia|done].
Qed.

(** The rounding of a shift record is a nearest integer. *)
Lemma round_near A d r : 0 <= A → 0 < d → represents A d r →
  2 * Z.abs (round_nearest_even (shr_m r) (loc_of_shr_record r) * d - A) <= d.
Proof.
  intros HA Hd (E1 & E2 & E3). pose proof (Z.div_mod A d ltac:(lia)) as E. pose proof (Z.mod_pos_bound A d Hd) as Hr.
  rewrite <- E1 in E. clear E1. destruct r as [m b s]; cbn in E, E2, E3. subst b s.
  destruct (Z.leb_spec d (2 * (A mod d))), (Z.eqb_spec (A mod d) 0), (Z.eqb_spec (2 * (A mod d)) d); cbn; try nia.
  destruct (Z.even m); nia.
Qed.
(** [binary_round_aux] on a quotient of at least 53 digits whose exponent is in the
    normal range: a 53-digit number at most half a unit away, renormalised when the
    rounding carries. *)
Lemma round_aux_spec s mx ex l A d n :
  0 < A → 0 < d → represents A d (shr_record_of_loc mx l) → n = Zdigits2 mx - 53 → 0 <= n → -1074 <= ex + n → ex + n < 971 →
  ∃ m j, binary_round_aux 53 1024 s mx ex l = S754_finite s m (ex + j) ∧ n <= j <= n + 1 ∧
    2 ^ 52 <= Zpos m < 2 ^ 53 ∧ 2 * Z.abs (Zpos m * 2 ^ j * d - A) <= 2 ^ n * d.
Proof.
  intros HA Hd Hr En Hn H1 H2. unfold binary_round_aux, shr_fexp at 1.
  assert (fexp 53 1024 (Zdigits2 mx + ex) - ex = n) as -> by (unfold fexp, emin; lia).
  pose proof (Z.pow_pos_nonneg 2 n ltac:(lia) Hn) as Hp.
  assert (mx = A / d) as Em by (destruct Hr as [Hm _]; rewrite <- Hm; by destruct l as [|[]]).
  assert (0 < mx) as Hmx by (destruct mx; cbn in *; lia || (exfalso; pose proof (Z.div_pos A d); lia)).
  pose proof (digits_bounds mx Hmx) as Hdig. replace (Zdigits2 mx) with (53 + n) in Hdig by lia.
  replace (53 + n - 1) with (52 + n) in Hdig by lia. rewrite !Z.pow_add_r in Hdig by lia.
  destruct (represents_shr A d _ ex n ltac:(lia) Hd Hn Hr) as [Hr' He].
  destruct (shr _ ex n) as [r e']; cbn [fst snd] in Hr', He. subst e'.
  pose proof (round_near A (2 ^ n * d) r ltac:(lia) ltac:(nia) Hr') as Hnear.
  assert (shr_m r = mx / 2 ^ n) as Er.
  { destruct Hr' as [-> _]. rewrite Em, Z.div_div by lia. f_equal. lia. }
  assert (2 ^ 52 <= shr_m r < 2 ^ 53) as Hrange.
  { rewrite Er. split; [apply Z.div_le_lower_bound; lia|apply Z.div_lt_upper_bound; lia]. }
  assert (shr_m r <= round_nearest_even (shr_m r) (loc_of_shr_record r) <= shr_m r + 1) as HM.
  { unfold round_nearest_even. destruct (loc_of_shr_record r) as [|[]]; try lia. destruct (Z.even _); lia. }
  revert Hnear HM. generalize (round_nearest_even (shr_m r) (loc_of_shr_record r)) as M. intros M Hnear HM.
  unfold shr_fexp, shr_record_of_loc.
  destruct (Z.eq_dec M (2 ^ 53)) as [->|Hne].
  - change (Zdigits2 (2 ^ 53)) with 54. replace (fexp 53 1024 (54 + (ex + n)) - (ex + n)) with 1 by (unfold fexp, emin; lia).
    cbn [shr SpecFloat.iter_pos]. change (shr_m (shr_1 {| shr_m := 2 ^ 53; shr_r := false; shr_s := false |})) with (Zpos (2 ^ 52)).
    cbn [fst snd]. rewrite (proj2 (Z.leb_le _ _)) by lia. exists (2 ^ 52)%positive, (n + 1).
    split; [f_equal; lia|]. split; [lia|]. split; [lia|]. rewrite Z.pow_add_r by lia. revert Hnear. 
    replace (Zpos (2 ^ 52) * (2 ^ n * 2 ^ 1) * d) with (2 ^ 53 * (2 ^ n * d)) by (change (Zpos (2^52)) with (2^52); lia). lia.
  - assert (Zdigits2 M = 53) as -> by (apply digits_unique; lia).
    replace (fexp 53 1024 (53 + (ex + n)) - (ex + n)) with 0 by (unfold fexp, emin; lia). cbn [shr shr_m].
    destruct M as [|m|m]; [lia| |lia]. rewrite (proj2 (Z.leb_le _ _)) by lia. exists m, n.
    split; [done|]. split; [lia|]. split; [lia|]. rewrite <- Z.mul_assoc. exact Hnear.
Qed.
(** ** Integers *)

(** The double of a small integer, in canonical form. *)
Definition mantissa (z : Z) : Z := Z.abs z * 2 ^ (53 - Zdigits2 (Z.abs z)).
Definition small_int (z : Z) : Prop := z ≠ 0 ∧ Z.abs z < 2 ^ 53.
Definition exactly (z : Z) (x : double) : Prop :=
  x = S754_finite (z <? 0) (Z.to_pos (mantissa z)) (Zdigits2 (Z.abs z) - 53).

Lemma digits_small z : small_int z → 1 <= Zdigits2 (Z.abs z) <= 53.
Proof.
  intros [H1 H2]. pose proof (digits_pos (Z.abs z) ltac:(lia)). pose proof (digits_bounds (Z.abs z) ltac:(lia)) as [H3 _].
  assert (Zdigits2 (Z.abs z) - 1 < 53); [|lia]. apply (Z.pow_lt_mono_r_iff 2); lia.
Qed.
Lemma mantissa_bounds z : small_int z → 2 ^ 52 <= mantissa z < 2 ^ 53.
Proof.
  intros Hz. pose proof (digits_small z Hz). destruct Hz as [Hz _]. pose proof (digits_bounds (Z.abs z) ltac:(lia)) as H1.
  pose proof (Z.pow_pos_nonneg 2 (53 - Zdigits2 (Z.abs z)) ltac:(lia) ltac:(lia)). unfold mantissa.
  change (2 ^ 52) with (2 ^ (53 - 1)). replace (53 - 1) with (Zdigits2 (Z.abs z) - 1 + (53 - Zdigits2 (Z.abs z))) by lia.
  replace (2 ^ 53) with (2 ^ Zdigits2 (Z.abs z) * 2 ^ (53 - Zdigits2 (Z.abs z))) by (rewrite <- Z.pow_add_r by lia; f_equal; lia).
  rewrite Z.pow_add_r by lia. nia.
Qed.

(** Rounding a small integer that was scaled by a power of two undoes the scaling. *)
Lemma round_aux_exact s z t : small_int z → 0 <= t → 53 <= Zdigits2 (Z.abs z) + t → t <= 1000 →
  binary_round_aux 53 1024 s (Z.abs z * 2 ^ t) (- t) loc_Exact =
  S754_finite s (Z.to_pos (mantissa z)) (Zdigits2 (Z.abs z) - 53).
Proof.
  intros Hz Ht Hd Ht2. pose proof (digits_small z Hz) as Hdz. pose proof (mantissa_bounds z Hz) as Hm.
  set (A := Z.abs z * 2 ^ t). pose proof (Z.pow_pos_nonneg 2 t ltac:(lia) Ht) as Hp. assert (0 < A) as HA by (destruct Hz; apply Z.mul_pos_pos; lia).
  assert (Zdigits2 A = Zdigits2 (Z.abs z) + t) as Ed by (apply digits_shift; destruct Hz; lia).
  set (n := Zdigits2 A - 53). destruct (round_aux_spec s A (- t) loc_Exact A 1 n) as (m & j & -> & Hj & Hm2 & Herr).
  { done. } { lia. } { unfold represents; cbn. rewrite Z.div_1_r, Z.mod_1_r. done. } { done. } { lia. } { lia. } { lia. }
  assert (A = mantissa z * 2 ^ n) as EA.
  { subst A n. unfold mantissa. rewrite <- Z.mul_assoc, <- Z.pow_add_r by lia. do 2 f_equal. lia. }
  assert (Zpos m * 2 ^ j = A) as Em.
  { assert (2 ^ j = 2 ^ (j - n) * 2 ^ n) as Ej by (rewrite <- Z.pow_add_r by lia; f_equal; lia).
    pose proof (Z.pow_pos_nonneg 2 n ltac:(lia) ltac:(lia)). rewrite EA, Ej in Herr. rewrite EA, Ej.
    rewrite Z.mul_1_r, Z.mul_1_r, Z.mul_assoc, <- Z.mul_sub_distr_r, Z.abs_mul, (Z.abs_eq (2 ^ n)), Z.mul_assoc in Herr by lia.
    rewrite Z.mul_assoc. f_equal. nia. }
  assert (j = n) as ->.
  { destruct (Z.eq_dec j n); [done|]. assert (j = n + 1) as -> by lia. rewrite EA, Z.pow_add_r in Em by lia.
    pose proof (Z.pow_pos_nonneg 2 n ltac:(lia) ltac:(lia)). nia. }
  assert (Zpos m = mantissa z) as <- by (pose proof (Z.pow_pos_nonneg 2 n ltac:(lia) ltac:(lia)); rewrite EA in Em; nia).
  f_equal. lia.
Qed.
Lemma iter_xO p k : Zpos (Pos.iter xO p k) = Zpos p * 2 ^ Zpos k.
Proof.
  rewrite Pos2Nat.inj_iter, <- (positive_nat_Z k). generalize (Pos.to_nat k) as n. intros n. induction n as [|n IH]; [change (2 ^ Z.of_nat 0) with 1; by rewrite Z.mul_1_r|].
  cbn [nat_rect]. rewrite Nat2Z.inj_succ, Z.pow_succ_r by lia. revert IH. generalize (nat_rect _ p (λ _, xO) n) as q. intros q IH.
  rewrite Z.mul_assoc, (Z.mul_comm (Zpos p)), <- Z.mul_assoc, <- IH. lia.
Qed.

Lemma normalize_exact z t : small_int z → 0 <= t <= 900 → exactly z (binary_normalize 53 1024 (z * 2 ^ t) (- t) false).
Proof.
  intros Hz Ht. pose proof (digits_small z Hz) as Hd. pose proof (Z.pow_pos_nonneg 2 t ltac:(lia) ltac:(lia)) as Hp.
  assert (∀ s p, Zpos p = Z.abs z * 2 ^ t →
    binary_round 53 1024 s p (- t) = S754_finite s (Z.to_pos (mantissa z)) (Zdigits2 (Z.abs z) - 53)) as H.
  { intros s p Ep. unfold binary_round. change (Zpos (digits2_pos p)) with (Zdigits2 (Zpos p)).
    rewrite Ep, digits_shift by (destruct Hz; lia). replace (fexp 53 1024 _) with (Zdigits2 (Z.abs z) - 53) by (unfold fexp, emin; lia).
    unfold shl_align. destruct (Zdigits2 (Z.abs z) - 53 - - t) as [|q|q] eqn:E.
    - rewrite Ep. apply round_aux_exact; [done|lia..].
    - rewrite Ep. apply round_aux_exact; [done|lia..].
    - rewrite iter_xO, Ep, <- Z.mul_assoc, <- Z.pow_add_r by lia.
      replace (Zdigits2 (Z.abs z) - 53) with (- (t + Zpos q)) at 1 by lia. apply round_aux_exact; [done|lia..]. }
  unfold exactly. destruct (z * 2 ^ t) as [|p|p] eqn:E; cbn [binary_normalize].
  - destruct Hz; nia.
  - rewrite (H _ p) by (rewrite <- E; nia). f_equal. symmetry. apply Z.ltb_ge. nia.
  - rewrite (H _ p) by nia. f_equal. symmetry. apply Z.ltb_lt. nia.
Qed.

Lemma of_int_exact z : small_int z → exactly z (of_int z).
Proof. intros Hz. pose proof (normalize_exact z 0 Hz ltac:(lia)) as H. by rewrite Z.pow_0_r, Z.mul_1_r in H. Qed.
Lemma exactly_of_int z x : small_int z → exactly z x → x = of_int z.
Proof. intros Hz ->. symmetry. by apply of_int_exact. Qed.
Lemma mantissa_pos z : small_int z → Zpos (Z.to_pos (mantissa z)) = mantissa z.
Proof. intros Hz. pose proof (mantissa_bounds z Hz). lia. Qed.

(** Products and differences that fit are exact. *)
Lemma dmul_exact a b : small_int a → small_int b → small_int (a * b) → dmul (of_int a) (of_int b) = of_int (a * b).
Proof.
  intros Ha Hb Hab. apply exactly_of_int; [done|]. unfold dmul. rewrite (of_int_exact a Ha), (of_int_exact b Hb). cbn [SFmul].
  pose proof (digits_small a Ha). pose proof (digits_small b Hb). pose proof (digits_small _ Hab).
  rewrite Pos2Z.inj_mul, !mantissa_pos by done. set (da := Zdigits2 (Z.abs a)) in *. set (db := Zdigits2 (Z.abs b)) in *.
  assert (mantissa a * mantissa b = Z.abs (a * b) * 2 ^ (53 - da + (53 - db))) as ->.
  { unfold mantissa. fold da db. rewrite Z.abs_mul, Z.pow_add_r by lia. lia. }
  replace (da - 53 + (db - 53)) with (- (53 - da + (53 - db))) by lia.
  assert (da + db - 1 <= Zdigits2 (Z.abs (a * b))) as Hd.
  { destruct Ha as [Ha _], Hb as [Hb _]. pose proof (digits_bounds (Z.abs a) ltac:(lia)) as [H2 _].
    pose proof (digits_bounds (Z.abs b) ltac:(lia)) as [H3 _]. pose proof (digits_bounds (Z.abs (a * b)) ltac:(lia)) as [_ H4].
    assert (da + db - 2 < Zdigits2 (Z.abs (a * b))); [|lia]. apply (Z.pow_lt_mono_r_iff 2); [lia..|].
    replace (da + db - 2) with (da - 1 + (db - 1)) by lia. rewrite Z.pow_add_r, Z.abs_mul in * by lia.
    fold da in H2. fold db in H3. pose proof (Z.pow_pos_nonneg 2 (da - 1)). pose proof (Z.pow_pos_nonneg 2 (db - 1)). nia. }
  rewrite round_aux_exact by (done || lia). unfold exactly. f_equal.
  destruct Ha as [Ha _], Hb as [Hb _]. destruct (Z.ltb_spec a 0), (Z.ltb_spec b 0), (Z.ltb_spec (a * b) 0); cbn; nia.
Qed.
Lemma mantissa_align z t : small_int z → 53 - Zdigits2 (Z.abs z) <= t →
  cond_Zopp (z <? 0) (Zpos (shl_align (Z.to_pos (mantissa z)) (Zdigits2 (Z.abs z) - 53) (- t)).1) = z * 2 ^ t.
Proof.
  intros Hz Ht. pose proof (digits_small z Hz) as Hd. unfold shl_align.
  assert (Zpos (match - t - (Zdigits2 (Z.abs z) - 53) with
    | Zneg d => (Pos.iter xO (Z.to_pos (mantissa z)) d, - t) | _ => (Z.to_pos (mantissa z), Zdigits2 (Z.abs z) - 53) end).1 = Z.abs z * 2 ^ t) as ->.
  { destruct (- t - (Zdigits2 (Z.abs z) - 53)) as [|q|q] eqn:E; cbn [fst]; [|lia|rewrite iter_xO];
      rewrite mantissa_pos by done; unfold mantissa; [do 2 f_equal; lia|].
    rewrite <- Z.mul_assoc, <- Z.pow_add_r by lia. do 2 f_equal. lia. }
  unfold cond_Zopp. destruct (Z.ltb_spec z 0); lia.
Qed.

Lemma of_int_opp z : small_int z → of_int (- z) = SFopp (of_int z).
Proof.
  intros Hz. assert (small_int (- z)) as Hz' by (destruct Hz; split; lia).
  rewrite (of_int_exact z Hz), (of_int_exact (- z) Hz'). unfold mantissa. rewrite Z.abs_opp. cbn. f_equal.
  destruct Hz, (Z.ltb_spec (- z) 0), (Z.ltb_spec z 0); cbn; lia.
Qed.

Lemma dsub_exact a b : Z.abs a < 2 ^ 53 → Z.abs b < 2 ^ 53 → Z.abs (a - b) < 2 ^ 53 → dsub (of_int a) (of_int b) = of_int (a - b).
Proof.
  intros Ha Hb Hab. destruct (Z.eq_dec a 0) as [->|Ea], (Z.eq_dec b 0) as [->|Eb].
  - done.
  - rewrite Z.sub_0_l, of_int_opp by done. rewrite (of_int_exact b) by done. done.
  - rewrite Z.sub_0_r. rewrite (of_int_exact a) by done. done.
  - assert (small_int a) as Sa by done. assert (small_int b) as Sb by done.
    pose proof (digits_small a Sa). pose proof (digits_small b Sb). unfold dsub. rewrite (of_int_exact a Sa), (of_int_exact b Sb). cbn [SFsub].
    set (t := Z.max (53 - Zdigits2 (Z.abs a)) (53 - Zdigits2 (Z.abs b))).
    replace (Z.min (Zdigits2 (Z.abs a) - 53) (Zdigits2 (Z.abs b) - 53)) with (- t) by lia.
    rewrite !mantissa_align by (done || lia). rewrite <- Z.mul_sub_distr_r.
    destruct (Z.eq_dec (a - b) 0) as [->|Eab]; [done|].
    apply exactly_of_int; [done|]. apply normalize_exact; [done|lia].
Qed.

(** ** Positive numbers *)

(** A double [m / 2 ^ k] with all its digits, in the range of the quotients and
    products of [int]s. *)
Definition fraction (x : double) (m k : Z) : Prop :=
  2 ^ 52 <= m < 2 ^ 53 ∧ -900 <= k <= 900 ∧ x = S754_finite false (Z.to_pos m) (- k).

Lemma fraction_of_int z : 0 < z < 2 ^ 53 → ∃ k, fraction (of_int z) (z * 2 ^ k) k ∧ 0 <= k <= 52.
Proof.
  intros Hz. assert (small_int z) as Sz by (split; lia). exists (53 - Zdigits2 z).
  pose proof (mantissa_bounds z Sz) as Hm. pose proof (digits_small z Sz). pose proof (of_int_exact z Sz) as E.
  unfold exactly, mantissa in *. rewrite Z.abs_eq in * by lia. split; [|lia]. split; [done|]. split; [lia|].
  rewrite E. f_equal; [|lia]. apply Z.ltb_ge. lia.
Qed.

Lemma new_location_spec A d : 0 < d → represents A d (shr_record_of_loc (A / d) (new_location d (A mod d))).
Proof.
  intros Hd. pose proof (Z.mod_pos_bound A d Hd). unfold represents, new_location, new_location_even, new_location_odd.
  assert (Z.even d = true ∧ d mod 2 = 0 ∨ Z.even d = false ∧ d mod 2 = 1) as Ed.
  { rewrite Zmod_even. destruct (Z.even d); [left|right]; done. }
  pose proof (Z.div_mod d 2 ltac:(lia)). destruct Ed as [[-> Ed] | [-> Ed]]; cbv beta;
    (destruct (Z.eqb_spec (A mod d) 0) as [->|]; [by rewrite Z.mul_0_r, (proj2 (Z.leb_gt d 0)) by done|]);
    [destruct (Z.compare_spec (2 * (A mod d)) d)|destruct (Z.compare_spec (2 * (A mod d) + 1) d)]; cbn [shr_record_of_loc shr_m shr_r shr_s];
    destruct (Z.leb_spec d (2 * (A mod d))), (Z.eqb_spec (2 * (A mod d)) d); lia || done.
Qed.

(** A quotient of [int]s is at most half a unit of its last place away. *)
Lemma ddiv_near a b : 0 < a < 2 ^ 50 → 0 < b < 2 ^ 50 →
  ∃ m k, fraction (ddiv (of_int a) (of_int b)) m k ∧ 2 * Z.abs (m * b - a * 2 ^ k) <= b ∧ 1 <= k.
Proof.
  intros Ha Hb. destruct (fraction_of_int a) as (ka & (Hma & _ & ->) & Hka); [lia|].
  destruct (fraction_of_int b) as (kb & (Hmb & _ & ->) & Hkb); [lia|].
  assert (3 <= ka). { destruct (Z.le_gt_cases 3 ka); [done|]. assert (2 ^ ka <= 2 ^ 2) by (apply Z.pow_le_mono_r; lia). nia. }
  assert (3 <= kb). { destruct (Z.le_gt_cases 3 kb); [done|]. assert (2 ^ kb <= 2 ^ 2) by (apply Z.pow_le_mono_r; lia). nia. }
  set (ma := a * 2 ^ ka) in *. set (mb := b * 2 ^ kb) in *. unfold ddiv. cbn [SFdiv xorb]. unfold SFdiv_core_binary.
  rewrite !Z2Pos.id by lia. rewrite (digits_unique ma 53), (digits_unique mb 53) by lia.
  replace (Z.min _ _) with (kb - ka - 53) by (unfold fexp, emin; lia).
  replace (- ka - - kb - (kb - ka - 53)) with 53 by lia. rewrite Z.shiftl_mul_pow2 by lia.
  set (A := ma * 2 ^ 53).
  assert (0 < A) as HA by lia. pose proof (new_location_spec A mb ltac:(lia)) as Hrep.
  unfold Z.div, Z.modulo in Hrep. assert (2 ^ 52 <= A / mb < 2 ^ 54) as Hq.
  { split; [apply Z.div_le_lower_bound; lia|apply Z.div_lt_upper_bound; lia]. }
  unfold Z.div in Hq. destruct (Z.div_eucl A mb) as [q r].
  assert (Zdigits2 q = 53 ∨ Zdigits2 q = 54) as Hdq.
  { destruct (Z.lt_ge_cases q (2 ^ 53)); [left|right]; apply digits_unique; lia. }
  destruct (round_aux_spec false q (kb - ka - 53) _ A mb (Zdigits2 q - 53) HA ltac:(lia) Hrep) as (m & j & -> & Hj & Hm & Herr); [lia..|].
  set (n := Zdigits2 q - 53) in *. exists (Zpos m), (ka - kb + 53 - j). split; [split; [done|]; split; [lia|]; f_equal; lia|].
  split; [|lia]. set (k := ka - kb + 53 - j) in *.
  assert (A = a * 2 ^ k * 2 ^ (kb + j)) as EA.
  { subst A ma. rewrite <- !Z.mul_assoc, <- !Z.pow_add_r by lia. do 2 f_equal. lia. }
  assert (Zpos m * 2 ^ j * mb = Zpos m * b * 2 ^ (kb + j)) as Em by (subst mb; rewrite Z.pow_add_r by lia; lia).
  assert (2 ^ n * mb <= b * 2 ^ (kb + j)) as Hb2.
  { subst mb. replace (2 ^ n * (b * 2 ^ kb)) with (b * 2 ^ (kb + n)) by (rewrite Z.pow_add_r by lia; lia).
    apply Z.mul_le_mono_nonneg_l; [lia|]. apply Z.pow_le_mono_r; lia. }
  rewrite Em, EA, <- Z.mul_sub_distr_r, Z.abs_mul in Herr. pose proof (Z.pow_pos_nonneg 2 (kb + j) ltac:(lia) ltac:(lia)).
  rewrite (Z.abs_eq (2 ^ _)) in Herr by lia. apply (Z.mul_le_mono_pos_r _ _ (2 ^ (kb + j))); lia.
Qed.
Lemma dmul_near w x m k : 0 < w < 2 ^ 50 → fraction x m k → -800 <= k →
  ∃ m' p, fraction (dmul (of_int w) x) m' (k - p) ∧ 0 <= p <= 54 ∧ 2 * Z.abs (m' * 2 ^ p - w * m) <= 2 ^ p.
Proof.
  intros Hw (Hm & Hk & ->) Hk2. destruct (fraction_of_int w) as (kw & (Hmw & _ & ->) & Hkw); [lia|].
  set (mw := w * 2 ^ kw) in *. unfold dmul. cbn [SFmul xorb]. rewrite Pos2Z.inj_mul, !Z2Pos.id by lia.
  assert (2 ^ 104 <= mw * m < 2 ^ 106) as HA by nia.
  assert (Zdigits2 (mw * m) = 105 ∨ Zdigits2 (mw * m) = 106) as Hd.
  { destruct (Z.lt_ge_cases (mw * m) (2 ^ 105)); [left|right]; apply digits_unique; lia. }
  destruct (round_aux_spec false (mw * m) (- kw + - k) loc_Exact (mw * m) 1 (Zdigits2 (mw * m) - 53)) as (m' & j & -> & Hj & Hm' & Herr);
    [lia|lia|unfold represents; cbn; by rewrite Z.div_1_r, Z.mod_1_r|lia..|].
  set (n := Zdigits2 (mw * m) - 53) in *. exists (Zpos m'), (j - kw). split; [split; [done|]; split; [lia|]; f_equal; lia|].
  split; [lia|]. rewrite !Z.mul_1_r in Herr.
  replace (mw * m) with (w * m * 2 ^ kw) in Herr by (subst mw; lia).
  assert (2 ^ j = 2 ^ (j - kw) * 2 ^ kw) as Ej by (rewrite <- Z.pow_add_r by lia; f_equal; lia).
  assert (2 ^ n <= 2 ^ j) as Hnj by (apply Z.pow_le_mono_r; lia). rewrite Ej in *.
  rewrite Z.mul_assoc, <- Z.mul_sub_distr_r, Z.abs_mul in Herr. pose proof (Z.pow_pos_nonneg 2 kw ltac:(lia) ltac:(lia)).
  rewrite (Z.abs_eq (2 ^ _)) in Herr by lia. apply (Z.mul_le_mono_pos_r _ _ (2 ^ kw)); lia.
Qed.

Lemma to_int_fraction x m k : fraction x m k → 0 <= k → to_int x = m / 2 ^ k.
Proof.
  intros (Hm & _ & ->) Hk. unfold to_int. rewrite Z2Pos.id, Z.opp_involutive by lia.
  destruct (Z.leb_spec 0 (- k)); [|done]. assert (k = 0) as -> by lia. cbn. by rewrite Z.div_1_r, Z.mul_1_r.
Qed.

(** An [int] times a fraction, cut off: within a millionth of the exact product, and
    less than one below it. *)
Lemma scale_bounds w x m k : 0 < w < 2 ^ 31 → fraction x m k → 1 <= k → w * m <= 2 ^ 31 * 2 ^ k →
  let t := to_int (dmul (of_int w) x) in
  0 <= t ∧ 2 ^ 20 * (t * 2 ^ k - w * m) <= 2 ^ k ∧ 2 ^ 20 * (w * m - t * 2 ^ k) <= (2 ^ 20 + 1) * 2 ^ k.
Proof.
  intros Hw Hx Hk Hval. destruct (dmul_near w x m k) as (m' & p & Hf & Hp & Herr); [lia|done|lia|].
  pose proof (Z.pow_pos_nonneg 2 p ltac:(lia) ltac:(lia)) as Hp0. pose proof (Z.pow_pos_nonneg 2 k ltac:(lia) ltac:(lia)) as Hk0.
  pose proof Hf as (Hm' & _ & _).
  assert (2 ^ p * 2 ^ 21 <= 2 ^ k) as Hpk.
  { destruct (Z.le_gt_cases (2 ^ p * 2 ^ 21) (2 ^ k)) as [|Hlt]; [done|exfalso].
    rewrite <- Z.pow_add_r in Hlt by lia. apply Z.pow_lt_mono_r_iff in Hlt; [|lia..].
    assert (2 ^ k <= 2 ^ p * 2 ^ 20) by (rewrite <- Z.pow_add_r by lia; apply Z.pow_le_mono_r; lia). nia. }
  assert (p + 21 <= k) as Hpk2 by (rewrite <- Z.pow_add_r in Hpk by lia; apply Z.pow_le_mono_r_iff in Hpk; lia).
  rewrite (to_int_fraction _ _ _ Hf) by lia. cbv zeta. set (t := m' / 2 ^ (k - p)).
  pose proof (Z.pow_pos_nonneg 2 (k - p) ltac:(lia) ltac:(lia)) as Hkp.
  pose proof (Z.div_mod m' (2 ^ (k - p)) ltac:(lia)) as Hdm. pose proof (Z.mod_pos_bound m' (2 ^ (k - p)) Hkp) as Hmod. fold t in Hdm.
  assert (0 <= t) as Ht by (apply Z.div_pos; lia).
  assert (2 ^ k = 2 ^ (k - p) * 2 ^ p) as Ek by (rewrite <- Z.pow_add_r by lia; f_equal; lia).
  split; [done|]. rewrite Ek in *. generalize dependent (m' mod 2 ^ (k - p)). intros r Hdm Hr.
  generalize dependent (2 ^ (k - p)). intros K. intros. generalize dependent (2 ^ p). intros P. intros. split; nia.
Qed.

Lemma SFltb_fraction x y mx kx my ky : fraction x mx kx → fraction y my ky → 0 <= kx → 0 <= ky →
  SFltb x y = (mx * 2 ^ ky <? my * 2 ^ kx).
Proof.
  intros (Hmx & _ & ->) (Hmy & _ & ->) Hkx Hky.
  assert (∀ a b i j, 2 ^ 52 <= a < 2 ^ 53 → 2 ^ 52 <= b < 2 ^ 53 → 0 <= i → i < j → b * 2 ^ i < a * 2 ^ j) as Hord.
  { intros a b i j Ha Hb Hi Hij. replace j with (i + 1 + (j - i - 1)) by lia. rewrite !Z.pow_add_r by lia.
    pose proof (Z.pow_pos_nonneg 2 (j - i - 1) ltac:(lia) ltac:(lia)). pose proof (Z.pow_pos_nonneg 2 i ltac:(lia) Hi).
    assert (b < a * (2 ^ 1 * 2 ^ (j - i - 1))) by nia. nia. }
  pose proof (Z.pow_pos_nonneg 2 kx ltac:(lia) ltac:(lia)). unfold SFltb. cbn [SFcompare]. change (Pos.compare_cont Eq) with Pos.compare.
  destruct (Z.compare_spec (- kx) (- ky)).
  - assert (ky = kx) as -> by lia. destruct (Pos.compare_spec (Z.to_pos mx) (Z.to_pos my)); symmetry; [apply Z.ltb_ge|apply Z.ltb_lt|apply Z.ltb_ge]; nia.
  - symmetry. apply Z.ltb_lt, Hord; lia.
  - symmetry. apply Z.ltb_ge, Z.lt_le_incl, Hord; lia.
Qed.

(** [std::min] of two fractions. *)
Lemma dmin_spec x y mx kx my ky : fraction x mx kx → fraction y my ky → 0 <= kx → 0 <= ky →
  ∃ m k, fraction (dmin x y) m k ∧ ((m = mx ∧ k = kx) ∨ (m = my ∧ k = ky)) ∧ m * 2 ^ kx <= mx * 2 ^ k ∧ m * 2 ^ ky <= my * 2 ^ k.
Proof.
  intros Hx Hy Hkx Hky. unfold dmin. rewrite (SFltb_fraction y x my ky mx kx) by done.
  destruct (Z.ltb_spec (my * 2 ^ kx) (mx * 2 ^ ky)); [exists my, ky|exists mx, kx]; split_and!; auto; lia.
Qed.

(** ** Rounding to an integer *)

Lemma to_int_of_int z : 0 < z < 2 ^ 53 → to_int (of_int z) = z.
Proof.
  intros Hz. destruct (fraction_of_int z Hz) as (k & Hf & Hk). rewrite (to_int_fraction _ _ _ Hf) by lia. apply Z.div_mul.
  pose proof (Z.pow_pos_nonneg 2 k ltac:(lia) ltac:(lia)). lia.
Qed.

Lemma round_aux_opp s mx ex l : binary_round_aux 53 1024 (negb s) mx ex l = SFopp (binary_round_aux 53 1024 s mx ex l).
Proof.
  unfold binary_round_aux. destruct (shr_fexp 53 1024 mx ex l) as [r e]. destruct (shr_fexp _ _ _ _ _) as [r' e'].
  destruct (shr_m r') as [|p|p]; [done| |done]. by destruct (Z.leb e' _).
Qed.
Lemma SFopp_opp x : SFopp (SFopp x) = x.
Proof. destruct x as [[]|[]| |[]]; done. Qed.
Lemma ddiv_opp x y : ddiv (SFopp x) y = SFopp (ddiv x y).
Proof.
  destruct x as [s|s| |s m e], y as [s'|s'| |s' m' e']; cbn; rewrite ?negb_xorb_l; try done.
  - unfold ddiv. cbn [SFopp SFdiv]. destruct (SFdiv_core_binary 53 1024 (Zpos m) e (Zpos m') e') as [[q e''] l]. rewrite <- negb_xorb_l. apply round_aux_opp.
Qed.

(** A fraction rounds to the nearest integer, and its opposite to the opposite. *)
Lemma dround_fraction x m k : fraction x m k → 1 <= k → let r := (m + 2 ^ (k - 1)) / 2 ^ k in
  0 <= r < 2 ^ 53 ∧
  ∀ s : bool, dround (if s then SFopp x else x) = if r =? 0 then S754_zero s else of_int (if s then - r else r).
Proof.
  intros (Hm & _ & ->) Hk r. pose proof (Z.pow_pos_nonneg 2 (k - 1) ltac:(lia) ltac:(lia)) as Hp.
  assert (2 ^ k = 2 * 2 ^ (k - 1)) as Ek by (rewrite <- Z.pow_succ_r by lia; f_equal; lia).
  assert (0 <= r < 2 ^ 53) as Hr by (subst r; split; [apply Z.div_pos; lia|apply Z.div_lt_upper_bound; lia]).
  split; [done|]. intros s.
  assert (dround (if s then SFopp (S754_finite false (Z.to_pos m) (- k)) else S754_finite false (Z.to_pos m) (- k)) =
    dround (S754_finite s (Z.to_pos m) (- k))) as -> by (by destruct s).
  unfold dround. rewrite Z2Pos.id, Z.opp_involutive by lia. rewrite (proj2 (Z.leb_gt 0 (- k))) by lia. fold r.
  destruct r as [|p|p]; [done| |lia]. by destruct s.
Qed.

Lemma of_int_pos_ltb a b : 0 < a < 2 ^ 53 → 0 < b < 2 ^ 53 → SFltb (of_int a) (of_int b) = (a <? b).
Proof.
  intros Ha Hb. destruct (fraction_of_int a Ha) as (ka & Hfa & Hka), (fraction_of_int b Hb) as (kb & Hfb & Hkb).
  rewrite (SFltb_fraction _ _ _ _ _ _ Hfa Hfb) by lia.
  pose proof (Z.pow_pos_nonneg 2 ka ltac:(lia) ltac:(lia)). pose proof (Z.pow_pos_nonneg 2 kb ltac:(lia) ltac:(lia)).
  replace (b * 2 ^ kb * 2 ^ ka) with (b * (2 ^ ka * 2 ^ kb)) by lia. rewrite <- (Z.mul_assoc a).
  destruct (Z.ltb_spec a b); [apply Z.ltb_lt|apply Z.ltb_ge]; nia.
Qed.
Lemma of_int_neg z : small_int z → z < 0 → ∃ m e, of_int z = S754_finite true m e.
Proof. intros Hz H. rewrite (of_int_exact z Hz). rewrite (proj2 (Z.ltb_lt z 0) H). by eexists _, _. Qed.
Lemma of_int_pos z : small_int z → 0 < z → ∃ m e, of_int z = S754_finite false m e.
Proof. intros Hz H. rewrite (of_int_exact z Hz). rewrite (proj2 (Z.ltb_ge z 0)) by lia. by eexists _, _. Qed.

(** Clamping an integer between 0 and a bound, as doubles and as integers. *)
Lemma clamp_int s r hi : 0 <= r < 2 ^ 53 → 0 < hi < 2 ^ 53 →
  to_int (dclamp (if r =? 0 then S754_zero s else of_int (if s then - r else r)) (of_int 0) (of_int hi)) =
  if s then 0 else Z.min hi r.
Proof.
  intros Hr Hhi. destruct (of_int_pos hi) as (mh & eh & Eh); [split; lia|lia|]. unfold dclamp.
  destruct (Z.eqb_spec r 0) as [->|]; [rewrite Eh; destruct s; cbn; lia|]. destruct s.
  - destruct (of_int_neg (- r)) as (m & e & ->); [split; lia|lia|]. done.
  - assert (SFltb (of_int r) (of_int 0) = false) as ->.
    { destruct (of_int_pos r) as (m & e & ->); [split; lia|lia|]. done. }
    rewrite of_int_pos_ltb by lia. destruct (Z.ltb_spec hi r); rewrite to_int_of_int; lia.
Qed.

(** The nearest integer to a rounded quotient is the nearest integer to the quotient,
    as long as it is small enough for the clamp to let it through. *)
Lemma round_quotient a b m k : 0 < b < 2 ^ 31 → 0 <= a → 2 ^ 52 <= m < 2 ^ 53 → 1 <= k → 2 * Z.abs (m * b - a * 2 ^ k) <= b →
  Z.min 65535 ((m + 2 ^ (k - 1)) / 2 ^ k) = Z.min 65535 ((2 * a + b) / (2 * b)).
Proof.
  intros Hb Ha Hm Hk Herr. set (H := 2 ^ (k - 1)). assert (0 < H) as HH by (apply Z.pow_pos_nonneg; lia).
  assert (2 ^ k = 2 * H) as Ek by (subst H; rewrite <- Z.pow_succ_r by lia; f_equal; lia). rewrite Ek in *.
  set (r := (2 * a + b) / (2 * b)). pose proof (Z.div_mod (2 * a + b) (2 * b) ltac:(lia)) as Hdm.
  pose proof (Z.mod_pos_bound (2 * a + b) (2 * b) ltac:(lia)) as Hmod. fold r in Hdm.
  assert ((2 * r - 1) * b <= 2 * a < (2 * r + 1) * b) as Hr by lia. clear Hdm Hmod.
  assert ((2 * r - 1) * H <= m) as Hlow.
  { assert (((2 * r - 1) * (2 * H) - 1) * b <= 2 * m * b) by nia.
    assert ((2 * r - 1) * (2 * H) - 1 <= 2 * m) by nia. lia. }
  assert (0 <= r) as Hr0 by (apply Z.div_pos; lia).
  assert (r <= (m + H) / (2 * H)) as Hle by (apply Z.div_le_lower_bound; lia).
  destruct (Z.le_gt_cases 65536 r); [lia|]. assert ((m + H) / (2 * H) < r + 1) as Hlt; [|lia].
  apply Z.div_lt_upper_bound; [lia|]. assert (b < 2 * H) as HbH.
  { assert (a < 65536 * b) by nia. assert (a * (2 * H) <= 65536 * b * (2 * H)) by (apply Z.mul_le_mono_nonneg_r; lia).
    assert (2 * (m * b) <= 2 * (65536 * b * (2 * H)) + b) by lia.
    destruct (Z.lt_ge_cases b (2 * H)); [done|]. assert (65536 * b * (2 * H) <= 65536 * b * b) by (apply Z.mul_le_mono_nonneg_l; lia).
    assert (m <= 65536 * b + 1) by nia. lia. }
  assert ((2 * a) * (2 * H) <= ((2 * r + 1) * b - 1) * (2 * H)) by (apply Z.mul_le_mono_nonneg_r; lia).
  apply (Z.mul_lt_mono_pos_r b); lia.
Qed.

Lemma round_div_clamped a b : Z.abs a < 2 ^ 50 → 0 < b < 2 ^ 31 →
  to_int (dclamp (dround (ddiv (of_int a) (of_int b))) (of_int 0) (of_int 65535)) = Z.max 0 (Z.min 65535 ((2 * a + b) / (2 * b))).
Proof.
  intros Ha Hb. destruct (Z.eq_dec a 0) as [->|Hz].
  { destruct (of_int_pos b) as (m & e & ->); [split; lia|lia|]. rewrite Z.mul_0_r, Z.add_0_l, Z.div_small by lia. done. }
  destruct (ddiv_near (Z.abs a) b) as (m & k & Hf & Herr & Hk); [lia..|]. pose proof Hf as (Hm & _ & _).
  pose proof (round_quotient (Z.abs a) b m k Hb ltac:(lia) Hm Hk Herr) as Hq.
  destruct (dround_fraction _ m k Hf Hk) as [Hr Hround].
  assert (ddiv (of_int a) (of_int b) = if a <? 0 then SFopp (ddiv (of_int (Z.abs a)) (of_int b)) else ddiv (of_int (Z.abs a)) (of_int b)) as ->.
  { destruct (Z.ltb_spec a 0); [|by rewrite Z.abs_eq]. rewrite Z.abs_neq, of_int_opp by (lia || split; lia).
    rewrite ddiv_opp. symmetry. apply SFopp_opp. }
  rewrite Hround, clamp_int by lia. destruct (Z.ltb_spec a 0); [|rewrite Z.abs_eq in Hq; lia].
  assert ((2 * a + b) / (2 * b) < 1) by (apply Z.div_lt_upper_bound; lia). lia.
Qed.
