(* ===== verification/Text.v ===== *)
(** * Text helpers of the credential provider

    [windows/credential_provider/common.h]: JSON escaping and the ad-hoc JSON
    field extractors, Base64URL, the log level inference, and the twin of the
    JSON escaper in [windows/runner/link_agent_binding_bridge.cpp]. *)
From S2P Require Import Prelude.

(** ** JSON escaping *)
Definition hex_digits : str := B "0123456789abcdef".
Definition hex (i : Z) : Z := nth (Z.to_nat i) hex_digits 0.

(** One iteration of the loop of [EscapeJson]. *)
Definition escape_char (c : Z) : str :=
  if c =? 34 then [92; 34] else
  if c =? 92 then [92; 92] else
  if c =? 8 then B "\b" else
  if c =? 12 then B "\f" else
  if c =? 10 then B "\n" else
  if c =? 13 then B "\r" else
  if c =? 9 then B "\t" else
  if c <? 32 then B "\u00" ++ [hex (Z.shiftr c 4); hex (Z.land c 15)]
  else [c].

Definition EscapeJson (s : str) : str := s ≫= escape_char.

(** [JsonString] of the binding bridge: the same loop, with the quotes. *)
Definition JsonString (s : str) : str :=
  [dq] ++ foldl (λ encoded c, encoded ++ escape_char c) [] s ++ [dq].

(** ** Base64URL *)
Definition b64_lookup : str :=
  B "ABCDEFGHIJKLMNOPQRSTUVWXYZabcdefghijklmnopqrstuvwxyz0123456789-_".
Definition b64_char (i : Z) : Z := nth (Z.to_nat i) b64_lookup 0.

(** [while (valb >= 0)]: at most [valb / 6 + 1] rounds. *)
Fixpoint b64_emit (fuel : nat) (val valb : Z) (out : str) : Z * str :=
  match fuel with
  | O => (valb, out)
  | S fuel' =>
    if 0 <=? valb
    then b64_emit fuel' val (valb - 6) (out ++ [b64_char (Z.land (Z.shiftr val valb) 63)])
    else (valb, out)
  end.

Fixpoint b64_encode_loop (data : str) (val valb : Z) (out : str) : Z * Z * str :=
  match data with
  | [] => (val, valb, out)
  | d :: data' =>
    let val := i32 (Z.shiftl val 8 + d) in
    let valb := valb + 8 in
    let '(valb, out) := b64_emit (S (Z.to_nat valb)) val valb out in
    b64_encode_loop data' val valb out
  end.

Definition Base64UrlEncode (data : str) : str :=
  let '(val, valb, out) := b64_encode_loop data 0 (-6) [] in
  if -6 <? valb
  then out ++ [b64_char (Z.land (Z.shiftr (i32 (Z.shiftl val 8)) (valb + 8)) 63)]
  else out.

(** The table [T] of [Base64UrlDecode]. *)
Definition b64_T : list Z :=
  foldl (λ T i, <[Z.to_nat (b64_char (Z.of_nat i)) := Z.of_nat i]> T)
    (replicate 256 (-1)) (seq 0 64).

Fixpoint b64_decode_loop (s : str) (val valb : Z) (out : str) : str :=
  match s with
  | [] => out
  | c :: s' =>
    let t := nth (Z.to_nat c) b64_T (-1) in
    if t =? -1 then out else
    let val := i32 (Z.shiftl val 6 + t) in
    let valb := valb + 6 in
    if 0 <=? valb
    then b64_decode_loop s' val (valb - 8) (out ++ [Z.land (Z.shiftr val valb) 255])
    else b64_decode_loop s' val valb out
  end.

Definition Base64UrlDecode (s : str) : str := b64_decode_loop s 0 (-8) [].

(** ** JSON field extractors *)
Definition needle_of (key : str) : str := [dq] ++ key ++ [dq].

Definition ExtractJsonString (json key : str) : str :=
  match find json (needle_of key) 0 with
  | None => []
  | Some pos =>
    match find_ch json 58 (pos + length (needle_of key)) with
    | None => []
    | Some pos =>
      match find_ch json dq (pos + 1) with
      | None => []
      | Some pos =>
        match find_ch json dq (pos + 1) with
        | None => []
        | Some e => substr json (pos + 1) (e - pos - 1)
        end
      end
    end
  end.

Definition ExtractJsonBool (json key : str) : bool :=
  match find json (needle_of key) 0 with
  | None => false
  | Some pos =>
    match find_ch json 58 (pos + length (needle_of key)) with
    | None => false
    | Some pos =>
      let truePos := find json (B "true") pos in
      let commaPos := find_first_of json [44; 125; 10] pos in
      match truePos, commaPos with
      | Some t, None => true
      | Some t, Some c => (t <? c)%nat
      | None, _ => false
      end
    end
  end.

Definition is_digit (c : Z) : bool := (48 <=? c) && (c <=? 57).

(** [atoi] of a run of digits; the C runtime saturates on overflow. *)
Definition atoi (ds : str) : Z :=
  Z.min INT_MAX (foldl (λ acc d, acc * 10 + (d - 48)) 0 ds).

Fixpoint take_while (f : Z → bool) (s : str) : str :=
  match s with
  | [] => []
  | c :: s' => if f c then c :: take_while f s' else []
  end.
Fixpoint drop_while (f : Z → bool) (s : str) : str :=
  match s with
  | [] => []
  | c :: s' => if f c then drop_while f s' else s
  end.

Definition ExtractJsonInt (json key : str) (fallback : Z) : Z :=
  match find json (needle_of key) 0 with
  | None => fallback
  | Some pos =>
    match find_ch json 58 (pos + length (needle_of key)) with
    | None => fallback
    | Some pos =>
      let rest := drop_while (λ c, (c =? 32) || (c =? 9)) (drop (pos + 1) json) in
      let digits := take_while is_digit rest in
      if decide (digits = []) then fallback else atoi digits
    end
  end.

(** ** Log level inference *)
Inductive LogLevel := INFO | WARN | ERROR.
#[export] Instance LogLevel_eq : EqDecision LogLevel.
Proof. solve_decision. Defined.

Definition InferCPLogLevel (text : option wstr) : LogLevel :=
  match text with
  | None => INFO
  | Some text =>
    if existsb (containsb text)
         [W "CRITICAL"; W "ERR"; W "err="; W "failed"; W "FAIL"; W "отказ"; W "error"; W "Error"]
    then ERROR
    else if existsb (containsb text)
              [W "WARN"; W "warn"; W "Warning"; W "timeout"; W "отклонён"]
    then WARN else INFO
  end.

(** ** Specifications *)

(** RFC 8259: the reader of a string body, up to the closing quote. *)
Definition unhex (c : Z) : Z := if c <? 58 then c - 48 else c - 87.

Fixpoint json_read (s : str) : option (str * str) :=
  let ret (c : Z) (o : option (str * str)) := (λ '(b, r), (c :: b, r)) <$> o in
  match s with
  | [] => None
  | c :: s1 =>
    if c =? 34 then Some ([], s1) else
    if c <? 32 then None else
    if c =? 92 then
      match s1 with
      | e :: s2 =>
        if (e =? 34) || (e =? 92) || (e =? 47) then ret e (json_read s2) else
        if e =? 98 then ret 8 (json_read s2) else
        if e =? 102 then ret 12 (json_read s2) else
        if e =? 110 then ret 10 (json_read s2) else
        if e =? 114 then ret 13 (json_read s2) else
        if e =? 116 then ret 9 (json_read s2) else
        if e =? 117 then
          match s2 with
          | 48 :: 48 :: h :: l :: s3 => ret (unhex h * 16 + unhex l) (json_read s3)
          | _ => None
          end
        else None
      | [] => None
      end
    else ret c (json_read s1)
  end.

(** RFC 4648, section 5, without padding: the sextets of a byte string. *)
Fixpoint b64_sextets (l : str) : list Z :=
  match l with
  | [] => []
  | [a] => [a / 4; (a mod 4) * 16]
  | [a; b] => [a / 4; (a mod 4) * 16 + b / 16; (b mod 16) * 4]
  | a :: b :: c :: r =>
    [a / 4; (a mod 4) * 16 + b / 16; (b mod 16) * 4 + c / 64; c mod 64] ++ b64_sextets r
  end.

(** A flat object of string fields, as the server renders it. *)
Definition render_field (f : str * str) : str := [dq] ++ f.1 ++ [dq; 58; dq] ++ f.2 ++ [dq].
Fixpoint render_fields (fs : list (str * str)) : str :=
  match fs with
  | [] => []
  | [f] => render_field f
  | f :: fs' => render_field f ++ [44] ++ render_fields fs'
  end.
Definition render_object (fs : list (str * str)) : str := [123] ++ render_fields fs ++ [125].
Definition tokens (fs : list (str * str)) : list str := fs ≫= λ f, [f.1; f.2].

(** A text cut at its quotes. *)
Definition quote_join (s0 : str) (segs : list str) : str := s0 ++ (segs ≫= cons dq).

(** ** Lemmas *)
Lemma Z_in_seqZ c n : 0 <= c < n → c ∈ seqZ 0 n.
Proof. intros. apply elem_of_seqZ. lia. Qed.

Lemma forall_bytes_upto (P : Z → Prop) n :
  Forall P (seqZ 0 n) → ∀ c, 0 <= c < n → P c.
Proof. intros HP c Hc. eapply Forall_forall; [done|]. by apply Z_in_seqZ. Qed.

Lemma json_read_escape c t :
  is_byte c → json_read (escape_char c ++ t) = (λ '(b, r), (c :: b, r)) <$> json_read t.
Proof.
  intros [Hc0 Hc1]. destruct (decide (c < 32)) as [Hlt|Hge].
  - revert t. pattern c. revert c Hc0 Hc1 Hlt.
    enough (Forall (λ c, ∀ t, json_read (escape_char c ++ t)
              = (λ '(b, r), (c :: b, r)) <$> json_read t) (seqZ 0 32)) as Hall.
    { intros. by apply (forall_bytes_upto _ 32). }
    compute_term (seqZ 0 32). repeat apply Forall_cons_2; try apply Forall_nil_2; intros t; reflexivity.
  - unfold escape_char.
    destruct (Z.eqb_spec c 34) as [->|]; [done|].
    destruct (Z.eqb_spec c 92) as [->|]; [done|].
    zcases. simpl. by zcases.
Qed.

Lemma json_read_EscapeJson s r :
  Forall is_byte s → json_read (EscapeJson s ++ dq :: r) = Some (s, r).
Proof.
  unfold EscapeJson. induction 1 as [|c s Hc Hs IH]; [done|].
  cbn [mbind list_bind]. by rewrite <- app_assoc, json_read_escape, IH.
Qed.

Lemma foldl_snoc_bind (f : Z → str) s acc :
  foldl (λ e c, e ++ f c) acc s = acc ++ (s ≫= f).
Proof.
  revert acc; induction s as [|c s IH]; intros acc; simpl; [by rewrite app_nil_r|].
  by rewrite IH, <- app_assoc.
Qed.

Lemma prefixb_seg key s r :
  dq ∉ key → dq ∉ s → prefixb (key ++ [dq]) (s ++ dq :: r) = bool_decide (key = s).
Proof.
  revert s; induction key as [|a key IH]; intros [|b s] Hk Hs; simpl.
  - done.
  - rewrite (bool_decide_eq_false_2 (dq = b)) by set_solver. done.
  - rewrite (bool_decide_eq_false_2 (a = dq)) by set_solver. done.
  - rewrite IH by set_solver. apply eq_true_iff_eq.
    rewrite andb_true_iff, !bool_decide_eq_true. naive_solver.
Qed.

Lemma find0_seg key s r :
  dq ∉ s →
  find0 (needle_of key) (s ++ dq :: r) =
    if prefixb (key ++ [dq]) r then Some (length s)
    else (λ i, (length s + 1 + i)%nat) <$> find0 (needle_of key) r.
Proof.
  change (needle_of key) with (dq :: (key ++ [dq])). induction s as [|c s IH]; intros Hs.
  - simpl. by destruct (prefixb _ r).
  - cbn [app find0 prefixb]. rewrite bool_decide_eq_false_2 by set_solver.
    cbn [andb]. rewrite IH by set_solver. destruct (prefixb _ r); [done|].
    destruct (find0 _ r); [|done]. simpl. f_equal.
Qed.

(** The first quoted segment equal to the key is the one that is found. *)
Lemma find0_segs key s0 pre nxt post :
  dq ∉ key → dq ∉ s0 → Forall (λ s, dq ∉ s) pre → key ∉ pre →
  find0 (needle_of key) (quote_join s0 (pre ++ key :: nxt :: post)) =
    Some (length (quote_join s0 pre)).
Proof.
  intros Hk. revert s0; induction pre as [|p pre IH]; intros s0 Hs0 Hpre Hnin.
  - unfold quote_join. cbn [app mbind list_bind]. rewrite find0_seg by done.
    cbn [app]. rewrite prefixb_seg, bool_decide_eq_true_2 by done.
    by rewrite app_nil_r.
  - apply Forall_cons in Hpre as [Hp Hpre]. apply not_elem_of_cons in Hnin as [Hne Hnin].
    assert (quote_join s0 ((p :: pre) ++ key :: nxt :: post) =
      s0 ++ dq :: quote_join p (pre ++ key :: nxt :: post)) as -> by done.
    rewrite find0_seg, IH by done.
    assert (prefixb (key ++ [dq]) (quote_join p (pre ++ key :: nxt :: post)) = false) as ->.
    { unfold quote_join. destruct pre as [|q pre]; cbn [app mbind list_bind];
        rewrite prefixb_seg by done; by apply bool_decide_eq_false_2. }
    unfold quote_join. cbn [fmap option_fmap option_map mbind list_bind].
    f_equal. rewrite !length_app. cbn [length app]. rewrite ?length_app. simpl. lia.
Qed.

Lemma length_needle key : length (needle_of key) = (length key + 2)%nat.
Proof. unfold needle_of. rewrite !length_app. simpl. lia. Qed.

Lemma quote_join_split s0 pre key rest :
  quote_join s0 (pre ++ key :: rest) = quote_join s0 pre ++ [dq] ++ key ++ (rest ≫= cons dq).
Proof. unfold quote_join. rewrite bind_app. cbn [mbind list_bind]. by rewrite <- !app_assoc. Qed.

(** Replace the text being searched by an equal one, up to associativity. *)
Ltac app_normal :=
  repeat match goal with x := _ : list Z |- _ => unfold x; clear x end;
  unfold needle_of, quote_join; cbn [app mbind list_bind];
  repeat progress (rewrite <- ?app_assoc; cbn [app]); reflexivity.
Ltac replace_with j' :=
  match goal with
  | |- context [find_ch ?j _ _] => replace j with j' by app_normal
  end.

(** The position after the colon of the key's field. *)
Lemma find_key_colon key s0 pre sl sr post :
  let json := quote_join s0 (pre ++ key :: (sl ++ 58 :: sr) :: post) in
  dq ∉ key → dq ∉ s0 → Forall (λ s, dq ∉ s) pre → key ∉ pre → 58 ∉ sl →
  ∃ p, find json (needle_of key) 0 = Some p ∧
       find_ch json 58 (p + length (needle_of key)) =
         Some (length (quote_join s0 pre) + length (needle_of key) + length sl)%nat.
Proof.
  intros json Hk Hs0 Hpre Hnin Hsl. exists (length (quote_join s0 pre)). split.
  - unfold find. rewrite decide_True by lia. rewrite drop_0. unfold json.
    by rewrite find0_segs.
  - unfold json. rewrite quote_join_split.
    cbn [mbind list_bind]. set (P := quote_join s0 pre).
    set (R := sr ++ (post ≫= cons dq)).
    replace_with ((P ++ needle_of key) ++ sl ++ 58 :: R).
    apply find_ch_app; [|done]. by rewrite length_app.
Qed.

Lemma ExtractJsonString_segs key s0 pre sl sr v nxt post :
  dq ∉ key → dq ∉ s0 → Forall (λ s, dq ∉ s) pre → key ∉ pre →
  58 ∉ sl → dq ∉ sr → dq ∉ v →
  ExtractJsonString (quote_join s0 (pre ++ key :: (sl ++ 58 :: sr) :: v :: nxt :: post)) key = v.
Proof.
  intros Hk Hs0 Hpre Hnin Hsl Hsr Hv.
  destruct (find_key_colon key s0 pre sl sr (v :: nxt :: post)) as (p & E1 & E2); [done..|].
  unfold ExtractJsonString. rewrite E1, E2.
  rewrite quote_join_split. cbn [mbind list_bind].
  set (P := quote_join s0 pre). set (R := nxt ++ (post ≫= cons dq)).
  replace_with ((P ++ needle_of key ++ sl ++ [58]) ++ sr ++ dq :: v ++ dq :: R).
  erewrite find_ch_app; [|rewrite !length_app; simpl; lia|done].
  set (Q := P ++ needle_of key ++ sl ++ [58]).
  replace_with ((Q ++ sr ++ [dq]) ++ v ++ dq :: R).
  erewrite find_ch_app; [|unfold Q; rewrite !length_app; simpl; lia|done].
  unfold Q. apply substr_app_mid; rewrite ?length_app; simpl; lia.
Qed.

(** The rendered object, cut at its quotes. *)
Fixpoint object_segs (fs : list (str * str)) : list str :=
  match fs with
  | [] => []
  | [f] => [f.1; [58]; f.2; [125]]
  | f :: fs' => [f.1; [58]; f.2; [44]] ++ object_segs fs'
  end.

Lemma render_object_segs fs :
  fs ≠ [] → render_object fs = quote_join [123] (object_segs fs).
Proof.
  unfold render_object, quote_join. intros Hfs. f_equal.
  induction fs as [|[k v] fs IH]; [done|]. destruct fs as [|g fs].
  - cbn [render_fields object_segs]. unfold render_field. cbn [fst snd]. app_normal.
  - change (render_fields ((k, v) :: g :: fs))
      with (render_field (k, v) ++ [44] ++ render_fields (g :: fs)).
    change (object_segs ((k, v) :: g :: fs)) with ([k; [58]; v; [44]] ++ object_segs (g :: fs)).
    rewrite bind_app, <- IH by done. unfold render_field. cbn [fst snd]. app_normal.
Qed.

Lemma object_segs_at before key v after :
  ∃ pre nxt post,
    object_segs (before ++ (key, v) :: after) = pre ++ key :: [58] :: v :: nxt :: post ∧
    ∀ s, s ∈ pre → s ∈ tokens before ∨ s = [58] ∨ s = [44].
Proof.
  induction before as [|[k w] before IH].
  - exists []. destruct after as [|g after]; simpl; eexists _, _;
      (split; [reflexivity|intros s Hs; inversion Hs]).
  - destruct IH as (pre & nxt & post & E & Hpre).
    exists ([k; [58]; w; [44]] ++ pre), nxt, post. split.
    + destruct before as [|g before]; cbn [app object_segs] in *; by rewrite E.
    + unfold tokens. simpl. intros s Hs.
      apply elem_of_cons in Hs as [->|Hs]; [left; by left|].
      apply elem_of_cons in Hs as [->|Hs]; [auto|].
      apply elem_of_cons in Hs as [->|Hs]; [left; by right; left|].
      apply elem_of_cons in Hs as [->|Hs]; [auto|].
      destruct (Hpre _ Hs) as [Ht|Ht]; [|auto]. left. by right; right.
Qed.

(** Base64: the loop counters over a group of three bytes. *)
#[local] Ltac Zify.zify_post_hook ::= Z.to_euclidean_division_equations.

Lemma i32_shift_mod v d w k n :
  n = w + k → 0 <= k → 0 <= w → n <= 32 → 0 <= d < 2 ^ w →
  i32 (Z.shiftl v w + d) mod 2 ^ n = (v mod 2 ^ k) * 2 ^ w + d.
Proof.
  intros ->. intros. rewrite i32_mod by lia. rewrite Z.shiftl_mul_pow2 by lia.
  rewrite Z.pow_add_r by lia.
  pose proof (Z.pow_pos_nonneg 2 w ltac:(lia) ltac:(lia)).
  pose proof (Z.pow_pos_nonneg 2 k ltac:(lia) ltac:(lia)).
  symmetry. apply (Z.mod_unique_pos _ _ (v / 2 ^ k)).
  - pose proof (Z.mod_pos_bound v (2 ^ k) ltac:(lia)). nia.
  - pose proof (Z.div_mod v (2 ^ k) ltac:(lia)). nia.
Qed.

Lemma sextet v k : 0 <= k → Z.land (Z.shiftr v k) 63 = (v mod 2 ^ (k + 6)) / 2 ^ k.
Proof.
  intros. change 63 with (Z.ones 6). rewrite field_bits by lia. by apply div_mod_pow2.
Qed.

Lemma octet v k : 0 <= k → Z.land (Z.shiftr v k) 255 = (v mod 2 ^ (k + 8)) / 2 ^ k.
Proof.
  intros. change 255 with (Z.ones 8). rewrite field_bits by lia. by apply div_mod_pow2.
Qed.

(** Bits of the accumulator after each byte, from any previous content. *)
Lemma enc_bits1 v a : is_byte a →
  i32 (Z.shiftl v 8 + a) mod 2 ^ 8 = a.
Proof. unfold is_byte. intros. rewrite (i32_shift_mod v a 8 0 8) by lia. lia. Qed.

Lemma enc_bits2 v a b : is_byte a → is_byte b →
  i32 (Z.shiftl (i32 (Z.shiftl v 8 + a)) 8 + b) mod 2 ^ 16 = a * 256 + b.
Proof.
  unfold is_byte. intros. rewrite (i32_shift_mod _ b 8 8 16), enc_bits1 by (unfold is_byte; lia).
  lia.
Qed.

Lemma enc_bits3 v a b c : is_byte a → is_byte b → is_byte c →
  i32 (Z.shiftl (i32 (Z.shiftl (i32 (Z.shiftl v 8 + a)) 8 + b)) 8 + c) mod 2 ^ 24
    = a * 65536 + b * 256 + c.
Proof.
  unfold is_byte. intros.
  rewrite (i32_shift_mod _ c 8 16 24), enc_bits2 by (unfold is_byte; lia). lia.
Qed.

(** A low field of a number whose low [n] bits are known. *)
Lemma low_field v x n k w :
  v mod 2 ^ n = x → 0 <= k → 0 <= w → k + w <= n →
  (v mod 2 ^ (k + w)) / 2 ^ k = (x mod 2 ^ (k + w)) / 2 ^ k.
Proof.
  intros <- Hk Hw Hn. f_equal. symmetry. apply Z.mod_mod_divide.
  exists (2 ^ (n - (k + w))). rewrite <- Z.pow_add_r by lia. f_equal. lia.
Qed.

Lemma b64_emit_2 v out : b64_emit 3 v 2 out = (-4, out ++ [b64_char (Z.land (Z.shiftr v 2) 63)]).
Proof. reflexivity. Qed.
Lemma b64_emit_4 v out : b64_emit 5 v 4 out = (-2, out ++ [b64_char (Z.land (Z.shiftr v 4) 63)]).
Proof. reflexivity. Qed.
Lemma b64_emit_6 v out :
  b64_emit 7 v 6 out =
    (-6, out ++ [b64_char (Z.land (Z.shiftr v 6) 63); b64_char (Z.land (Z.shiftr v 0) 63)]).
Proof.
  change [?x; ?y] with ([x] ++ [y]). rewrite app_assoc. reflexivity.
Qed.

(** The sextet of an accumulator whose low [n] bits are [x]. *)
Lemma sextet_of v x n k :
  v mod 2 ^ n = x → 0 <= k → k + 6 <= n →
  Z.land (Z.shiftr v k) 63 = (x mod 2 ^ (k + 6)) / 2 ^ k.
Proof. intros. rewrite sextet by lia. by apply (low_field v x n k 6). Qed.

Lemma octet_of v x n k :
  v mod 2 ^ n = x → 0 <= k → k + 8 <= n →
  Z.land (Z.shiftr v k) 255 = (x mod 2 ^ (k + 8)) / 2 ^ k.
Proof. intros. rewrite octet by lia. by apply (low_field v x n k 8). Qed.

Definition b64_finish (st : Z * Z * str) : str :=
  let '(val, valb, out) := st in
  if -6 <? valb
  then out ++ [b64_char (Z.land (Z.shiftr (i32 (Z.shiftl val 8)) (valb + 8)) 63)]
  else out.

Ltac enc_step :=
  cbn [b64_encode_loop];
  change (-6 + 8) with 2; change (-4 + 8) with 4; change (-2 + 8) with 6;
  change (Z.to_nat 2) with 2%nat; change (Z.to_nat 4) with 4%nat; change (Z.to_nat 6) with 6%nat;
  rewrite ?b64_emit_2, ?b64_emit_4, ?b64_emit_6.

Ltac enc_digit lem := erewrite (sextet_of _ _ _ _ lem) by lia.

Lemma enc_group v a b c r out : is_byte a → is_byte b → is_byte c →
  ∃ v', b64_encode_loop (a :: b :: c :: r) v (-6) out =
        b64_encode_loop r v' (-6) (out ++ (b64_char <$>
          [a / 4; (a mod 4) * 16 + b / 16; (b mod 16) * 4 + c / 64; c mod 64])).
Proof.
  intros Ha Hb Hc. eexists. do 3 enc_step. f_equal. rewrite <- !app_assoc. f_equal.
  enc_digit (enc_bits1 v a Ha). enc_digit (enc_bits2 v a b Ha Hb).
  rewrite !(sextet_of _ _ _ _ (enc_bits3 v a b c Ha Hb Hc)) by lia.
  unfold is_byte in *. cbn [app fmap list_fmap]. repeat f_equal; lia.
Qed.

Lemma enc_tail1 v a out : is_byte a →
  b64_finish (b64_encode_loop [a] v (-6) out) = out ++ (b64_char <$> [a / 4; (a mod 4) * 16]).
Proof.
  intros Ha. enc_step. cbn [b64_finish b64_encode_loop]. change (-6 <? -4) with true.
  change (-4 + 8) with 4. rewrite <- app_assoc. f_equal.
  enc_digit (enc_bits1 v a Ha).
  rewrite <- (Z.add_0_r (Z.shiftl _ 8)).
  erewrite (sextet_of _ _ 16 4) by (try apply (i32_shift_mod _ 0 8 8 16); lia).
  change (2 ^ 8) with (2 ^ 8). rewrite enc_bits1 by done.
  unfold is_byte in *. cbn [app fmap list_fmap]. repeat f_equal; lia.
Qed.

Lemma enc_tail2 v a b out : is_byte a → is_byte b →
  b64_finish (b64_encode_loop [a; b] v (-6) out) =
    out ++ (b64_char <$> [a / 4; (a mod 4) * 16 + b / 16; (b mod 16) * 4]).
Proof.
  intros Ha Hb. do 2 enc_step. cbn [b64_finish b64_encode_loop]. change (-6 <? -2) with true.
  change (-2 + 8) with 6. rewrite <- !app_assoc. f_equal.
  enc_digit (enc_bits1 v a Ha). enc_digit (enc_bits2 v a b Ha Hb).
  rewrite <- (Z.add_0_r (Z.shiftl _ 8)).
  erewrite (sextet_of _ _ 24 6) by (try apply (i32_shift_mod _ 0 8 16 24); lia).
  rewrite enc_bits2 by done.
  unfold is_byte in *. cbn [app fmap list_fmap]. repeat f_equal; lia.
Qed.

Lemma b64_encode_loop_sextets l : Forall is_byte l → ∀ v out,
  b64_finish (b64_encode_loop l v (-6) out) = out ++ (b64_char <$> b64_sextets l).
Proof.
  induction l as [| | |a b c r IH] using group3_ind; intros Hl v out; rewrite ?Forall_cons in Hl.
  - simpl. by rewrite app_nil_r.
  - destruct Hl as [Ha _]. by apply enc_tail1.
  - destruct Hl as (Ha & Hb & _). by apply enc_tail2.
  - destruct Hl as (Ha & Hb & Hc & Hr).
    destruct (enc_group v a b c r out) as [v' ->]; [done..|].
    rewrite IH, <- app_assoc by done. reflexivity.
Qed.

(** The decoder over the characters of sextets. *)
Definition is_sextet (z : Z) : Prop := 0 <= z < 64.

Lemma b64_T_char x : is_sextet x → nth (Z.to_nat (b64_char x)) b64_T (-1) = x.
Proof.
  revert x. unfold is_sextet. apply forall_bytes_upto.
  apply Forall_forall. compute_term (seqZ 0 64). rewrite <- Forall_forall.
  repeat apply Forall_cons_2; try apply Forall_nil_2; vm_compute; reflexivity.
Qed.

Lemma dec_step x s val valb out : is_sextet x →
  b64_decode_loop (b64_char x :: s) val valb out =
    if 0 <=? valb + 6
    then b64_decode_loop s (i32 (Z.shiftl val 6 + x)) (valb + 6 - 8)
           (out ++ [Z.land (Z.shiftr (i32 (Z.shiftl val 6 + x)) (valb + 6)) 255])
    else b64_decode_loop s (i32 (Z.shiftl val 6 + x)) (valb + 6) out.
Proof.
  intros Hx. cbn [b64_decode_loop]. rewrite b64_T_char by done.
  destruct (Z.eqb_spec x (-1)); [unfold is_sextet in *; lia|done].
Qed.

Lemma dec_bits2 v x y : is_sextet x → is_sextet y →
  i32 (Z.shiftl (i32 (Z.shiftl v 6 + x)) 6 + y) mod 2 ^ 12 = x * 64 + y.
Proof.
  unfold is_sextet. intros. rewrite (i32_shift_mod _ y 6 6 12) by lia.
  rewrite (i32_shift_mod v x 6 0 6) by lia. lia.
Qed.
Lemma dec_bits3 v x y z : is_sextet x → is_sextet y → is_sextet z →
  i32 (Z.shiftl (i32 (Z.shiftl (i32 (Z.shiftl v 6 + x)) 6 + y)) 6 + z) mod 2 ^ 18
    = x * 4096 + y * 64 + z.
Proof.
  intros Hx Hy Hz. unfold is_sextet in *. rewrite (i32_shift_mod _ z 6 12 18) by lia.
  rewrite dec_bits2 by done. lia.
Qed.
Lemma dec_bits4 v x y z w : is_sextet x → is_sextet y → is_sextet z → is_sextet w →
  i32 (Z.shiftl (i32 (Z.shiftl (i32 (Z.shiftl (i32 (Z.shiftl v 6 + x)) 6 + y)) 6 + z)) 6 + w)
    mod 2 ^ 24 = x * 262144 + y * 4096 + z * 64 + w.
Proof.
  intros Hx Hy Hz Hw. unfold is_sextet in *. rewrite (i32_shift_mod _ w 6 18 24) by lia.
  rewrite dec_bits3 by done. lia.
Qed.

Ltac dec_char :=
  rewrite dec_step by done;
  match goal with |- context [if 0 <=? ?n then _ else _] =>
    let b := eval vm_compute in (0 <=? n) in change (0 <=? n) with b end; cbv iota.
Ltac dec_octet lem :=
  match goal with |- context [Z.land (Z.shiftr ?v (?a + ?b)) 255] =>
    let n := eval vm_compute in (a + b) in change (a + b) with n;
    erewrite (octet_of v _ _ n lem) by lia end.

Lemma dec_2 v x y s out : is_sextet x → is_sextet y →
  ∃ v', v' mod 2 ^ 12 = x * 64 + y ∧
    b64_decode_loop (b64_char x :: b64_char y :: s) v (-8) out =
    b64_decode_loop s v' (-4) (out ++ [(x * 64 + y) / 16]).
Proof.
  intros Hx Hy. eexists. split; [by apply (dec_bits2 v x y)|].
  do 2 dec_char. dec_octet (dec_bits2 v x y Hx Hy).
  unfold is_sextet in *. do 4 f_equal. lia.
Qed.

Lemma dec_3 v x y z s out : is_sextet x → is_sextet y → is_sextet z →
  v mod 2 ^ 12 = x * 64 + y →
  b64_decode_loop (b64_char z :: s) v (-4) out =
  b64_decode_loop s (i32 (Z.shiftl v 6 + z)) (-6)
    (out ++ [((x * 64 + y) mod 16) * 16 + z / 4]).
Proof.
  intros Hx Hy Hz Hv. dec_char.
  assert (i32 (Z.shiftl v 6 + z) mod 2 ^ 18 = x * 4096 + y * 64 + z) as E.
  { unfold is_sextet in *. rewrite (i32_shift_mod _ z 6 12 18), Hv by lia. lia. }
  dec_octet E. unfold is_sextet in *. do 4 f_equal. lia.
Qed.

Lemma dec_4 v x y z w s out : is_sextet x → is_sextet y → is_sextet z → is_sextet w →
  v mod 2 ^ 12 = x * 64 + y →
  b64_decode_loop (b64_char z :: b64_char w :: s) v (-4) out =
  b64_decode_loop s (i32 (Z.shiftl (i32 (Z.shiftl v 6 + z)) 6 + w)) (-8)
    (out ++ [((x * 64 + y) mod 16) * 16 + z / 4; (z mod 4) * 64 + w]).
Proof.
  intros Hx Hy Hz Hw Hv. rewrite (dec_3 v x y z) by done. dec_char.
  assert (i32 (Z.shiftl (i32 (Z.shiftl v 6 + z)) 6 + w) mod 2 ^ 24
    = x * 262144 + y * 4096 + z * 64 + w) as E.
  { unfold is_sextet in *. rewrite (i32_shift_mod _ w 6 18 24) by lia.
    rewrite (i32_shift_mod _ z 6 12 18), Hv by lia. lia. }
  dec_octet E. rewrite <- app_assoc. unfold is_sextet in *. cbn [app]. do 5 f_equal. lia.
Qed.

Lemma b64_decode_loop_sextets l : Forall is_byte l → ∀ v out,
  b64_decode_loop (b64_char <$> b64_sextets l) v (-8) out = out ++ l.
Proof.
  induction l as [| |a b|a b c r IH] using group3_ind; intros Hl v out;
    rewrite ?Forall_cons in Hl; cbn [b64_sextets fmap list_fmap app].
  - by rewrite app_nil_r.
  - destruct Hl as [Ha _]. unfold is_byte in *.
    destruct (dec_2 v (a / 4) ((a mod 4) * 16) [] out) as (v' & _ & ->);
      [unfold is_sextet; lia..|].
    cbn [b64_decode_loop]. do 2 f_equal. lia.
  - destruct Hl as (Ha & Hb & _). unfold is_byte in *.
    edestruct (dec_2 v (a / 4) ((a mod 4) * 16 + b / 16)) as (v' & Hv & ->);
      [unfold is_sextet; lia..|].
    rewrite (dec_3 v' (a / 4) ((a mod 4) * 16 + b / 16)) by (unfold is_sextet; lia || done).
    cbn [b64_decode_loop]. rewrite <- app_assoc. cbn [app]. do 2 f_equal; [|f_equal]; lia.
  - destruct Hl as (Ha & Hb & Hc & Hr).
    edestruct (dec_2 v (a / 4) ((a mod 4) * 16 + b / 16)) as (v' & Hv & ->);
      [unfold is_sextet, is_byte in *; lia..|].
    rewrite (dec_4 v' (a / 4) ((a mod 4) * 16 + b / 16))
      by (unfold is_sextet, is_byte in *; lia || done).
    rewrite IH by done. rewrite <- !app_assoc. cbn [app]. unfold is_byte in *.
    f_equal. f_equal; [lia|f_equal; [lia|f_equal; lia]].
Qed.

Lemma drop_at (a b : str) n : length a = n → drop n (a ++ b) = b.
Proof. intros <-. apply drop_app_length. Qed.

(** The text from the colon of the key's field. *)
Lemma drop_colon key s0 pre sl sr post :
  drop (length (quote_join s0 pre) + length (needle_of key) + length sl)
    (quote_join s0 (pre ++ key :: (sl ++ 58 :: sr) :: post))
  = 58 :: sr ++ (post ≫= cons dq).
Proof.
  rewrite quote_join_split. cbn [mbind list_bind].
  set (P := quote_join s0 pre). set (R := post ≫= cons dq).
  replace (P ++ [dq] ++ key ++ (dq :: sl ++ 58 :: sr) ++ R)
    with ((P ++ needle_of key ++ sl) ++ 58 :: sr ++ R).
  - apply drop_at. rewrite !length_app. lia.
  - unfold needle_of. rewrite <- !app_assoc. cbn [app].
    repeat progress (rewrite <- ?app_assoc; cbn [app]). reflexivity.
Qed.

Lemma take_while_app f l r :
  Forall (λ c, f c = true) l → (∀ c r', r = c :: r' → f c = false) → take_while f (l ++ r) = l.
Proof.
  induction 1 as [|c l Hc Hl IH]; intros Hr; simpl.
  - destruct r as [|d r]; [done|]. simpl. by rewrite (Hr d r).
  - rewrite Hc. f_equal. by apply IH.
Qed.

Lemma drop_while_app f l r :
  Forall (λ c, f c = true) l → (∀ c r', r = c :: r' → f c = false) → drop_while f (l ++ r) = r.
Proof.
  induction 1 as [|c l Hc Hl IH]; intros Hr; simpl.
  - destruct r as [|d r]; [done|]. simpl. by rewrite (Hr d r).
  - rewrite Hc. by apply IH.
Qed.

Definition blank (c : Z) : bool := (c =? 32) || (c =? 9).

(** The value of a decimal numeral. *)
Definition decimal (ds : str) : Z := foldl (λ acc d, acc * 10 + (d - 48)) 0 ds.

Lemma ExtractJsonInt_segs key fb s0 pre sl ws ds rest post :
  dq ∉ key → dq ∉ s0 → Forall (λ s, dq ∉ s) pre → key ∉ pre → 58 ∉ sl →
  Forall (λ c, blank c = true) ws → Forall (λ c, is_digit c = true) ds →
  (∀ c r, rest ++ (post ≫= cons dq) = c :: r →
     is_digit c = false ∧ (ds = [] → blank c = false)) →
  ExtractJsonInt (quote_join s0 (pre ++ key :: (sl ++ 58 :: ws ++ ds ++ rest) :: post)) key fb
    = if decide (ds = []) then fb else Z.min INT_MAX (decimal ds).
Proof.
  intros Hk Hs0 Hpre Hnin Hsl Hws Hds Hrest.
  destruct (find_key_colon key s0 pre sl (ws ++ ds ++ rest) post) as (p & E1 & E2); [done..|].
  unfold ExtractJsonInt. rewrite E1, E2, <- drop_drop, drop_colon.
  change (drop 1 (58 :: ?x)) with x. rewrite <- !app_assoc.
  rewrite drop_while_app; [|done|].
  - rewrite take_while_app; [done..|]. intros c r Hc. by destruct (Hrest c r).
  - intros c r Hc. destruct ds as [|d ds]; simpl in Hc.
    + destruct (Hrest c r Hc) as [_ Hb]. by apply Hb.
    + injection Hc as -> _. apply Forall_cons in Hds as [Hd _].
      unfold is_digit, blank in *. destruct (Z.leb_spec 48 c); [|done]. zcases.
Qed.

Lemma find_if_one_of_app set l c r :
  Forall (λ x, x ∉ set) l → c ∈ set → find_if (one_of set) (l ++ c :: r) = Some (length l).
Proof.
  intros Hl Hc. apply find_if_app.
  - eapply Forall_impl; [done|]. intros x Hx. by apply bool_decide_eq_false_2.
  - by apply bool_decide_eq_true_2.
Qed.

(** An occurrence that starts before a delimiter it does not contain ends before it. *)
Lemma occurrence_before n l c r t :
  c ∉ n → n ≠ [] → find0 n (l ++ c :: r) = Some t → (t < length l)%nat → containsb l n = true.
Proof.
  intros Hc Hn Hf Ht. apply find0_Some in Hf as (a & b & E & <-).
  apply containsb_spec. exists a.
  apply app_eq_inv in E as [(k & -> & Hk)|(k & -> & Hk)].
  - symmetry in Hk. apply app_eq_inv in Hk as [(k' & -> & Hk')|(k' & -> & Hk')].
    + by exists k'.
    + destruct k' as [|d k'].
      * exists []. by rewrite !app_nil_r.
      * exfalso. simpl in Hk'. injection Hk' as -> _. set_solver.
  - rewrite length_app in Ht. lia.
Qed.

Lemma ExtractJsonBool_segs key s0 pre sl lead d rest post :
  dq ∉ key → dq ∉ s0 → Forall (λ s, dq ∉ s) pre → key ∉ pre → 58 ∉ sl →
  Forall (λ c, c ∉ [44; 125; 10]) lead → d ∈ [44; 125; 10] →
  ExtractJsonBool (quote_join s0 (pre ++ key :: (sl ++ 58 :: lead ++ d :: rest) :: post)) key
    = containsb lead (B "true").
Proof.
  intros Hk Hs0 Hpre Hnin Hsl Hlead Hd.
  destruct (find_key_colon key s0 pre sl (lead ++ d :: rest) post) as (p & E1 & E2); [done..|].
  unfold ExtractJsonBool. rewrite E1, E2. unfold find_first_of. rewrite drop_colon.
  set (pos := (_ + _ + length sl)%nat). rewrite <- app_assoc. cbn [app].
  set (R := rest ++ _).
  change (58 :: lead ++ d :: R) with ((58 :: lead) ++ d :: R).
  rewrite find_if_one_of_app; [|apply Forall_cons; split; [set_solver|done]|done].
  unfold find. rewrite decide_True; cycle 1.
  { unfold pos. rewrite quote_join_split. cbn [mbind list_bind].
    rewrite !length_app, length_needle. cbn [length]. rewrite !length_app. simpl. lia. }
  unfold pos. rewrite drop_colon. fold pos. rewrite <- app_assoc. cbn [app]. fold R.
  change (58 :: lead ++ d :: R) with ((58 :: lead) ++ d :: R).
  apply eq_true_iff_eq. cbn [fmap option_fmap option_map length].
  destruct (find0 (B "true") ((58 :: lead) ++ d :: R)) as [t|] eqn:Et; cbn [option_map].
  - cbn [fmap option_fmap option_map]. rewrite Nat.ltb_lt. split.
    + intros Ht. assert (containsb (58 :: lead) (B "true") = true) as Hb.
      { eapply (occurrence_before _ _ d R t); [|done|exact Et|simpl; lia].
        intros Hin. apply (Forall_forall (λ c, c ∉ [44; 125; 10]) (B "true")) in Hin; [done|].
        repeat apply Forall_cons_2; try apply Forall_nil_2; compute; set_solver. }
      apply containsb_spec in Hb as (l & r & El). apply containsb_spec.
      destruct l as [|x l]; [by vm_compute in El|]. injection El as _ ->. eauto.
    + intros Hb. apply containsb_spec in Hb as (l & r & El).
      assert ((58 :: lead) ++ d :: R = (58 :: l) ++ B "true" ++ (r ++ d :: R)) as Eq.
      { rewrite El. cbn [app]. by rewrite <- !app_assoc. }
      pose proof (find0_first _ _ _ _ _ Et Eq) as Hle. simpl in Hle.
      rewrite El, !length_app. change (length (B "true")) with 4%nat. lia.
  - split; [done|]. intros Hb. apply containsb_spec in Hb as (l & r & El).
    apply find0_None in Et. exfalso. apply Et. exists (58 :: l), (r ++ d :: R).
    rewrite El. cbn [app]. by rewrite <- !app_assoc.
Qed.

(** ** Properties *)

(** C31: JSON escaping is injection-free and lossless. For every byte string,
    including control bytes, quotes and backslashes, a standard JSON string
    reader that starts after the opening quote reads back exactly the value
    and stops exactly at the closing quote, whatever text follows; the
    binding bridge's [JsonString] is the quoted form of the same escaping. *)
Theorem EscapeJson_reads_back (s r : str) (Hs : Forall is_byte s) :
  JsonString s = dq :: EscapeJson s ++ [dq] ∧
  json_read (EscapeJson s ++ dq :: r) = Some (s, r).
Proof.
  split; [|by apply json_read_EscapeJson].
  unfold JsonString, EscapeJson. by rewrite foldl_snoc_bind.
Qed.

Lemma EscapeJson_reads_back_witness :
  json_read (EscapeJson [97; 34; 92; 10; 1; 208] ++ dq :: B "}") =
    Some ([97; 34; 92; 10; 1; 208], B "}").
Proof.
  refine (proj2 (EscapeJson_reads_back [97; 34; 92; 10; 1; 208] (B "}") _)).
  repeat apply Forall_cons_2; try apply Forall_nil_2; compute; split; congruence.
Defined.

(** Base64URL is RFC 4648 without padding and decodes to the original
    bytes: the encoder's shift-accumulator loop, whose 32-bit accumulator
    overflows on long inputs, emits exactly the RFC's sextets, and the decoder
    inverts it for every byte string. *)
Theorem Base64Url_roundtrip (data : str) (Hd : Forall is_byte data) :
  Base64UrlEncode data = b64_char <$> b64_sextets data ∧
  Base64UrlDecode (Base64UrlEncode data) = data.
Proof.
  assert (Base64UrlEncode data = b64_char <$> b64_sextets data) as E.
  { apply (b64_encode_loop_sextets data Hd 0 []). }
  split; [done|]. rewrite E. apply (b64_decode_loop_sextets data Hd 0 []).
Qed.

Lemma Base64Url_roundtrip_witness :
  Base64UrlEncode (B "Ligament") = B "TGlnYW1lbnQ" ∧
  Base64UrlDecode (Base64UrlEncode (B "Ligament")) = B "Ligament".
Proof.
  assert (Forall is_byte (B "Ligament")) as H.
  { repeat apply Forall_cons_2; try apply Forall_nil_2; compute; split; congruence. }
  split; [vm_compute; reflexivity|]. apply (Base64Url_roundtrip (B "Ligament") H).
Defined.

(** [ExtractJsonString] returns a field of a flat JSON object of plain
    strings. For an object whose keys and values hold no double quote, it
    returns the value of the first field with the key, provided no earlier key
    or value is spelled like the key (the extractor does not tell keys from
    values) and the key is not a separator. *)
Theorem ExtractJsonString_object (before after : list (str * str)) (key v : str)
  (Hplain : Forall (λ t, dq ∉ t) (tokens (before ++ (key, v) :: after)))
  (Hfirst : key ∉ tokens before) (Hcolon : key ≠ [58]) (Hcomma : key ≠ [44]) :
  ExtractJsonString (render_object (before ++ (key, v) :: after)) key = v.
Proof.
  rewrite render_object_segs by (by destruct before).
  destruct (object_segs_at before key v after) as (pre & nxt & post & -> & Hpre).
  unfold tokens in Hplain. rewrite bind_app, Forall_app in Hplain.
  destruct Hplain as [Hb Ha]. cbn in Ha. rewrite !Forall_cons in Ha.
  destruct Ha as (Hk & Hv & _).
  apply (ExtractJsonString_segs key [123] pre [] [] v nxt post);
    [done|by compute; set_solver| | |set_solver..|done].
  - apply Forall_forall. intros s Hs. destruct (Hpre s Hs) as [Ht|[->| ->]];
      [|compute; set_solver..]. by eapply Forall_forall in Hb.
  - intros Hin. by destruct (Hpre key Hin) as [?|[->| ->]].
Qed.

Lemma ExtractJsonString_object_witness :
  ExtractJsonString (render_object [(B "status", B "pending"); (B "challenge_id", B "c-42")])
    (B "challenge_id") = B "c-42".
Proof.
  apply (ExtractJsonString_object [(B "status", B "pending")] [] (B "challenge_id") (B "c-42")).
  - apply (bool_decide_unpack _). vm_compute. exact I.
  - apply (bool_decide_unpack _). vm_compute. exact I.
  - intros H. discriminate H.
  - intros H. discriminate H.
Defined.

(** The scalar extractors read the value after the key's colon and nothing
    beyond it. [ExtractJsonInt] skips blanks and returns the decimal value of
    the digits, saturated at [INT_MAX], or the fallback when there is none;
    [ExtractJsonBool] is true exactly when [true] occurs before the first
    comma, brace or newline, so a later field never makes an earlier one true. *)
Theorem ExtractJson_scalars (key s0 sl ws ds lead rest : str) (d fb : Z) (pre post : list str)
  (Hk : dq ∉ key) (Hs0 : dq ∉ s0) (Hpre : Forall (λ s, dq ∉ s) pre) (Hfirst : key ∉ pre)
  (Hsl : 58 ∉ sl) (Hws : Forall (λ c, blank c = true) ws)
  (Hds : Forall (λ c, is_digit c = true) ds) (Hd : d ∈ [44; 125; 10])
  (Hlead : Forall (λ c, c ∉ [44; 125; 10]) lead) :
  ExtractJsonInt
    (quote_join s0 (pre ++ key :: (sl ++ 58 :: ws ++ ds ++ d :: rest) :: post)) key fb
    = (if decide (ds = []) then fb else Z.min INT_MAX (decimal ds)) ∧
  ExtractJsonBool
    (quote_join s0 (pre ++ key :: (sl ++ 58 :: lead ++ d :: rest) :: post)) key
    = containsb lead (B "true").
Proof.
  split; [|by apply ExtractJsonBool_segs].
  apply ExtractJsonInt_segs; [done..|]. intros c r [= <- _].
  assert (Forall (λ c, is_digit c = false ∧ blank c = false) [44; 125; 10]) as H.
  { repeat apply Forall_cons_2; try apply Forall_nil_2; done. }
  eapply Forall_forall in H as [? ?]; [|exact Hd]. done.
Qed.

Lemma ExtractJson_scalars_witness :
  ExtractJsonInt (J "{'error':'rate_limited','retry_after': 30}") (B "retry_after") 5 = 30.
Proof.
  refine (proj1 (ExtractJson_scalars (B "retry_after") (B "{") [] (B " ") (B "30") (B "x") [] 125 5
    [B "error"; B ":"; B "rate_limited"; B ","] [] _ _ _ _ _ _ _ _ _));
    apply (bool_decide_unpack _); vm_compute; exact I.
Defined.
