(* ===== verification/Config.v ===== *)
(** * Configuration of the credential provider

    [Config::LoadFromRegistry], [Config::IsBypassAccount] and
    [ClassifyUrlScheme] of [windows/credential_provider/common.h]. A registry
    key is a finite map from value names to typed byte strings;
    [WinHttpCrackUrl] is the parameter [crack]. *)
From S2P Require Import Prelude.

(** ** Registry *)
Definition REG_SZ : Z := 1.
Definition REG_EXPAND_SZ : Z := 2.
Definition REG_DWORD : Z := 4.

Record RegValue := mkRegValue { rv_type : Z; rv_data : str }.
Abbreviation RegKey := (gmap wstr RegValue).

(** Status, reported type, reported size and buffer after [RegQueryValueExW]. *)
Record RegReply := mkRegReply { rr_ok : bool; rr_type : Z; rr_size : nat; rr_buf : str }.

Definition RegQueryValueExW (k : RegKey) (name : wstr) (type : Z) (size : nat) (buf : str) : RegReply :=
  match k !! name with
  | None => mkRegReply false type size buf
  | Some v =>
    if decide (length (rv_data v) <= size)%nat
    then mkRegReply true (rv_type v) (length (rv_data v)) (rv_data v ++ drop (length (rv_data v)) buf)
    else mkRegReply false (rv_type v) (length (rv_data v)) buf
  end.

(** [hKey && RegQueryValueExW(...) == ERROR_SUCCESS]; a null key is not queried. *)
Definition query (k : option RegKey) (name : wstr) (type : Z) (size : nat) (buf : str) : RegReply :=
  match k with
  | Some k => RegQueryValueExW k name type size buf
  | None => mkRegReply false type size buf
  end.

(** A byte buffer seen as [wchar_t] and as a little-endian [DWORD]. *)
Fixpoint units (b : str) : wstr :=
  match b with
  | lo :: hi :: b' => (lo + 256 * hi) :: units b'
  | _ => []
  end.
Fixpoint le_value (b : str) : Z :=
  match b with
  | [] => 0
  | x :: b' => x + 256 * le_value b'
  end.
Definition dword_of (b : str) : Z := le_value (take 4 b).

Definition blanks : wstr := [32; 9; 13; 10].
(** [find_first_not_of] / [find_last_not_of] / [substr]; [None] for a blank string. *)
Definition trimmed (s : wstr) : option wstr :=
  match find_first_not_of s blanks with
  | None => None
  | Some first =>
    match find_last_not_of s blanks with
    | None => None
    | Some last => Some (substr s first (last - first + 1))
    end
  end.

Section Load.
Variables policy loc : option RegKey.

Definition sz_type (t : Z) : bool := (t =? REG_SZ) || (t =? REG_EXPAND_SZ).

(** The lambda [readString]: the value, or [None] when it returns false. *)
Definition readString (name : wstr) : option wstr :=
  let buf := replicate 4096 0 in
  let r := query policy name 0 4096 buf in
  let first := if rr_ok r && sz_type (rr_type r) then trimmed (c_str (units (rr_buf r))) else None in
  match first with
  | Some s => Some s
  | None =>
    let r := query loc name (rr_type r) 4096 (rr_buf r) in
    if rr_ok r && sz_type (rr_type r) then trimmed (c_str (units (rr_buf r))) else None
  end.

(** The common body of [readDword] and [readInt]: [dwSize] is not reset
    between the two queries. *)
Definition readValue (name : wstr) : option Z :=
  let r := query policy name 0 4 [0; 0; 0; 0] in
  if rr_ok r && (rr_type r =? REG_DWORD) then Some (dword_of (rr_buf r)) else
  let r := query loc name (rr_type r) (rr_size r) (rr_buf r) in
  if rr_ok r && (rr_type r =? REG_DWORD) then Some (dword_of (rr_buf r)) else None.

Definition readDword (name : wstr) (out : bool) : bool :=
  match readValue name with Some v => negb (v =? 0) | None => out end.
Definition readInt (name : wstr) (out : Z) : Z :=
  match readValue name with Some v => i32 v | None => out end.
End Load.

(** ** URL schemes *)
Inductive UrlSchemeKind := SchemeNone | SchemeHttp | SchemeHttps.
Definition INTERNET_SCHEME_HTTP : Z := 1.
Definition INTERNET_SCHEME_HTTPS : Z := 2.

(** What the callers read of [URL_COMPONENTS]. *)
Record UrlComp := mkUrlComp { nScheme : Z; hostName : wstr; nPort : Z }.

Definition ClassifyUrlScheme (crack : wstr → option UrlComp) (url : wstr) : UrlSchemeKind :=
  match crack url with
  | None => SchemeNone
  | Some u =>
    if nScheme u =? INTERNET_SCHEME_HTTPS then SchemeHttps else
    if nScheme u =? INTERNET_SCHEME_HTTP then SchemeHttp else SchemeNone
  end.

(** ** The configuration *)
Record Config := mkConfig {
  serverUrl : wstr;
  serverUrlConfigured : bool;
  fallbackRelayUrl : wstr;
  rdp2faEnabled : bool;
  console2faEnabled : bool;
  elevation2faEnabled : bool;
  fido2Enabled : bool;
  defaultFactor : Z;
  pushTimeoutSec : Z;
  failClose : bool;
  allowSelfSigned : bool;
  allowHttp : bool;
  samProbeEnabled : bool;
  bypassAccounts : list wstr;
}.

#[export] Instance eta_Config : Settable Config := λ c,
  mkConfig (serverUrl c) (serverUrlConfigured c) (fallbackRelayUrl c) (rdp2faEnabled c)
    (console2faEnabled c) (elevation2faEnabled c) (fido2Enabled c) (defaultFactor c)
    (pushTimeoutSec c) (failClose c) (allowSelfSigned c) (allowHttp c) (samProbeEnabled c)
    (bypassAccounts c).

(** The member initialisers. *)
Definition default_Config : Config :=
  mkConfig [] false [] false false false true 0 45 true false false false [].

(** [std::getline(ss, item, L',')] until it fails. *)
Fixpoint getlines (acc s : wstr) : list wstr :=
  match s with
  | [] => if decide (acc = []) then [] else [acc]
  | c :: s' => if decide (c = 44) then acc :: getlines [] s' else getlines (acc ++ [c]) s'
  end.

Definition comma (c : Z) : Z := if (c =? 59) || (c =? 124) then 44 else c.

Definition split_accounts (raw : wstr) : list wstr :=
  omap trimmed (getlines [] (comma <$> raw)).

(** [rs], [rd] and [ri] are the three reader lambdas. *)
Definition load_settings (rs : wstr → option wstr) (rd : wstr → bool → bool) (ri : wstr → Z → Z) : Config :=
  let d := default_Config in
  let url := rs (W "ServerURL") in
  mkConfig
    (default [] url)
    (bool_decide (is_Some url))
    (default (fallbackRelayUrl d) (rs (W "FallbackRelayURL")))
    (rd (W "RDP2FAEnabled") (rdp2faEnabled d))
    (rd (W "Console2FAEnabled") (console2faEnabled d))
    (rd (W "Elevation2FAEnabled") (elevation2faEnabled d))
    (rd (W "FIDO2Enabled") (fido2Enabled d))
    (ri (W "DefaultFactor") (defaultFactor d))
    (ri (W "PushTimeoutSeconds") (pushTimeoutSec d))
    (rd (W "FailClose") (failClose d))
    (rd (W "AllowSelfSigned") (allowSelfSigned d))
    (rd (W "AllowHttp") (allowHttp d))
    (rd (W "SamProbeEnabled") (samProbeEnabled d))
    (bypassAccounts d).

Definition reject_url (cfg : Config) : Config :=
  cfg <| serverUrl := [] |> <| serverUrlConfigured := false |>.

(** The scheme gate on ServerURL. *)
Definition require_https (crack : wstr → option UrlComp) (cfg : Config) : Config :=
  if serverUrlConfigured cfg then
    match ClassifyUrlScheme crack (serverUrl cfg) with
    | SchemeHttps => cfg
    | SchemeHttp => if allowHttp cfg then cfg else reject_url cfg
    | SchemeNone => reject_url cfg
    end
  else cfg.

Definition LoadFromRegistry (crack : wstr → option UrlComp) (policy loc : option RegKey) : Config :=
  let rs := readString policy loc in
  let cfg := require_https crack (load_settings rs (readDword policy loc) (readInt policy loc)) in
  match rs (W "BypassAccounts") with
  | Some raw => cfg <| bypassAccounts := split_accounts raw |>
  | None => cfg
  end.

(** ** Bypass accounts *)

(** The user name without [DOMAIN\] and [@domain], and whether one was cut off. *)
Definition raw_user (username : wstr) : wstr * bool :=
  let '(rawUser, hadDomain) :=
    match find_last_of username [92; 47] with
    | Some slash =>
      if decide (slash + 1 < length username)%nat
      then (substr_from username (slash + 1), true) else (username, false)
    | None => (username, false)
    end in
  match find_ch rawUser 64 0 with
  | Some at_ => (substr rawUser 0 at_, true)
  | None => (rawUser, hadDomain)
  end.

Definition bypass_match (username domain : wstr) (acc : wstr) : bool :=
  let '(rawUser, hadDomain) := raw_user username in
  if decide (ieq acc username) then true else
  if negb hadDomain && bool_decide (ieq acc rawUser) then true else
  if decide (domain = []) then false else
  if decide (ieq acc (domain ++ [92] ++ rawUser)) then true else
  if decide (ieq acc (rawUser ++ [64] ++ domain)) then true else false.

Definition IsBypassAccount (cfg : Config) (username domain : wstr) : bool :=
  if decide (username = [] ∨ bypassAccounts cfg = []) then false
  else existsb (bypass_match username domain) (bypassAccounts cfg).

(** ** Specification vocabulary *)

(** A value the readers accept: [REG_DWORD] of four bytes. *)
Definition dword_value (k : option RegKey) (name : wstr) (v : Z) : Prop :=
  ∃ key d, k = Some key ∧ key !! name = Some (mkRegValue REG_DWORD d) ∧
    length d = 4%nat ∧ v = le_value d.

Definition no_value (k : option RegKey) (name : wstr) : Prop :=
  match k with Some key => key !! name = None | None => True end.

Definition short_name (acc : wstr) : Prop := (92 ∉ acc) ∧ (47 ∉ acc) ∧ (64 ∉ acc).

(** The user typed a domain: [DOMAIN\user], [DOMAIN/user] or [user@domain]. *)
Definition typed_domain (username : wstr) : Prop :=
  (64 ∈ username) ∨
  (∃ d u c, username = d ++ c :: u ∧ (c = 92 ∨ c = 47) ∧ u ≠ [] ∧ (92 ∉ u) ∧ (47 ∉ u)).

(** ** Lemmas *)
Lemma query_dword_value k name v type size buf :
  dword_value k name v → (4 <= size)%nat → 
  query k name type size buf = mkRegReply true REG_DWORD 4 (rr_buf (query k name type size buf)) ∧
  dword_of (rr_buf (query k name type size buf)) = v.
Proof.
  intros (key & d & -> & Hk & Hd & ->) Hs. simpl. unfold RegQueryValueExW. rewrite Hk.
  cbn [rv_data rv_type]. rewrite decide_True by lia. rewrite Hd. cbn [rr_buf]. split; [done|].
  unfold dword_of. by rewrite take_app_length' by done.
Qed.

Lemma query_no_value k name type size buf :
  no_value k name → query k name type size buf = mkRegReply false type size buf.
Proof. destruct k as [k|]; simpl; [|done]. unfold RegQueryValueExW. by intros ->. Qed.

Lemma readValue_policy policy loc name v :
  dword_value policy name v → readValue policy loc name = Some v.
Proof.
  intros Hv. unfold readValue.
  destruct (query_dword_value policy name v 0 4 [0; 0; 0; 0] Hv) as [E1 E2]; [lia|].
  rewrite E1. cbn [rr_ok rr_type rr_buf]. simpl. by rewrite E2.
Qed.

Lemma readValue_local policy loc name v :
  no_value policy name → dword_value loc name v → readValue policy loc name = Some v.
Proof.
  intros Hn Hv. unfold readValue. rewrite (query_no_value policy) by done.
  cbn [rr_ok rr_type rr_buf rr_size andb].
  destruct (query_dword_value loc name v 0 4 [0; 0; 0; 0] Hv) as [E1 E2]; [lia|].
  rewrite E1. cbn [rr_ok rr_type rr_buf]. simpl. by rewrite E2.
Qed.

Lemma readValue_none policy loc name :
  no_value policy name → no_value loc name → readValue policy loc name = None.
Proof. intros Hp Hl. unfold readValue. by rewrite !query_no_value by done. Qed.

Lemma drop_length_app {A} (l r : list A) n : length l = n → drop n (l ++ r) = r.
Proof. intros <-. apply drop_app_length. Qed.

Lemma take_drop_sub {A} (s : list A) a n x : x ∈ take n (drop a s) → x ∈ s.
Proof.
  intros H. rewrite <- (take_drop a s), elem_of_app. right.
  rewrite <- (take_drop n (drop a s)), elem_of_app. by left.
Qed.

(** The trimmed value: not empty, no blank at either end, a factor of the text. *)
Lemma trimmed_spec s t :
  trimmed s = Some t →
  t ≠ [] ∧ (∀ x, head t = Some x → x ∉ blanks) ∧ (∀ x, last t = Some x → x ∉ blanks) ∧
  (∀ x, x ∈ t → x ∈ s).
Proof.
  unfold trimmed, find_first_not_of, find_last_not_of, substr.
  destruct (find_if _ s) as [i|] eqn:Ei; [|done].
  destruct (find_last_if _ s) as [e|] eqn:Ej; [|done].
  intros [= <-].
  apply find_if_Some in Ei as (c & Hc & Hfc & Hi).
  apply find_last_if_Some in Ej as (d & Hd' & Hfd & Hj).
  pose proof (lookup_lt_Some _ _ _ Hc) as Hil.
  pose proof (lookup_lt_Some _ _ _ Hd') as Hjl.
  assert (i <= e)%nat.
  { destruct (decide (i <= e)%nat); [done|]. specialize (Hi e d ltac:(lia) Hd').
    congruence. }
  assert (∀ x, one_of blanks x = false ↔ x ∉ blanks) as Hb.
  { intros x. apply bool_decide_eq_false. }
  rewrite negb_true_iff in Hfc, Hfd.
  assert (length (take (e - i + 1) (drop i s)) = e - i + 1)%nat as Hlen.
  { rewrite length_take, length_drop. lia. }
  split_and!.
  - intros E. rewrite E in Hlen. simpl in Hlen. lia.
  - intros x Hx. rewrite head_lookup, lookup_take_lt, lookup_drop in Hx by lia.
    rewrite Nat.add_0_r, Hc in Hx. injection Hx as <-. by apply Hb.
  - intros x Hx. rewrite last_lookup, Hlen, lookup_take_lt, lookup_drop in Hx by lia.
    replace (i + pred (e - i + 1))%nat with e in Hx by lia. rewrite Hd' in Hx.
    injection Hx as <-. by apply Hb.
  - intros x. apply take_drop_sub.
Qed.

Lemma readString_trimmed policy loc name s :
  readString policy loc name = Some s →
  s ≠ [] ∧ (∀ x, head s = Some x → x ∉ blanks) ∧ (∀ x, last s = Some x → x ∉ blanks).
Proof.
  assert (∀ (b : bool) u, (if b then trimmed u else None) = Some s → s ≠ [] ∧
    (∀ x, head s = Some x → x ∉ blanks) ∧ (∀ x, last s = Some x → x ∉ blanks)) as Ht.
  { intros [] u H; [|done]. by apply trimmed_spec in H as (? & ? & ? & _). }
  unfold readString. cbv zeta. destr_match; [intros [= <-]; eauto|eauto].
Qed.

Lemma getlines_no_comma acc s t : 44 ∉ acc → t ∈ getlines acc s → 44 ∉ t.
Proof.
  revert acc; induction s as [|c s IH]; intros acc Hacc; simpl.
  - destruct (decide (acc = [])); [set_solver|]. by intros ->%list_elem_of_singleton.
  - destruct (decide (c = 44)); [|apply IH; set_solver].
    intros [->|Ht]%elem_of_cons; [done|]. eapply IH; [|done]. set_solver.
Qed.

Lemma getlines_chars acc s t x : t ∈ getlines acc s → x ∈ t → x ∈ acc ∨ x ∈ s.
Proof.
  revert acc; induction s as [|c s IH]; intros acc; simpl.
  - destruct (decide (acc = [])); [set_solver|]. intros ->%list_elem_of_singleton. auto.
  - destruct (decide (c = 44)).
    + intros [->|Ht]%elem_of_cons Hx; [auto|]. destruct (IH [] Ht Hx); set_solver.
    + intros Ht Hx. destruct (IH _ Ht Hx); set_solver.
Qed.

Lemma split_accounts_spec raw acc :
  acc ∈ split_accounts raw →
  acc ≠ [] ∧ (∀ x, head acc = Some x → x ∉ blanks) ∧ (∀ x, last acc = Some x → x ∉ blanks) ∧
  (44 ∉ acc) ∧ (59 ∉ acc) ∧ (124 ∉ acc).
Proof.
  unfold split_accounts. intros Hin. apply list_elem_of_omap in Hin as (item & Hitem & Ht).
  apply trimmed_spec in Ht as (H1 & H2 & H3 & H4).
  assert (∀ x, x ∈ item → x ≠ 59 ∧ x ≠ 124) as Hsep.
  { intros x Hx. destruct (getlines_chars [] _ item x Hitem Hx) as [Hx'|Hx']; [set_solver|].
    apply list_elem_of_fmap in Hx' as (y & -> & _). unfold comma.
    destruct (Z.eqb_spec y 59); [done|]. destruct (Z.eqb_spec y 124); simpl; done. }
  split_and!; [done..| | |].
  - intros H. by eapply (getlines_no_comma [] _ item); [|done|apply H4]; set_solver.
  - intros H. by destruct (Hsep 59 (H4 _ H)).
  - intros H. by destruct (Hsep 124 (H4 _ H)).
Qed.

(** Case folding keeps the separators. *)
Lemma lower_sep (s : wstr) c : ¬ (65 <= c <= 90) → ¬ (97 <= c <= 122) → c ∈ lower <$> s ↔ c ∈ s.
Proof.
  intros H1 H2. rewrite list_elem_of_fmap. split.
  - intros (y & Hy & Hin). unfold lower in Hy. destruct (decide _); [lia|]. by subst.
  - intros Hin. exists c. split; [|done]. unfold lower. by rewrite decide_False by lia.
Qed.

Lemma c_str_id (s : wstr) : 0 ∉ s → c_str s = s.
Proof.
  induction s as [|c s IH]; intros H; simpl; [done|].
  rewrite decide_False by set_solver. f_equal. apply IH. set_solver.
Qed.

Lemma c_str_sub (s : wstr) x : x ∈ c_str s → x ∈ s.
Proof.
  induction s as [|c s IH]; simpl; [done|]. destruct (decide (c = 0)); [set_solver|].
  intros [->|H]%elem_of_cons; set_solver.
Qed.

Lemma ieq_sep acc s c :
  ieq acc s → 0 ∉ s → ¬ (65 <= c <= 90) → ¬ (97 <= c <= 122) → c ∈ s → c ∈ acc.
Proof.
  unfold ieq. intros He H0 H1 H2 Hin. rewrite (c_str_id s) in He by done.
  apply c_str_sub, (lower_sep _ c); [done..|]. rewrite He. by apply lower_sep.
Qed.

Lemma raw_user_sub username x : x ∈ (raw_user username).1 → x ∈ username.
Proof.
  unfold raw_user.
  assert (∀ s a n, x ∈ substr s a n → x ∈ s) as Hs by (intros; by eapply take_drop_sub).
  assert (∀ s a, x ∈ substr_from s a → x ∈ s) as Hd.
  { intros s a H. rewrite <- (take_drop a s), elem_of_app. by right. }
  destruct (find_last_of username [92; 47]) as [n|]; [destruct (decide _)|];
    match goal with |- context [find_ch ?s _ _] => destruct (find_ch s 64 0) end;
    cbn [fst]; eauto.
Qed.

Lemma raw_user_typed username : typed_domain username → (raw_user username).2 = true.
Proof.
  unfold raw_user. intros [Hat|(d & u & c & -> & Hc & Hu & H1 & H2)].
  - assert (∀ (b : bool), ((match find_ch username 64 0 with
      | Some n => (substr username 0 n, true) | None => (username, b) end).2) = true) as Hf.
    { intros b. apply list_elem_of_split in Hat as (l & r & E).
      destruct (find_ch username 64 0) eqn:Ef; [done|]. exfalso.
      unfold find_ch, find in Ef. rewrite decide_True, drop_0 in Ef by lia.
      destruct (find0 [64] username) eqn:E0; [done|].
      apply find0_None in E0. apply E0. by exists l, r. }
    destruct (find_last_of username [92; 47]) as [n|]; [|apply (Hf false)].
    destruct (decide (n + 1 < length username)%nat); [|apply (Hf false)].
    cbv iota beta. by repeat case_match.
  - unfold find_last_of. rewrite find_last_if_app.
    + rewrite decide_True by (rewrite length_app; destruct u; simpl; [done|lia]).
      cbv iota beta. by repeat case_match.
    + apply Forall_forall. intros x Hx. apply bool_decide_eq_false. set_solver.
    + apply bool_decide_eq_true. set_solver.
Qed.

Lemma typed_domain_sep username :
  typed_domain username → ∃ c, (c = 92 ∨ c = 47 ∨ c = 64) ∧ c ∈ username.
Proof. intros [H|(d & u & c & -> & Hc & _)]; [by exists 64; auto|exists c; set_solver]. Qed.

Lemma bypass_match_short username domain acc :
  typed_domain username → 0 ∉ username → 0 ∉ domain → short_name acc →
  bypass_match username domain acc = false.
Proof.
  intros Ht Hu Hd (H1 & H2 & H3).
  assert (∀ s c, (c = 92 ∨ c = 47 ∨ c = 64) → c ∈ s → 0 ∉ s → ¬ ieq acc s) as Hno.
  { intros s c Hc Hin H0 He. pose proof (ieq_sep acc s c He H0) as Hs.
    destruct Hc as [->|[->| ->]]; [apply H1|apply H2|apply H3]; apply Hs; (lia || done). }
  unfold bypass_match. pose proof (raw_user_typed username Ht) as E.
  pose proof (raw_user_sub username 0) as Hr0.
  destruct (raw_user username) as [raw had]. cbn [fst snd] in *. subst had.
  destruct (typed_domain_sep _ Ht) as (c & Hc & Hin).
  rewrite decide_False by (by apply (Hno _ c)). cbn [negb andb].
  destruct (decide (domain = [])); [done|].
  rewrite decide_False by (apply (Hno _ 92); [auto|set_solver..]).
  by rewrite decide_False by (apply (Hno _ 64); [auto|set_solver..]).
Qed.

Lemma existsb_false {A} (f : A → bool) l : (∀ x, x ∈ l → f x = false) → existsb f l = false.
Proof.
  induction l as [|x l IH]; intros H; simpl; [done|].
  rewrite (H x) by set_solver. apply IH. set_solver.
Qed.

(** The last two stages of [LoadFromRegistry] leave the other settings alone. *)
Lemma LoadFromRegistry_cases crack policy loc (P : Config → Prop) :
  (∀ acc, P ((require_https crack (load_settings (readString policy loc) (readDword policy loc)
     (readInt policy loc))) <| bypassAccounts := acc |>)) →
  P (LoadFromRegistry crack policy loc).
Proof.
  intros HP. unfold LoadFromRegistry. cbv zeta. set (cfg := require_https _ _) in *.
  destruct (readString policy loc _); [apply HP|].
  replace cfg with (cfg <| bypassAccounts := bypassAccounts cfg |>) by (by destruct cfg).
  apply HP.
Qed.

Lemma require_https_flags {A} (f : Config → A) crack cfg :
  (∀ c, f (reject_url c) = f c) → f (require_https crack cfg) = f cfg.
Proof. intros Hf. unfold require_https. by repeat case_match. Qed.

Lemma LoadFromRegistry_flags crack policy loc :
  let cfg := LoadFromRegistry crack policy loc in
  rdp2faEnabled cfg = readDword policy loc (W "RDP2FAEnabled") false ∧
  console2faEnabled cfg = readDword policy loc (W "Console2FAEnabled") false ∧
  elevation2faEnabled cfg = readDword policy loc (W "Elevation2FAEnabled") false ∧
  failClose cfg = readDword policy loc (W "FailClose") true.
Proof.
  apply LoadFromRegistry_cases. intros acc. cbn [rdp2faEnabled console2faEnabled
    elevation2faEnabled failClose set_field].
  rewrite !require_https_flags by done. done.
Qed.

Lemma readDword_true policy loc name :
  readDword policy loc name false = true → ∃ v, readValue policy loc name = Some v ∧ v ≠ 0.
Proof.
  unfold readDword. destruct (readValue _ _ _) as [v|]; [|done].
  rewrite negb_true_iff, Z.eqb_neq. eauto.
Qed.

(** ** Properties *)

(** C7: credentials only ever go to an https server. A configuration that
    claims a server has an URL that is not empty and not padded with blanks
    and that [WinHttpCrackUrl] accepts with scheme https, or http when the
    administrator set AllowHttp; any other URL is treated as not configured,
    and then the URL is empty, so the provider is passive. *)
Theorem LoadFromRegistry_https crack policy loc :
  let cfg := LoadFromRegistry crack policy loc in
  if serverUrlConfigured cfg
  then serverUrl cfg ≠ [] ∧ (∀ x, head (serverUrl cfg) = Some x → x ∉ blanks) ∧
       ∃ u, crack (serverUrl cfg) = Some u ∧
         (nScheme u = INTERNET_SCHEME_HTTPS ∨
          nScheme u = INTERNET_SCHEME_HTTP ∧ allowHttp cfg = true)
  else serverUrl cfg = [].
Proof.
  apply LoadFromRegistry_cases. intros acc. cbn [serverUrlConfigured serverUrl set_field allowHttp].
  set (cfg := load_settings _ _ _).
  assert (serverUrlConfigured cfg = true → serverUrl cfg ≠ [] ∧
    (∀ x, head (serverUrl cfg) = Some x → x ∉ blanks)) as Hurl.
  { unfold cfg, load_settings. cbn [serverUrlConfigured serverUrl].
    destruct (readString policy loc (W "ServerURL")) as [u|] eqn:Eu; [|done].
    apply readString_trimmed in Eu as (? & ? & _). done. }
  assert (serverUrlConfigured cfg = false → serverUrl cfg = []) as Hnone.
  { unfold cfg, load_settings. cbn [serverUrlConfigured serverUrl].
    by destruct (readString policy loc (W "ServerURL")). }
  clearbody cfg. unfold require_https, ClassifyUrlScheme.
  destruct (serverUrlConfigured cfg) eqn:Ec; [|rewrite Ec; auto].
  destruct (Hurl eq_refl) as [H1 H2].
  destruct (crack (serverUrl cfg)) as [u|] eqn:Eu; [|done].
  destruct (Z.eqb_spec (nScheme u) INTERNET_SCHEME_HTTPS) as [Hs|]; [rewrite Ec; eauto 10|].
  destruct (Z.eqb_spec (nScheme u) INTERNET_SCHEME_HTTP) as [Hs|]; [|done].
  destruct (allowHttp cfg) eqn:Ea; [rewrite Ec; eauto 10|done].
Qed.

(** Two-factor enforcement is opt-in and the group policy wins. RDP,
    console and elevation enforcement, and AllowHttp, are on only when a
    nonzero [REG_DWORD] says so; a four-byte [REG_DWORD] in the policy key
    decides a setting whatever the machine key holds, and without any value
    the machine fails closed with every scenario off. *)
Theorem LoadFromRegistry_policy crack policy loc :
  let cfg := LoadFromRegistry crack policy loc in
  (∀ v, dword_value policy (W "RDP2FAEnabled") v → rdp2faEnabled cfg = negb (v =? 0)) ∧
  (∀ v, dword_value policy (W "Console2FAEnabled") v → console2faEnabled cfg = negb (v =? 0)) ∧
  (∀ v, dword_value policy (W "FailClose") v → failClose cfg = negb (v =? 0)) ∧
  (∀ v, no_value policy (W "RDP2FAEnabled") → dword_value loc (W "RDP2FAEnabled") v →
     rdp2faEnabled cfg = negb (v =? 0)) ∧
  (rdp2faEnabled cfg = true →
     ∃ v, readValue policy loc (W "RDP2FAEnabled") = Some v ∧ v ≠ 0) ∧
  (console2faEnabled cfg = true →
     ∃ v, readValue policy loc (W "Console2FAEnabled") = Some v ∧ v ≠ 0) ∧
  (elevation2faEnabled cfg = true →
     ∃ v, readValue policy loc (W "Elevation2FAEnabled") = Some v ∧ v ≠ 0) ∧
  (no_value policy (W "FailClose") → no_value loc (W "FailClose") → failClose cfg = true).
Proof.
  intros cfg. destruct (LoadFromRegistry_flags crack policy loc) as (E1 & E2 & E3 & E4).
  fold cfg in E1, E2, E3, E4. rewrite E1, E2, E3, E4.
  split_and!; try (intros; by apply readDword_true).
  - intros v Hv. unfold readDword. by rewrite (readValue_policy _ _ _ v).
  - intros v Hv. unfold readDword. by rewrite (readValue_policy _ _ _ v).
  - intros v Hv. unfold readDword. by rewrite (readValue_policy _ _ _ v).
  - intros v Hn Hv. unfold readDword. by rewrite (readValue_local _ _ _ v).
  - intros Hp Hl. unfold readDword. by rewrite readValue_none.
Qed.

(** A short name in BypassAccounts never exempts a domain account. When the
    typed user name carries a domain ([DOMAIN\user], [DOMAIN/user] or
    [user@domain]), entries without a domain have no effect: the decision is
    the one of the list restricted to the qualified entries, so [administrator]
    in the list does not exempt [CORP\administrator]. Every entry that
    [LoadFromRegistry] puts in the list is non-empty, trimmed and free of the
    separators. *)
Theorem IsBypassAccount_short_entries crack policy loc username domain
  (Ht : typed_domain username) (Hu : 0 ∉ username) (Hd : 0 ∉ domain) :
  let cfg := LoadFromRegistry crack policy loc in
  IsBypassAccount cfg username domain =
    existsb (λ acc, negb (bool_decide (short_name acc)) && bypass_match username domain acc)
      (bypassAccounts cfg) ∧
  (∀ acc, acc ∈ bypassAccounts cfg →
     acc ≠ [] ∧ (44 ∉ acc) ∧ (59 ∉ acc) ∧ (124 ∉ acc) ∧
     (∀ x, head acc = Some x → x ∉ blanks) ∧ (∀ x, last acc = Some x → x ∉ blanks)).
Proof.
  intros cfg. split.
  - unfold IsBypassAccount.
    assert (username ≠ []) as Hne.
    { intros ->. destruct (typed_domain_sep _ Ht) as (c & _ & Hc). set_solver. }
    assert (∀ l, existsb (bypass_match username domain) l = existsb (λ acc,
      negb (bool_decide (short_name acc)) && bypass_match username domain acc) l) as ->.
    { induction l as [|acc l IH]; simpl; [done|]. rewrite IH. f_equal.
      destruct (bool_decide (short_name acc)) eqn:E; [|done].
      apply bool_decide_eq_true in E. by rewrite bypass_match_short. }
    destruct (decide _) as [[?|E]|]; [done| |done]. by rewrite E.
  - assert (bypassAccounts cfg =
      match readString policy loc (W "BypassAccounts") with
      | Some raw => split_accounts raw | None => [] end) as ->.
    { unfold cfg, LoadFromRegistry. cbv zeta. destruct (readString _ _ _); [done|].
      by rewrite require_https_flags. }
    intros acc Hin. destruct (readString _ _ _) as [raw|]; [|by apply not_elem_of_nil in Hin].
    apply split_accounts_spec in Hin as (? & ? & ? & ? & ? & ?). done.
Qed.

(** A test registry: DWORD and string values. *)
Definition reg_dword (v : Z) : RegValue := mkRegValue REG_DWORD [v; 0; 0; 0].
Definition reg_sz (s : wstr) : RegValue :=
  mkRegValue REG_SZ ((s ++ [0]) ≫= λ c, [c mod 256; c / 256]).
Definition test_crack (url : wstr) : option UrlComp :=
  if prefixb (W "https://") url
  then Some (mkUrlComp INTERNET_SCHEME_HTTPS (drop 8 url) 443) else None.
Definition test_policy : RegKey :=
  <[W "ServerURL" := reg_sz (W " https://twofa.corp ")]>
  (<[W "RDP2FAEnabled" := reg_dword 1]>
  (<[W "BypassAccounts" := reg_sz (W "administrator; CORP\backup")]> ∅)).

Lemma LoadFromRegistry_policy_witness :
  rdp2faEnabled (LoadFromRegistry test_crack (Some test_policy) None) = negb (1 =? 0).
Proof.
  apply (proj1 (LoadFromRegistry_policy test_crack (Some test_policy) None) 1).
  exists test_policy, [1; 0; 0; 0]. split_and!; vm_compute; reflexivity.
Defined.

Lemma IsBypassAccount_short_entries_witness :
  bypassAccounts (LoadFromRegistry test_crack (Some test_policy) None)
    = [W "administrator"; W "CORP\backup"] ∧
  IsBypassAccount (LoadFromRegistry test_crack (Some test_policy) None)
    (W "CORP\administrator") [] = false.
Proof.
  split; [vm_compute; reflexivity|].
  etransitivity.
  - apply (IsBypassAccount_short_entries test_crack (Some test_policy) None).
    + right. exists (W "CORP"), (W "administrator"), 92.
      split_and!; [reflexivity|by left|done|..]; apply (bool_decide_unpack _); vm_compute; exact I.
    + apply (bool_decide_unpack _); vm_compute; exact I.
    + apply (bool_decide_unpack _); vm_compute; exact I.
  - vm_compute. reflexivity.
Defined.
