(* ===== verification/HttpClient.v ===== *)
(** * The REST client of the credential provider

    [windows/credential_provider/HttpApiClient.cpp]: URL acceptance, the two
    WinHTTP request routines, the endpoint description, and the five API calls.
    WinHTTP is an oracle: the [n]-th exchange of a run is answered by
    [net n request], and every exchange is kept in a log. *)
From S2P Require Import Prelude Text Config.

(** ** WinHTTP *)
Record Request := mkRequest {
  rq_https : bool;           (* WINHTTP_FLAG_SECURE *)
  rq_host : wstr;
  rq_port : Z;
  rq_ignore_ca : bool;       (* SECURITY_FLAG_IGNORE_UNKNOWN_CA *)
  rq_verb : wstr;
  rq_path : wstr;
  rq_body : str;
}.

(** One round of the read loop: [WinHttpQueryDataAvailable], then [WinHttpReadData]. *)
Record ReadStep := mkReadStep { rd_query : bool; rd_size : Z; rd_ok : bool; rd_data : str }.

(** How an exchange went: the results of [WinHttpConnect], [WinHttpOpenRequest],
    [WinHttpSendRequest] and [WinHttpReceiveResponse], the status code and the
    rounds of the read loop (the list ends where the query fails). *)
Record Attempt := mkAttempt {
  at_connect : bool; at_open : bool; at_send : bool; at_receive : bool;
  at_status : Z; at_reads : list ReadStep;
}.

Abbreviation NetLog := (list (Request * Attempt)).
Abbreviation Net := (nat → Request → Attempt).

Fixpoint read_body (reads : list ReadStep) (out : str) : str :=
  match reads with
  | [] => out
  | r :: reads' =>
    if negb (rd_query r) then out else
    if rd_size r =? 0 then out else
    read_body reads' (if rd_ok r then out ++ rd_data r else out)
  end.

(** The common body of [SendRequest] and [SendRelayRequest]: the result, the
    status code and the response text. *)
Definition exchange (net : Net) (session : bool) (host : wstr) (port : Z) (https selfSigned : bool)
    (verb path : wstr) (body : str) (log : NetLog) : (bool * Z * str) * NetLog :=
  if negb session || bool_decide (host = []) then ((false, 0, []), log) else
  let rq := mkRequest https host port (https && selfSigned) verb path body in
  let a := net (length log) rq in
  let log := log ++ [(rq, a)] in
  if negb (at_connect a) then ((false, 0, []), log) else
  if negb (at_open a) then ((false, 0, []), log) else
  let bResult := at_send a && at_receive a in
  if bResult then ((true, i32 (at_status a), read_body (at_reads a) []), log)
  else ((false, 0, []), log).

(** The request left the machine and a response came back. *)
Definition answered (a : Attempt) : bool :=
  at_connect a && at_open a && at_send a && at_receive a.

(** ** The client object *)
Record HttpApiClient := mkClient {
  m_host : wstr; m_port : Z; m_isHttps : bool;
  m_relayHost : wstr; m_relayPort : Z; m_relayIsHttps : bool;
  m_allowSelfSigned : bool; m_allowHttp : bool;
  m_serviceBase : str; m_hSession : bool; m_receiveTimeoutMs : Z;
  m_lastRetryAfterSec : Z;
}.

#[export] Instance eta_Client : Settable HttpApiClient := λ c,
  mkClient (m_host c) (m_port c) (m_isHttps c) (m_relayHost c) (m_relayPort c) (m_relayIsHttps c)
    (m_allowSelfSigned c) (m_allowHttp c) (m_serviceBase c) (m_hSession c)
    (m_receiveTimeoutMs c) (m_lastRetryAfterSec c).

(** The session's endpoint, as the operating system reports it. *)
Record Adapter := mkAdapter { ad_up : bool; ad_loopback : bool; ad_addrs : list str }.
Record SysInfo := mkSysInfo {
  si_computer : option wstr;               (* GetComputerNameW *)
  si_wts_addr : option (bool * list Z);    (* WTSClientAddress: AF_INET?, Address bytes *)
  si_wts_name : option wstr;               (* WTSClientName *)
  si_adapters : option (list Adapter);     (* GetAdaptersAddresses, IPv4 texts *)
}.

Record SessionEndpointInfo := mkEp {
  clientIp : str; clientName : str; epHostName : str; hostIp : str;
  service : str; clientDesc : str; isRemote : bool;
}.
#[export] Instance eta_Ep : Settable SessionEndpointInfo := λ e,
  mkEp (clientIp e) (clientName e) (epHostName e) (hostIp e) (service e) (clientDesc e) (isRemote e).

Section Client.
Context (crack : wstr → option UrlComp) (net : Net).
Context (WideToUtf8 Utf8ToWide : list Z → list Z) (sys : SysInfo).

(** *** Construction *)
Definition ParseUrl (url : wstr) (c : HttpApiClient) : bool * HttpApiClient :=
  match crack url with
  | None => (false, c)
  | Some u =>
    let accept := c <| m_host := hostName u |> <| m_port := nPort u |>
                    <| m_isHttps := (nScheme u =? INTERNET_SCHEME_HTTPS) |> in
    if negb (nScheme u =? INTERNET_SCHEME_HTTPS) then
      if (nScheme u =? INTERNET_SCHEME_HTTP) && m_allowHttp c then (true, accept)
      else (false, c <| m_host := [] |> <| m_port := 0 |> <| m_isHttps := false |>)
    else (true, accept)
  end.

Definition ParseRelayUrl (url : wstr) (c : HttpApiClient) : bool * HttpApiClient :=
  match crack url with
  | None => (false, c)
  | Some u =>
    if negb (nScheme u =? INTERNET_SCHEME_HTTPS)
    then (false, c <| m_relayHost := [] |> <| m_relayPort := 0 |> <| m_relayIsHttps := false |>)
    else (true, c <| m_relayHost := hostName u |>
                  <| m_relayPort := (if nPort u =? 0 then 8082 else nPort u) |>
                  <| m_relayIsHttps := (nScheme u =? INTERNET_SCHEME_HTTPS) |>)
  end.

(** The constructor; [open] is [WinHttpOpen] succeeding. *)
Definition newClient (serverUrl : wstr) (allowSelfSigned : bool) (receiveTimeoutMs : Z)
    (fallbackRelayUrl : wstr) (allowHttp : bool) (serviceBase : str) (open : bool) : HttpApiClient :=
  let c := mkClient [] 443 true [] 8082 false allowSelfSigned allowHttp serviceBase false 0 0 in
  let c := (ParseUrl serverUrl c).2 in
  let c := if bool_decide (fallbackRelayUrl = []) then c else (ParseRelayUrl fallbackRelayUrl c).2 in
  let c := c <| m_hSession := open |> in
  if open
  then c <| m_receiveTimeoutMs := (if receiveTimeoutMs <? 1000 then 1000 else receiveTimeoutMs) |>
  else c.

(** *** Requests *)
Definition SendRequest (verb path : wstr) (body : str) (c : HttpApiClient) (log : NetLog) :=
  exchange net (m_hSession c) (m_host c) (m_port c) (m_isHttps c) (m_allowSelfSigned c)
    verb path body log.

Definition SendRelayRequest (verb path : wstr) (body : str) (c : HttpApiClient) (log : NetLog) :=
  exchange net (m_hSession c) (m_relayHost c) (m_relayPort c) (m_relayIsHttps c)
    (m_allowSelfSigned c) verb path body log.

(** *** Endpoint description *)
Definition ApplyServiceBase (ep : SessionEndpointInfo) (base : str) : SessionEndpointInfo :=
  if bool_decide (base = []) then ep
  else ep <| service := base ++ B " (" ++
                (if bool_decide (epHostName ep = []) then B "Устройство" else epHostName ep) ++ B ")" |>.

Definition or_text (s text : str) : str := if bool_decide (s = []) then text else s.

(** [snprintf("%u.%u.%u.%u", Address[2..5])] *)
Definition dotted (a : list Z) : str :=
  let b i := to_string (nth i a 0) in
  b 2%nat ++ [46] ++ b 3%nat ++ [46] ++ b 4%nat ++ [46] ++ b 5%nat.

Definition usable_ip (ip : str) : bool :=
  negb (prefixb (B "127.") ip) && negb (bool_decide (ip = B "0.0.0.0")).

(** The adapter loop: the first usable address of the first adapter that has one. *)
Fixpoint first_host_ip (l : list Adapter) : str :=
  match l with
  | [] => []
  | a :: l' =>
    if negb (ad_up a) || ad_loopback a then first_host_ip l' else
    match List.find usable_ip (ad_addrs a) with
    | Some ip => if bool_decide (ip = []) then first_host_ip l' else ip
    | None => first_host_ip l'
    end
  end.

(** The stages of [GetSessionEndpointInfo], in order. *)
Definition ep_host (info : SessionEndpointInfo) : SessionEndpointInfo :=
  match si_computer sys with
  | Some n => info <| epHostName := WideToUtf8 n |>
  | None => info
  end.

Definition ep_client_addr (info : SessionEndpointInfo) : SessionEndpointInfo :=
  match si_wts_addr sys with
  | Some (true, a) =>
    if bool_decide (dotted a = B "0.0.0.0") then info
    else info <| clientIp := dotted a |> <| isRemote := true |>
  | _ => info
  end.

Definition ep_client_name (info : SessionEndpointInfo) : SessionEndpointInfo :=
  match si_wts_name sys with
  | Some n => if bool_decide (n = []) then info
              else info <| clientName := WideToUtf8 n |> <| isRemote := true |>
  | None => info
  end.

Definition ep_host_ip (info : SessionEndpointInfo) : SessionEndpointInfo :=
  match si_adapters sys with
  | Some l => info <| hostIp := first_host_ip l |>
  | None => info
  end.

Definition ep_describe (info : SessionEndpointInfo) : SessionEndpointInfo :=
  if isRemote info then
    info <| service := B "Windows RDP (" ++ or_text (epHostName info) (B "Сервер") ++ B ")" |>
         <| clientDesc := B "Windows RDP (" ++ or_text (clientName info) (B "Клиент") ++ B ")" |>
  else
    info
      <| service := B "Windows (" ++ or_text (epHostName info) (B "Консоль") ++ B ")" |>
      <| clientDesc := B "Локальная консоль (" ++ or_text (epHostName info) (B "Консоль") ++ B ")" |>
      <| clientIp := or_text (clientIp info) (or_text (hostIp info) (B "127.0.0.1")) |>
      <| clientName := or_text (clientName info) (epHostName info) |>.

Definition GetSessionEndpointInfo : SessionEndpointInfo :=
  ep_describe (ep_host_ip (ep_client_name (ep_client_addr (ep_host (mkEp [] [] [] [] [] [] false))))).

Definition endpoint (c : HttpApiClient) : SessionEndpointInfo :=
  ApplyServiceBase GetSessionEndpointInfo (m_serviceBase c).

(** The common tail of the request bodies. *)
Definition endpoint_json (ep : SessionEndpointInfo) : str :=
  J "','service':'" ++ EscapeJson (service ep) ++
  J "','client':'" ++ EscapeJson (clientDesc ep) ++
  J "','host':'" ++ EscapeJson (epHostName ep) ++
  J "','client_ip':'" ++ EscapeJson (clientIp ep) ++
  J "','host_ip':'" ++ EscapeJson (hostIp ep) ++
  J "','client_name':'" ++ EscapeJson (clientName ep) ++
  J "','computer_name':'" ++ EscapeJson (epHostName ep) ++ J "'}".

Definition start_body (username password : wstr) (ep : SessionEndpointInfo) : str :=
  J "{'username':'" ++ EscapeJson (WideToUtf8 username) ++
  J "','password':'" ++ EscapeJson (WideToUtf8 password) ++ endpoint_json ep.

Definition combined_body (username password code : wstr) (ep : SessionEndpointInfo) : str :=
  J "{'username':'" ++ EscapeJson (WideToUtf8 username) ++
  J "','password':'" ++ EscapeJson (WideToUtf8 password) ++
  J "','code':'" ++ EscapeJson (WideToUtf8 code) ++ endpoint_json ep.

Definition relay_body (username password code : wstr) : str :=
  J "{'username':'" ++ EscapeJson (WideToUtf8 username) ++
  J "','password':'" ++ EscapeJson (WideToUtf8 password) ++
  J "','totp_code':'" ++ EscapeJson (WideToUtf8 code) ++ J "'}".

Definition poll_body (challengeId : wstr) : str :=
  J "{'challenge_id':'" ++ WideToUtf8 challengeId ++ J "'}".

(** [outError = ExtractJsonString(response, "error"); if empty, status_<n>] *)
Definition server_error (response : str) (status : Z) : str :=
  let e := ExtractJsonString response (B "error") in
  if bool_decide (e = []) then B "status_" ++ to_string status else e.

Definition set_retry (response : str) (c : HttpApiClient) : HttpApiClient :=
  c <| m_lastRetryAfterSec := ExtractJsonInt response (B "retry_after") 0 |>.

(** *** The API calls. The out-parameters are empty at every call site. *)
Record StartOut := mkStart { so_ok : bool; so_challenge : wstr; so_number : wstr; so_error : str }.

Definition StartPush (username password : wstr) (c : HttpApiClient) (log : NetLog) :
    StartOut * HttpApiClient * NetLog :=
  let body := start_body username password (endpoint c) in
  let c := c <| m_lastRetryAfterSec := 0 |> in
  let '((sent, status, response), log) :=
    SendRequest (W "POST") (W "/api/v1/auth/start") body c log in
  if negb sent then (mkStart false [] [] (B "network_error"), c, log) else
  let cid := ExtractJsonString response (B "challenge_id") in
  if (status =? 200) && negb (bool_decide (cid = []))
  then (mkStart true (Utf8ToWide cid)
          (Utf8ToWide (ExtractJsonString response (B "number_match"))) [], c, log)
  else (mkStart false [] [] (server_error response status), set_retry response c, log).

Record PollOut := mkPoll { po_ok : bool; po_status : wstr; po_error : str; po_ticket : str }.

Definition PollStatus (challengeId : wstr) (c : HttpApiClient) (log : NetLog) :
    PollOut * HttpApiClient * NetLog :=
  let '((sent, status, response), log) :=
    SendRequest (W "POST") (W "/api/v1/auth/poll") (poll_body challengeId) c log in
  if negb sent then (mkPoll false [] (B "network_error") [], c, log) else
  let st := ExtractJsonString response (B "status") in
  if (status =? 200) && negb (bool_decide (st = []))
  then (mkPoll true (Utf8ToWide st) [] (ExtractJsonString response (B "sso_ticket")), c, log)
  else (mkPoll false [] (ExtractJsonString response (B "error")) [], c, log).

Definition VerifyCombined (username password code : wstr) (c : HttpApiClient) (log : NetLog) :
    (bool * str) * HttpApiClient * NetLog :=
  let body := combined_body username password code (endpoint c) in
  let c := c <| m_lastRetryAfterSec := 0 |> in
  let '((coreSuccess, status, response), log) :=
    SendRequest (W "POST") (W "/api/v1/auth/combined") body c log in
  if coreSuccess && (status =? 200) && ExtractJsonBool response (B "ok")
  then ((true, []), c, log) else
  let core_failed log :=
    if negb coreSuccess then ((false, B "network_error"), c, log)
    else ((false, server_error response status), set_retry response c, log) in
  if (negb coreSuccess || (500 <=? status)) && negb (bool_decide (m_relayHost c = [])) then
    let '((relaySent, relayStatus, relayResponse), log) :=
      SendRelayRequest (W "POST") (W "/api/v1/auth/verify") (relay_body username password code) c log in
    if relaySent then
      if (relayStatus =? 200) && ExtractJsonBool relayResponse (B "ok")
      then ((true, []), c, log)
      else ((false, server_error relayResponse relayStatus), c, log)
    else core_failed log
  else core_failed log.

Record WebAuthnBeginResult := mkBegin {
  wb_success : bool; wb_handle : str; wb_challengeId : str; wb_options : str; wb_error : str;
}.

Definition WebAuthnBegin (username password : wstr) (c : HttpApiClient) (log : NetLog) :
    WebAuthnBeginResult * HttpApiClient * NetLog :=
  let body := start_body username password (endpoint c) in
  let c := c <| m_lastRetryAfterSec := 0 |> in
  let '((sent, status, response), log) :=
    SendRequest (W "POST") (W "/api/v1/auth/webauthn/begin") body c log in
  if negb sent then (mkBegin false [] [] [] (B "network_error"), c, log) else
  if status =? 200 then
    let handle := ExtractJsonString response (B "handle") in
    (mkBegin (negb (bool_decide (handle = []))) handle
       (ExtractJsonString response (B "challenge_id")) response [], c, log)
  else (mkBegin false [] [] [] (server_error response status), set_retry response c, log).

Definition WebAuthnFinish (handle assertionJson : str) (c : HttpApiClient) (log : NetLog) :
    (bool * str) * HttpApiClient * NetLog :=
  let path := W "/api/v1/auth/webauthn/finish?handle=" ++ Utf8ToWide handle in
  let c := c <| m_lastRetryAfterSec := 0 |> in
  let '((sent, status, response), log) := SendRequest (W "POST") path assertionJson c log in
  if negb sent then ((false, B "network_error"), c, log) else
  if status =? 200 then ((true, []), c, log)
  else ((false, server_error response status), set_retry response c, log).
End Client.

Arguments dotted : simpl never.
Arguments or_text : simpl never.

(** ** Specification *)

(** A reader of flat JSON objects of strings. *)
Fixpoint read_members (fuel : nat) (s : str) : option (list (str * str) * str) :=
  match fuel with
  | O => None
  | S fuel =>
    match s with
    | q :: s1 =>
      if negb (q =? dq) then None else
      match json_read s1 with
      | Some (k, 58 :: q2 :: s2) =>
        if negb (q2 =? dq) then None else
        match json_read s2 with
        | Some (v, 44 :: s3) => (λ '(fs, r), ((k, v) :: fs, r)) <$> read_members fuel s3
        | Some (v, 125 :: s3) => Some ([(k, v)], s3)
        | _ => None
        end
      | _ => None
      end
    | [] => None
    end
  end.

Definition read_object (s : str) : option (list (str * str) * str) :=
  match s with
  | 123 :: s' => read_members (length s') s'
  | _ => None
  end.

Definition escaped (f : str * str) : str * str := (EscapeJson f.1, EscapeJson f.2).

Definition endpoint_fields (ep : SessionEndpointInfo) : list (str * str) :=
  [(B "service", service ep); (B "client", clientDesc ep); (B "host", epHostName ep);
   (B "client_ip", clientIp ep); (B "host_ip", hostIp ep); (B "client_name", clientName ep);
   (B "computer_name", epHostName ep)].

(** Where a request may go and how, for given settings. *)
Definition secure_request (crack : wstr → option UrlComp) (serverUrl relayUrl : wstr)
    (selfSigned allowHttp : bool) (rq : Request) : Prop :=
  ((∃ u, crack serverUrl = Some u ∧ rq_host rq = hostName u ∧ rq_port rq = nPort u ∧
      (nScheme u = INTERNET_SCHEME_HTTPS ∧ rq_https rq = true ∨
       nScheme u = INTERNET_SCHEME_HTTP ∧ allowHttp = true ∧ rq_https rq = false)) ∨
   (∃ u, relayUrl ≠ [] ∧ crack relayUrl = Some u ∧ nScheme u = INTERNET_SCHEME_HTTPS ∧
      rq_host rq = hostName u ∧ rq_https rq = true)) ∧
  (rq_ignore_ca rq = true → selfSigned = true ∧ rq_https rq = true).

(** ** Lemmas *)
Lemma B_bytes s : Forall is_byte (B s).
Proof.
  induction s as [|a s IH]; [constructor|]. apply Forall_cons. split; [|done].
  unfold is_byte. pose proof (Ascii.N_ascii_bounded a). lia.
Qed.

Lemma to_string_bytes z : Forall is_byte (to_string z).
Proof. apply B_bytes. Qed.

Lemma EscapeJson_length s : (length s <= length (EscapeJson s))%nat.
Proof.
  unfold EscapeJson. induction s as [|c s IH]; [done|]. cbn [mbind list_bind].
  rewrite length_app. assert (1 <= length (escape_char c))%nat; [|simpl; lia].
  unfold escape_char. repeat case_match; simpl; lia.
Qed.

Lemma render_field_escaped k v rest :
  render_field (escaped (k, v)) ++ rest =
    dq :: (EscapeJson k ++ dq :: 58 :: dq :: (EscapeJson v ++ dq :: rest)).
Proof.
  unfold render_field, escaped. cbn [fst snd]. cbn [app].
  repeat progress (rewrite <- ?app_assoc; cbn [app]). done.
Qed.

Lemma read_members_render fs rest fuel :
  fs ≠ [] → (length fs <= fuel)%nat →
  Forall (λ f, Forall is_byte f.1 ∧ Forall is_byte f.2) fs →
  read_members fuel (render_fields (escaped <$> fs) ++ 125 :: rest) = Some (fs, rest).
Proof.
  intros Hne. revert fuel. induction fs as [|[k v] fs IH]; intros fuel Hfuel Hb; [done|].
  apply Forall_cons in Hb as [[Hk Hv] Hb]. cbn [fst snd] in Hk, Hv.
  destruct fuel as [|fuel]; [simpl in Hfuel; lia|].
  destruct fs as [|g fs].
  - cbn [fmap list_fmap render_fields]. rewrite render_field_escaped.
    cbn [read_members]. rewrite Z.eqb_refl. cbn [negb].
    rewrite json_read_EscapeJson by done. rewrite Z.eqb_refl. cbn [negb].
    by rewrite json_read_EscapeJson by done.
  - change (render_fields (escaped <$> (k, v) :: g :: fs))
      with (render_field (escaped (k, v)) ++ [44] ++ render_fields (escaped <$> g :: fs)).
    rewrite <- app_assoc, render_field_escaped.
    cbn [read_members]. rewrite Z.eqb_refl. cbn [negb].
    rewrite json_read_EscapeJson by done. rewrite Z.eqb_refl. cbn [negb].
    rewrite json_read_EscapeJson by done. rewrite <- app_assoc. cbn [app].
    rewrite IH; [done|done|simpl in *; lia|done].
Qed.

Lemma render_fields_length fs : (length fs <= length (render_fields fs))%nat.
Proof.
  induction fs as [|f [|g fs] IH]; [done|simpl; lia|].
  change (render_fields (f :: g :: fs)) with (render_field f ++ [44] ++ render_fields (g :: fs)).
  rewrite !length_app. simpl in *. lia.
Qed.

(** The rendered object reads back. *)
Lemma read_object_render fs :
  fs ≠ [] → Forall (λ f, Forall is_byte f.1 ∧ Forall is_byte f.2) fs →
  read_object (render_object (escaped <$> fs)) = Some (fs, []).
Proof.
  intros Hne Hb. unfold read_object, render_object. cbn [app].
  apply read_members_render; [done| |done].
  rewrite length_app. pose proof (render_fields_length (escaped <$> fs)) as H.
  rewrite length_fmap in H. lia.
Qed.

(** A body written as literals around escaped values is a rendered object. *)
Ltac body_is_object :=
  unfold start_body, combined_body, relay_body, endpoint_json, endpoint_fields;
  unfold render_object, escaped; cbn [fmap list_fmap fst snd render_fields app];
  unfold render_field; cbn [fst snd];
  repeat match goal with
  | |- context [J ?l] => let x := eval vm_compute in (J l) in change (J l) with x
  | |- context [EscapeJson (B ?l)] =>
    let x := eval vm_compute in (EscapeJson (B l)) in change (EscapeJson (B l)) with x
  end;
  repeat progress (rewrite <- ?app_assoc; cbn [app]); reflexivity.

Lemma start_body_object w username password ep :
  start_body w username password ep = render_object (escaped <$>
    ([(B "username", w username); (B "password", w password)] ++ endpoint_fields ep)).
Proof. body_is_object. Qed.

Lemma combined_body_object w username password code ep :
  combined_body w username password code ep = render_object (escaped <$>
    ([(B "username", w username); (B "password", w password); (B "code", w code)]
       ++ endpoint_fields ep)).
Proof. body_is_object. Qed.

Lemma relay_body_object w username password code :
  relay_body w username password code = render_object (escaped <$>
    [(B "username", w username); (B "password", w password); (B "totp_code", w code)]).
Proof. body_is_object. Qed.

Definition ep_bytes (ep : SessionEndpointInfo) : Prop :=
  Forall is_byte (clientIp ep) ∧ Forall is_byte (clientName ep) ∧ Forall is_byte (epHostName ep) ∧
  Forall is_byte (hostIp ep) ∧ Forall is_byte (service ep) ∧ Forall is_byte (clientDesc ep).

Definition sys_bytes (sys : SysInfo) : Prop :=
  ∀ l, si_adapters sys = Some l → Forall (λ a, Forall (Forall is_byte) (ad_addrs a)) l.

Lemma or_text_bytes s t : Forall is_byte s → Forall is_byte t → Forall is_byte (or_text s t).
Proof. unfold or_text. by case_match. Qed.

Lemma dotted_bytes a : Forall is_byte (dotted a).
Proof.
  unfold dotted. repeat (apply Forall_app; split); try apply to_string_bytes;
    (apply Forall_singleton; unfold is_byte; lia).
Qed.

Lemma first_host_ip_bytes l :
  Forall (λ a, Forall (Forall is_byte) (ad_addrs a)) l → Forall is_byte (first_host_ip l).
Proof.
  induction 1 as [|a l Ha Hl IH]; simpl; [constructor|].
  case_match; [done|]. destruct (List.find usable_ip (ad_addrs a)) as [ip|] eqn:E; [|done].
  case_match; [done|]. apply find_some in E as [Hin _].
  rewrite Forall_forall in Ha. by apply Ha, list_elem_of_In.
Qed.

Ltac ep_solve :=
  unfold ep_bytes in *; cbn in *; destruct_and?; split_and?;
  repeat first [done | apply B_bytes | apply dotted_bytes | apply or_text_bytes | by auto
               | apply Forall_app; split].

Lemma GetSessionEndpointInfo_bytes (w : list Z → list Z) sys :
  (∀ x, Forall is_byte (w x)) → sys_bytes sys → ep_bytes (GetSessionEndpointInfo w sys).
Proof.
  intros Hw Hsys. unfold GetSessionEndpointInfo.
  assert (∀ i, ep_bytes i → ep_bytes (ep_host w sys i)) as H1.
  { intros i H. unfold ep_host. case_match; [ep_solve|done]. }
  assert (∀ i, ep_bytes i → ep_bytes (ep_client_addr sys i)) as H2.
  { intros i H. unfold ep_client_addr. repeat case_match; try done. ep_solve. }
  assert (∀ i, ep_bytes i → ep_bytes (ep_client_name w sys i)) as H3.
  { intros i H. unfold ep_client_name. repeat case_match; try done. ep_solve. }
  assert (∀ i, ep_bytes i → ep_bytes (ep_host_ip sys i)) as H4.
  { intros i H. unfold ep_host_ip. destruct (si_adapters sys) as [l|] eqn:E; [|done].
    pose proof (first_host_ip_bytes l (Hsys l E)). ep_solve. }
  assert (∀ i, ep_bytes i → ep_bytes (ep_describe i)) as H5.
  { intros i H. unfold ep_describe. case_match; ep_solve. }
  apply H5, H4, H3, H2, H1. unfold ep_bytes; simpl; split_and!; constructor.
Qed.

Lemma endpoint_bytes (w : list Z → list Z) sys c :
  (∀ x, Forall is_byte (w x)) → sys_bytes sys → Forall is_byte (m_serviceBase c) →
  Forall (λ f, Forall is_byte f.1 ∧ Forall is_byte f.2) (endpoint_fields (endpoint w sys c)).
Proof.
  intros Hw Hsys Hc. assert (ep_bytes (endpoint w sys c)) as H.
  { pose proof (GetSessionEndpointInfo_bytes w sys Hw Hsys) as (?&?&?&?&?&?).
    unfold endpoint, ApplyServiceBase. case_match; [done|].
    unfold ep_bytes; cbn; split_and!; try done.
    repeat (apply Forall_app; split); try done; try apply B_bytes.
    case_match; [apply B_bytes|done]. }
  destruct H as (?&?&?&?&?&?). unfold endpoint_fields.
  repeat apply Forall_cons_2; try apply Forall_nil_2; cbn [fst snd]; split; try done; apply B_bytes.
Qed.

(** *** Requests and the log *)
Lemma exchange_log net sess host port https ss verb path body log r log' :
  exchange net sess host port https ss verb path body log = (r, log') →
  (log' = log ∧ r = (false, 0, []) ∧ (sess = false ∨ host = [])) ∨
  (∃ a, log' = log ++ [(mkRequest https host port (https && ss) verb path body, a)] ∧
     a = net (length log) (mkRequest https host port (https && ss) verb path body) ∧
     sess = true ∧ host ≠ [] ∧
     if answered a then r = (true, i32 (at_status a), read_body (at_reads a) [])
     else r = (false, 0, [])).
Proof.
  unfold exchange. destruct sess; cbn [negb orb]; [|intros [= <- <-]; auto].
  destruct (bool_decide_reflect (host = [])); [intros [= <- <-]; auto|].
  set (rq := mkRequest _ _ _ _ _ _ _). set (a := net _ rq). cbv zeta. intros H.
  right. exists a. unfold answered.
  destruct (at_connect a), (at_open a), (at_send a), (at_receive a); cbn in *; by simplify_eq.
Qed.

Lemma exchange_length net sess host port https ss verb path body log r log' :
  exchange net sess host port https ss verb path body log = (r, log') →
  (length log' <= length log + 1)%nat.
Proof.
  intros E. apply exchange_log in E as [(-> & _)|(a & -> & _)]; [lia|].
  rewrite length_app. simpl. lia.
Qed.

Lemma server_error_nonempty response status : server_error response status ≠ [].
Proof. unfold server_error. cbv zeta. case_bool_decide; done. Qed.

Lemma status_not_network status : B "status_" ++ to_string status ≠ B "network_error".
Proof. by vm_compute. Qed.

Lemma server_error_network response status :
  server_error response status = B "network_error" ↔
  ExtractJsonString response (B "error") = B "network_error".
Proof.
  unfold server_error. cbv zeta. case_bool_decide as E; [|done]. rewrite E.
  split; [|done]. intros H. by apply status_not_network in H.
Qed.

(** A predicate of requests that holds for a client's core and relay requests. *)
Definition client_inv (P : Request → Prop) (c : HttpApiClient) : Prop :=
  (∀ verb path body, m_host c ≠ [] → P (mkRequest (m_isHttps c) (m_host c) (m_port c)
     (m_isHttps c && m_allowSelfSigned c) verb path body)) ∧
  (∀ verb path body, m_relayHost c ≠ [] → P (mkRequest (m_relayIsHttps c) (m_relayHost c)
     (m_relayPort c) (m_relayIsHttps c && m_allowSelfSigned c) verb path body)).

Lemma SendRequest_inv P net verb path body c log r log' :
  client_inv P c → Forall (λ x, P x.1) log →
  SendRequest net verb path body c log = (r, log') → Forall (λ x, P x.1) log'.
Proof.
  intros [Hc _] Hl E. apply exchange_log in E as [(-> & _)|(a & -> & _ & _ & Hne & _)]; [done|].
  apply Forall_app. split; [done|]. apply Forall_singleton. by apply Hc.
Qed.

Lemma SendRelayRequest_inv P net verb path body c log r log' :
  client_inv P c → Forall (λ x, P x.1) log →
  SendRelayRequest net verb path body c log = (r, log') → Forall (λ x, P x.1) log'.
Proof.
  intros [_ Hc] Hl E. apply exchange_log in E as [(-> & _)|(a & -> & _ & _ & Hne & _)]; [done|].
  apply Forall_app. split; [done|]. apply Forall_singleton. by apply Hc.
Qed.

Lemma client_inv_retry P c n : client_inv P c → client_inv P (c <| m_lastRetryAfterSec := n |>).
Proof. done. Qed.

Lemma client_inv_set_retry P response c : client_inv P c → client_inv P (set_retry response c).
Proof. done. Qed.

(** One API call on a client. *)
Inductive api_step (net : Net) (w u : list Z → list Z) (sys : SysInfo) :
    HttpApiClient * NetLog → HttpApiClient * NetLog → Prop :=
  | StepStart username password c log o c' log' :
      StartPush net w u sys username password c log = (o, c', log') →
      api_step net w u sys (c, log) (c', log')
  | StepPoll cid c log o c' log' :
      PollStatus net w u cid c log = (o, c', log') →
      api_step net w u sys (c, log) (c', log')
  | StepCombined username password code c log o c' log' :
      VerifyCombined net w sys username password code c log = (o, c', log') →
      api_step net w u sys (c, log) (c', log')
  | StepBegin username password c log o c' log' :
      WebAuthnBegin net w sys username password c log = (o, c', log') →
      api_step net w u sys (c, log) (c', log')
  | StepFinish handle json c log o c' log' :
      WebAuthnFinish net u handle json c log = (o, c', log') →
      api_step net w u sys (c, log) (c', log').

Lemma api_step_inv P net w u sys x y :
  api_step net w u sys x y → client_inv P x.1 → Forall (λ x, P x.1) x.2 →
  client_inv P y.1 ∧ Forall (λ x, P x.1) y.2.
Proof.
  intros Hs; destruct Hs as [us pw c log o c' log' E|cid c log o c' log' E
    |us pw cd c log o c' log' E|us pw c log o c' log' E|h j c log o c' log' E]; intros Hc Hl;
    cbn [fst snd] in *.
  - unfold StartPush in E. destruct (SendRequest _ _ _ _ _ log) as [[[s st] rs] l1] eqn:E1.
    eapply SendRequest_inv in E1; [|by apply client_inv_retry|exact Hl].
    repeat case_match; simplify_eq; done.
  - unfold PollStatus in E. destruct (SendRequest _ _ _ _ _ log) as [[[s st] rs] l1] eqn:E1.
    eapply SendRequest_inv in E1; [|exact Hc|exact Hl].
    repeat case_match; simplify_eq; done.
  - unfold VerifyCombined in E. destruct (SendRequest _ _ _ _ _ log) as [[[s st] rs] l1] eqn:E1.
    eapply SendRequest_inv in E1; [|by apply client_inv_retry|exact Hl].
    case_match; [by simplify_eq|].
    case_match.
    + destruct (SendRelayRequest _ _ _ _ _ l1) as [[[s2 st2] rs2] l2] eqn:E2.
      eapply SendRelayRequest_inv in E2; [|by apply client_inv_retry|exact E1].
      repeat case_match; simplify_eq; done.
    + repeat case_match; simplify_eq; done.
  - unfold WebAuthnBegin in E. destruct (SendRequest _ _ _ _ _ log) as [[[s st] rs] l1] eqn:E1.
    eapply SendRequest_inv in E1; [|by apply client_inv_retry|exact Hl].
    repeat case_match; simplify_eq; done.
  - unfold WebAuthnFinish in E. destruct (SendRequest _ _ _ _ _ log) as [[[s st] rs] l1] eqn:E1.
    eapply SendRequest_inv in E1; [|by apply client_inv_retry|exact Hl].
    repeat case_match; simplify_eq; done.
Qed.

Lemma newClient_inv crack serverUrl ss tmo relay ah base open :
  client_inv (secure_request crack serverUrl relay ss ah)
    (newClient crack serverUrl ss tmo relay ah base open).
Proof.
  unfold newClient. cbv zeta. set (c0 := mkClient _ _ _ _ _ _ _ _ _ _ _ _).
  set (P := secure_request _ _ _ _ _).
  assert (client_inv P (ParseUrl crack serverUrl c0).2 ∧
    m_allowSelfSigned (ParseUrl crack serverUrl c0).2 = ss) as [H1 Hss].
  { unfold ParseUrl. destruct (crack serverUrl) as [uc|] eqn:Eu; [|by split; [split|]].
    destruct (Z.eqb_spec (nScheme uc) INTERNET_SCHEME_HTTPS) as [Hs|Hs]; cbn [negb].
    - split; [|done]. split; [|done]. intros verb path body Hne. cbn in *. split; [|by cbn].
      left. exists uc. split_and!; [done..|]. left. done.
    - destruct (Z.eqb_spec (nScheme uc) INTERNET_SCHEME_HTTP) as [Hh|]; cbn [andb];
        [|by split; [split|]].
      destruct ah eqn:Ea; cbn [m_allowHttp c0]; [|by split; [split|]].
      split; [|done]. split; [|done]. intros verb path body Hne. cbn in *. split; [|by cbn].
      left. exists uc. split_and!; [done..|]. right. done. }
  clearbody c0. set (c1 := (ParseUrl crack serverUrl c0).2) in *. clearbody c1.
  assert (client_inv P (if bool_decide (relay = []) then c1 else (ParseRelayUrl crack relay c1).2)) as H2.
  { case_bool_decide; [done|]. unfold ParseRelayUrl.
    destruct (crack relay) as [uc|] eqn:Eu; [|done].
    destruct (Z.eqb_spec (nScheme uc) INTERNET_SCHEME_HTTPS) as [Hs|Hs]; cbn [negb].
    - split; [by destruct H1|]. intros verb path body Hne. cbn in *. split.
      + right. exists uc. done.
      + cbn. intros Hi. rewrite Hss in Hi. done.
    - split; [by destruct H1|]. done. }
  by destruct open.
Qed.

(** ** Properties *)

(** C12: no field of a request can be injected or altered. Whatever the user
    typed as name, password or code, and whatever names the session reports,
    a JSON reader reads the body of each credential request back as exactly
    the intended fields, in order, with the intended values: quotes,
    backslashes and control characters never add, drop or change a field. *)
Theorem request_bodies_faithful (w : list Z → list Z) sys c username password code
  (Hw : ∀ x, Forall is_byte (w x)) (Hsys : sys_bytes sys) (Hc : Forall is_byte (m_serviceBase c)) :
  let ep := endpoint w sys c in
  read_object (start_body w username password ep) =
    Some ([(B "username", w username); (B "password", w password)] ++ endpoint_fields ep, []) ∧
  read_object (combined_body w username password code ep) =
    Some ([(B "username", w username); (B "password", w password); (B "code", w code)]
      ++ endpoint_fields ep, []) ∧
  read_object (relay_body w username password code) =
    Some ([(B "username", w username); (B "password", w password); (B "totp_code", w code)], []).
Proof.
  intros ep. rewrite start_body_object, combined_body_object, relay_body_object.
  pose proof (endpoint_bytes w sys c Hw Hsys Hc) as Hep.
  split_and!; apply read_object_render; try done;
    repeat (apply Forall_cons_2; [split; [apply B_bytes|apply Hw]|]); try done.
Qed.

Definition ascii_u8 (x : wstr) : str := u8 <$> x.

Lemma request_bodies_faithful_witness :
  read_object (relay_body ascii_u8 (W "CORP\al") [34; 44; 34; 120; 34; 58; 49] (W "123456")) =
    Some ([(B "username", B "CORP\al"); (B "password", [34; 44; 34; 120; 34; 58; 49]);
           (B "totp_code", B "123456")], []).
Proof.
  refine (proj2 (proj2 (request_bodies_faithful ascii_u8 (mkSysInfo None None None None)
    (newClient (λ _, None) [] false 0 [] false [] true) (W "CORP\al")
    [34; 44; 34; 120; 34; 58; 49] (W "123456") _ _ _))).
  - intros x. unfold ascii_u8. apply Forall_fmap, Forall_true. intros z. apply u8_byte.
  - intros l. discriminate.
  - constructor.
Defined.

(** C3: credentials leave only over the configured channels. After any
    sequence of API calls on a client, every request in the log went either to
    the host and port of ServerURL, over TLS or, with AllowHttp and an http
    URL, without, or to the host of an https FallbackRelayURL over TLS; the
    unknown-CA relaxation is only ever set over TLS with AllowSelfSigned. *)
Theorem client_requests_secure crack net w u sys serverUrl ss tmo relay ah base open c log
  (Hrun : rtc (api_step net w u sys) (newClient crack serverUrl ss tmo relay ah base open, []) (c, log)) :
  Forall (λ x, secure_request crack serverUrl relay ss ah x.1) log.
Proof.
  set (P := secure_request crack serverUrl relay ss ah).
  assert (client_inv P c ∧ Forall (λ x, P x.1) log) as [_ ?]; [|done].
  change (client_inv P (c, log).1 ∧ Forall (λ x, P x.1) (c, log).2).
  pose proof (newClient_inv crack serverUrl ss tmo relay ah base open) as H0.
  remember (newClient crack serverUrl ss tmo relay ah base open, []) as x eqn:Ex.
  assert (client_inv P x.1 ∧ Forall (λ x, P x.1) x.2) as Hx by (by subst x).
  clear Ex H0. induction Hrun as [|x y z Hs _ IH]; [done|].
  apply IH. destruct Hx. by eapply api_step_inv.
Qed.

(** C25: exact outcome of the OTP request. [VerifyCombined] succeeds exactly
    when the core server answered 200 with ["ok": true], or the core was
    unreachable or answered 5xx, a relay is configured, and the relay answered
    200 with ["ok": true]. A client error of a reachable core (wrong password,
    locked, rate limited) is never retried at the relay, so at most one
    request is sent in that case and at most two ever. A refusal carries the error
    of the answer that decided, the relay's if it gave one and else the core's: its
    own text, or its status; ["network_error"] means that nobody answered, or that
    the deciding answer has this very text, which is taken as it is. *)
Theorem VerifyCombined_accepts net w sys username password code c log ok err c' log'
  (Hrun : VerifyCombined net w sys username password code c log = ((ok, err), c', log')) :
  let core := SendRequest net (W "POST") (W "/api/v1/auth/combined")
    (combined_body w username password code (endpoint w sys c)) c log in
  let '((sent, status, response), log1) := core in
  let core_ok := sent && (status =? 200) && ExtractJsonBool response (B "ok") in
  let core_down := negb sent || (500 <=? status) in
  let relay := SendRelayRequest net (W "POST") (W "/api/v1/auth/verify")
    (relay_body w username password code) c log1 in
  let '((rsent, rstatus, rresponse), log2) := relay in
  let use_relay := negb core_ok && core_down && negb (bool_decide (m_relayHost c = [])) in
  let deciding := if use_relay && rsent then Some (rresponse, rstatus)
                  else if sent then Some (response, status) else None in
  ok = core_ok || use_relay && rsent && (rstatus =? 200) && ExtractJsonBool rresponse (B "ok") ∧
  log' = (if use_relay then log2 else log1) ∧
  (length log' <= length log + 2)%nat ∧
  (ok = false →
    err = match deciding with Some (answer, code) => server_error answer code | None => B "network_error" end ∧
    err ≠ [] ∧
    (err = B "network_error" ↔
      match deciding with
      | Some (answer, _) => ExtractJsonString answer (B "error") = B "network_error"
      | None => True
      end)).
Proof.
  unfold VerifyCombined in Hrun. cbv zeta.
  set (core := SendRequest net _ _ _ c log).
  change (SendRequest net _ _ _ _ log) with core in Hrun.
  destruct core as [[[sent status] response] log1] eqn:Ecore.
  apply exchange_length in Ecore as Hl1.
  set (relay := SendRelayRequest net _ _ _ c log1).
  change (SendRelayRequest net _ _ _ _ log1) with relay in Hrun.
  destruct relay as [[[rsent rstatus] rresponse] log2] eqn:Erelay.
  apply exchange_length in Erelay as Hl2.
  change (m_relayHost (c <| m_lastRetryAfterSec := 0 |>)) with (m_relayHost c) in Hrun.
  pose proof (server_error_nonempty response status) as Hne1.
  pose proof (server_error_nonempty rresponse rstatus) as Hne2.
  destruct sent, (status =? 200), (ExtractJsonBool response (B "ok")), (500 <=? status),
    (bool_decide (m_relayHost c = [])), rsent, (rstatus =? 200),
    (ExtractJsonBool rresponse (B "ok")); cbn [andb orb negb] in *; simplify_eq;
    (split; [done|]; split; [done|]; split; [lia|]; intros Hf; try discriminate Hf; cbv zeta; cbn [andb];
     (split; [done|]; split; [done|]; try rewrite server_error_network; done)).
Qed.

Definition relay_net : Net := λ n _,
  if decide (n = 0%nat) then mkAttempt false false false false 0 []
  else mkAttempt true true true true 200 [mkReadStep true 13 true (J "{ 'ok': true }")].
Definition relay_client : HttpApiClient :=
  mkClient (W "twofa") 443 true (W "relay") 8443 true false false [] true 45000 0.

Definition lying_net : Net := λ n _,
  if decide (n = 0%nat) then mkAttempt false false false false 0 []
  else mkAttempt true true true true 401 [mkReadStep true 25 true (J "{'error':'network_error'}")].

(** The core is unreachable; one relay accepts, the other calls its refusal a network error. *)
Lemma VerifyCombined_accepts_witness :
  let sys := mkSysInfo None None None None in
  let r := VerifyCombined relay_net ascii_u8 sys (W "al") (W "pw") (W "123456") relay_client [] in
  let l := VerifyCombined lying_net ascii_u8 sys (W "al") (W "pw") (W "123456") relay_client [] in
  r.1.1 = (true, []) ∧ length r.2 = 2%nat ∧ (length r.2 <= length (@nil (Request * Attempt)) + 2)%nat ∧
  l.1.1 = (false, B "network_error") ∧ l.1.1.2 ≠ [].
Proof.
  cbv zeta. split; [vm_compute; reflexivity|]. split; [vm_compute; reflexivity|]. split.
  - set (r := VerifyCombined _ _ _ _ _ _ _ _).
    pose proof (VerifyCombined_accepts relay_net ascii_u8 (mkSysInfo None None None None) (W "al")
      (W "pw") (W "123456") relay_client [] true [] r.1.2 r.2 ltac:(vm_compute; reflexivity)) as H.
    cbv zeta in H. destruct (SendRequest _ _ _ _ _ _) as [[[sent status] response] log1].
    destruct (SendRelayRequest _ _ _ _ _ _) as [[[rsent rstatus] rresponse] log2].
    exact (proj1 (proj2 (proj2 H))).
  - assert (E : (VerifyCombined lying_net ascii_u8 (mkSysInfo None None None None) (W "al") (W "pw") (W "123456")
      relay_client []).1.1 = (false, B "network_error")) by (vm_compute; reflexivity).
    split; [exact E|].
    destruct (VerifyCombined lying_net ascii_u8 (mkSysInfo None None None None) (W "al") (W "pw") (W "123456")
      relay_client []) as [[[ok err] c'] log'] eqn:Er. cbn [fst snd] in E |- *. injection E as -> _.
    pose proof (VerifyCombined_accepts _ _ _ _ _ _ _ _ _ _ _ _ Er) as H.
    cbv zeta in H. destruct (SendRequest _ _ _ _ _ _) as [[[sent status] response] log1].
    destruct (SendRelayRequest _ _ _ _ _ _) as [[[rsent rstatus] rresponse] log2].
    exact (proj1 (proj2 (proj2 (proj2 (proj2 H)) eq_refl))).
Defined.

(** A network error means no answer. When [StartPush] fails, its error is
    ["network_error"] exactly when the exchange got no response (transport
    failure, no session or a rejected URL), or the server's own text says so;
    every other failure carries the server's error code or the status, and
    success needs status 200 with a challenge id. *)
Theorem StartPush_outcome net w u sys username password c log o c' log'
  (Hrun : StartPush net w u sys username password c log = (o, c', log')) :
  let '((sent, status, response), log1) :=
    SendRequest net (W "POST") (W "/api/v1/auth/start")
      (start_body w username password (endpoint w sys c)) c log in
  log' = log1 ∧
  (so_ok o = true ↔
     sent = true ∧ status = 200 ∧ ExtractJsonString response (B "challenge_id") ≠ []) ∧
  (so_ok o = false →
     so_error o = (if sent then server_error response status else B "network_error") ∧
     so_error o ≠ [] ∧
     (so_error o = B "network_error" ↔
        sent = false ∨ ExtractJsonString response (B "error") = B "network_error")) ∧
  (sent = true ↔ ∃ rq a, log1 = log ++ [(rq, a)] ∧ answered a = true).
Proof.
  unfold StartPush in Hrun. cbv zeta in Hrun.
  set (core := SendRequest net _ _ _ c log).
  change (SendRequest net _ _ _ _ log) with core in Hrun.
  destruct core as [[[sent status] response] log1] eqn:E.
  assert (sent = true ↔ ∃ rq a, log1 = log ++ [(rq, a)] ∧ answered a = true) as Hs.
  { apply exchange_log in E as [(-> & [= -> -> ->] & _)|(a & -> & _ & _ & _ & Ha)].
    - split; [done|]. intros (rq & a & Hl & _). apply (f_equal length) in Hl.
      rewrite length_app in Hl. simpl in Hl. lia.
    - destruct (answered a) eqn:Ea; injection Ha as -> -> ->; split; try done; [eauto|].
      intros (rq & a' & Hl & Ha'). apply app_inv_head in Hl.
      injection Hl as _ ->. congruence. }
  split; [by repeat case_match; simplify_eq|]. split; [|split; [|done]].
  - destruct sent; cbn [negb] in Hrun; [|simplify_eq; by split; [|intros [? _]]].
    destruct (Z.eqb_spec status 200) as [->|Hst]; cbn [andb] in Hrun;
      [case_bool_decide|]; cbn [negb] in Hrun; simplify_eq; cbn [so_ok];
      (split; [done|by intros (_ & ? & ?)]).
  - intros Hf. assert (so_error o = if sent then server_error response status else B "network_error") as Ho.
    { destruct sent; cbn [negb] in Hrun; [|by simplify_eq].
      by destruct ((status =? 200) && _); simplify_eq. }
    rewrite Ho. split_and!; [done| |]; destruct sent; try done.
    + apply server_error_nonempty.
    + rewrite server_error_network. clear; naive_solver.
    + clear; naive_solver.
Qed.

Definition limiting_net : Net := λ _ _, mkAttempt true true true true 429
  [mkReadStep true 46 true (J "{'error':'rate_limited','retry_after':30}")].

Lemma StartPush_outcome_witness :
  let r := StartPush limiting_net ascii_u8 ascii_u8 (mkSysInfo None None None None) (W "al") (W "pw")
             relay_client [] in
  so_error r.1.1 = B "rate_limited" ∧ m_lastRetryAfterSec r.1.2 = 30 ∧ so_ok r.1.1 = false ∧
  so_error r.1.1 ≠ [].
Proof.
  split; [vm_compute; reflexivity|]. split; [vm_compute; reflexivity|].
  set (r := StartPush _ _ _ _ _ _ _ _). assert (so_ok r.1.1 = false) as Hf by (vm_compute; reflexivity).
  split; [exact Hf|].
  pose proof (StartPush_outcome limiting_net ascii_u8 ascii_u8 (mkSysInfo None None None None)
    (W "al") (W "pw") relay_client [] r.1.1 r.1.2 r.2 ltac:(vm_compute; reflexivity)) as H.
  destruct (SendRequest _ _ _ _ _ _) as [[[sent status] response] log1].
  exact (proj1 (proj2 (proj1 (proj2 (proj2 H)) Hf))).
Defined.

Definition test_net : Net := λ _ _, mkAttempt true true true true 200
  [mkReadStep true 21 true (J "{'status':'approved'}")].

Lemma client_requests_secure_witness :
  let c := newClient test_crack (W "https://twofa") true 5000 [] false [] true in
  let r := PollStatus test_net ascii_u8 ascii_u8 (W "c1") c [] in
  po_status r.1.1 = W "approved" ∧
  Forall (λ x, secure_request test_crack (W "https://twofa") [] true false x.1) r.2.
Proof.
  intros c r. split; [vm_compute; reflexivity|].
  apply (client_requests_secure test_crack test_net ascii_u8 ascii_u8
    (mkSysInfo None None None None) (W "https://twofa") true 5000 [] false [] true r.1.2).
  apply rtc_once. apply (StepPoll test_net ascii_u8 ascii_u8 (mkSysInfo None None None None)
    (W "c1") c [] r.1.1). unfold r. by destruct (PollStatus _ _ _ _ _ _) as [[? ?] ?].
Defined.
