(* ===== verification/RdpGate.v ===== *)
(** * The RDP gate of the credential provider

    [windows/credential_provider/rdp_gate.cpp]: the agent key, the identity of
    the logon window, the one-time nonce from the endpoint service's pipe, and
    the assertion request. The Win32 calls are the fields of [GateEnv]. *)
From S2P Require Import Prelude Text Config HttpClient.

(** What one round of the pipe loop sees: [PeekNamedPipe], then [ReadFile]. *)
Record PipePoll := mkPoll { pp_peek : bool; pp_avail : Z; pp_read : option str }.

Record GateRequest := mkGateRequest {
  gr_https : bool; gr_host : wstr; gr_port : Z; gr_ignore_ca : bool;
  gr_path : wstr; gr_headers : wstr; gr_body : str }.

Record GateEnv := mkGateEnv {
  ge_policy : option RegKey;             (* SOFTWARE\Policies\Ligament\2FA *)
  ge_local : option RegKey;              (* SOFTWARE\Ligament\2FA *)
  ge_logon : option (Z * Z);             (* TokenStatistics: AuthenticationId high, low *)
  ge_sid : option str;                   (* TokenUser, ConvertSidToStringSid *)
  ge_pipe_wait : bool;                   (* WaitNamedPipeW *)
  ge_pipe_open : bool;                   (* CreateFileW *)
  ge_pipe_write : str → bool;            (* WriteFile wrote the whole request *)
  ge_pipe : nat → PipePoll;
  ge_http_open : bool;                   (* WinHttpOpen *)
  ge_http : GateRequest → Attempt;
}.

Record RdpGateResult := mkGate { satisfied : bool; responded : bool; note : str }.

Section Gate.
Context (crack : wstr → option UrlComp) (WideToUtf8 : list Z → list Z) (env : GateEnv).

(** ** Inputs *)

(** One iteration of the loop of [ReadAgentKeyFromRegistry]; 255 code units fit. *)
Definition read_agent_key (k : option RegKey) : option wstr :=
  let r := query k (W "RdpAgentKey") 0 510 (replicate 512 0) in
  if rr_ok r && (rr_type r =? REG_SZ) then Some (c_str (units (rr_buf r))) else None.

Definition ReadAgentKeyFromRegistry : wstr :=
  match read_agent_key (ge_policy env) with
  | Some key => key
  | None => match read_agent_key (ge_local env) with Some key => key | None => [] end
  end.

(** [%08x] *)
Definition hex8 (z : Z) : str :=
  (λ k, hex (Z.land (Z.shiftr z (4 * k)) 15)) <$> [7; 6; 5; 4; 3; 2; 1; 0].

Definition CurrentLogonIdHex : str :=
  match ge_logon env with
  | Some (high, low) => hex8 (u32 high) ++ hex8 (u32 low)
  | None => []
  end.

Definition CurrentUserSid : str := default [] (ge_sid env).

(** ** The nonce *)

(** [for (int poll = 0; poll < 100 && out.size() < 512; ++poll)], [poll = 100 - fuel];
    the second component counts the 20 ms sleeps. *)
Fixpoint read_nonce (fuel : nat) (out : str) (sleeps : nat) : str * nat :=
  match fuel with
  | O => (out, sleeps)
  | S fuel' =>
    let poll := (100 - fuel)%nat in
    if (512 <=? length out)%nat then (out, sleeps) else
    let p := ge_pipe env poll in
    if negb (pp_peek p) then (out, sleeps) else
    if pp_avail p =? 0 then
      if (poll =? 99)%nat then (out, sleeps) else read_nonce fuel' out (S sleeps)
    else
      let want := Z.min (pp_avail p) 256 in
      match pp_read p with
      | None => (out, sleeps)
      | Some buf =>
        let buf := take (Z.to_nat want) buf in
        if bool_decide (buf = []) then (out, sleeps) else
        let out := out ++ buf in
        if bool_decide (125 ∈ out) then (out, sleeps) else read_nonce fuel' out sleeps
      end
  end.

Definition nonce_request (logonId usernameUtf8 userSid : str) : str :=
  J "{'logon_id':'" ++ logonId ++ J "','username':'" ++ EscapeJson usernameUtf8 ++
  J "','user_sid':'" ++ EscapeJson userSid ++ J "'}".

Definition QueryAssertionNonce (logonId usernameUtf8 userSid : str) : str :=
  if negb (ge_pipe_wait env) then [] else
  if negb (ge_pipe_open env) then [] else
  let req := nonce_request logonId usernameUtf8 userSid in
  let out := if ge_pipe_write env req then (read_nonce 100 [] 0).1 else [] in
  ExtractJsonString out (B "nonce").

(** ** The assertion *)
Definition assert_body (nonce machine logonId username userSid : str) : str :=
  J "{'nonce':'" ++ EscapeJson nonce ++
  J "','machine':'" ++ EscapeJson machine ++ J "'" ++
  J ",'logon_id':'" ++ logonId ++ J "'" ++
  J ",'username':'" ++ EscapeJson username ++ J "'" ++
  J ",'user_sid':'" ++ EscapeJson userSid ++ J "'}".

Definition fail (n : str) : RdpGateResult := mkGate false false n.

(** The result and the assertion request, when one was sent. *)
Definition CheckRdpMfaSatisfied (serverUrl username computerName : wstr)
    (allowSelfSigned allowHttp : bool) : RdpGateResult * option GateRequest :=
  if bool_decide (serverUrl = []) || bool_decide (computerName = [])
  then (fail (B "not_configured"), None) else
  let agentKey := ReadAgentKeyFromRegistry in
  if bool_decide (agentKey = []) then (fail (B "no_agent_key"), None) else
  let logonId := CurrentLogonIdHex in
  if bool_decide (logonId = []) then (fail (B "logon_id_failed"), None) else
  let userSid := CurrentUserSid in
  if bool_decide (userSid = []) then (fail (B "user_sid_failed"), None) else
  let nonce := QueryAssertionNonce logonId (WideToUtf8 username) userSid in
  if bool_decide (nonce = []) then (fail (B "no_assertion"), None) else
  match crack serverUrl with
  | None => (fail (B "bad_url"), None)
  | Some uc =>
    let isHttps := nScheme uc =? INTERNET_SCHEME_HTTPS in
    if negb isHttps && negb ((nScheme uc =? INTERNET_SCHEME_HTTP) && allowHttp)
    then (fail (B "scheme_rejected"), None) else
    let body := assert_body nonce (WideToUtf8 computerName) logonId (WideToUtf8 username) userSid in
    if negb (ge_http_open env) then (fail (B "winhttp_open_failed"), None) else
    let rq := mkGateRequest isHttps (hostName uc) (nPort uc) (isHttps && allowSelfSigned)
                (W "/api/v1/cp/rdp-assert")
                (W "Authorization: Bearer " ++ agentKey ++ [13; 10] ++
                 W "Content-Type: application/json" ++ [13; 10]) body in
    let a := ge_http env rq in
    if negb (at_connect a) then (fail (B "network_error"), None) else
    if negb (at_open a) then (fail (B "network_error"), None) else
    if negb (at_send a && at_receive a) then (fail (B "network_error"), Some rq) else
    if negb (u32 (at_status a) =? 200)
    then (fail (B "status_" ++ to_string (i32 (at_status a))), Some rq) else
    let sat := ExtractJsonBool (read_body (at_reads a) []) (B "satisfied") in
    (mkGate sat true (if sat then B "satisfied" else B "not_satisfied"), Some rq)
  end.
End Gate.

(** ** Lemmas *)
Lemma read_nonce_bounds env fuel out sleeps :
  (fuel <= 100)%nat → (length out < 768)%nat →
  (length (read_nonce env fuel out sleeps).1 < 768)%nat ∧
  ((read_nonce env fuel out sleeps).2 <= sleeps + pred fuel)%nat.
Proof.
  revert out sleeps. induction fuel as [|fuel IH]; intros out sleeps Hf Ho; [cbn; lia|].
  cbn [read_nonce].
  destruct (Nat.leb_spec 512 (length out)); [cbn; lia|].
  destruct (pp_peek _); cbn [negb]; [|cbn; lia].
  destruct (pp_avail _ =? 0).
  - destruct (Nat.eqb_spec (100 - S fuel) 99); [cbn; lia|].
    destruct (IH out (S sleeps)); lia.
  - destruct (pp_read _) as [buf|]; [|cbn; lia].
    generalize (pp_avail (ge_pipe env (100 - S fuel))). intros avail.
    assert (length (take (Z.to_nat (Z.min avail 256)) buf) <= 256)%nat as Hb.
    { rewrite length_take. pose proof (Nat.le_min_l (Z.to_nat (Z.min avail 256)) (length buf)). lia. }
    revert Hb. generalize (take (Z.to_nat (Z.min avail 256)) buf). intros chunk Hb.
    case_bool_decide; [cbn; lia|]. case_bool_decide; [cbn; rewrite length_app; lia|].
    destruct (IH (out ++ chunk) sleeps); [lia|rewrite length_app; lia|]. lia.
Qed.

Lemma hex_plain i : 0 <= i < 16 → escape_char (hex i) = [hex i] ∧ is_byte (hex i).
Proof.
  revert i. apply (forall_bytes_upto (λ i, escape_char (hex i) = [hex i] ∧ is_byte (hex i)) 16).
  compute_term (seqZ 0 16).
  repeat apply Forall_cons_2; try apply Forall_nil_2;
    (split; [reflexivity|apply (bool_decide_unpack _); vm_compute; exact I]).
Qed.

Lemma hex8_plain z : EscapeJson (hex8 z) = hex8 z ∧ Forall is_byte (hex8 z).
Proof.
  assert (∀ k, 0 <= Z.land (Z.shiftr z (4 * k)) 15 < 16) as Hr.
  { intros k. change 15 with (Z.ones 4). rewrite Z.land_ones by lia. apply Z.mod_pos_bound. lia. }
  unfold hex8. induction [7; 6; 5; 4; 3; 2; 1; 0] as [|k l [IH1 IH2]]; [split; [done|constructor]|].
  destruct (hex_plain _ (Hr k)) as [E1 E2]. unfold EscapeJson in *. cbn [fmap list_fmap mbind list_bind] in *.
  split; [by rewrite E1, IH1|]. by constructor.
Qed.

Lemma logon_plain env : EscapeJson (CurrentLogonIdHex env) = CurrentLogonIdHex env ∧
  Forall is_byte (CurrentLogonIdHex env).
Proof.
  unfold CurrentLogonIdHex. destruct (ge_logon env) as [[h l]|]; [|by split].
  destruct (hex8_plain (u32 h)), (hex8_plain (u32 l)). unfold EscapeJson in *.
  rewrite bind_app. split; [congruence|]. by apply Forall_app.
Qed.

Lemma assert_body_object nonce machine logonId username sid :
  EscapeJson logonId = logonId →
  assert_body nonce machine logonId username sid = render_object (escaped <$>
    [(B "nonce", nonce); (B "machine", machine); (B "logon_id", logonId);
     (B "username", username); (B "user_sid", sid)]).
Proof. intros E. rewrite <- E at 1. unfold assert_body. body_is_object. Qed.

(** ** Properties *)

(** C13: the gate fails closed. [CheckRdpMfaSatisfied] reports satisfied only
    when the machine has an agent key, the logon window's id and SID are known,
    the endpoint service gave a nonce, the URL is https (or http with
    AllowHttp), and the core answered 200 with ["satisfied": true]; the request
    it sent then binds nonce, machine, logon id, user name and SID: a JSON
    reader reads back exactly these five fields. *)
Theorem CheckRdpMfaSatisfied_fail_closed crack w env serverUrl username computerName ss ah res rq
  (Hw : ∀ x, Forall is_byte (w x)) (Hsid : Forall is_byte (CurrentUserSid env))
  (Hnonce : Forall is_byte (QueryAssertionNonce env (CurrentLogonIdHex env) (w username)
     (CurrentUserSid env)))
  (Hrun : CheckRdpMfaSatisfied crack w env serverUrl username computerName ss ah = (res, rq))
  (Hsat : satisfied res = true) :
  let nonce := QueryAssertionNonce env (CurrentLogonIdHex env) (w username) (CurrentUserSid env) in
  responded res = true ∧
  ReadAgentKeyFromRegistry env ≠ [] ∧ CurrentLogonIdHex env ≠ [] ∧ CurrentUserSid env ≠ [] ∧
  nonce ≠ [] ∧
  ∃ uc r, crack serverUrl = Some uc ∧ rq = Some r ∧
    (nScheme uc = INTERNET_SCHEME_HTTPS ∧ gr_https r = true ∨
     nScheme uc = INTERNET_SCHEME_HTTP ∧ ah = true ∧ gr_https r = false) ∧
    gr_host r = hostName uc ∧ gr_port r = nPort uc ∧
    (gr_ignore_ca r = true → ss = true ∧ gr_https r = true) ∧
    read_object (gr_body r) = Some ([(B "nonce", nonce); (B "machine", w computerName);
      (B "logon_id", CurrentLogonIdHex env); (B "username", w username);
      (B "user_sid", CurrentUserSid env)], []) ∧
    answered (ge_http env r) = true ∧ u32 (at_status (ge_http env r)) = 200 ∧
    ExtractJsonBool (read_body (at_reads (ge_http env r)) []) (B "satisfied") = true.
Proof.
  unfold CheckRdpMfaSatisfied in Hrun. cbv zeta in *.
  destruct (bool_decide (serverUrl = []) || bool_decide (computerName = [])); [by simplify_eq|].
  case_bool_decide; [by simplify_eq|]. case_bool_decide; [by simplify_eq|].
  case_bool_decide; [by simplify_eq|]. case_bool_decide; [by simplify_eq|].
  destruct (crack serverUrl) as [uc|]; [|by simplify_eq].
  destruct (negb (nScheme uc =? INTERNET_SCHEME_HTTPS) && _) eqn:Es; [by simplify_eq|].
  destruct (ge_http_open env); cbn [negb] in Hrun; [|by simplify_eq].
  set (r := mkGateRequest _ _ _ _ _ _ _) in *.
  destruct (at_connect (ge_http env r)) eqn:E1; cbn [negb] in Hrun; [|by simplify_eq].
  destruct (at_open (ge_http env r)) eqn:E2; cbn [negb] in Hrun; [|by simplify_eq].
  destruct (at_send (ge_http env r) && at_receive (ge_http env r)) eqn:Ea; cbn [negb] in Hrun;
    [|by simplify_eq].
  destruct (Z.eqb_spec (u32 (at_status (ge_http env r))) 200); cbn [negb] in Hrun; [|by simplify_eq].
  injection Hrun as <- <-. cbn [satisfied responded] in *. split_and!; [done..|].
  exists uc, r. cbn [andb]. split_and!; try done.
  - subst r. cbn [gr_https].
    destruct (Z.eqb_spec (nScheme uc) INTERNET_SCHEME_HTTPS); [by left|]. right.
    destruct (Z.eqb_spec (nScheme uc) INTERNET_SCHEME_HTTP), ah; done.
  - subst r. cbn [gr_ignore_ca gr_https]. by intros [? ?]%andb_true_iff.
  - subst r. cbn [gr_body]. destruct (logon_plain env) as [E Hb].
    rewrite assert_body_object by done. apply read_object_render; [done|].
    repeat (apply Forall_cons_2; [split; [apply B_bytes|cbn [snd]; first [apply Hw|done]]|]).
    constructor.
  - unfold answered. by rewrite E1, E2.
Qed.

(** The pipe query is bounded. Whatever the service on the other end does,
    the nonce loop makes at most 100 polls, sleeps at most 99 times 20 ms (under
    two seconds) and never accumulates 768 bytes; a service that cannot be
    reached, does not take the whole request or sends no nonce yields the empty
    nonce, and then no request leaves and the gate is not satisfied. *)
Theorem QueryAssertionNonce_bounded crack w env serverUrl username computerName ss ah :
  let '(out, sleeps) := read_nonce env 100 [] 0 in
  (length out < 768)%nat ∧ (sleeps * 20 < 2000)%nat ∧
  (ge_pipe_wait env = false ∨ ge_pipe_open env = false ∨ (∀ r, ge_pipe_write env r = false) ∨
     ExtractJsonString out (B "nonce") = [] →
   satisfied (CheckRdpMfaSatisfied crack w env serverUrl username computerName ss ah).1 = false ∧
   (CheckRdpMfaSatisfied crack w env serverUrl username computerName ss ah).2 = None).
Proof.
  destruct (read_nonce_bounds env 100 [] 0) as [H1 H2]; [lia|cbn; lia|].
  destruct (read_nonce env 100 [] 0) as [out sleeps] eqn:E. cbn [fst snd] in *.
  split_and!; [done|lia|]. intros Hno.
  assert (∀ l u s, QueryAssertionNonce env l u s = []) as Hn.
  { intros l u s. unfold QueryAssertionNonce. rewrite E. cbn [fst].
    destruct Hno as [->|[->|[Hwr|Hx]]]; [done| |rewrite Hwr|].
    - by destruct (ge_pipe_wait env).
    - by destruct (ge_pipe_wait env), (ge_pipe_open env).
    - by destruct (ge_pipe_wait env), (ge_pipe_open env), (ge_pipe_write env _). }
  unfold CheckRdpMfaSatisfied. cbv zeta. rewrite Hn.
  repeat (case_bool_decide; cbn [orb]; try done).
Qed.

Definition test_gate : GateEnv := mkGateEnv None
  (Some (<[W "RdpAgentKey" := reg_sz (W "key-1")]> ∅)) (Some (0, 999)) (Some (B "S-1-5-18")) true true
  (λ _, true) (λ _, mkPoll true 20 (Some (J "{'nonce':'abcd'}"))) true
  (λ _, mkAttempt true true true true 200 [mkReadStep true 18 true (J "{'satisfied':true}")]).

Lemma CheckRdpMfaSatisfied_fail_closed_witness :
  let r := CheckRdpMfaSatisfied test_crack ascii_u8 test_gate (W "https://twofa") (W "al") (W "PC1")
    false false in
  note r.1 = B "satisfied" ∧ CurrentLogonIdHex test_gate ≠ [].
Proof.
  split; [vm_compute; reflexivity|].
  refine (proj1 (proj2 (proj2 (CheckRdpMfaSatisfied_fail_closed test_crack ascii_u8 test_gate
    (W "https://twofa") (W "al") (W "PC1") false false
    (CheckRdpMfaSatisfied test_crack ascii_u8 test_gate (W "https://twofa") (W "al") (W "PC1")
       false false).1
    (CheckRdpMfaSatisfied test_crack ascii_u8 test_gate (W "https://twofa") (W "al") (W "PC1")
       false false).2 _ _ _ _ _)))).
  - intros x. unfold ascii_u8. apply Forall_fmap, Forall_true. intros z. apply u8_byte.
  - apply (bool_decide_unpack _). vm_compute. exact I.
  - apply (bool_decide_unpack _). vm_compute. exact I.
  - vm_compute. reflexivity.
  - vm_compute. reflexivity.
Defined.
