(* ===== verification/Pack.v ===== *)
(** * Serialization of the credentials

    The packing half of [windows/credential_provider/LigamentCredential.cpp]:
    machine and domain names, the plain password, the LSA package lookup, the
    [KERB_INTERACTIVE_UNLOCK_LOGON] blob of the logon scenarios, the packed
    buffer of CredUI, and [PackAndFinish]. The Win32 calls are the fields of
    [PackEnv]. *)
From S2P Require Import Prelude Config.

(** ** Usage scenarios *)
Inductive CPUS := CPUS_INVALID | CPUS_LOGON | CPUS_UNLOCK_WORKSTATION | CPUS_CHANGE_PASSWORD
  | CPUS_CREDUI | CPUS_PLAP.
#[export] Instance CPUS_eq : EqDecision CPUS.
Proof. solve_decision. Defined.

Definition CREDUIWIN_GENERIC : Z := 1.
Definition CREDUIWIN_ENUMERATE_ADMINS : Z := 256.
Definition CREDUIWIN_PACK_32_WOW : Z := 268435456.
Definition CRED_PACK_WOW_BUFFER : Z := 2.

Inductive HRESULT := S_OK | E_NOTIMPL | E_POINTER | E_INVALIDARG | E_OUTOFMEMORY | E_FAIL.
#[export] Instance HRESULT_eq : EqDecision HRESULT.
Proof. solve_decision. Defined.
Definition SUCCEEDED (hr : HRESULT) : bool := bool_decide (hr = S_OK).

(** ** The environment of packing *)

(** [CredUnprotectW] with a null buffer, [CoTaskMemAlloc], the second call. *)
Record Unprotect := mkUnprotect {
  up_size_ok : bool; up_needed : Z; up_alloc : bool; up_plain : option wstr }.

(** [CredPackAuthenticationBufferW]: the sizing call, then the packing call. *)
Record CredPack := mkCredPack {
  cp_first : bool; cp_insufficient : bool; cp_size : Z; cp_second : option (str * Z) }.

Record PackEnv := mkPackEnv {
  pe_computer : option wstr;              (* GetComputerNameW *)
  pe_computer_ex : option wstr;           (* GetComputerNameExW(NetBIOS) *)
  pe_join : option (bool * option wstr);  (* NetGetJoinInformation: domain status?, name *)
  pe_local_user : wstr → bool;            (* NetUserGetInfo == NERR_Success *)
  pe_protected : wstr → bool;             (* CredIsProtectedW and protected *)
  pe_unprotect : wstr → Unprotect;
  pe_alloc : bool;                        (* CoTaskMemAlloc *)
  pe_lsa_connect : bool;                  (* LsaConnectUntrusted == 0 *)
  pe_lsa_lookup : str → option Z;         (* LsaLookupAuthenticationPackage *)
  pe_credpack : Z → wstr → wstr → CredPack;
}.

(** The package cache: [g_authPkgId], [g_authPkgValid] and [s_resolved]. *)
Record LsaCache := mkLsa { authPkgId : Z; authPkgValid : bool; s_resolved : bool }.
Definition lsa_start : LsaCache := mkLsa 0 false false.

Record Serialization := mkSer { ser_package : Z; ser_cb : Z; ser_bytes : str }.

Section Pack.
Context (env : PackEnv).

(** ** Names *)
Record MachineDomain := mkMD { netBios : wstr; joinedDomain : wstr; isDomainJoined : bool }.

Definition GetMachineAndDomain : MachineDomain :=
  let nb := default [] (pe_computer env) in
  let nb := if bool_decide (nb = []) then default nb (pe_computer_ex env) else nb in
  match pe_join env with
  | Some (true, Some d) => mkMD nb d true
  | _ => mkMD nb [] false
  end.

Definition GetPlainPassword (pass : wstr) : wstr :=
  if bool_decide (pass = []) then [] else
  if pe_protected env pass then
    let u := pe_unprotect env pass in
    if up_size_ok u && (0 <? up_needed u) && up_alloc u then
      match up_plain u with
      | Some plain => take (Z.to_nat (up_needed u)) (c_str plain)
      | None => pass
      end
    else pass
  else pass.

(** ** The LSA package *)
Definition package_names : list str := [B "Negotiate"; B "Kerberos"; B "MICROSOFT_V1_0"].

(** The lookup loop: the id of the first name that is found, 0 otherwise. *)
Fixpoint lookup_package (names : list str) : option Z :=
  match names with
  | [] => None
  | n :: names' => match pe_lsa_lookup env n with Some id => Some id | None => lookup_package names' end
  end.

Definition GetNegotiateAuthPackage (c : LsaCache) : Z * LsaCache :=
  if s_resolved c then (authPkgId c, c) else
  if negb (pe_lsa_connect env) then (authPkgId c, c) else
  match lookup_package package_names with
  | Some id => (id, mkLsa id true true)
  | None => (0, mkLsa 0 (authPkgValid c) (authPkgValid c))
  end.

(** ** The KERB blob *)
Definition le16 (z : Z) : str := [z mod 256; z / 256 mod 256].
Definition le32 (z : Z) : str := [z mod 256; z / 256 mod 256; z / 65536 mod 256; z / 16777216 mod 256].
Definition le64 (z : Z) : str := le32 (z mod 4294967296) ++ le32 (z / 4294967296).
Definition utf16_bytes (s : wstr) : str := s ≫= le16.

(** [UNICODE_STRING] on x64: lengths, padding, and the offset in [Buffer]. *)
Definition unicode_string (bytes offset : Z) : str :=
  le16 (u16 bytes) ++ le16 (u16 bytes) ++ [0; 0; 0; 0] ++ le64 offset.

(** [sizeof(KERB_INTERACTIVE_UNLOCK_LOGON)] on x64. *)
Definition sizeof_KIUL : Z := 64.
Definition KerbInteractiveLogon : Z := 2.
Definition KerbWorkstationUnlockLogon : Z := 7.

Definition effective_domain (domain user : wstr) (md : MachineDomain) : wstr :=
  let d := if bool_decide (domain = W ".") || bool_decide (domain = [92]) then netBios md else domain in
  let d :=
    if bool_decide (d = []) then
      if isDomainJoined md then
        if pe_local_user env user then netBios md else joinedDomain md
      else if bool_decide (netBios md = []) then d else netBios md
    else d in
  if bool_decide (d = []) then (if bool_decide (netBios md = []) then W "." else netBios md) else d.

(** The bytes written into the zeroed buffer of [totalSize] bytes. *)
Definition kiul_bytes (msg : Z) (domain user password : wstr) (domainBytes userBytes passBytes : Z) : str :=
  le32 msg ++ [0; 0; 0; 0] ++
  unicode_string domainBytes sizeof_KIUL ++
  unicode_string userBytes (sizeof_KIUL + domainBytes) ++
  unicode_string passBytes (sizeof_KIUL + domainBytes + userBytes) ++
  le64 0 ++
  utf16_bytes domain ++ utf16_bytes user ++ utf16_bytes password.

Definition KerbInteractiveLogonPack (cpus : CPUS) (domain user password : wstr) (lsa : LsaCache) :
    HRESULT * option Serialization * LsaCache :=
  let effDomain := effective_domain domain user GetMachineAndDomain in
  let plainPassword := GetPlainPassword password in
  let domainBytes := u32 (2 * Z.of_nat (length effDomain)) in
  let userBytes := u32 (2 * Z.of_nat (length user)) in
  let passBytes := u32 (2 * Z.of_nat (length plainPassword)) in
  if (65535 <? domainBytes) || (65535 <? userBytes) || (65535 <? passBytes)
  then (E_INVALIDARG, None, lsa) else
  let totalSize := u32 (sizeof_KIUL + domainBytes + userBytes + passBytes) in
  if negb (pe_alloc env) then (E_OUTOFMEMORY, None, lsa) else
  let msg := if bool_decide (cpus = CPUS_UNLOCK_WORKSTATION)
             then KerbWorkstationUnlockLogon else KerbInteractiveLogon in
  let buffer := kiul_bytes msg effDomain user plainPassword domainBytes userBytes passBytes in
  let '(authPkg, lsa) := GetNegotiateAuthPackage lsa in
  if negb (authPkgValid lsa) then (E_FAIL, None, lsa)
  else (S_OK, Some (mkSer authPkg totalSize buffer), lsa).

(** ** CredUI *)
Definition credui_user (usernameRaw domain username : wstr) : wstr :=
  if bool_decide (usernameRaw = [])
  then (if bool_decide (domain = []) then username else domain ++ [92] ++ username)
  else usernameRaw.

Definition CredUiPackAuthentication (providerFlags : Z) (usernameRaw domain username password : wstr)
    (lsa : LsaCache) : HRESULT * option Serialization * LsaCache :=
  let user := credui_user usernameRaw domain username in
  let flags := if Z.land providerFlags CREDUIWIN_PACK_32_WOW =? 0 then 0 else CRED_PACK_WOW_BUFFER in
  let p := pe_credpack env flags user password in
  if cp_first p then (E_FAIL, None, lsa) else
  if negb (cp_insufficient p) || (cp_size p =? 0) then (E_FAIL, None, lsa) else
  if negb (pe_alloc env) then (E_OUTOFMEMORY, None, lsa) else
  match cp_second p with
  | None => (E_FAIL, None, lsa)
  | Some (buffer, cbPack) =>
    let '(authPkg, lsa) := GetNegotiateAuthPackage lsa in
    if negb (authPkgValid lsa) then (E_FAIL, None, lsa)
    else (S_OK, Some (mkSer authPkg cbPack buffer), lsa)
  end.

(** ** [PackAndFinish] *)
Inductive GSR := CPGSR_NO_CREDENTIAL_NOT_FINISHED | CPGSR_RETURN_CREDENTIAL_FINISHED.
#[export] Instance GSR_eq : EqDecision GSR.
Proof. solve_decision. Defined.
Inductive ICON := CPSI_NONE | CPSI_ERROR | CPSI_WARNING.
#[export] Instance ICON_eq : EqDecision ICON.
Proof. solve_decision. Defined.

(** What [GetSerialization] hands back to LogonUI. *)
Record SerResult := mkSerResult {
  sr_gsr : GSR; sr_ser : option Serialization; sr_text : option wstr; sr_icon : ICON }.

Definition PackAndFinish (cpus : CPUS) (providerFlags : Z)
    (usernameRaw domain username password : wstr) (lsa : LsaCache) : SerResult * LsaCache :=
  let '(hr, ser, lsa) :=
    if bool_decide (cpus = CPUS_CREDUI)
    then CredUiPackAuthentication providerFlags usernameRaw domain username password lsa
    else KerbInteractiveLogonPack cpus domain username password lsa in
  if SUCCEEDED hr
  then (mkSerResult CPGSR_RETURN_CREDENTIAL_FINISHED ser None CPSI_NONE, lsa)
  else (mkSerResult CPGSR_NO_CREDENTIAL_NOT_FINISHED ser
          (Some (W "Внутренняя ошибка провайдера, попробуйте еще раз")) CPSI_ERROR, lsa).
End Pack.

(** ** Specification: the reader's side of the blob

    Winlogon and LSA read lengths and offsets, not pointers. *)
Definition le_at (n off : nat) (b : str) : Z := le_value (take n (drop off b)).

Definition read_ustring (base : nat) (b : str) : wstr :=
  units (take (Z.to_nat (le_at 2 base b)) (drop (Z.to_nat (le_at 8 (base + 8) b)) b)).

(** Message type, domain, user, password, logon id. *)
Definition read_kiul (b : str) : Z * wstr * wstr * wstr * Z :=
  (le_at 4 0 b, read_ustring 8 b, read_ustring 24 b, read_ustring 40 b, le_at 8 56 b).

Definition code_unit (c : Z) : Prop := 0 <= c < 65536.
#[export] Instance code_unit_dec c : Decision (code_unit c).
Proof. unfold code_unit. apply _. Defined.

(** ** Lemmas *)
Lemma le_value_le16 z r : 0 <= z < 65536 → le_value (take 2 (le16 z ++ r)) = z.
Proof.
  intros. change (take 2 (le16 z ++ r)) with (le16 z). cbn [le16 le_value]. Z.to_euclidean_division_equations. lia. Qed.

Lemma le_value_le32 z : 0 <= z < 4294967296 → le_value (le32 z) = z.
Proof. intros. cbn [le32 le_value]. Z.to_euclidean_division_equations. lia. Qed.

Lemma le_value_app a b : le_value (a ++ b) = le_value a + 256 ^ Z.of_nat (length a) * le_value b.
Proof.
  induction a as [|x a IH]; [cbn; lia|]. cbn [app le_value length]. rewrite IH.
  rewrite Nat2Z.inj_succ, Z.pow_succ_r by lia. lia.
Qed.

Lemma le_value_le64 z r : 0 <= z < 2 ^ 64 → le_value (take 8 (le64 z ++ r)) = z.
Proof.
  intros Hz. change (take 8 (le64 z ++ r)) with (le64 z). unfold le64.
  rewrite le_value_app, !le_value_le32.
  - change (256 ^ Z.of_nat (length (le32 (z mod 4294967296)))) with 4294967296.
    pose proof (Z.div_mod z 4294967296 ltac:(lia)). lia.
  - split; [apply Z.div_pos; lia|apply Z.div_lt_upper_bound; lia].
  - apply Z.mod_pos_bound. lia.
Qed.

Lemma utf16_bytes_cons c s : utf16_bytes (c :: s) = le16 c ++ utf16_bytes s.
Proof. done. Qed.

Lemma length_utf16_bytes s : length (utf16_bytes s) = (2 * length s)%nat.
Proof. induction s as [|c s IH]; [done|]. rewrite utf16_bytes_cons, length_app, IH. simpl. lia. Qed.

Lemma units_utf16_bytes s : Forall code_unit s → units (utf16_bytes s) = s.
Proof.
  induction 1 as [|c s Hc Hs IH]; [done|]. rewrite utf16_bytes_cons.
  cbn [le16 app units]. rewrite IH. f_equal. unfold code_unit in Hc.
  Z.to_euclidean_division_equations. lia.
Qed.

(** The header of the blob, in front of the three strings. *)
Definition kiul_header (msg db ub pb : Z) : str :=
  le32 msg ++ [0; 0; 0; 0] ++ unicode_string db sizeof_KIUL ++
  unicode_string ub (sizeof_KIUL + db) ++ unicode_string pb (sizeof_KIUL + db + ub) ++ le64 0.

Lemma kiul_bytes_header msg d u p db ub pb :
  kiul_bytes msg d u p db ub pb =
    kiul_header msg db ub pb ++ utf16_bytes d ++ utf16_bytes u ++ utf16_bytes p.
Proof. unfold kiul_bytes, kiul_header. by rewrite <- !app_assoc. Qed.

Lemma length_kiul_header msg db ub pb : length (kiul_header msg db ub pb) = 64%nat.
Proof. done. Qed.

(** A [UNICODE_STRING] of [n] code units at [base] that points at [s]. *)
Lemma read_ustring_at b base s n off pre suf :
  drop base b = unicode_string n off ++ suf →
  n = 2 * Z.of_nat (length s) → n <= 65535 → 0 <= off < 2 ^ 64 →
  b = pre ++ utf16_bytes s ++ drop (length pre + length (utf16_bytes s)) b →
  length pre = Z.to_nat off → Forall code_unit s → read_ustring base b = s.
Proof.
  intros Hbase Hn Hmax Hoff Hb Hpre Hs. unfold read_ustring, le_at.
  assert (le_value (take 2 (drop base b)) = n) as E1.
  { rewrite Hbase. unfold unicode_string. rewrite <- !app_assoc.
    assert (u16 n = n) as -> by (unfold u16; apply Z.mod_small; lia).
    apply le_value_le16. lia. }
  assert (le_value (take 8 (drop (base + 8) b)) = off) as E2.
  { rewrite <- drop_drop, Hbase. unfold unicode_string. rewrite <- !app_assoc.
    change (drop 8 (le16 (u16 n) ++ le16 (u16 n) ++ [0; 0; 0; 0] ++ ?x)) with x.
    by apply le_value_le64. }
  rewrite E1, E2, <- Hpre. rewrite Hb at 1. rewrite drop_app_length.
  replace (Z.to_nat n) with (length (utf16_bytes s)) by (rewrite length_utf16_bytes; lia).
  rewrite take_app_length. by apply units_utf16_bytes.
Qed.

Lemma read_kiul_bytes msg d u p db ub pb :
  0 <= msg < 4294967296 → Forall code_unit d → Forall code_unit u → Forall code_unit p →
  db = 2 * Z.of_nat (length d) → ub = 2 * Z.of_nat (length u) → pb = 2 * Z.of_nat (length p) →
  db <= 65535 → ub <= 65535 → pb <= 65535 →
  read_kiul (kiul_bytes msg d u p db ub pb) = (msg, d, u, p, 0).
Proof.
  intros Hm Hd Hu Hp Hdb Hub Hpb ? ? ?. unfold read_kiul.
  set (b := kiul_bytes msg d u p db ub pb).
  pose proof (length_utf16_bytes d) as Ld. pose proof (length_utf16_bytes u) as Lu.
  assert (b = kiul_header msg db ub pb ++ utf16_bytes d ++ utf16_bytes u ++ utf16_bytes p) as Eb
    by apply kiul_bytes_header.
  assert (∀ x y r, b = x ++ y ++ r → b = x ++ y ++ drop (length x + length y) b) as Hcut.
  { intros x y r E. assert (drop (length x + length y) b = r) as ->; [|done].
    rewrite E, app_assoc. apply drop_length_app. by rewrite length_app. }
  rewrite (read_ustring_at b 8 d db sizeof_KIUL (kiul_header msg db ub pb)
    (drop 24 b)); [|reflexivity|done|done|unfold sizeof_KIUL; lia|by eapply Hcut|done|done].
  rewrite (read_ustring_at b 24 u ub (sizeof_KIUL + db) (kiul_header msg db ub pb ++ utf16_bytes d)
    (drop 40 b)); [|reflexivity|done|done|unfold sizeof_KIUL; lia
    |eapply Hcut; rewrite <- app_assoc; exact Eb
    |rewrite length_app, length_kiul_header, Ld; unfold sizeof_KIUL; lia|done].
  rewrite (read_ustring_at b 40 p pb (sizeof_KIUL + db + ub)
    (kiul_header msg db ub pb ++ utf16_bytes d ++ utf16_bytes u)
    (drop 56 b)); [|reflexivity|done|done|unfold sizeof_KIUL; lia
    |eapply (Hcut _ _ []); rewrite <- !app_assoc, app_nil_r; exact Eb
    |rewrite !length_app, length_kiul_header, Ld, Lu; unfold sizeof_KIUL; lia|done].
  repeat f_equal. unfold le_at. change (take 4 (drop 0 b)) with (le32 msg). by apply le_value_le32.
Qed.

Lemma effective_domain_nonempty env domain user md : effective_domain env domain user md ≠ [].
Proof. unfold effective_domain. cbv zeta. repeat case_bool_decide; done. Qed.

Lemma u32_small z : 0 <= z < 4294967296 → u32 z = z.
Proof. intros. by apply Z.mod_small. Qed.

(** ** Properties *)

(** C14: the logon blob is what Winlogon and LSA read. When the pack succeeds,
    the buffer has exactly the announced size, and a reader that follows the
    lengths and byte offsets of the three [UNICODE_STRING]s recovers the
    message type of the scenario, a non-empty domain, the user and the plain
    password, code unit for code unit, with a zero logon id. *)
Theorem KerbInteractiveLogonPack_layout env cpus domain user password lsa ser lsa'
  (Hpack : KerbInteractiveLogonPack env cpus domain user password lsa = (S_OK, Some ser, lsa'))
  (Hd : Forall code_unit (effective_domain env domain user (GetMachineAndDomain env)))
  (Hu : Forall code_unit user) (Hp : Forall code_unit (GetPlainPassword env password))
  (Hld : Z.of_nat (length (effective_domain env domain user (GetMachineAndDomain env))) < 2 ^ 31)
  (Hlu : Z.of_nat (length user) < 2 ^ 31)
  (Hlp : Z.of_nat (length (GetPlainPassword env password)) < 2 ^ 31) :
  ser_cb ser = Z.of_nat (length (ser_bytes ser)) ∧
  read_kiul (ser_bytes ser) =
    (if decide (cpus = CPUS_UNLOCK_WORKSTATION) then 7 else 2,
     effective_domain env domain user (GetMachineAndDomain env), user,
     GetPlainPassword env password, 0) ∧
  effective_domain env domain user (GetMachineAndDomain env) ≠ [] ∧
  authPkgValid lsa' = true.
Proof.
  unfold KerbInteractiveLogonPack in Hpack. cbv zeta in Hpack.
  set (d := effective_domain env domain user (GetMachineAndDomain env)) in *.
  set (p := GetPlainPassword env password) in *.
  rewrite !(u32_small (2 * _)) in Hpack by lia.
  destruct (Z.ltb_spec 65535 (2 * Z.of_nat (length d))); [done|].
  destruct (Z.ltb_spec 65535 (2 * Z.of_nat (length user))); [done|].
  destruct (Z.ltb_spec 65535 (2 * Z.of_nat (length p))); [done|]. cbn [orb] in Hpack.
  destruct (pe_alloc env); [|done]. cbn [negb] in Hpack.
  destruct (GetNegotiateAuthPackage env lsa) as [pkg lsa1].
  destruct (authPkgValid lsa1) eqn:Ev; [|done]. cbn [negb] in Hpack. simplify_eq.
  cbn [ser_cb ser_bytes]. split_and!; [| |apply effective_domain_nonempty|done].
  - rewrite u32_small by (unfold sizeof_KIUL; lia).
    rewrite kiul_bytes_header, !length_app, length_kiul_header, !length_utf16_bytes.
    unfold sizeof_KIUL. lia.
  - rewrite read_kiul_bytes; try done; try lia.
    + repeat f_equal. unfold KerbWorkstationUnlockLogon, KerbInteractiveLogon.
      case_bool_decide; by destruct (decide _).
    + case_bool_decide; done.
Qed.

(** Packing fails closed. The logon pack succeeds exactly when no field
    exceeds the 16-bit length of [UNICODE_STRING] (nothing is ever truncated),
    memory is available and an LSA package is known; otherwise
    [PackAndFinish] hands LogonUI no serialization, an error text and "not
    finished". A failed LSA lookup is not cached, a successful one is. *)
Theorem PackAndFinish_logon env cpus flags raw domain user password lsa
  (Hcpus : cpus ≠ CPUS_CREDUI)
  (Hlsa : s_resolved lsa = true → authPkgValid lsa = true)
  (Hld : Z.of_nat (length (effective_domain env domain user (GetMachineAndDomain env))) < 2 ^ 31)
  (Hlu : Z.of_nat (length user) < 2 ^ 31)
  (Hlp : Z.of_nat (length (GetPlainPassword env password)) < 2 ^ 31) :
  let fits s := 2 * Z.of_nat (length s) <= 65535 in
  let '(r, lsa') := PackAndFinish env cpus flags raw domain user password lsa in
  (sr_gsr r = CPGSR_RETURN_CREDENTIAL_FINISHED ↔
     (fits (effective_domain env domain user (GetMachineAndDomain env)) ∧ fits user ∧
      fits (GetPlainPassword env password)) ∧ pe_alloc env = true ∧ authPkgValid lsa' = true) ∧
  (sr_gsr r = CPGSR_RETURN_CREDENTIAL_FINISHED ↔ is_Some (sr_ser r)) ∧
  (sr_gsr r = CPGSR_NO_CREDENTIAL_NOT_FINISHED → sr_icon r = CPSI_ERROR ∧ is_Some (sr_text r)) ∧
  (s_resolved lsa' = true → authPkgValid lsa' = true).
Proof.
  cbv zeta. unfold PackAndFinish. rewrite bool_decide_eq_false_2 by done.
  unfold KerbInteractiveLogonPack. cbv zeta.
  set (d := effective_domain env domain user (GetMachineAndDomain env)) in *.
  set (p := GetPlainPassword env password) in *.
  rewrite !(u32_small (2 * _)) by lia.
  assert (∀ pkg lsa1, GetNegotiateAuthPackage env lsa = (pkg, lsa1) →
    s_resolved lsa1 = true → authPkgValid lsa1 = true) as Hget.
  { intros pkg lsa1. unfold GetNegotiateAuthPackage.
    destruct (s_resolved lsa) eqn:Er; [intros [= <- <-]; auto|].
    destruct (pe_lsa_connect env); cbn [negb]; [|intros [= <- <-]; congruence].
    destruct (lookup_package _ _); intros [= <- <-]; done. }
  destruct (Z.ltb_spec 65535 (2 * Z.of_nat (length d))),
    (Z.ltb_spec 65535 (2 * Z.of_nat (length user))),
    (Z.ltb_spec 65535 (2 * Z.of_nat (length p))); cbn [orb];
    try (cbn; split_and!; [split; [done|lia]|split; [done|by intros [? ?]]|eauto|done]).
  destruct (pe_alloc env); cbn [negb];
    [|cbn; split_and!; [split; [done|by intros (_ & ? & ?)]|split; [done|by intros [? ?]]|eauto|done]].
  destruct (GetNegotiateAuthPackage env lsa) as [pkg lsa1] eqn:Eg.
  specialize (Hget _ _ eq_refl).
  destruct (authPkgValid lsa1) eqn:Ev; cbn.
  - split_and!; [split; [done|done]|split; [eauto|done]|done|done].
  - split_and!; [split; [done|intros (_ & _ & ?); congruence]|split; [done|by intros [? ?]]|eauto|].
    intros Hr. specialize (Hget Hr). congruence.
Qed.

Definition test_env : PackEnv := mkPackEnv (Some (W "PC1")) None (Some (true, Some (W "CORP")))
  (λ _, false) (λ _, false) (λ _, mkUnprotect false 0 false None) true true
  (λ n, if bool_decide (n = B "Negotiate") then Some 0 else None)
  (λ _ _ _, mkCredPack false true 16 (Some (replicate 16 0, 16))).

Lemma KerbInteractiveLogonPack_layout_witness :
  ∃ ser lsa',
    KerbInteractiveLogonPack test_env CPUS_LOGON [] (W "al") (W "pw") lsa_start = (S_OK, Some ser, lsa')
    ∧ read_kiul (ser_bytes ser) = (2, W "CORP", W "al", W "pw", 0).
Proof.
  eexists _, _. split; [vm_compute; reflexivity|].
  refine (proj1 (proj2 (KerbInteractiveLogonPack_layout test_env CPUS_LOGON [] (W "al") (W "pw")
    lsa_start _ (mkLsa 0 true true) _ _ _ _ _ _ _)));
    first [apply (bool_decide_unpack _); vm_compute; exact I | vm_compute; reflexivity].
Defined.

Lemma PackAndFinish_logon_witness :
  sr_gsr (PackAndFinish test_env CPUS_LOGON 0 [] [] (W "al") (W "pw") lsa_start).1
    = CPGSR_RETURN_CREDENTIAL_FINISHED.
Proof.
  pose proof (PackAndFinish_logon test_env CPUS_LOGON 0 [] [] (W "al") (W "pw") lsa_start
    ltac:(discriminate) ltac:(discriminate) ltac:(vm_compute; reflexivity)
    ltac:(vm_compute; reflexivity) ltac:(vm_compute; reflexivity)) as H.
  destruct (PackAndFinish test_env CPUS_LOGON 0 [] [] (W "al") (W "pw") lsa_start) as [r l] eqn:E.
  cbv zeta in H. apply (proj1 H). vm_compute in E. injection E as <- <-.
  vm_compute. split_and!; intros; discriminate || reflexivity.
Defined.
