(* ===== verification/Credential.v ===== *)
(** * The credential tile

    [windows/credential_provider/LigamentCredential.cpp]: the members of
    [LigamentCredential], the LogonUI methods, and the worker thread
    [RunAsyncJob]. Code that runs on either thread is a [prog]: a sequence of
    atomic steps on the shared members (one per critical section, per network
    call and per unlocked member access), with the two points where the LogonUI
    thread starts the worker ([Spawn]) and waits for it ([Join]). *)
From S2P Require Import Prelude Text Config HttpClient RdpGate Pack.

(** ** Data *)
Inductive FIELD_ID := FID_LOGO | FID_LARGE_TEXT | FID_USERNAME | FID_PASSWORD | FID_SUBMIT
  | FID_STATUS_TEXT | FID_NUMBER_MATCH | FID_FIDO2_BTN | FID_OTP_CODE | FID_SWITCH_FACTOR_BTN.
#[export] Instance FIELD_eq : EqDecision FIELD_ID.
Proof. solve_decision. Defined.

Inductive AUTH_FACTOR_MODE := MODE_FIDO2 | MODE_PUSH | MODE_OTP.
#[export] Instance MODE_eq : EqDecision AUTH_FACTOR_MODE.
Proof. solve_decision. Defined.

Inductive WorkerJob := JobNone | JobStartPush | JobWebAuthnBegin | JobVerifyOtp.
#[export] Instance JOB_eq : EqDecision WorkerJob.
Proof. solve_decision. Defined.

Record WorkerState := mkWorker {
  w_stop : bool; w_beginDone : bool; w_beginOk : bool; w_beginError : str;
  w_retryAfterSec : Z; w_numberMatch : wstr; w_qrUrl : wstr;
  w_done : bool; w_status : wstr }.
#[export] Instance eta_Worker : Settable WorkerState := λ w,
  mkWorker (w_stop w) (w_beginDone w) (w_beginOk w) (w_beginError w) (w_retryAfterSec w)
    (w_numberMatch w) (w_qrUrl w) (w_done w) (w_status w).
Definition new_worker : WorkerState := mkWorker false false false [] 0 [] [] false [].

Inductive FieldState := CPFS_HIDDEN | CPFS_DISPLAY_IN_SELECTED_TILE.
Inductive Interactive := CPFIS_NONE | CPFIS_FOCUSED.

(** What LogonUI observes: the calls on its event interfaces, and the
    diagnostic logon probes. *)
Inductive UiEvent :=
  | EvFieldState (f : FIELD_ID) (st : FieldState)
  | EvInteractive (f : FIELD_ID) (st : Interactive)
  | EvFieldString (f : FIELD_ID) (s : wstr)
  | EvLogoBuffer                          (* SetFieldBitmapBuffer with the static logo *)
  | EvBitmap (qr : option str)            (* SetFieldBitmap, the text of the QR code *)
  | EvCredentialsChanged (ctx : Z)
  | EvProbe (domain user : wstr).         (* LogonUserW of the SAM probe *)

(** The members of [LigamentCredential], and below the line what it leaves
    outside: network log, gate consultations, LogonUI calls, ticket files,
    counters of thread creations and packs. *)
Record Sys := mkSys {
  m_config : Config; m_isRemoteSession : bool; m_cpus : CPUS; m_providerFlags : Z;
  m_currentMode : AUTH_FACTOR_MODE;
  m_username : wstr; m_domain : wstr; m_usernameRaw : wstr; m_password : wstr; m_otpCode : wstr;
  m_statusText : wstr; m_numberMatch : wstr; m_authenticated : bool;
  m_hQrBmp : option str; m_hDefaultLogoBmp : bool;
  m_hPollThread : bool; m_worker : WorkerState;
  m_job : WorkerJob; m_jobUser : wstr; m_jobDomain : wstr; m_jobPass : wstr; m_jobOtp : wstr;
  m_beginApplied : bool; m_pEvents : bool; m_pProviderEvents : option Z; m_lsa : LsaCache;
  x_net : NetLog; x_gates : list (wstr * RdpGateResult); x_ui : list UiEvent;
  x_tickets : list (wstr * wstr * str); x_threads : nat; x_packs : nat }.

#[export] Instance eta_Sys : Settable Sys := λ s,
  mkSys (m_config s) (m_isRemoteSession s) (m_cpus s) (m_providerFlags s) (m_currentMode s)
    (m_username s) (m_domain s) (m_usernameRaw s) (m_password s) (m_otpCode s)
    (m_statusText s) (m_numberMatch s) (m_authenticated s) (m_hQrBmp s) (m_hDefaultLogoBmp s)
    (m_hPollThread s) (m_worker s) (m_job s) (m_jobUser s) (m_jobDomain s) (m_jobPass s) (m_jobOtp s)
    (m_beginApplied s) (m_pEvents s) (m_pProviderEvents s) (m_lsa s)
    (x_net s) (x_gates s) (x_ui s) (x_tickets s) (x_threads s) (x_packs s).

(** The world around the tile. *)
Record World := mkWorld {
  o_crack : wstr → option UrlComp;
  o_net : Net;
  o_utf8 : list Z → list Z;          (* WideToUtf8 *)
  o_wide : list Z → list Z;          (* Utf8ToWide *)
  o_sys : SysInfo;
  o_gate : nat → GateEnv;            (* at the n-th gate consultation *)
  o_thread : nat → bool;             (* n-th CreateThread *)
  o_pack : nat → PackEnv;            (* at the n-th PackAndFinish *)
  o_computer : wstr;                 (* ComputerNameSuffix *)
  o_http_open : bool;                (* WinHttpOpen *)
  o_events3 : bool;                  (* SetFieldBitmapBuffer is supported and succeeds *)
  o_qr : str → bool;                 (* CreateQrBitmap succeeds *)
  o_names : wstr * wstr;             (* GetMachineNames *)
  o_logon : wstr → wstr → wstr → bool; (* LogonUserW user domain password *)
}.

(** ** Programs *)
Inductive prog (A : Type) :=
  | Ret (a : A)
  | Act (f : Sys → Sys) (k : Sys → prog A)
  | Spawn (k : prog A)
  | Join (k : prog A).
Arguments Ret {A} a. Arguments Act {A} f k. Arguments Spawn {A} k. Arguments Join {A} k.

Fixpoint prog_bind {A C} (c : A → prog C) (p : prog A) : prog C :=
  match p with
  | Ret a => c a
  | Act f k => Act f (λ s, prog_bind c (k s))
  | Spawn k => Spawn (prog_bind c k)
  | Join k => Join (prog_bind c k)
  end.
#[export] Instance prog_mret : MRet prog := @Ret.
#[export] Instance prog_mbind : MBind prog := @prog_bind.

(** An atomic step that returns a value computed from the members. *)
Definition act {A} (g : Sys → A * Sys) : prog A := Act (λ s, (g s).2) (λ s, Ret (g s).1).
Definition modify (f : Sys → Sys) : prog unit := Act f (λ _, Ret tt).
Definition gets {A} (g : Sys → A) : prog A := Act (λ s, s) (λ s, Ret (g s)).
Definition when (b : bool) (p : prog unit) : prog unit := if b then p else Ret tt.

Definition add_ui (evs : list UiEvent) (s : Sys) : Sys := s <| x_ui := x_ui s ++ evs |>.

(** ** Error texts *)
Definition DescribeServerError (wide : list Z → list Z) (err : str) (retryAfterSec : Z) : wstr :=
  if bool_decide (err = B "network_error") then W "сервер 2FA недоступен (проверьте сеть и настройку ServerURL)" else
  if bool_decide (err = B "bad_credentials") || bool_decide (err = B "status_401")
  then W "неверное имя пользователя или пароль" else
  if bool_decide (err = B "locked") || bool_decide (err = B "status_423")
  then W "вход временно заблокирован из-за неудачных попыток" else
  if bool_decide (err = B "rate_limited") || bool_decide (err = B "status_429") then
    if 0 <? retryAfterSec
    then W "слишком много попыток, повторите через " ++ to_string retryAfterSec ++ W " с"
    else W "слишком много попыток, подождите немного" else
  if bool_decide (err = B "cooldown") then
    if 0 <? retryAfterSec
    then W "повторная отправка возможна через " ++ to_string retryAfterSec ++ W " с"
    else W "повторная отправка пока недоступна, подождите" else
  if bool_decide (err = B "no_channel") then W "у пользователя не настроен канал доставки 2FA" else
  if bool_decide (err = B "no_credentials") then W "нет зарегистрированных ключей FIDO2" else
  if bool_decide (err = B "webauthn_disabled") || bool_decide (err = B "status_503")
  then W "этот способ входа отключен на сервере" else
  if bool_decide (err = B "internal") || bool_decide (err = B "status_500")
  then W "внутренняя ошибка сервера 2FA" else
  if prefixb (B "status_") err then W "сервер 2FA ответил ошибкой HTTP " ++ wide (substr_from err 7) else
  if bool_decide (err = []) then W "сервер 2FA вернул пустой ответ" else
  wide err.

Section Tile.
Context (o : World).

(** ** Reading the tile *)
Definition Fido2Allowed (s : Sys) : bool :=
  fido2Enabled (m_config s) && negb (bool_decide (m_cpus s = CPUS_CREDUI)).

Definition GetFieldState (s : Sys) (f : FIELD_ID) : FieldState * Interactive :=
  let show (b : bool) := if b then CPFS_DISPLAY_IN_SELECTED_TILE else CPFS_HIDDEN in
  match f with
  | FID_USERNAME | FID_PASSWORD => (CPFS_DISPLAY_IN_SELECTED_TILE, CPFIS_FOCUSED)
  | FID_LOGO | FID_LARGE_TEXT | FID_SUBMIT | FID_STATUS_TEXT =>
    (CPFS_DISPLAY_IN_SELECTED_TILE, CPFIS_NONE)
  | FID_NUMBER_MATCH => (show (negb (bool_decide (m_numberMatch s = []))), CPFIS_NONE)
  | FID_FIDO2_BTN =>
    (match m_currentMode s with MODE_PUSH => show (Fido2Allowed s) | _ => show true end, CPFIS_NONE)
  | FID_OTP_CODE =>
    match m_currentMode s with
    | MODE_OTP => (show true, CPFIS_FOCUSED)
    | _ => (show false, CPFIS_NONE)
    end
  | FID_SWITCH_FACTOR_BTN =>
    (match m_currentMode s with MODE_OTP => show (Fido2Allowed s) | _ => show true end, CPFIS_NONE)
  end.

(** The text of a field, from the number and the status text copied under the lock and
    the members read after it. *)
Definition string_of (s : Sys) (numberMatch statusText : wstr) (f : FIELD_ID) : wstr :=
  let pc := o_computer o in
  let pcHeader := if bool_decide (pc = []) then [] else W "  ·  Имя ПК: " ++ pc in
  match f with
  | FID_LARGE_TEXT =>
    match m_currentMode s with
    | MODE_FIDO2 => W "🔑 Вход по Passkey (QR-код)" ++ pcHeader
    | MODE_OTP => W "⏱️ Вход по коду TOTP / YubiKey" ++ pcHeader
    | MODE_PUSH =>
      if negb (bool_decide (numberMatch = []))
      then W "🔢 Контрольное число: " ++ numberMatch ++ pcHeader
      else W "🛡️ Ligament Enterprise 2FA" ++ pcHeader
    end
  | FID_USERNAME => m_username s
  | FID_PASSWORD => m_password s
  | FID_STATUS_TEXT => statusText
  | FID_NUMBER_MATCH =>
    if negb (bool_decide (numberMatch = [])) then W "   [  " ++ numberMatch ++ W "  ]   " else []
  | FID_FIDO2_BTN =>
    match m_currentMode s with
    | MODE_PUSH => W "📱 Войти по Passkey (QR-код)"
    | _ => W "📲 Войти через Push в приложение"
    end
  | FID_OTP_CODE => m_otpCode s
  | FID_SWITCH_FACTOR_BTN =>
    match m_currentMode s with
    | MODE_OTP => W "📱 Войти по Passkey (QR-код)"
    | _ => W "🔑 Войти по коду TOTP / YubiKey"
    end
  | _ => []
  end.

Definition GetStringValue (f : FIELD_ID) : prog wstr :=
  copy ← gets (λ s, (m_numberMatch s, m_statusText s));
  gets (λ s, string_of s copy.1 copy.2 f).

(** The image methods: [Some (Some text)] is the QR code of [text], [Some None] the logo. *)
Definition GetBitmapBufferValue (s : Sys) (f : FIELD_ID) : HRESULT * option (option str) :=
  if bool_decide (f = FID_LOGO) then (S_OK, Some (m_hQrBmp s)) else (E_INVALIDARG, None).

Definition GetBitmapValue (s : Sys) (f : FIELD_ID) : HRESULT * option (option str) :=
  if bool_decide (f = FID_LOGO) then
    match m_hQrBmp s with
    | Some t => (S_OK, Some (Some t))
    | None => if m_hDefaultLogoBmp s then (S_OK, Some None) else (E_NOTIMPL, None)
    end
  else (E_NOTIMPL, None).

Definition GetSubmitButtonValue (f : FIELD_ID) : HRESULT * option FIELD_ID :=
  if bool_decide (f = FID_SUBMIT) then (S_OK, Some FID_PASSWORD) else (E_NOTIMPL, None).

(** ** Telling LogonUI *)

(** A call on an event interface: it writes no member. *)
Definition tell (e : UiEvent) : prog unit := modify (add_ui [e]).

(** The logo field's pictures, from the bitmaps copied under the lock: [SetTransparentLogo]
    for the logo, the copied bitmap for the QR code or where the buffer call fails. *)
Definition show_logo (qr : option str) (logo : bool) : prog unit :=
  match qr with
  | Some t => tell (EvBitmap (Some t))
  | None => when logo (if o_events3 o then tell EvLogoBuffer else tell (EvBitmap None))
  end.

(** The interface is taken with a reference of its own; each critical section and each
    call on it is a step. *)
Definition NotifyFieldChanged (f : FIELD_ID) : prog unit :=
  pEvents ← gets m_pEvents;
  when pEvents (
    st ← gets (λ s, GetFieldState s f);
    tell (EvFieldState f st.1);;
    tell (EvInteractive f st.2);;
    match f with
    | FID_STATUS_TEXT => t ← gets m_statusText; tell (EvFieldString FID_STATUS_TEXT t)
    | FID_NUMBER_MATCH | FID_LARGE_TEXT | FID_SWITCH_FACTOR_BTN | FID_FIDO2_BTN =>
      psz ← GetStringValue f; tell (EvFieldString f psz)
    | FID_LOGO =>
      bmp ← gets (λ s, (m_hQrBmp s, m_hDefaultLogoBmp s));
      show_logo bmp.1 bmp.2;;
      tell (EvFieldState FID_LOGO st.1)
    | _ => mret tt
    end).

Definition credentials_changed (events : option Z) : list UiEvent :=
  match events with Some ctx => [EvCredentialsChanged ctx] | None => [] end.

Definition NotifyProviderChangedFromWorker : prog unit :=
  events ← gets m_pProviderEvents;
  modify (add_ui (credentials_changed events)).

(** The raw members [m_pEvents] and [m_pProviderEvents] are read outside the lock, when
    they are used. *)
Definition NotifyQrChanged : prog unit :=
  bmp ← gets (λ s, (m_hQrBmp s, m_hDefaultLogoBmp s));
  pEvents ← gets m_pEvents;
  when (pEvents && (bmp.2 || bool_decide (is_Some bmp.1))) (
    show_logo bmp.1 bmp.2;;
    tell (EvFieldState FID_LOGO CPFS_DISPLAY_IN_SELECTED_TILE));;
  events ← gets m_pProviderEvents;
  match events with
  | Some ctx => when (negb (ctx =? 0)) (tell (EvCredentialsChanged ctx))
  | None => mret tt
  end.

Definition ClearQrBitmap : prog unit :=
  hadQr ← act (λ s, (bool_decide (is_Some (m_hQrBmp s)), s <| m_hQrBmp := None |>));
  when hadQr NotifyQrChanged.

Definition set_status_text (t : wstr) : prog unit := modify (λ s, s <| m_statusText := t |>).
Definition clear_number : prog unit := modify (λ s, s <| m_numberMatch := [] |>).
(** [if (m_pEvents) m_pEvents->SetFieldString(this, FID_STATUS_TEXT, msg)] *)
Definition show_status (t : wstr) : prog unit :=
  pEvents ← gets m_pEvents;
  when pEvents (tell (EvFieldString FID_STATUS_TEXT t)).
Definition when_events (p : prog unit) : prog unit := e ← gets m_pEvents; when e p.

Definition update_status (s : Sys) : wstr :=
  match m_currentMode s with
  | MODE_FIDO2 =>
    if bool_decide (m_username s = []) || bool_decide (m_password s = [])
    then W "Passkey: введите имя пользователя и пароль для получения QR-кода"
    else if bool_decide (is_Some (m_hQrBmp s))
    then W "Отсканируйте QR-код камерой телефона (Face ID / Touch ID)"
    else W "Passkey: нажмите стрелку входа [->] для генерации QR-кода"
  | MODE_PUSH =>
    if negb (bool_decide (m_numberMatch s = []))
    then W "Подтвердите вход в приложении Ligament:" ++ [10] ++ W "выберите контрольное число на экране:"
    else W "Введите логин и пароль для входа через приложение Ligament / Telegram"
  | MODE_OTP => W "Введите 6 цифр из приложения TOTP или коснитесь YubiKey"
  end.

Definition UpdateFieldStates : prog unit :=
  modify (λ s, s <| m_statusText := update_status s |>);;
  when_events (
    NotifyFieldChanged FID_LOGO;; NotifyFieldChanged FID_LARGE_TEXT;;
    NotifyFieldChanged FID_NUMBER_MATCH;; NotifyFieldChanged FID_FIDO2_BTN;;
    NotifyFieldChanged FID_OTP_CODE;; NotifyFieldChanged FID_STATUS_TEXT;;
    NotifyFieldChanged FID_SWITCH_FACTOR_BTN).

(** ** Starting and stopping the worker *)
Definition wipe_job (s : Sys) : Sys :=
  s <| m_job := JobNone |> <| m_jobUser := [] |> <| m_jobDomain := [] |>
    <| m_jobPass := [] |> <| m_jobOtp := [] |> <| m_worker := new_worker |>.

Definition JoinPollThread : prog unit :=
  t ← gets m_hPollThread;
  when t (Join (modify (λ s, s <| m_hPollThread := false |>)));;
  modify wipe_job.

Definition StopPollThread : prog unit :=
  modify (λ s, s <| m_worker := (m_worker s) <| w_stop := true |> |>);;
  JoinPollThread.

Definition load_job (job : WorkerJob) (statusText : wstr) (s : Sys) : Sys :=
  let s := s <| m_worker := new_worker |> <| m_job := job |> <| m_jobUser := m_username s |>
             <| m_jobDomain := m_domain s |> <| m_jobPass := m_password s |> in
  let s := if bool_decide (job = JobVerifyOtp) then s <| m_jobOtp := m_otpCode s |> else s in
  s <| m_statusText := statusText |>.

Definition StartWorkerJob (job : WorkerJob) (statusText : wstr) : prog bool :=
  StopPollThread;;
  modify (load_job job statusText);;
  modify (λ s, s <| m_beginApplied := false |>);;
  NotifyFieldChanged FID_STATUS_TEXT;;
  ok ← act (λ s, (o_thread o (x_threads s), s <| x_threads := S (x_threads s) |>));
  if (ok : bool)
  then Spawn (modify (λ s, s <| m_hPollThread := true |>);; mret true)
  else modify wipe_job;; mret false.

Definition ResetAuthState : prog unit :=
  modify (λ s, s <| m_authenticated := false |>);;
  modify (λ s, s <| m_numberMatch := [] |> <| m_beginApplied := false |>);;
  ClearQrBitmap;;
  modify (λ s, s <| m_otpCode := [] |>);;
  StopPollThread;;
  when_events (NotifyFieldChanged FID_NUMBER_MATCH;; NotifyFieldChanged FID_LARGE_TEXT).

(** ** LogonUI methods *)
Definition Initialize (cfg : Config) (isRemote : bool) (cpus : CPUS) (flags : Z) : prog unit :=
  modify (λ s,
    let s := s <| m_config := cfg |> <| m_isRemoteSession := isRemote |> <| m_cpus := cpus |>
               <| m_providerFlags := flags |> <| m_hDefaultLogoBmp := true |> in
    let set m t := s <| m_currentMode := m |> <| m_statusText := t |> in
    if bool_decide (cpus = CPUS_CREDUI) then
      if defaultFactor cfg =? 2
      then set MODE_OTP (W "Повышение прав: введите код TOTP или коснитесь YubiKey")
      else set MODE_PUSH (W "Повышение прав: подтвердите вход вторым фактором")
    else if (defaultFactor cfg =? 1) && fido2Enabled cfg
    then set MODE_FIDO2 (W "Passkey: введите имя пользователя и пароль для получения QR-кода")
    else if defaultFactor cfg =? 2
    then set MODE_OTP (W "Введите 6 цифр TOTP или коснитесь YubiKey")
    else set MODE_PUSH (W "Вход через приложение Ligament (число) / Telegram")).

Definition SetProviderEvents (ctx : option Z) : prog unit :=
  modify (λ s, s <| m_pProviderEvents := ctx |>).
Definition Advise (events : bool) : prog unit := modify (λ s, s <| m_pEvents := events |>).
Definition UnAdvise : prog unit := modify (λ s, s <| m_pEvents := false |>).

Definition SetSelected : prog bool := gets m_authenticated.

Definition SetDeselected : prog unit :=
  keep ← gets (λ s, m_hPollThread s || m_authenticated s);
  when (negb keep) ResetAuthState.

(** [DOMAIN\user], [user@domain] or a plain name. *)
Definition split_user (raw : wstr) : wstr * wstr :=
  match find_ch raw 92 0 with
  | Some slash => (substr raw 0 slash, substr_from raw (slash + 1))
  | None =>
    match find_ch raw 64 0 with
    | Some at_ =>
      if bool_decide (0 < at_)%nat && bool_decide (at_ + 1 < length raw)%nat
      then (substr_from raw (at_ + 1), substr raw 0 at_) else ([], raw)
    | None => ([], raw)
    end
  end.

(** The stored name as it is compared with new input. *)
Definition prev_raw (s : Sys) : wstr :=
  if bool_decide (m_domain s = []) then m_username s else m_domain s ++ [92] ++ m_username s.

Definition SetStringValue (f : FIELD_ID) (psz : wstr) : prog unit :=
  match f with
  | FID_USERNAME =>
    same ← gets (λ s, bool_decide (ieq psz (prev_raw s)));
    when (negb same) ResetAuthState;;
    modify (λ s, s <| m_usernameRaw := psz |>
                   <| m_domain := (split_user psz).1 |> <| m_username := (split_user psz).2 |>)
  | FID_PASSWORD =>
    same ← gets (λ s, bool_decide (m_password s = psz));
    when (negb same) ResetAuthState;;
    modify (λ s, s <| m_password := psz |>)
  | FID_OTP_CODE => modify (λ s, s <| m_otpCode := psz |>)
  | _ => Ret tt
  end.

Definition TriggerFIDO2Auth : prog unit :=
  empty ← gets (λ s, bool_decide (m_username s = []) || bool_decide (m_password s = []));
  if (empty : bool) then
    set_status_text (W "Passkey: сначала введите имя пользователя и пароль");;
    NotifyFieldChanged FID_STATUS_TEXT
  else
  auth ← gets m_authenticated;
  if (auth : bool) then
    set_status_text (W "Passkey уже подтвержден! Нажмите стрелку для входа");;
    NotifyFieldChanged FID_STATUS_TEXT
  else
  ok ← StartWorkerJob JobWebAuthnBegin (W "Генерация сессии Passkey...");
  when (negb ok) (
    set_status_text (W "Не удалось запустить Passkey, попробуйте еще раз");;
    NotifyFieldChanged FID_STATUS_TEXT).

Definition mode_status (s : Sys) : wstr :=
  match m_currentMode s with
  | MODE_PUSH => W "Нажмите «Войти» для отправки Push-уведомления"
  | MODE_OTP => W "Введите одноразовый код TOTP или коснитесь YubiKey"
  | MODE_FIDO2 =>
    if negb (bool_decide (m_username s = [])) && negb (bool_decide (m_password s = []))
    then W "Генерация сессии Passkey..." else W "Passkey: введите имя пользователя и пароль"
  end.

Definition SwitchToMode (newMode : AUTH_FACTOR_MODE) : prog unit :=
  skip ← gets (λ s, bool_decide (newMode = MODE_FIDO2) && negb (Fido2Allowed s)
                    || bool_decide (m_currentMode s = newMode));
  when (negb skip) (
    StopPollThread;;
    ClearQrBitmap;;
    modify (λ s, s <| m_currentMode := newMode |> <| m_numberMatch := [] |>);;
    modify (λ s, s <| m_statusText := mode_status s |>);;
    UpdateFieldStates;;
    trigger ← gets (λ s, bool_decide (newMode = MODE_FIDO2) &&
      negb (bool_decide (m_username s = [])) && negb (bool_decide (m_password s = [])));
    when trigger TriggerFIDO2Auth).

Definition SwitchToNextMode : prog unit :=
  next ← gets (λ s, match m_currentMode s with
                    | MODE_PUSH => if Fido2Allowed s then MODE_FIDO2 else MODE_OTP
                    | MODE_FIDO2 => MODE_OTP
                    | MODE_OTP => MODE_PUSH
                    end);
  SwitchToMode next.

Definition CommandLinkClicked (f : FIELD_ID) : prog unit :=
  mode ← gets m_currentMode;
  match f, mode with
  | FID_FIDO2_BTN, MODE_PUSH => SwitchToMode MODE_FIDO2
  | FID_FIDO2_BTN, _ => SwitchToMode MODE_PUSH
  | FID_SWITCH_FACTOR_BTN, MODE_OTP => SwitchToMode MODE_FIDO2
  | FID_SWITCH_FACTOR_BTN, _ => SwitchToMode MODE_OTP
  | _, _ => Ret tt
  end.
End Tile.

Section Serialize.
Context (o : World).

(** ** [GetSerialization] *)
Definition not_finished : SerResult := mkSerResult CPGSR_NO_CREDENTIAL_NOT_FINISHED None None CPSI_NONE.
Definition with_text (t : wstr) (icon : ICON) : SerResult :=
  mkSerResult CPGSR_NO_CREDENTIAL_NOT_FINISHED None (Some t) icon.

Definition pack_finish : prog SerResult :=
  act (λ s,
    let '(r, lsa) := PackAndFinish (o_pack o (x_packs s)) (m_cpus s) (m_providerFlags s)
      (m_usernameRaw s) (m_domain s) (m_username s) (m_password s) (m_lsa s) in
    (r, s <| m_lsa := lsa |> <| x_packs := S (x_packs s) |>)).

Definition describe := DescribeServerError (o_wide o).

Definition serialize_otp : prog SerResult :=
  empty ← gets (λ s, bool_decide (m_otpCode s = []));
  if (empty : bool) then mret (with_text (W "Введите 6 цифр TOTP или коснитесь YubiKey") CPSI_NONE) else
  thread ← gets m_hPollThread;
  if negb thread then
    ok ← StartWorkerJob o JobVerifyOtp (W "Проверка кода...");
    if (ok : bool) then mret not_finished
    else mret (with_text (W "Не удалось запустить проверку кода, попробуйте еще раз") CPSI_ERROR)
  else
  w ← gets m_worker;
  if negb (w_done w) then mret not_finished else
  JoinPollThread;;
  if w_beginDone w && w_beginOk w then
    modify (λ s, s <| m_authenticated := true |>);; pack_finish
  else
  open ← gets (λ s, negb (failClose (m_config s)));
  if (open : bool) && bool_decide (w_beginError w = B "network_error") then pack_finish
  else mret (with_text (W "Вход отклонен: " ++ describe (w_beginError w) (w_retryAfterSec w)) CPSI_ERROR).

Definition push_text (number : wstr) : wstr :=
  if negb (bool_decide (number = []))
  then W "Подтвердите вход в приложении:" ++ [10] ++ W "Введите контрольное число:"
  else W "Push отправлен! Подтвердите вход в приложении/Telegram...".

Definition approved_text : wstr := W "✅ Вход подтверждён! Выполняется вход в систему...".

(** The first [GetSerialization] after phase 1 puts the number on the tile. *)
Definition apply_begin_push (w : WorkerState) : prog unit :=
  applied ← gets m_beginApplied;
  when (w_beginDone w && w_beginOk w && negb applied) (
    modify (λ s, s <| m_beginApplied := true |>);;
    modify (λ s, s <| m_numberMatch := w_numberMatch (m_worker s) |>
                   <| m_statusText := push_text (w_numberMatch (m_worker s)) |>);;
    NotifyFieldChanged o FID_STATUS_TEXT;; NotifyFieldChanged o FID_NUMBER_MATCH;;
    NotifyFieldChanged o FID_LARGE_TEXT).

Definition push_begin_failed (w : WorkerState) : prog SerResult :=
  JoinPollThread;;
  clear_number;;
  open ← gets (λ s, negb (failClose (m_config s)));
  if (open : bool) && bool_decide (w_beginError w = B "network_error") then pack_finish else
  let msg := W "Не удалось отправить Push: " ++ describe (w_beginError w) (w_retryAfterSec w) in
  set_status_text msg;;
  when_events (NotifyFieldChanged o FID_NUMBER_MATCH;; NotifyFieldChanged o FID_LARGE_TEXT;;
               show_status msg);;
  mret (with_text msg CPSI_ERROR).

Definition push_reason (status : wstr) : wstr * ICON :=
  if bool_decide (status = W "denied") then (W "❌ Вход отклонён пользователем", CPSI_ERROR) else
  if bool_decide (status = W "expired")
  then (W "⌛ Срок действия подтверждения истёк, повторите попытку", CPSI_WARNING)
  else (W "⌛ Время ожидания подтверждения истекло", CPSI_WARNING).

Definition serialize_push : prog SerResult :=
  thread ← gets m_hPollThread;
  if negb thread then
    ok ← StartWorkerJob o JobStartPush (W "Отправка Push...");
    if (ok : bool) then mret not_finished
    else mret (with_text (W "Не удалось запустить ожидание Push, попробуйте еще раз") CPSI_ERROR)
  else
  w ← gets m_worker;
  if w_beginDone w && negb (w_beginOk w) then push_begin_failed w else
  apply_begin_push w;;
  if negb (w_done w) then mret not_finished else
  auth ← gets m_authenticated;
  if bool_decide (w_status w = W "approved") || auth then
    JoinPollThread;;
    clear_number;;
    modify (λ s, s <| m_authenticated := true |>);;
    set_status_text approved_text;;
    show_status approved_text;;
    pack_finish
  else
  let '(msg, icon) := push_reason (w_status w) in
  JoinPollThread;;
  clear_number;;
  set_status_text msg;;
  when_events (NotifyFieldChanged o FID_NUMBER_MATCH;; NotifyFieldChanged o FID_LARGE_TEXT;;
               show_status msg);;
  mret (with_text msg icon).

(** The QR code, when the worker has not drawn it. *)
Definition apply_begin_fido (w : WorkerState) : prog unit :=
  applied ← gets m_beginApplied;
  when (w_beginDone w && w_beginOk w && negb applied) (
    modify (λ s, s <| m_beginApplied := true |>);;
    q ← gets (λ s, (w_qrUrl (m_worker s), bool_decide (is_Some (m_hQrBmp s))));
    when (negb q.2 && negb (bool_decide (q.1 = []))) (
      let text := o_utf8 o q.1 in
      modify (λ s, s <| m_hQrBmp := if o_qr o text then Some text else None |>
                     <| m_statusText := W "Отсканируйте QR-код камерой телефона (Face ID / Touch ID)" |>);;
      UpdateFieldStates o;; NotifyQrChanged o)).

Definition fido_begin_failed (w : WorkerState) : prog SerResult :=
  JoinPollThread;;
  ClearQrBitmap o;;
  let msg := W "Ошибка Passkey: " ++ describe (w_beginError w) (w_retryAfterSec w) in
  set_status_text msg;;
  NotifyFieldChanged o FID_STATUS_TEXT;; NotifyFieldChanged o FID_LOGO;;
  mret (with_text msg CPSI_ERROR).

Definition fido_reason (status : wstr) : wstr * ICON :=
  if bool_decide (status = W "denied") then (W "❌ Вход по Passkey отклонён на телефоне", CPSI_ERROR) else
  if bool_decide (status = W "expired")
  then (W "⌛ Срок действия QR-кода истёк, нажмите для повтора", CPSI_WARNING)
  else (W "⌛ Время ожидания Passkey истекло", CPSI_WARNING).

Definition serialize_fido : prog SerResult :=
  thread ← gets m_hPollThread;
  if negb thread then
    TriggerFIDO2Auth o;;
    auth ← gets m_authenticated;
    if (auth : bool) then pack_finish else mret not_finished
  else
  w ← gets m_worker;
  if w_beginDone w && negb (w_beginOk w) then fido_begin_failed w else
  apply_begin_fido w;;
  if negb (w_done w) then mret not_finished else
  auth ← gets m_authenticated;
  if bool_decide (w_status w = W "approved") || auth then
    JoinPollThread;;
    ClearQrBitmap o;;
    modify (λ s, s <| m_authenticated := true |>);;
    set_status_text approved_text;;
    show_status approved_text;;
    pack_finish
  else
  let '(msg, icon) := fido_reason (w_status w) in
  JoinPollThread;;
  ClearQrBitmap o;;
  set_status_text msg;;
  show_status msg;;
  mret (with_text msg icon).

Definition GetSerialization : prog SerResult :=
  empty ← gets (λ s, bool_decide (m_username s = []) || bool_decide (m_password s = []));
  if (empty : bool) then mret (with_text (W "Введите имя пользователя и пароль") CPSI_NONE) else
  bypass ← gets (λ s, IsBypassAccount (m_config s) (m_username s) (m_domain s));
  if (bypass : bool) then pack_finish else
  auth ← gets m_authenticated;
  if (auth : bool) then JoinPollThread;; ClearQrBitmap o;; clear_number;; pack_finish else
  mode ← gets m_currentMode;
  match mode with
  | MODE_OTP => serialize_otp
  | MODE_PUSH => serialize_push
  | MODE_FIDO2 => serialize_fido
  end.

(** ** [ReportResult] *)

(** The SAM probe: at most one [LogonUserW] per domain, stopping at a success. *)
Fixpoint sam_probe (user pass : wstr) (domains : list wstr) : list UiEvent :=
  match domains with
  | [] => []
  | d :: ds =>
    if bool_decide (d = []) then sam_probe user pass ds
    else EvProbe d user :: (if o_logon o user d pass then [] else sam_probe user pass ds)
  end.

Definition probe_events (status : Z) (s : Sys) : list UiEvent :=
  if samProbeEnabled (m_config s) && negb (status =? 0) && negb (bool_decide (m_password s = [])) &&
     negb (bool_decide (m_username s = []))
  then sam_probe (m_username s) (m_password s) [W "."; (o_names o).1; (o_names o).2]
  else [].

Definition ReportResult (ntsStatus : Z) : prog unit :=
  modify (λ s, add_ui (probe_events ntsStatus s) s);;
  modify (λ s, s <| m_password := [] |> <| m_otpCode := [] |>);;
  ResetAuthState o.

(** ** The worker *)
Definition stopRequested : prog bool := gets (λ s, w_stop (m_worker s)).

(** A critical section of the worker: nothing is written once [stop] is set. *)
Definition unless_stopped (f : Sys → Sys) : prog bool :=
  act (λ s, (w_stop (m_worker s), if w_stop (m_worker s) then s else f s)).

(** A call of the job's HTTP client. *)
Definition call {O} (f : NetLog → O * HttpApiClient * NetLog) : prog (O * HttpApiClient) :=
  act (λ s, let '(out, c, log) := f (x_net s) in ((out, c), s <| x_net := log |>)).

Definition consult_gate (cfg : Config) (user : wstr) : prog RdpGateResult :=
  act (λ s,
    let r := (CheckRdpMfaSatisfied (o_crack o) (o_utf8 o) (o_gate o (length (x_gates s)))
                (serverUrl cfg) user (o_computer o) (allowSelfSigned cfg) (allowHttp cfg)).1 in
    (r, s <| x_gates := x_gates s ++ [(user, r)] |>)).

Definition job_client (cfg : Config) (cpus : CPUS) : HttpApiClient :=
  newClient (o_crack o) (serverUrl cfg) (allowSelfSigned cfg) 8000 (fallbackRelayUrl cfg)
    (allowHttp cfg) (if bool_decide (cpus = CPUS_CREDUI) then B "UAC Elevation" else [])
    (o_http_open o).

Definition begin_worker (ok : bool) (err : str) (retry : Z) (s : Sys) : Sys :=
  s <| m_worker := (m_worker s) <| w_beginDone := true |> <| w_beginOk := ok |>
                     <| w_beginError := err |> <| w_retryAfterSec := retry |> |>.

Definition is_terminal (status : wstr) : bool :=
  bool_decide (status = W "approved") || bool_decide (status = W "denied")
  || bool_decide (status = W "expired").

Definition terminal_text (job : WorkerJob) (status old : wstr) : wstr :=
  let fido := bool_decide (job = JobWebAuthnBegin) in
  if bool_decide (status = W "approved") then approved_text else
  if bool_decide (status = W "denied")
  then (if fido then W "❌ Вход по Passkey отклонён на телефоне" else W "❌ Вход отклонён пользователем")
  else if bool_decide (status = W "expired")
  then (if fido then W "⌛ Срок действия QR-кода истёк, повторите попытку"
        else W "⌛ Срок действия подтверждения истёк, повторите попытку")
  else old.

(** The terminal write of phase 2. *)
Definition finish_poll (job : WorkerJob) (status : wstr) (s : Sys) : Sys :=
  s <| m_worker := (m_worker s) <| w_status := status |> <| w_done := true |> |>
    <| m_authenticated := m_authenticated s || bool_decide (status = W "approved") |>
    <| m_statusText := terminal_text job status (m_statusText s) |>
    <| m_hQrBmp := None |> <| m_numberMatch := [] |>.

Definition timeout_poll (job : WorkerJob) (s : Sys) : Sys :=
  s <| m_worker := (m_worker s) <| w_status := W "timeout" |> <| w_done := true |> |>
    <| m_statusText := if bool_decide (job = JobWebAuthnBegin)
                       then W "⌛ Время ожидания Passkey истекло"
                       else W "⌛ Время ожидания подтверждения истекло" |>
    <| m_hQrBmp := None |> <| m_numberMatch := [] |>.

Definition notify_poll : prog unit :=
  NotifyFieldChanged o FID_STATUS_TEXT;; NotifyFieldChanged o FID_LOGO;;
  NotifyFieldChanged o FID_NUMBER_MATCH;; NotifyFieldChanged o FID_LARGE_TEXT;;
  NotifyProviderChangedFromWorker.

(** The four 250 ms slices between two polls; [k] runs unless a stop is requested. *)
Fixpoint slices (n : nat) (k : prog unit) : prog unit :=
  match n with
  | O => k
  | S n => stop ← stopRequested; if (stop : bool) then mret tt else slices n k
  end.

(** [for (int i = 0; i < maxPolls; ++i)]: [n] rounds are left, [errors] is
    [consecutiveNetworkErrors]. *)
Fixpoint poll_loop (n : nat) (errors : nat) (client : HttpApiClient) (job : WorkerJob)
    (challengeId user domain : wstr) : prog unit :=
  match n with
  | O =>
    stop ← unless_stopped (timeout_poll job);
    when (negb stop) notify_poll
  | S n =>
    slices 4 (
      r ← call (PollStatus (o_net o) (o_utf8 o) (o_wide o) challengeId client);
      let p := r.1 in
      if po_ok p && is_terminal (po_status p) then
        stop ← unless_stopped (finish_poll job (po_status p));
        when (negb stop) notify_poll;;
        when (negb stop && bool_decide (po_status p = W "approved")
              && negb (bool_decide (po_ticket p = [])))
          (modify (λ s, s <| x_tickets := x_tickets s ++ [(domain, user, po_ticket p)] |>))
      else
        stop ← stopRequested;
        if (stop : bool) then mret tt else
        poll_loop n (if po_ok p then 0 else
                       if bool_decide (po_error p = B "network_error") then S errors else errors)
          client job challengeId user domain)
  end.

Definition poll_phase (cfg : Config) (client : HttpApiClient) (job : WorkerJob)
    (challengeId user domain : wstr) : prog unit :=
  poll_loop (Z.to_nat (pushTimeoutSec cfg)) 0 client job challengeId user domain.

Definition run_push (cfg : Config) (client : HttpApiClient) (user domain pass : wstr) : prog unit :=
  r ← call (StartPush (o_net o) (o_utf8 o) (o_wide o) (o_sys o) user pass client);
  let out := r.1 in
  stop ← unless_stopped (λ s,
    let s := begin_worker (so_ok out) (so_error out) (m_lastRetryAfterSec r.2) s in
    if so_ok out
    then s <| m_worker := (m_worker s) <| w_numberMatch := so_number out |> |>
           <| m_numberMatch := so_number out |> <| m_statusText := push_text (so_number out) |>
    else s);
  if (stop : bool) then mret tt else
  when (so_ok out) (
    NotifyFieldChanged o FID_STATUS_TEXT;; NotifyFieldChanged o FID_NUMBER_MATCH;;
    NotifyFieldChanged o FID_LARGE_TEXT);;
  NotifyProviderChangedFromWorker;;
  when (so_ok out) (poll_phase cfg r.2 JobStartPush (so_challenge out) user domain).

Definition run_webauthn (cfg : Config) (client : HttpApiClient) (user domain pass : wstr) : prog unit :=
  r ← call (WebAuthnBegin (o_net o) (o_utf8 o) (o_sys o) user pass client);
  let out := r.1 in
  let url := o_utf8 o (serverUrl cfg) ++ B "/auth/passkey?handle=" ++ wb_handle out in
  stop ← unless_stopped (λ s,
    let s := begin_worker (wb_success out) (wb_error out) (m_lastRetryAfterSec r.2) s in
    if wb_success out
    then s <| m_worker := (m_worker s) <| w_qrUrl := o_wide o url |> |>
           <| m_hQrBmp := if o_qr o url then Some url else None |>
           <| m_statusText := W "Отсканируйте QR-код камерой телефона (Face ID / Touch ID)" |>
    else s <| m_hQrBmp := None |>
           <| m_statusText := W "Ошибка Passkey: " ++ describe (wb_error out) (m_lastRetryAfterSec r.2) |>);
  if (stop : bool) then mret tt else
  NotifyFieldChanged o FID_STATUS_TEXT;; NotifyFieldChanged o FID_LOGO;;
  NotifyProviderChangedFromWorker;;
  when (wb_success out)
    (poll_phase cfg r.2 JobWebAuthnBegin (o_wide o (wb_challengeId out)) user domain).

Definition run_otp (client : HttpApiClient) (user pass otp : wstr) : prog unit :=
  r ← call (VerifyCombined (o_net o) (o_utf8 o) (o_sys o) user pass otp client);
  let '(ok, err) := r.1 in
  stop ← unless_stopped (λ s,
    let s := begin_worker ok err (m_lastRetryAfterSec r.2) s in
    let s := s <| m_worker := (m_worker s) <| w_done := true |> |> in
    if (ok : bool)
    then s <| m_authenticated := true |>
           <| m_statusText := W "✅ Код подтверждён! Выполняется вход в систему..." |>
    else s <| m_statusText := W "❌ Вход отклонён: " ++ describe err (m_lastRetryAfterSec r.2) |>);
  if (stop : bool) then mret tt else
  NotifyFieldChanged o FID_STATUS_TEXT;; NotifyProviderChangedFromWorker.

Definition gate_satisfied (s : Sys) : Sys :=
  s <| m_worker := (m_worker s) <| w_beginDone := true |> <| w_beginOk := true |> <| w_done := true |> |>
    <| m_authenticated := true |>
    <| m_statusText := W "✅ Вход подтверждён через шлюз Ligament, выполняется вход..." |>.

(** What the worker takes from the members, wiping the secrets there. *)
Record Job := mkJob { j_job : WorkerJob; j_user : wstr; j_domain : wstr; j_pass : wstr; j_otp : wstr }.

Definition take_job (s : Sys) : Job * Sys :=
  (mkJob (m_job s) (m_jobUser s) (m_jobDomain s) (m_jobPass s) (m_jobOtp s),
   s <| m_job := JobNone |> <| m_jobUser := [] |> <| m_jobDomain := [] |>
     <| m_jobPass := [] |> <| m_jobOtp := [] |>).

Definition run_job (cfg : Config) (cpus : CPUS) (j : Job) : prog unit :=
  let client := job_client cfg cpus in
  match j_job j with
  | JobStartPush => run_push cfg client (j_user j) (j_domain j) (j_pass j)
  | JobWebAuthnBegin => run_webauthn cfg client (j_user j) (j_domain j) (j_pass j)
  | JobVerifyOtp => run_otp client (j_user j) (j_pass j) (j_otp j)
  | JobNone => mret tt
  end.

Definition RunAsyncJob : prog unit :=
  j ← act take_job;
  env ← gets (λ s, (m_config s, m_cpus s, m_isRemoteSession s));
  let '(cfg, cpus, remote) := env in
  if (remote : bool) && negb (bool_decide (cpus = CPUS_CREDUI)) && negb (bool_decide (j_job j = JobNone))
  then
    gate ← consult_gate cfg (j_user j);
    if satisfied gate then
      stop ← unless_stopped gate_satisfied;
      when (negb stop) (NotifyFieldChanged o FID_STATUS_TEXT;; NotifyProviderChangedFromWorker)
    else run_job cfg cpus j
  else run_job cfg cpus j.

(** ** Calls of LogonUI, and execution *)
Inductive UiCall :=
  | CallSetProviderEvents (ctx : option Z)
  | CallAdvise (events : bool)
  | CallUnAdvise
  | CallSetSelected
  | CallSetDeselected
  | CallSetStringValue (f : FIELD_ID) (s : wstr)
  | CallCommandLinkClicked (f : FIELD_ID)
  | CallGetSerialization
  | CallReportResult (status : Z).

Definition discard {A} (p : prog A) : prog (option SerResult) := _ ← p; mret None.

Definition handler (c : UiCall) : prog (option SerResult) :=
  match c with
  | CallSetProviderEvents ctx => discard (SetProviderEvents ctx)
  | CallAdvise e => discard (Advise e)
  | CallUnAdvise => discard UnAdvise
  | CallSetSelected => discard SetSelected
  | CallSetDeselected => discard (SetDeselected o)
  | CallSetStringValue f t => discard (SetStringValue o f t)
  | CallCommandLinkClicked f => discard (CommandLinkClicked o f)
  | CallGetSerialization => r ← GetSerialization; mret (Some r)
  | CallReportResult st => discard (ReportResult st)
  end.

(** The LogonUI thread inside a call, the worker, and the members. *)
Inductive step {A} : prog A * prog unit * Sys → prog A * prog unit * Sys → Prop :=
  | StepUi f k w s : step (Act f k, w, s) (k s, w, f s)
  | StepWorker u f k s : step (u, Act f k, s) (u, k s, f s)
  | StepSpawn k w s : step (Spawn k, w, s) (k, RunAsyncJob, s)
  | StepJoin k s : step (Join k, Ret tt, s) (k, Ret tt, s).

(** The worker alone, to completion. *)
Fixpoint run_worker (w : prog unit) (s : Sys) : Sys :=
  match w with
  | Ret _ => s
  | Act f k => run_worker (k s) (f s)
  | Spawn k | Join k => run_worker k s
  end.

(** A LogonUI call that the worker does not interleave with, except at a join. *)
Fixpoint exec {A} (p : prog A) (w : prog unit) (s : Sys) : A * prog unit * Sys :=
  match p with
  | Ret a => (a, w, s)
  | Act f k => exec (k s) w (f s)
  | Spawn k => exec k RunAsyncJob s
  | Join k => exec k (Ret tt) (run_worker w s)
  end.
End Serialize.
