(* ===== verification/CredentialSafety.v ===== *)
(** * No logon without a second factor

    The safety argument for [Credential]: LogonUI calls run one at a time, the
    worker's steps run between them (and to completion at a join). The
    invariant ties the confirmed-factor flag and the worker's results to an
    approval, in the network log or from the gate, for the name and password
    that are on the tile. *)
From S2P Require Import Prelude Text Config HttpClient RdpGate Pack Credential.

(** ** Approvals *)
Section Approval.
Context (o : World).

Definition reply_body (a : Attempt) : str := read_body (at_reads a) [].
Definition ok_reply (a : Attempt) : Prop := answered a = true ∧ i32 (at_status a) = 200.

(** A start request for the user and password, answered with the challenge. *)
Definition start_exchange (user pass cid : wstr) (x : Request * Attempt) : Prop :=
  (∃ ep, rq_body x.1 = start_body (o_utf8 o) user pass ep) ∧ ok_reply x.2 ∧
  cid = o_wide o (ExtractJsonString (reply_body x.2) (B "challenge_id")).

(** A poll of the challenge, answered "approved". *)
Definition approve_exchange (cid : wstr) (x : Request * Attempt) : Prop :=
  rq_body x.1 = poll_body (o_utf8 o) cid ∧ ok_reply x.2 ∧
  o_wide o (ExtractJsonString (reply_body x.2) (B "status")) = W "approved".

(** An OTP request for the user and password, at the core or the relay, answered ok. *)
Definition otp_exchange (user pass : wstr) (x : Request * Attempt) : Prop :=
  (∃ code ep, rq_body x.1 = combined_body (o_utf8 o) user pass code ep ∨
              rq_body x.1 = relay_body (o_utf8 o) user pass code) ∧
  ok_reply x.2 ∧ ExtractJsonBool (reply_body x.2) (B "ok") = true.

Definition started (user pass cid : wstr) (log : NetLog) : Prop :=
  ∃ x, x ∈ log ∧ start_exchange user pass cid x.

Inductive approved (log : NetLog) (gates : list (wstr * RdpGateResult)) (user pass : wstr) : Prop :=
  | ApprovedPush cid l x r :
      log = l ++ x :: r → started user pass cid l → approve_exchange cid x →
      approved log gates user pass
  | ApprovedOtp x : x ∈ log → otp_exchange user pass x → approved log gates user pass
  | ApprovedGate g : (user, g) ∈ gates → satisfied g = true → approved log gates user pass.

Definition ev (u p : wstr) (s : Sys) : Prop := approved (x_net s) (x_gates s) u p.

(** Log and gate consultations only grow. *)
Definition mono (s s' : Sys) : Prop :=
  (∃ l, x_net s' = x_net s ++ l) ∧ (∃ l, x_gates s' = x_gates s ++ l).

Lemma mono_refl s : mono s s.
Proof. split; exists []; by rewrite app_nil_r. Qed.

Lemma mono_trans s1 s2 s3 : mono s1 s2 → mono s2 s3 → mono s1 s3.
Proof.
  intros [[l1 E1] [l2 E2]] [[l3 E3] [l4 E4]]. split; eexists.
  - by rewrite E3, E1, <- app_assoc.
  - by rewrite E4, E2, <- app_assoc.
Qed.

Lemma ev_mono u p s s' : mono s s' → ev u p s → ev u p s'.
Proof.
  intros [[l1 E1] [l2 E2]] [cid l x r E Hs Ha|x Hx Ha|g Hg Ha]; unfold ev; rewrite E1, E2.
  - eapply ApprovedPush; [|exact Hs|exact Ha]. rewrite E, <- app_assoc. done.
  - eapply ApprovedOtp; [|exact Ha]. apply elem_of_app. by left.
  - eapply ApprovedGate; [|exact Ha]. apply elem_of_app. by left.
Qed.

Lemma started_mono u p cid l l' : started u p cid l → started u p cid (l ++ l').
Proof. intros (x & Hx & ?). exists x. split; [|done]. apply elem_of_app. by left. Qed.

(** ** What the worker may write *)

(** The worker's facts for a job of kind [k] on behalf of [u] and [p]. *)
Definition WI (k : WorkerJob) (u p : wstr) (s : Sys) : Prop :=
  (m_authenticated s = true → ev u p s) ∧
  (w_status (m_worker s) = W "approved" → ev u p s) ∧
  (k = JobVerifyOtp → w_done (m_worker s) = true → w_beginDone (m_worker s) = true →
     w_beginOk (m_worker s) = true → ev u p s).

(** The members that only the LogonUI thread writes. *)
Definition ui_part (s : Sys) :=
  (m_config s, m_cpus s, m_providerFlags s, m_usernameRaw s, m_currentMode s, m_username s, m_domain s, m_password s, m_hPollThread s).
Definition job_part (s : Sys) := (m_job s, m_jobUser s, m_jobPass s).

(** What may have happened before the worker's next step. *)
Definition later (b s : Sys) : Prop := mono b s ∧ job_part s = job_part b.

Fixpoint wsafe (k : WorkerJob) (u p : wstr) (b : Sys) (w : prog unit) : Prop :=
  match w with
  | Ret _ => True
  | Act f c => ∀ s, later b s → WI k u p s →
      WI k u p (f s) ∧ ui_part (f s) = ui_part s ∧ mono s (f s) ∧ wsafe k u p (f s) (c s)
  | Spawn _ | Join _ => False
  end.

Lemma later_refl s : later s s.
Proof. split; [apply mono_refl|done]. Qed.
Lemma later_trans s1 s2 s3 : later s1 s2 → later s2 s3 → later s1 s3.
Proof. intros [? E1] [? E2]. split; [by eapply mono_trans|by rewrite E2]. Qed.

Lemma wsafe_later k u p b b' w : later b b' → wsafe k u p b w → wsafe k u p b' w.
Proof.
  destruct w as [a|f c|c|c]; simpl; try done. intros Hb Hw s Hs. apply Hw.
  by eapply later_trans.
Qed.

(** The worker, run to completion. *)
Lemma run_worker_safe k u p w : ∀ b s,
  wsafe k u p b w → later b s → WI k u p s →
  WI k u p (run_worker w s) ∧ ui_part (run_worker w s) = ui_part s ∧ mono s (run_worker w s).
Proof.
  induction w as [a|f c IH|c IH|c IH]; intros b s Hw Hs HI; simpl in *; try done.
  { split_and!; [done..|apply mono_refl]. }
  destruct (Hw s Hs HI) as (HI' & Hf & Hm & Hc).
  destruct (IH s (f s) (f s) Hc (later_refl _) HI') as (H1 & H2 & H3).
  split_and!; [done|congruence|by eapply mono_trans].
Qed.

(** ** Steps that do not matter *)

(** Everything the invariant reads is unchanged. *)
Definition neutral (s s' : Sys) : Prop :=
  ui_part s' = ui_part s ∧ job_part s' = job_part s ∧ x_net s' = x_net s ∧ x_gates s' = x_gates s ∧
  m_authenticated s' = m_authenticated s ∧
  w_status (m_worker s') = w_status (m_worker s) ∧ w_done (m_worker s') = w_done (m_worker s) ∧
  w_beginDone (m_worker s') = w_beginDone (m_worker s) ∧
  w_beginOk (m_worker s') = w_beginOk (m_worker s).

Lemma neutral_refl s : neutral s s.
Proof. done. Qed.
Lemma neutral_trans s1 s2 s3 : neutral s1 s2 → neutral s2 s3 → neutral s1 s3.
Proof. unfold neutral. intros. destruct_and?. split_and!; congruence. Qed.

Lemma neutral_later s s' : neutral s s' → later s s'.
Proof.
  intros (_ & Hj & Hn & Hg & _). split; [|done].
  split; exists []; by rewrite app_nil_r.
Qed.

Lemma neutral_WI k u p s s' : neutral s s' → WI k u p s → WI k u p s'.
Proof.
  intros (_ & _ & Hn & Hg & Ha & Hs & Hd & Hb & Ho) (H1 & H2 & H3).
  unfold WI, ev in *. rewrite Hn, Hg, Ha, Hs, Hd, Hb, Ho. done.
Qed.

Fixpoint quiet {A} (pr : prog A) : Prop :=
  match pr with
  | Ret _ => True
  | Act f c => ∀ s, neutral s (f s) ∧ quiet (c s)
  | Spawn _ | Join _ => False
  end.

Lemma quiet_bind {A C} (pr : prog A) (c : A → prog C) :
  quiet pr → (∀ a, quiet (c a)) → quiet (pr ≫= c).
Proof.
  intros Hp Hc. induction pr as [a|f k IH|k IH|k IH]; simpl in *; try done.
  intros s. destruct (Hp s). split; [done|]. by apply IH.
Qed.

Lemma quiet_modify f : (∀ s, neutral s (f s)) → quiet (modify f).
Proof. intros H s. split; [apply H|done]. Qed.
Lemma quiet_gets {A} (g : Sys → A) : quiet (gets g).
Proof. intros s. split; [apply neutral_refl|done]. Qed.
Lemma quiet_when b pr : quiet pr → quiet (when b pr).
Proof. by destruct b. Qed.
Lemma quiet_Ret {A} (a : A) : quiet (Ret a).
Proof. done. Qed.

Lemma quiet_tell e : quiet (tell e).
Proof. by apply quiet_modify. Qed.
Lemma quiet_show_logo qr logo : quiet (show_logo o qr logo).
Proof.
  destruct qr; [apply quiet_tell|]. apply quiet_when. destruct (o_events3 o); apply quiet_tell.
Qed.
Lemma quiet_NotifyFieldChanged f : quiet (NotifyFieldChanged o f).
Proof.
  unfold NotifyFieldChanged, GetStringValue. apply quiet_bind; [apply quiet_gets|]. intros e. apply quiet_when.
  apply quiet_bind; [apply quiet_gets|]. intros st.
  do 2 (apply quiet_bind; [apply quiet_tell|]; intros _).
  destruct f; repeat first [exact I|lazymatch goal with
    | |- _ (mbind _ _) => apply quiet_bind; [|intros ?]
    | |- _ (tell _) => apply quiet_tell
    | |- _ (gets _) => apply quiet_gets
    | |- _ (show_logo _ _ _) => apply quiet_show_logo
    end].
Qed.
Lemma quiet_NotifyProvider : quiet NotifyProviderChangedFromWorker.
Proof. apply quiet_bind; [apply quiet_gets|]. intros e. by apply quiet_modify. Qed.
Lemma quiet_NotifyQrChanged : quiet (NotifyQrChanged o).
Proof.
  unfold NotifyQrChanged. do 2 (apply quiet_bind; [apply quiet_gets|]; intros ?).
  apply quiet_bind; [apply quiet_when, quiet_bind; [apply quiet_show_logo|intros _; apply quiet_tell]|].
  intros _. apply quiet_bind; [apply quiet_gets|]. intros [ctx|]; [apply quiet_when, quiet_tell|exact I].
Qed.
Lemma quiet_ClearQrBitmap : quiet (ClearQrBitmap o).
Proof.
  intros s. split; [done|]. cbn. apply quiet_when, quiet_NotifyQrChanged.
Qed.
Lemma quiet_show_status t : quiet (show_status t).
Proof. apply quiet_bind; [apply quiet_gets|]. intros e. apply quiet_when, quiet_tell. Qed.
Lemma quiet_set_status t : quiet (set_status_text t).
Proof. by apply quiet_modify. Qed.
Lemma quiet_clear_number : quiet clear_number.
Proof. by apply quiet_modify. Qed.
Lemma quiet_when_events pr : quiet pr → quiet (when_events pr).
Proof. intros H s. split; [done|]. by apply quiet_when. Qed.
End Approval.

Create HintDb quiet.
#[export] Hint Resolve quiet_NotifyFieldChanged quiet_NotifyProvider quiet_NotifyQrChanged
  quiet_ClearQrBitmap quiet_show_status quiet_set_status quiet_clear_number quiet_when_events
  quiet_when quiet_gets quiet_Ret : quiet.

Ltac quiet := repeat first
  [ solve [eauto with quiet] | apply quiet_when_events | apply quiet_when
  | apply quiet_bind; [|intros ?] ].

Section Worker.
Context (o : World).

Lemma quiet_UpdateFieldStates : quiet (UpdateFieldStates o).
Proof.
  unfold UpdateFieldStates. apply quiet_bind; [by apply quiet_modify|]. intros _.
  apply quiet_when_events. quiet.
Qed.

Lemma quiet_notify_poll : quiet (notify_poll o).
Proof. unfold notify_poll. quiet. Qed.

(** A quiet prefix of a worker program. *)
Lemma wsafe_quiet {A} k u p b (pr : prog A) c :
  quiet pr → (∀ a b', later b b' → wsafe o k u p b' (c a)) → wsafe o k u p b (pr ≫= c).
Proof.
  revert b. induction pr as [a|f q IH|q IH|q IH]; intros b Hq Hc; simpl in *; try done.
  { apply Hc, later_refl. }
  intros s Hs HI. destruct (Hq s) as [Hn Hq']. split_and!.
  - by eapply neutral_WI.
  - apply Hn.
  - apply (neutral_later _ _ Hn).
  - apply IH; [done|]. intros a b' Hb'. apply Hc.
    eapply later_trans; [exact Hs|]. eapply later_trans; [by apply neutral_later|done].
Qed.

Lemma wsafe_quiet0 k u p b (pr : prog unit) : quiet pr → wsafe o k u p b pr.
Proof.
  revert b. induction pr as [a|f q IH|q IH|q IH]; intros b Hq; simpl in *; try done.
  intros s Hs HI. destruct (Hq s) as [Hn Hq']. split_and!.
  - by eapply neutral_WI.
  - apply Hn.
  - apply (neutral_later _ _ Hn).
  - by apply IH.
Qed.

Lemma wsafe_gets {A} k u p b (g : Sys → A) c :
  (∀ s, later b s → wsafe o k u p s (c (g s))) → wsafe o k u p b (gets g ≫= c).
Proof.
  intros Hc s Hs HI. split_and!; [done..|apply mono_refl|]. by apply Hc.
Qed.

Lemma wsafe_slices k u p n c : ∀ b,
  (∀ b', later b b' → wsafe o k u p b' c) → wsafe o k u p b (slices n c).
Proof.
  induction n as [|n IH]; intros b Hc; simpl.
  { apply Hc, later_refl. }
  intros s Hs HI. split_and!; [done..|apply mono_refl|]. destruct (w_stop _); simpl; [done|].
  apply IH. intros b' Hb'. apply Hc. by eapply later_trans.
Qed.

(** A write that is skipped when a stop is requested. *)
Lemma wsafe_unless_stopped k u p b f c :
  (∀ s, later b s → WI o k u p s →
     WI o k u p (f s) ∧ ui_part (f s) = ui_part s ∧ mono s (f s) ∧ job_part (f s) = job_part s) →
  (∀ st b', later b b' → wsafe o k u p b' (c st)) →
  wsafe o k u p b (unless_stopped f ≫= c).
Proof.
  intros Hf Hc s Hs HI. cbn. destruct (w_stop (m_worker s)).
  - split_and!; [done..|apply mono_refl|]. by apply Hc.
  - destruct (Hf s Hs HI) as (H1 & H2 & H3 & H4). split_and!; [done..|]. apply Hc.
    eapply later_trans; [exact Hs|]. by split.
Qed.
End Worker.

(** ** The API calls as evidence *)
Section Calls.
Context (o : World).

(** An answered exchange adds one entry whose reply is what the caller sees. *)
Lemma exchange_true sess host port https ss verb path body log status text log' :
  exchange (o_net o) sess host port https ss verb path body log = ((true, status, text), log') →
  ∃ x, log' = log ++ [x] ∧ rq_body x.1 = body ∧ answered x.2 = true ∧
    status = i32 (at_status x.2) ∧ text = reply_body x.2.
Proof.
  intros E. apply exchange_log in E as [(_ & [=] & _)|(a & -> & _ & _ & _ & Ha)].
  destruct (answered a) eqn:Ea; [|done]. injection Ha as -> ->. eexists. by split_and!.
Qed.

Lemma exchange_prefix sess host port https ss verb path body log r log' :
  exchange (o_net o) sess host port https ss verb path body log = (r, log') → ∃ l, log' = log ++ l.
Proof.
  intros E. apply exchange_log in E as [(-> & _)|(a & -> & _)]; [exists []|eexists; done].
  by rewrite app_nil_r.
Qed.

Lemma StartPush_spec user pass c log out c' log' :
  StartPush (o_net o) (o_utf8 o) (o_wide o) (o_sys o) user pass c log = (out, c', log') →
  (∃ l, log' = log ++ l) ∧
  (so_ok out = true → ∃ x, log' = log ++ [x] ∧ start_exchange o user pass (so_challenge out) x).
Proof.
  unfold StartPush. destruct (SendRequest _ _ _ _ _ log) as [[[sent status] text] log1] eqn:E.
  intros H. split.
  { apply exchange_prefix in E as [l ->]. exists l.
    destruct sent; cbn in H; [destruct (_ && _)|]; by simplify_eq. }
  intros Hok. destruct sent; cbn in H; [|by simplify_eq].
  apply exchange_true in E as (x & -> & Hb & Ha & -> & ->). exists x.
  destruct (Z.eqb_spec (i32 (at_status x.2)) 200) as [E200|]; cbn in H; [|by simplify_eq].
  case_bool_decide; cbn in H; simplify_eq. split; [done|].
  split_and!; [eexists; exact Hb|by split|done].
Qed.

Lemma WebAuthnBegin_spec user pass c log out c' log' :
  WebAuthnBegin (o_net o) (o_utf8 o) (o_sys o) user pass c log = (out, c', log') →
  (∃ l, log' = log ++ l) ∧
  (wb_success out = true →
     ∃ x, log' = log ++ [x] ∧ start_exchange o user pass (o_wide o (wb_challengeId out)) x).
Proof.
  unfold WebAuthnBegin. destruct (SendRequest _ _ _ _ _ log) as [[[sent status] text] log1] eqn:E.
  intros H. split.
  { apply exchange_prefix in E as [l ->]. exists l.
    destruct sent; cbn in H; [destruct (_ =? _)|]; by simplify_eq. }
  intros Hok. destruct sent; cbn in H; [|by simplify_eq].
  apply exchange_true in E as (x & -> & Hb & Ha & -> & ->). exists x.
  destruct (Z.eqb_spec (i32 (at_status x.2)) 200) as [E200|]; cbn in H; simplify_eq.
  split; [done|]. split_and!; [eexists; exact Hb|by split|done].
Qed.

Lemma PollStatus_spec cid c log out c' log' :
  PollStatus (o_net o) (o_utf8 o) (o_wide o) cid c log = (out, c', log') →
  (∃ l, log' = log ++ l) ∧
  (po_ok out = true → po_status out = W "approved" →
     ∃ x, log' = log ++ [x] ∧ approve_exchange o cid x).
Proof.
  unfold PollStatus. destruct (SendRequest _ _ _ _ _ log) as [[[sent status] text] log1] eqn:E.
  intros H. split.
  { apply exchange_prefix in E as [l ->]. exists l.
    destruct sent; cbn in H; [destruct (_ && _)|]; by simplify_eq. }
  intros Hok Hst. destruct sent; cbn in H; [|by simplify_eq].
  apply exchange_true in E as (x & -> & Hb & Ha & -> & ->). exists x.
  destruct (Z.eqb_spec (i32 (at_status x.2)) 200) as [E200|]; cbn in H; [|by simplify_eq].
  case_bool_decide; cbn in H; simplify_eq. split; [done|].
  split_and!; [exact Hb|by split|done].
Qed.

Lemma VerifyCombined_spec user pass code c log ok err c' log' :
  VerifyCombined (o_net o) (o_utf8 o) (o_sys o) user pass code c log = ((ok, err), c', log') →
  (∃ l, log' = log ++ l) ∧ (ok = true → ∃ x, x ∈ log' ∧ otp_exchange o user pass x).
Proof.
  unfold VerifyCombined. cbv zeta.
  destruct (SendRequest _ _ _ _ _ log) as [[[sent status] text] log1] eqn:E.
  pose proof E as [l Hl]%exchange_prefix.
  destruct (sent && (status =? 200) && ExtractJsonBool text (B "ok")) eqn:Eok.
  { intros [= <- <- <- <-]. split; [eauto|]. intros _.
    apply andb_true_iff in Eok as [Eok Hj]. apply andb_true_iff in Eok as [-> Hst%Z.eqb_eq].
    apply exchange_true in E as (x & -> & Hb & Ha & -> & ->). exists x.
    split; [apply elem_of_app; right; by left|]. split; [|done].
    eexists _, _. left. exact Hb. }
  destruct ((negb sent || (500 <=? status)) && _).
  - destruct (SendRelayRequest _ _ _ _ _ log1) as [[[rsent rstatus] rtext] log2] eqn:E2.
    pose proof E2 as [l2 Hl2]%exchange_prefix.
    assert (∃ l, log2 = log ++ l) as Hpre.
    { exists (l ++ l2). by rewrite Hl2, Hl, app_assoc. }
    destruct rsent.
    + destruct ((rstatus =? 200) && ExtractJsonBool rtext (B "ok")) eqn:Er.
      * intros [= <- <- <- <-]. split; [done|]. intros _.
        apply andb_true_iff in Er as [Hst%Z.eqb_eq Hj].
        apply exchange_true in E2 as (x & -> & Hb & Ha & -> & ->). exists x.
        split; [apply elem_of_app; right; by left|]. split; [|done].
        exists code, (mkEp [] [] [] [] [] [] false). by right.
      * by intros [= <- <- <- <-].
    + destruct sent; cbn; intros [= <- <- <- <-]; done.
  - destruct sent; cbn; intros [= <- <- <- <-]; (split; [eauto|done]).
Qed.

(** ** The worker's jobs *)
Lemma mono_net s log l : x_net s ++ l = log → mono s (s <| x_net := log |>).
Proof. intros <-. split; [by exists l|]. exists []. by rewrite app_nil_r. Qed.

(** A step of the worker that only appends to the log. *)
Lemma wsafe_call {O} k u p b (f : NetLog → O * HttpApiClient * NetLog) c :
  (∀ log out cl log', f log = (out, cl, log') → ∃ l, log' = log ++ l) →
  (∀ s out cl log', later b s → f (x_net s) = (out, cl, log') →
     wsafe o k u p (s <| x_net := log' |>) (c (out, cl))) →
  wsafe o k u p b (call f ≫= c).
Proof.
  intros Hf Hc s Hs HI. cbn. destruct (f (x_net s)) as [[out cl] log'] eqn:E. cbn.
  destruct (Hf _ _ _ _ E) as [l Hl].
  assert (mono s (s <| x_net := log' |>)) as Hm by (by eapply mono_net).
  split_and!; [|done|done|by apply Hc].
  destruct HI as (H1 & H2 & H3).
  split_and!; intros; eapply (ev_mono o u p s); eauto.
Qed.

(** The two terminal writes of a poll. *)
Lemma WI_timeout k u p job s : k ≠ JobVerifyOtp → WI o k u p s → WI o k u p (timeout_poll job s).
Proof. intros Hk (H1 & H2 & H3). split_and!; [exact H1| |done]. cbn. intros E. by vm_compute in E. Qed.

Lemma WI_finish k u p job st s : k ≠ JobVerifyOtp →
  (st = W "approved" → ev o u p s) → WI o k u p s → WI o k u p (finish_poll job st s).
Proof.
  intros Hk Hst (H1 & H2 & H3). split_and!; [|exact Hst|done]. cbn.
  intros [Ha|Ha%bool_decide_eq_true]%orb_true_iff; [by apply H1|by apply Hst].
Qed.

Lemma later_started u p cid b s : later b s → started o u p cid (x_net b) → started o u p cid (x_net s).
Proof. intros [[[l ->] _] _]. apply started_mono. Qed.

Lemma mono_same s s' : x_net s' = x_net s → x_gates s' = x_gates s → mono s s'.
Proof. intros E1 E2. split; exists []; by rewrite app_nil_r. Qed.

Lemma wsafe_poll_loop k u p cid user domain job n : k ≠ JobVerifyOtp → ∀ errors client b,
  started o u p cid (x_net b) →
  wsafe o k u p b (poll_loop o n errors client job cid user domain).
Proof.
  intros Hk. induction n as [|n IH]; intros errors client b Hst; cbn [poll_loop].
  - apply wsafe_unless_stopped.
    + intros s Hs HI. split_and!; [by apply WI_timeout|done|by apply mono_same|done].
    + intros st b' _. apply wsafe_quiet0, quiet_when, quiet_notify_poll.
  - apply wsafe_slices. intros b' Hb'. apply wsafe_call.
    { intros log out cl log' E. by apply PollStatus_spec in E as [? _]. }
    intros s out cl log' Hs E. cbv zeta. cbn [fst].
    assert (started o u p cid (x_net s)) as Hst'.
    { eapply later_started; [|exact Hst]. by eapply later_trans. }
    apply PollStatus_spec in E as [[l Hl] Happ]. destruct (po_ok out && _) eqn:Eok.
    + apply andb_true_iff in Eok as [Eok _]. apply wsafe_unless_stopped.
      * intros s' Hs' HI. split_and!; [|done|by apply mono_same|done].
        apply WI_finish; [done| |done]. intros Ea.
        destruct (Happ Eok Ea) as (x & Hx & Hax).
        eapply (ev_mono o u p (s <| x_net := log' |>)); [apply Hs'|].
        eapply (ApprovedPush o _ _ u p cid (x_net s) x []); [exact Hx|done|done].
      * intros st b'' _. apply wsafe_quiet; [apply quiet_when, quiet_notify_poll|].
        intros _ b3 _. apply wsafe_quiet0, quiet_when, quiet_modify. done.
    + apply wsafe_gets. intros s' Hs'. destruct (w_stop _); [done|]. apply IH.
      eapply later_started; [exact Hs'|]. cbn. rewrite Hl. by apply started_mono.
Qed.

Lemma started_snoc u p cid log x : start_exchange o u p cid x → started o u p cid (log ++ [x]).
Proof. intros H. exists x. split; [apply elem_of_app; right; by left|done]. Qed.

(** Writing the outcome of phase 1 leaves the facts of a push job alone. *)
Lemma WI_begin k u p ok err retry s : k ≠ JobVerifyOtp →
  WI o k u p s → WI o k u p (begin_worker ok err retry s).
Proof. intros Hk (H1 & H2 & _). by split_and!. Qed.

Lemma wsafe_run_push k u p cfg client domain b : k ≠ JobVerifyOtp →
  wsafe o k u p b (run_push o cfg client u domain p).
Proof.
  intros Hk. unfold run_push. apply wsafe_call.
  { intros log out cl log' E. by apply StartPush_spec in E as [? _]. }
  intros s out cl log' Hs E. cbv zeta. cbn [fst snd].
  apply StartPush_spec in E as [[l Hl] Hok].
  apply wsafe_unless_stopped.
  - intros s' Hs' HI. apply (WI_begin k u p (so_ok out) (so_error out) (m_lastRetryAfterSec cl)) in HI;
      [|done]. destruct (so_ok out); (split_and!; [exact HI|done|by apply mono_same|done]).
  - intros st b' Hb'. destruct st; [done|].
    apply wsafe_quiet; [apply quiet_when; quiet|]. intros _ b2 Hb2.
    apply wsafe_quiet; [quiet|]. intros _ b3 Hb3.
    destruct (so_ok out) eqn:Eok; cbn [when]; [|done].
    destruct (Hok eq_refl) as (x & Hx & Hsx). apply wsafe_poll_loop; [done|].
    eapply later_started; [exact Hb3|]. eapply later_started; [exact Hb2|].
    eapply later_started; [exact Hb'|]. cbn. rewrite Hx. by apply started_snoc.
Qed.

Lemma wsafe_run_webauthn k u p cfg client domain b : k ≠ JobVerifyOtp →
  wsafe o k u p b (run_webauthn o cfg client u domain p).
Proof.
  intros Hk. unfold run_webauthn. apply wsafe_call.
  { intros log out cl log' E. by apply WebAuthnBegin_spec in E as [? _]. }
  intros s out cl log' Hs E. cbv zeta. cbn [fst snd].
  apply WebAuthnBegin_spec in E as [[l Hl] Hok].
  apply wsafe_unless_stopped.
  - intros s' Hs' HI.
    apply (WI_begin k u p (wb_success out) (wb_error out) (m_lastRetryAfterSec cl)) in HI;
      [|done]. destruct (wb_success out); (split_and!; [exact HI|done|by apply mono_same|done]).
  - intros st b' Hb'. destruct st; [done|].
    apply wsafe_quiet; [quiet|]. intros _ b2 Hb2.
    apply wsafe_quiet; [quiet|]. intros _ b3 Hb3.
    apply wsafe_quiet; [quiet|]. intros _ b4 Hb4.
    destruct (wb_success out) eqn:Eok; cbn [when]; [|done].
    destruct (Hok eq_refl) as (x & Hx & Hsx). apply wsafe_poll_loop; [done|].
    eapply later_started; [exact Hb4|]. eapply later_started; [exact Hb3|].
    eapply later_started; [exact Hb2|].
    eapply later_started; [exact Hb'|]. cbn. rewrite Hx. by apply started_snoc.
Qed.

Lemma wsafe_run_otp k u p client code b : wsafe o k u p b (run_otp o client u p code).
Proof.
  unfold run_otp. apply wsafe_call.
  { intros log [ok err] cl log' E. by apply VerifyCombined_spec in E as [? _]. }
  intros s [ok err] cl log' Hs E. cbv zeta. cbn [fst snd].
  apply VerifyCombined_spec in E as [[l Hl] Hok].
  apply wsafe_unless_stopped.
  - intros s' Hs' (H1 & H2 & H3).
    assert (ok = true → ev o u p s') as Hev.
    { intros Eok. destruct (Hok Eok) as (x & Hx & Hax).
      eapply (ev_mono o u p (s <| x_net := log' |>)); [apply Hs'|].
      eapply ApprovedOtp; [exact Hx|done]. }
    destruct ok; (split_and!; [|done|by apply mono_same|done]); (split_and!; [|exact H2|]).
    + intros _. by apply Hev.
    + intros _ _ _ _. by apply Hev.
    + exact H1.
    + cbn. intros _ _ _ [=].
  - intros st b' _. destruct st; [done|]. apply wsafe_quiet0. quiet.
Qed.

Lemma wsafe_act {A} k u p b (g : Sys → A * Sys) c :
  (∀ s, later b s → WI o k u p s →
     WI o k u p (g s).2 ∧ ui_part (g s).2 = ui_part s ∧ mono s (g s).2 ∧
     wsafe o k u p (g s).2 (c (g s).1)) →
  wsafe o k u p b (act g ≫= c).
Proof. intros H s Hs HI. by apply H. Qed.

Lemma wsafe_run_job b j cfg cpus :
  wsafe o (j_job j) (j_user j) (j_pass j) b (run_job o cfg cpus j).
Proof.
  unfold run_job. destruct (j_job j).
  - done.
  - by apply wsafe_run_push.
  - by apply wsafe_run_webauthn.
  - apply wsafe_run_otp.
Qed.

(** The whole worker, from the members of a freshly loaded job. *)
Lemma wsafe_RunAsyncJob b :
  wsafe o (m_job b) (m_jobUser b) (m_jobPass b) b (RunAsyncJob o).
Proof.
  unfold RunAsyncJob. apply wsafe_act. intros s [Hm Hj] HI.
  injection Hj as Ejob Euser Epass.
  split_and!; [exact HI|done|by apply mono_same|]. set (b' := (take_job s).2).
  assert (∀ b'' cfg cpus, wsafe o (m_job b) (m_jobUser b) (m_jobPass b) b''
    (run_job o cfg cpus (take_job s).1)) as Hjob.
  { intros b'' cfg cpus. rewrite <- Ejob, <- Euser, <- Epass.
    exact (wsafe_run_job b'' (take_job s).1 cfg cpus). }
  apply wsafe_gets. intros s2 Hs2. case_match; [|apply Hjob].
  apply wsafe_act. intros s3 Hs3 HI3.
  set (r := (CheckRdpMfaSatisfied _ _ _ _ _ _ _ _).1). cbn [fst snd].
  set (s4 := s3 <| x_gates := _ |>).
  assert (mono s3 s4) as Hm4.
  { split; [exists []; by rewrite app_nil_r|]. by eexists. }
  assert (WI o (m_job b) (m_jobUser b) (m_jobPass b) s4) as HI4.
  { destruct HI3 as (H1 & H2 & H3). split_and!; intros; eapply (ev_mono o _ _ s3); eauto. }
  split_and!; [done..|].
  destruct (satisfied r) eqn:Er; [|apply Hjob].
  assert (∀ s5, later s4 s5 → ev o (m_jobUser b) (m_jobPass b) s5) as Hev.
  { intros s5 [Hm5 _]. eapply ev_mono; [exact Hm5|].
    eapply (ApprovedGate o _ _ _ _ r); [|done]. unfold s4. cbn.
    apply elem_of_app. right. rewrite <- Euser. by left. }
  apply wsafe_unless_stopped.
  - intros s5 Hs5 (H1 & H2 & H3). specialize (Hev s5 Hs5).
    split_and!; [|done|by apply mono_same|done]. by split_and!.
  - intros st b5 _. apply wsafe_quiet0, quiet_when. quiet.
Qed.
End Calls.

(** ** A stopped worker writes nothing *)
Section Stop.
Context (o : World).

(** What the tile shows and decides by, apart from the names. *)
Definition shown (s : Sys) :=
  (m_authenticated s, m_worker s, m_hQrBmp s, m_numberMatch s, m_statusText s, m_otpCode s,
   m_beginApplied s).

(** Once [stop] is set the worker leaves all of it alone. *)
Fixpoint obeys_stop (w : prog unit) : Prop :=
  match w with
  | Ret _ => True
  | Act f c => ∀ s,
      (w_stop (m_worker s) = true → shown (f s) = shown s) ∧
      obeys_stop (c s)
  | Spawn _ | Join _ => False
  end.

Lemma run_worker_stopped w : ∀ s,
  obeys_stop w → w_stop (m_worker s) = true →
  shown (run_worker w s) = shown s.
Proof.
  induction w as [a|f c IH|c IH|c IH]; intros s Hw Hs; simpl in *; try done.
  destruct (Hw s) as [Hf Hc]. specialize (Hf Hs). rewrite (IH s (f s)); [done..|].
  injection Hf as _ -> _ _ _ _ _. done.
Qed.

(** Programs that never touch the flag and the record. *)
Fixpoint aside {A} (p : prog A) : Prop :=
  match p with
  | Ret _ => True
  | Act f c => ∀ s, shown (f s) = shown s ∧ aside (c s)
  | Spawn _ | Join _ => False
  end.

Lemma obeys_aside_bind {A} (p : prog A) c :
  aside p → (∀ a, obeys_stop (c a)) → obeys_stop (p ≫= c).
Proof.
  intros Hp Hc. induction p as [a|f k IH|k IH|k IH]; simpl in *; try done.
  intros s. destruct (Hp s). split; [done|]. by apply IH.
Qed.

Lemma obeys_aside p : aside p → obeys_stop p.
Proof.
  induction p as [a|f k IH|k IH|k IH]; simpl; try done.
  intros Hp s. destruct (Hp s). split; [done|]. by apply IH.
Qed.

Lemma obeys_unless_stopped f c : (∀ st, obeys_stop (c st)) → obeys_stop (unless_stopped f ≫= c).
Proof. intros Hc s. split; [|apply Hc]. cbn. by intros ->. Qed.

Lemma obeys_gets {A} (g : Sys → A) c : (∀ a, obeys_stop (c a)) → obeys_stop (gets g ≫= c).
Proof. intros Hc s. split; [done|apply Hc]. Qed.

Lemma obeys_call {O} (f : NetLog → O * HttpApiClient * NetLog) c :
  (∀ r, obeys_stop (c r)) → obeys_stop (call f ≫= c).
Proof.
  intros Hc s. cbn. destruct (f (x_net s)) as [[out cl] log]. split; [done|apply Hc].
Qed.

Lemma obeys_when b p : obeys_stop p → obeys_stop (when b p).
Proof. by destruct b. Qed.

Lemma aside_bind {A C} (p : prog A) (c : A → prog C) : aside p → (∀ a, aside (c a)) → aside (p ≫= c).
Proof.
  intros Hp Hc. induction p as [a|f k IH|k IH|k IH]; simpl in *; try done.
  intros s. destruct (Hp s). split; [done|]. by apply IH.
Qed.

Lemma aside_modify f :
  (∀ s, shown (f s) = shown s) → aside (modify f).
Proof. intros H s. by split. Qed.

Lemma aside_when b p : aside p → aside (when b p).
Proof. by destruct b. Qed.

Lemma aside_gets {A} (g : Sys → A) : aside (gets g).
Proof. intros s. by split. Qed.

Lemma aside_tell e : aside (tell e).
Proof. by apply aside_modify. Qed.

Lemma aside_show_logo qr logo : aside (show_logo o qr logo).
Proof.
  destruct qr; [apply aside_tell|]. apply aside_when. destruct (o_events3 o); apply aside_tell.
Qed.

Lemma aside_Notify f : aside (NotifyFieldChanged o f).
Proof.
  unfold NotifyFieldChanged, GetStringValue. apply aside_bind; [apply aside_gets|]. intros e. apply aside_when.
  apply aside_bind; [apply aside_gets|]. intros st.
  do 2 (apply aside_bind; [apply aside_tell|]; intros _).
  destruct f; repeat first [exact I|lazymatch goal with
    | |- _ (mbind _ _) => apply aside_bind; [|intros ?]
    | |- _ (tell _) => apply aside_tell
    | |- _ (gets _) => apply aside_gets
    | |- _ (show_logo _ _ _) => apply aside_show_logo
    end].
Qed.

Lemma aside_NotifyProvider : aside NotifyProviderChangedFromWorker.
Proof. apply aside_bind; [apply aside_gets|]. intros e. by apply aside_modify. Qed.

Lemma aside_notify_poll : aside (notify_poll o).
Proof.
  unfold notify_poll. repeat (apply aside_bind; [apply aside_Notify|intros _]).
  apply aside_NotifyProvider.
Qed.

Lemma obeys_slices n c : obeys_stop c → obeys_stop (slices n c).
Proof.
  intros Hc. induction n as [|n IH]; [done|]. apply obeys_gets. intros []; done.
Qed.

Lemma obeys_poll_loop n : ∀ errors client job cid user domain,
  obeys_stop (poll_loop o n errors client job cid user domain).
Proof.
  induction n as [|n IH]; intros errors client job cid user domain; cbn [poll_loop].
  - apply obeys_unless_stopped. intros st. apply obeys_when, obeys_aside, aside_notify_poll.
  - apply obeys_slices, obeys_call. intros r. cbv zeta. destruct (po_ok r.1 && _).
    + apply obeys_unless_stopped. intros st.
      apply obeys_aside_bind; [apply aside_when, aside_notify_poll|]. intros _.
      apply obeys_when, obeys_aside, aside_modify. done.
    + apply obeys_gets. intros []; [done|]. apply IH.
Qed.

Lemma obeys_run_job cfg cpus j : obeys_stop (run_job o cfg cpus j).
Proof.
  unfold run_job. destruct (j_job j); [done|..].
  - unfold run_push. apply obeys_call. intros r. cbv zeta. apply obeys_unless_stopped.
    intros []; [done|]. apply obeys_aside_bind.
    { apply aside_when. repeat (apply aside_bind; [apply aside_Notify|intros _]). apply aside_Notify. }
    intros _. apply obeys_aside_bind; [apply aside_NotifyProvider|]. intros _.
    apply obeys_when, obeys_poll_loop.
  - unfold run_webauthn. apply obeys_call. intros r. cbv zeta. apply obeys_unless_stopped.
    intros []; [done|]. do 2 (apply obeys_aside_bind; [apply aside_Notify|]; intros _).
    apply obeys_aside_bind; [apply aside_NotifyProvider|]. intros _.
    apply obeys_when, obeys_poll_loop.
  - unfold run_otp. apply obeys_call. intros [[ok err] cl]. cbn [fst snd]. apply obeys_unless_stopped.
    intros []; [done|]. apply obeys_aside_bind; [apply aside_Notify|]. intros _.
    apply obeys_aside, aside_NotifyProvider.
Qed.

Lemma obeys_RunAsyncJob : obeys_stop (RunAsyncJob o).
Proof.
  unfold RunAsyncJob. intros s. split; [done|]. apply obeys_gets. intros [[cfg cpus] remote].
  case_match; [|apply obeys_run_job].
  intros s2. split; [done|]. cbn [prog_bind fst].
  change (obeys_stop (if satisfied (CheckRdpMfaSatisfied (o_crack o) (o_utf8 o)
      (o_gate o (length (x_gates s2))) (serverUrl cfg) (j_user (take_job s).1) (o_computer o)
      (allowSelfSigned cfg) (allowHttp cfg)).1
    then stop ← unless_stopped gate_satisfied;
         when (negb stop) (NotifyFieldChanged o FID_STATUS_TEXT;; NotifyProviderChangedFromWorker)
    else run_job o cfg cpus (take_job s).1)).
  destruct (satisfied _); [|apply obeys_run_job].
  apply obeys_unless_stopped. intros st. apply obeys_when, obeys_aside_bind; [apply aside_Notify|].
  intros _. apply obeys_aside, aside_NotifyProvider.
Qed.
End Stop.

(** ** Names *)
Definition full_name (d u : wstr) : wstr := if bool_decide (d = []) then u else d ++ [92] ++ u.

(** What LogonUI hands over: no NUL inside; a leading backslash is excluded. *)
Definition typed_name (raw : wstr) : Prop := (0 ∉ raw) ∧ head raw ≠ Some 92.

Lemma find_ch_lower s c : c = 92 ∨ c = 64 → find_ch (lower <$> s) c 0 = find_ch s c 0.
Proof.
  intros Hc. unfold find_ch, find. rewrite !decide_True, !drop_0 by lia. f_equal.
  induction s as [|x s IH]; [done|]. cbn [fmap list_fmap find0 prefixb].
  change (list_fmap Z Z lower s) with (lower <$> s). rewrite IH.
  replace (bool_decide (c = lower x)) with (bool_decide (c = x)); [done|].
  apply bool_decide_ext. unfold lower. destruct (decide _); lia.
Qed.

Lemma split_user_lower s :
  split_user (lower <$> s) = (lower <$> (split_user s).1, lower <$> (split_user s).2).
Proof.
  unfold split_user. rewrite !find_ch_lower by auto. unfold substr, substr_from.
  destruct (find_ch s 92 0); cbn [fst snd].
  { by rewrite !drop_0, fmap_take, fmap_drop. }
  destruct (find_ch s 64 0); [|done]. rewrite length_fmap.
  destruct (_ && _); cbn [fst snd]; [|done]. by rewrite !drop_0, fmap_take, fmap_drop.
Qed.

Lemma split_user_cut l r : 92 ∉ l → split_user (l ++ 92 :: r) = (l, r).
Proof.
  intros Hl. unfold split_user.
  rewrite (find_ch_app 92 [] l r 0 eq_refl Hl : find_ch (l ++ 92 :: r) 92 0 = _).
  cbn [Nat.add]. unfold substr, substr_from. rewrite drop_0, take_app_length.
  by rewrite <- drop_drop, drop_app_length.
Qed.

(** Splitting the stored name again gives the same parts. *)
Lemma split_user_full raw : typed_name raw →
  split_user (full_name (split_user raw).1 (split_user raw).2) = split_user raw.
Proof.
  intros [_ Hh]. destruct (find_ch raw 92 0) as [i|] eqn:E.
  - apply find_ch_some in E as (l & r & -> & _ & Hl). rewrite split_user_cut by done.
    cbn [fst snd]. unfold full_name. rewrite bool_decide_eq_false_2; [by apply split_user_cut|].
    intros ->. done.
  - pose proof (find_ch_none _ _ E) as Hno.
    assert (∀ at_, find_ch raw 64 0 = Some at_ → (at_ < length raw)%nat) as Hat.
    { intros at_ (l & r & -> & <- & _)%find_ch_some. rewrite length_app. simpl. lia. }
    unfold split_user. rewrite E. destruct (find_ch raw 64 0) as [at_|] eqn:E2.
    + destruct (bool_decide (0 < at_)%nat && bool_decide (at_ + 1 < length raw)%nat) eqn:Eb;
        cbn [fst snd].
      * apply andb_true_iff in Eb as [Eb1%bool_decide_eq_true Eb2%bool_decide_eq_true].
        unfold full_name. rewrite bool_decide_eq_false_2.
        -- fold (split_user (substr_from raw (at_ + 1) ++ [92] ++ substr raw 0 at_)).
           apply (split_user_cut (substr_from raw (at_ + 1)) (substr raw 0 at_)).
           intros Hin. apply Hno. rewrite <- (take_drop (at_ + 1) raw), elem_of_app. by right.
        -- intros Hnil. apply (f_equal length) in Hnil. unfold substr_from in Hnil.
           rewrite length_drop in Hnil. simpl in Hnil. lia.
      * change (full_name [] raw) with raw. by rewrite E, E2, Eb.
    + cbn [fst snd]. change (full_name [] raw) with raw. by rewrite E, E2.
Qed.

Lemma split_user_sub raw x : (x ∈ (split_user raw).1 ∨ x ∈ (split_user raw).2) → x ∈ raw.
Proof.
  unfold split_user.
  assert (∀ a, x ∈ substr_from raw a → x ∈ raw) as Hd.
  { intros a H. rewrite <- (take_drop a raw), elem_of_app. by right. }
  assert (∀ a n, x ∈ substr raw a n → x ∈ raw) as Hs by (intros; by eapply take_drop_sub).
  destruct (find_ch raw 92 0); cbn [fst snd]; [naive_solver|].
  destruct (find_ch raw 64 0); [destruct (_ && _)|]; cbn [fst snd];
    intros [H|H]; eauto; by apply not_elem_of_nil in H.
Qed.

(** A retyped name that the tile takes for the stored one has the same parts,
    up to letter case. *)
Lemma same_name_same_parts raw psz : typed_name raw → typed_name psz →
  ieq psz (full_name (split_user raw).1 (split_user raw).2) →
  ieq (split_user psz).1 (split_user raw).1 ∧ ieq (split_user psz).2 (split_user raw).2.
Proof.
  intros Hr Hp. pose proof (split_user_sub raw 0) as S1. pose proof (split_user_sub psz 0) as S2.
  destruct Hr as [Hr0 Hrh], Hp as [Hp0 Hph].
  assert (0 ∉ full_name (split_user raw).1 (split_user raw).2) as Hf0.
  { unfold full_name. case_bool_decide; [tauto|]. rewrite !elem_of_app.
    intros [Hx|[Hx|Hx]]; [tauto| |tauto]. apply list_elem_of_singleton in Hx. done. }
  unfold ieq. rewrite !c_str_id by tauto. intros E.
  apply (f_equal split_user) in E. rewrite !split_user_lower, split_user_full in E by done.
  by injection E.
Qed.

(** ** The invariant *)
Section Invariant.
Context (o : World).

Definition kind_of (m : AUTH_FACTOR_MODE) : WorkerJob :=
  match m with
  | MODE_FIDO2 => JobWebAuthnBegin
  | MODE_PUSH => JobStartPush
  | MODE_OTP => JobVerifyOtp
  end.

Definition names_ok (s : Sys) : Prop :=
  ∃ raw, typed_name raw ∧ split_user raw = (m_domain s, m_username s).

Definition Inv (w : prog unit) (s : Sys) : Prop :=
  obeys_stop w ∧ names_ok s ∧
  ∃ k d u b, ieq d (m_domain s) ∧ ieq u (m_username s) ∧ WI o k u (m_password s) s ∧
    (m_hPollThread s = true → kind_of (m_currentMode s) = k) ∧
    (m_hPollThread s = false →
       w = Ret tt ∧ w_status (m_worker s) = [] ∧ w_done (m_worker s) = false) ∧
    later b s ∧ wsafe o k u (m_password s) b w.

(** No worker, no result of one. *)
Definition Idle (s : Sys) : Prop :=
  names_ok s ∧ m_hPollThread s = false ∧ w_status (m_worker s) = [] ∧ w_done (m_worker s) = false ∧
  ∃ d u, ieq d (m_domain s) ∧ ieq u (m_username s) ∧
    (m_authenticated s = true → ev o u (m_password s) s).

Definition names_part (s : Sys) :=
  (m_config s, m_cpus s, m_providerFlags s, m_usernameRaw s, m_currentMode s, m_username s, m_domain s, m_password s).

Lemma ui_names s s' : ui_part s' = ui_part s → names_part s' = names_part s.
Proof. unfold ui_part, names_part. by intros [= -> -> -> -> -> -> -> -> _]. Qed.

Lemma neutral_names s s' : neutral s s' → names_part s' = names_part s.
Proof. intros Hn. apply ui_names, Hn. Qed.
Lemma neutral_auth s s' : neutral s s' → m_authenticated s' = m_authenticated s.
Proof. intros Hn. apply Hn. Qed.

Lemma Inv_neutral w s s' : neutral s s' → Inv w s → Inv w s'.
Proof.
  intros Hn (Hob & (raw & Hraw & Hsplit) & k & d & u & b & Hd & Hu & HW & Hk & Hw & Hb & Hs).
  pose proof Hn as [Hui _]. injection Hui as _ _ _ _ Emode Euser Edom Epass Ethr.
  split_and!; [done| |].
  - exists raw. by rewrite Edom, Euser.
  - exists k, d, u, b. rewrite Edom, Euser, Epass, Ethr, Emode.
    pose proof Hn as (_ & _ & _ & _ & _ & Est & Edn & _). rewrite Est, Edn.
    split_and!; try done.
    + by eapply neutral_WI.
    + eapply later_trans; [exact Hb|by apply neutral_later].
Qed.

Lemma Idle_neutral s s' : neutral s s' → Idle s → Idle s'.
Proof.
  intros Hn ((raw & Hraw & Hsplit) & Ht & Hst & Hdn & d & u & Hd & Hu & Ha).
  pose proof Hn as (Hui & _ & Hnet & Hg & Eauth & Est & Edn & _).
  injection Hui as _ _ _ _ Emode Euser Edom Epass Ethr.
  split_and!; [exists raw; by rewrite Edom, Euser|congruence..|].
  exists d, u. rewrite Edom, Euser, Epass. split_and!; [done..|].
  rewrite Eauth. unfold ev. rewrite Hnet, Hg. done.
Qed.

Lemma Idle_Inv s : Idle s → Inv (Ret tt) s.
Proof.
  intros (Hn & Ht & Hst & Hdn & d & u & Hd & Hu & Ha). split_and!; [done..|].
  exists (kind_of (m_currentMode s)), d, u, s. split_and!; try done.
  - split_and!; [exact Ha| |by rewrite Hdn]. rewrite Hst. intros E. by vm_compute in E.
  - apply later_refl.
Qed.

(** ** Executing the building blocks *)
Lemma exec_quiet_bind {A C} (p : prog A) (c : A → prog C) w : ∀ s,
  quiet p → ∃ a s', neutral s s' ∧ exec o (p ≫= c) w s = exec o (c a) w s'.
Proof.
  induction p as [a|f k IH|k IH|k IH]; intros s Hq; simpl in Hq; try done.
  - exists a, s. by split.
  - destruct (Hq s) as [Hn Hq']. destruct (IH s (f s) Hq') as (a & s' & Hn' & E).
    exists a, s'. split; [by eapply neutral_trans|]. exact E.
Qed.

Lemma exec_quiet {A} (p : prog A) w : ∀ s,
  quiet p → ∃ a s', neutral s s' ∧ exec o p w s = (a, w, s').
Proof.
  induction p as [a|f k IH|k IH|k IH]; intros s Hq; simpl in Hq; try done.
  - exists a, s. by split.
  - destruct (Hq s) as [Hn Hq']. destruct (IH s (f s) Hq') as (a & s' & Hn' & E).
    exists a, s'. split; [by eapply neutral_trans|]. exact E.
Qed.

Lemma exec_Join {C} (c : unit → prog C) w s : Inv w s →
  ∃ s', exec o (JoinPollThread ≫= c) w s = exec o (c tt) (Ret tt) s' ∧ Idle s' ∧
    names_part s' = names_part s ∧ mono s s' ∧
    (w_stop (m_worker s) = true ∨ w = Ret tt → m_authenticated s' = m_authenticated s).
Proof.
  intros (Hob & (raw & Hraw & Hsplit) & k & d & u & b & Hd & Hu & HW & Hk & Hw & Hb & Hs).
  unfold JoinPollThread. cbn [mbind prog_mbind prog_bind gets exec].
  destruct (m_hPollThread s) eqn:Et.
  - destruct (run_worker_safe o k u (m_password s) w b s Hs Hb HW) as (HW' & Hui & Hm).
    eexists. split; [reflexivity|]. set (s1 := run_worker w s) in *.
    injection Hui as Ecfg Ecpus Efl Eraw Emode Euser Edom Epass _.
    split_and!; [| |done|].
    + split_and!; [|done..|].
      * exists raw. split; [done|]. cbn. by rewrite Edom, Euser.
      * exists d, u. cbn. rewrite Edom, Euser, Epass. split_and!; [done..|]. apply HW'.
    + unfold names_part. cbn. congruence.
    + intros [Hst| ->]; [|done]. by injection (run_worker_stopped w s Hob Hst).
  - destruct (Hw eq_refl) as [-> _]. eexists. split; [reflexivity|]. split_and!; [|done|by apply mono_same|done].
    split_and!; [by exists raw|done..|]. exists d, u. split_and!; [done..|]. apply HW.
Qed.

Lemma exec_Stop {C} (c : unit → prog C) w s : Inv w s →
  ∃ s', exec o (StopPollThread ≫= c) w s = exec o (c tt) (Ret tt) s' ∧ Idle s' ∧
    names_part s' = names_part s ∧ mono s s' ∧ m_authenticated s' = m_authenticated s.
Proof.
  intros HI. set (s1 := s <| m_worker := (m_worker s) <| w_stop := true |> |>).
  assert (Inv w s1) as HI1 by (by apply (Inv_neutral w s)).
  destruct (exec_Join c w s1 HI1) as (s' & E & Hidle & Hn & Hm & Ha).
  exists s'. split; [exact E|]. split_and!; [done|exact Hn|exact Hm|]. apply Ha. by left.
Qed.

(** Sequencing of calls. *)
Lemma exec_assoc {A C D} (p : prog A) (k : A → prog C) (c : C → prog D) : ∀ w s,
  exec o ((p ≫= k) ≫= c) w s = exec o (p ≫= λ a, k a ≫= c) w s.
Proof.
  induction p as [a|f q IH|q IH|q IH]; intros w s; [done| |apply IH..]. apply (IH s).
Qed.
Lemma exec_modify {C} f (c : unit → prog C) w s :
  exec o (modify f ≫= c) w s = exec o (c tt) w (f s).
Proof. done. Qed.
Lemma exec_gets {A C} (g : Sys → A) (c : A → prog C) w s :
  exec o (gets g ≫= c) w s = exec o (c (g s)) w s.
Proof. done. Qed.
Lemma exec_act {A C} (g : Sys → A * Sys) (c : A → prog C) w s :
  exec o (act g ≫= c) w s = exec o (c (g s).1) w (g s).2.
Proof. done. Qed.
Lemma exec_Spawn {A C} (k : prog A) (c : A → prog C) w s :
  exec o (Spawn k ≫= c) w s = exec o (k ≫= c) (RunAsyncJob o) s.
Proof. cbn [mbind prog_mbind prog_bind exec]. exact eq_refl. Qed.
Lemma exec_ret {A C} (a : A) (c : A → prog C) w s : exec o (mret a ≫= c) w s = exec o (c a) w s.
Proof. done. Qed.
Lemma exec_mret {A} (a : A) w s : exec o (mret a) w s = (a, w, s).
Proof. done. Qed.
Lemma exec_tail (p : prog unit) w s : exec o p w s = exec o (p ≫= mret) w s.
Proof. revert w s. induction p as [[]|f q IH|q IH|q IH]; intros w s; [done| |apply IH..]. apply (IH s). Qed.
End Invariant.

(** Symbolic execution of the leading step of a call. *)
Ltac xstep :=
  rewrite ?exec_assoc;
  first [ rewrite exec_modify | rewrite exec_gets | rewrite exec_ret | rewrite exec_mret ];
  cbv beta.
(** Step over a quiet prefix: a neutral state change. *)
Ltac xquiet s' Hn :=
  rewrite ?exec_assoc;
  match goal with
  | |- context [exec ?o (?p ≫= ?c) ?w ?s] =>
    let H := fresh in
    assert (quiet p) as H by (first [quiet | apply quiet_modify; done]);
    let a := fresh "a" in let E := fresh in
    destruct (exec_quiet_bind o p c w s H) as (a & s' & Hn & E); rewrite E; clear H E
  end.

Section Handlers.
Context (o : World).

(** The invariant without the tie to the name and password on the tile. *)
Definition Loose (w : prog unit) (s : Sys) : Prop :=
  obeys_stop w ∧ names_ok s ∧
  ∃ k u p b, WI o k u p s ∧
    (m_hPollThread s = false →
       w = Ret tt ∧ w_status (m_worker s) = [] ∧ w_done (m_worker s) = false) ∧
    later b s ∧ wsafe o k u p b w.

Lemma Inv_Loose w s : Inv o w s → Loose w s.
Proof.
  intros (Hob & Hn & k & d & u & b & _ & _ & HW & _ & Hw & Hb & Hs). split_and!; [done..|].
  by exists k, u, (m_password s), b.
Qed.

Lemma Loose_neutral w s s' : neutral s s' → Loose w s → Loose w s'.
Proof.
  intros Hn (Hob & (raw & Hraw & Hsplit) & k & u & p & b & HW & Hw & Hb & Hs).
  pose proof Hn as (Hui & _ & _ & _ & _ & Est & Edn & _). injection Hui as _ _ _ _ _ Euser Edom _ Ethr.
  split_and!; [done|exists raw; by rewrite Edom, Euser|].
  exists k, u, p, b. rewrite Est, Edn, Ethr. split_and!; [by eapply neutral_WI|done| |done].
  eapply later_trans; [exact Hb|by apply neutral_later].
Qed.

Lemma Loose_unconfirm w s : Loose w s → Loose w (s <| m_authenticated := false |>).
Proof.
  intros (Hob & Hn & k & u & p & b & (H1 & H2 & H3) & Hr). split_and!; [done..|].
  exists k, u, p, b. split_and!; try done; apply Hr.
Qed.

(** Joining a worker that was told to stop, while nothing is confirmed. *)
Lemma exec_Join_loose {C} (c : unit → prog C) w s :
  Loose w s → m_authenticated s = false → w_stop (m_worker s) = true →
  ∃ s', exec o (JoinPollThread ≫= c) w s = exec o (c tt) (Ret tt) s' ∧ Idle o s' ∧
    names_part s' = names_part s ∧ mono s s' ∧ m_authenticated s' = false.
Proof.
  intros (Hob & (raw & Hraw & Hsplit) & k & u & p & b & HW & Hw & Hb & Hs) Ha Hstop.
  unfold JoinPollThread. cbn [mbind prog_mbind prog_bind gets exec].
  destruct (m_hPollThread s) eqn:Et.
  - destruct (run_worker_safe o k u p w b s Hs Hb HW) as (_ & Hui & Hm).
    injection (run_worker_stopped w s Hob Hstop) as Hau _ _ _ _ _ _.
    eexists. split; [reflexivity|]. set (s2 := run_worker w s) in *.
    injection Hui as Ecfg Ecpus Efl Eraw Emode Euser Edom Epass _.
    split_and!; [| |done|by cbn; congruence].
    + split_and!; [|done..|].
      * exists raw. split; [done|]. cbn. by rewrite Edom, Euser.
      * exists (m_domain s2), (m_username s2). cbn. rewrite Hau, Ha. done.
    + unfold names_part. cbn. congruence.
  - destruct (Hw eq_refl) as [-> _]. eexists. split; [reflexivity|].
    split_and!; [|done|by apply mono_same|done].
    split_and!; [by exists raw|done..|]. exists (m_domain s), (m_username s). cbn.
    by rewrite Ha.
Qed.

Lemma exec_Stop_loose {C} (c : unit → prog C) w s : Loose w s → m_authenticated s = false →
  ∃ s', exec o (StopPollThread ≫= c) w s = exec o (c tt) (Ret tt) s' ∧ Idle o s' ∧
    names_part s' = names_part s ∧ mono s s' ∧ m_authenticated s' = false.
Proof.
  intros HL Ha0. set (s1 := s <| m_worker := (m_worker s) <| w_stop := true |> |>).
  assert (Loose w s1) as HL1 by (by apply (Loose_neutral w s)).
  destruct (exec_Join_loose c w s1 HL1 Ha0 eq_refl) as (s' & E & Hidle & Hn & Hm & Ha).
  exists s'. split; [exact E|]. split_and!; [done|exact Hn|exact Hm|done].
Qed.

(** After [ResetAuthState] nothing is confirmed and nothing is running. *)
Lemma exec_Reset {C} (c : unit → prog C) w s : Loose w s →
  ∃ s', exec o (ResetAuthState o ≫= c) w s = exec o (c tt) (Ret tt) s' ∧ Idle o s' ∧
    names_part s' = names_part s ∧ mono s s' ∧ m_authenticated s' = false.
Proof.
  intros HI%Loose_unconfirm. unfold ResetAuthState. xstep. xquiet s1 Hn1. xquiet s2 Hn2. xquiet s3 Hn3.
  assert (neutral (s <| m_authenticated := false |>) s3) as Hn by eauto using neutral_trans.
  rewrite ?exec_assoc.
  destruct (exec_Stop_loose (λ _ : unit, when_events (NotifyFieldChanged o FID_NUMBER_MATCH;;
    NotifyFieldChanged o FID_LARGE_TEXT) ≫= c) w s3) as (s4 & -> & Hidle & Hnp & Hm & Ha).
  { by eapply Loose_neutral. }
  { by rewrite (neutral_auth _ _ Hn). }
  xquiet s5 Hn5. exists s5. split; [by destruct a2|]. split_and!.
  - by eapply Idle_neutral.
  - rewrite (neutral_names _ _ Hn5), Hnp, (neutral_names _ _ Hn). done.
  - eapply mono_trans; [|apply (neutral_later _ _ Hn5)]. eapply mono_trans; [|exact Hm].
    apply (neutral_later _ _ Hn).
  - by rewrite (neutral_auth _ _ Hn5).
Qed.

(** The members a new job starts from. *)
Definition loaded (job : WorkerJob) (t : wstr) (s : Sys) : Sys :=
  (load_job job t s) <| m_beginApplied := false |>.

Lemma loaded_ui job t s : ui_part (loaded job t s) = ui_part s.
Proof. unfold loaded, load_job. by case_bool_decide. Qed.
Lemma loaded_job job t s : job_part (loaded job t s) = (job, m_username s, m_password s).
Proof. unfold loaded, load_job. by case_bool_decide. Qed.
Lemma loaded_worker job t s : m_worker (loaded job t s) = new_worker.
Proof. unfold loaded, load_job. by case_bool_decide. Qed.
Lemma loaded_auth job t s : m_authenticated (loaded job t s) = m_authenticated s.
Proof. unfold loaded, load_job. by case_bool_decide. Qed.
Lemma loaded_mono job t s : mono s (loaded job t s).
Proof. apply mono_same; unfold loaded, load_job; by case_bool_decide. Qed.

(** The part of [StartWorkerJob] after the old worker is gone. *)
Definition launch (job : WorkerJob) (t : wstr) : prog bool :=
  modify (load_job job t);; modify (λ s, s <| m_beginApplied := false |>);;
  NotifyFieldChanged o FID_STATUS_TEXT;;
  ok ← act (λ s, (o_thread o (x_threads s), s <| x_threads := S (x_threads s) |>));
  if (ok : bool) then Spawn (modify (λ s, s <| m_hPollThread := true |>);; mret true)
  else modify wipe_job;; mret false.

Lemma exec_launch {C} job t (c : bool → prog C) s :
  ∃ ok s', neutral (loaded job t s) s' ∧
    exec o (launch job t ≫= c) (Ret tt) s =
      (if (ok : bool) then exec o (c true) (RunAsyncJob o) (s' <| m_hPollThread := true |>)
       else exec o (c false) (Ret tt) (wipe_job s')).
Proof.
  unfold launch. xstep. xstep. fold (loaded job t s). xquiet s3 Hn3.
  rewrite exec_assoc, exec_act. cbn [fst snd].
  exists (o_thread o (x_threads s3)), (s3 <| x_threads := S (x_threads s3) |>).
  split; [exact Hn3|]. destruct (o_thread o (x_threads s3)).
  - cbv iota. rewrite exec_Spawn, exec_assoc, exec_modify, exec_ret. exact eq_refl.
  - cbv iota. rewrite exec_assoc, exec_modify, exec_ret. exact eq_refl.
Qed.

(** A running worker whose job is the tile's name and password. *)
Lemma Inv_spawned job s :
  names_ok s → m_authenticated s = false → kind_of (m_currentMode s) = job →
  m_hPollThread s = true → w_status (m_worker s) = [] → w_done (m_worker s) = false →
  job_part s = (job, m_username s, m_password s) → Inv o (RunAsyncJob o) s.
Proof.
  intros Hn Ha Hk Ht Hst Hdn [= Hj Hju Hjp]. split_and!; [apply obeys_RunAsyncJob|done|].
  exists job, (m_domain s), (m_username s), s.
  split_and!; [done|done| |done|congruence|apply later_refl|].
  - split_and!; [congruence|rewrite Hst; intros E; by vm_compute in E|congruence].
  - pose proof (wsafe_RunAsyncJob o s) as Hs. by rewrite Hj, Hju, Hjp in Hs.
Qed.

Lemma names_ok_part s s' : names_part s' = names_part s → names_ok s → names_ok s'.
Proof. intros [= _ _ _ _ _ Eu Ed _] (raw & ? & ?). exists raw. by rewrite Eu, Ed. Qed.

(** Starting a job on an idle tile with nothing confirmed. *)
Lemma exec_Start {C} job t (c : bool → prog C) s :
  Idle o s → m_authenticated s = false → kind_of (m_currentMode s) = job →
  ∃ ok w' s', exec o (StartWorkerJob o job t ≫= c) (Ret tt) s = exec o (c ok) w' s' ∧ Inv o w' s' ∧
    names_part s' = names_part s ∧ mono s s' ∧ m_authenticated s' = false.
Proof.
  intros Hidle Ha Hkind. change (StartWorkerJob o job t) with (StopPollThread;; launch job t).
  rewrite exec_assoc.
  destruct (exec_Stop o (λ _, launch job t ≫= c) (Ret tt) s) as (s1 & -> & Hid1 & Hnp1 & Hm1 & Ha1).
  { by apply Idle_Inv. }
  destruct (exec_launch job t c s1) as (ok & s2 & Hn & ->).
  pose proof (loaded_ui job t s1) as Hui. pose proof (loaded_job job t s1) as Hjob.
  pose proof (loaded_worker job t s1) as Hw. pose proof (loaded_auth job t s1) as Hau.
  pose proof (loaded_mono job t s1) as Hmo. set (s1' := loaded job t s1) in *. clearbody s1'.
  assert (names_part s2 = names_part s) as Hnp2.
  { rewrite (neutral_names _ _ Hn), (ui_names _ _ Hui). done. }
  assert (mono s s2) as Hm2.
  { eapply mono_trans; [exact Hm1|]. eapply mono_trans; [exact Hmo|apply (neutral_later _ _ Hn)]. }
  assert (m_authenticated s2 = false) as Ha2 by (rewrite (neutral_auth _ _ Hn); congruence).
  assert (names_ok s2) as Hok2 by (eapply names_ok_part; [exact Hnp2|apply Hidle]).
  pose proof Hn as (Hui2 & Hjob2 & _ & _ & _ & Hst & Hdn & _).
  rewrite Hw in Hst, Hdn. rewrite Hjob in Hjob2. rewrite Hui in Hui2.
  destruct Hid1 as (_ & Ht1 & _).
  destruct ok; (eexists _, _, _; split; [reflexivity|]); (split_and!; [|exact Hnp2| |exact Ha2]).
  - apply (Inv_spawned job); [exact Hok2|exact Ha2| |done|done|done|].
    + injection Hnp2 as _ _ _ _ Hmode _ _ _. cbn. congruence.
    + injection Hui2 as _ _ _ _ _ Hu _ Hp _. cbn. unfold job_part in *. cbn. congruence.
  - eapply mono_trans; [exact Hm2|by apply mono_same].
  - apply Idle_Inv. split_and!; [exact Hok2| |done|done|].
    + injection Hui2 as _ _ _ _ _ _ _ _ Ht. cbn. congruence.
    + exists (m_domain s2), (m_username s2). cbn. rewrite Ha2. done.
  - eapply mono_trans; [exact Hm2|by apply mono_same].
Qed.

(** ** [GetSerialization] *)

(** Why a credential may be handed to Windows. *)
Definition fail_open (s : Sys) : Prop :=
  failClose (m_config s) = false ∧ w_beginDone (m_worker s) && w_beginOk (m_worker s) = false ∧
  w_beginError (m_worker s) = B "network_error".

Definition second_factor (s s' : Sys) : Prop :=
  ∃ u, ieq u (m_username s) ∧ approved o (x_net s') (x_gates s') u (m_password s).

Definition reason (s s' : Sys) : Prop :=
  IsBypassAccount (m_config s) (m_username s) (m_domain s) = true ∨ fail_open s ∨ second_factor s s'.

Definition good (s0 : Sys) (x : SerResult * prog unit * Sys) : Prop :=
  Inv o x.1.2 x.2 ∧ names_part x.2 = names_part s0 ∧ mono s0 x.2 ∧
  (sr_gsr x.1.1 = CPGSR_RETURN_CREDENTIAL_FINISHED → reason s0 x.2).

Lemma second_factor_mono s s' s'' : mono s' s'' → second_factor s s' → second_factor s s''.
Proof. intros Hm (u & Hu & Ha). exists u. split; [done|]. by apply (ev_mono o u _ s' s''). Qed.

Lemma reason_mono s s' s'' : mono s' s'' → reason s s' → reason s s''.
Proof. intros Hm [H|[H|H]]; [by left|by right; left|right; right]. by eapply second_factor_mono. Qed.

Lemma good_mret s0 r w s : Inv o w s → names_part s = names_part s0 → mono s0 s →
  sr_gsr r = CPGSR_NO_CREDENTIAL_NOT_FINISHED → good s0 (exec o (mret r) w s).
Proof. intros HI Hn Hm Hr. split_and!; [done..|]. cbn. by rewrite Hr. Qed.

Lemma quiet_pack : quiet (pack_finish o).
Proof. intros s. unfold pack_finish. cbn. by destruct (PackAndFinish _ _ _ _ _ _ _ _). Qed.

Lemma good_pack s0 w s : Inv o w s → names_part s = names_part s0 → mono s0 s → reason s0 s →
  good s0 (exec o (pack_finish o) w s).
Proof.
  intros HI Hn Hm Hr. destruct (exec_quiet o (pack_finish o) w s quiet_pack) as (r & s' & Hq & ->).
  split_and!; cbn [fst snd].
  - by eapply Inv_neutral.
  - by rewrite (neutral_names _ _ Hq).
  - eapply mono_trans; [exact Hm|apply (neutral_later _ _ Hq)].
  - intros _. eapply reason_mono; [|exact Hr]. apply (neutral_later _ _ Hq).
Qed.

(** The confirmed flag is evidence for the tile's current name and password. *)
Lemma Inv_confirmed w s : Inv o w s → m_authenticated s = true → second_factor s s.
Proof.
  intros (_ & _ & k & d & u & b & _ & Hu & (H1 & _) & _) Ha. exists u. split; [done|by apply H1].
Qed.
Lemma Inv_approved w s : Inv o w s → w_status (m_worker s) = W "approved" → second_factor s s.
Proof.
  intros (_ & _ & k & d & u & b & _ & Hu & (_ & H2 & _) & _) Ha. exists u. split; [done|by apply H2].
Qed.
Lemma Inv_otp_done w s : Inv o w s → m_hPollThread s = true → m_currentMode s = MODE_OTP →
  w_done (m_worker s) = true → w_beginDone (m_worker s) = true → w_beginOk (m_worker s) = true →
  second_factor s s.
Proof.
  intros (_ & _ & k & d & u & b & _ & Hu & (_ & _ & H3) & Hk & _) Ht Hm Hd Hb Ho.
  exists u. split; [done|]. apply H3; [|done..]. rewrite <- Hk by done. by rewrite Hm.
Qed.

(** A confirmed tile, after the join. *)
Lemma Idle_confirm s0 s : Idle o s → names_part s = names_part s0 → second_factor s0 s →
  Inv o (Ret tt) (s <| m_authenticated := true |>).
Proof.
  intros (Hn & Ht & Hs & Hd & _) Hnp (u & Hu & Ha). apply Idle_Inv.
  injection Hnp as _ _ _ _ _ Euser _ Epass.
  split_and!; [done..|]. exists (m_domain s), u. cbn. rewrite Euser, Epass.
  split_and!; [done..|]. intros _. exact Ha.
Qed.

(** A quiet stretch inside a call keeps what [good] asks for. *)
Lemma keep_neutral s0 w s s' : neutral s s' → Inv o w s → names_part s = names_part s0 → mono s0 s →
  Inv o w s' ∧ names_part s' = names_part s0 ∧ mono s0 s'.
Proof.
  intros Hn HI Hnp Hm. split_and!; [by eapply Inv_neutral|by rewrite (neutral_names _ _ Hn)|].
  eapply mono_trans; [exact Hm|apply (neutral_later _ _ Hn)].
Qed.

(** The end of the approved branches: join, clean up, confirm, tell LogonUI, pack. *)
Lemma good_approved {A} s0 w s (clean : prog A) t :
  Inv o w s → names_part s = names_part s0 → mono s0 s → second_factor s0 s → quiet clean →
  good s0 (exec o (JoinPollThread;; clean;; modify (λ s, s <| m_authenticated := true |>);;
    set_status_text t;; show_status t;; pack_finish o) w s).
Proof.
  intros HI Hnp Hm H2 Hq1.
  destruct (exec_Join o (λ _, clean;; modify (λ s, s <| m_authenticated := true |>);;
    set_status_text t;; show_status t;; pack_finish o) w s HI)
    as (s1 & -> & Hid & Hnp1 & Hm1 & _).
  xquiet s2 Hn2. xstep.
  assert (names_part s2 = names_part s0) as Hnp2 by (rewrite (neutral_names _ _ Hn2); congruence).
  assert (mono s s2) as Hm2 by (eapply mono_trans; [exact Hm1|apply (neutral_later _ _ Hn2)]).
  assert (second_factor s0 s2) as H2' by (by eapply second_factor_mono).
  pose proof (Idle_confirm s0 s2 (Idle_neutral o _ _ Hn2 Hid) Hnp2 H2') as HI3.
  set (s3 := s2 <| m_authenticated := true |>) in *.
  xquiet s4 Hn4. xquiet s5 Hn5.
  assert (neutral s3 s5) as Hn by eauto using neutral_trans.
  destruct (keep_neutral s0 (Ret tt) s3 s5 Hn HI3) as (HI5 & Hnp5 & Hm5);
    [exact Hnp2|by eapply mono_trans|].
  apply good_pack; [done..|]. right; right.
  eapply second_factor_mono; [|exact H2']. apply (neutral_later _ _ Hn).
Qed.

(** The end of the refused branches: join, quiet, nothing to hand over. *)
Lemma good_refused s0 w s (rest : prog SerResult) :
  Inv o w s → names_part s = names_part s0 → mono s0 s →
  (∀ s', Idle o s' → names_part s' = names_part s0 → mono s0 s' → good s0 (exec o rest (Ret tt) s')) →
  good s0 (exec o (JoinPollThread;; rest) w s).
Proof.
  intros HI Hnp Hm Hrest.
  destruct (exec_Join o (λ _, rest) w s HI) as (s1 & -> & Hid & Hnp1 & Hm1 & _).
  apply Hrest; [done|congruence|by eapply mono_trans].
Qed.

(** A quiet program, then a result without a credential. *)
Lemma good_quiet s0 w s (p : prog SerResult) :
  Inv o w s → names_part s = names_part s0 → mono s0 s → quiet p →
  (∀ r w' s', exec o p w s = (r, w', s') → sr_gsr r = CPGSR_NO_CREDENTIAL_NOT_FINISHED) →
  good s0 (exec o p w s).
Proof.
  intros HI Hnp Hm Hq Hr. destruct (exec_quiet o p w s Hq) as (r & s' & Hn & E).
  rewrite E. destruct (keep_neutral s0 w s s' Hn HI Hnp Hm) as (? & ? & ?).
  split_and!; [done..|]. cbn. by rewrite (Hr _ _ _ E).
Qed.

Lemma Inv_no_thread w s : Inv o w s → m_hPollThread s = false → w = Ret tt ∧ Idle o s.
Proof.
  intros (_ & Hn & k & d & u & b & Hd & Hu & (H1 & _) & _ & Hw & _) Ht.
  destruct (Hw Ht) as (-> & Hs & Hdn). split; [done|]. split_and!; [done..|]. by exists d, u.
Qed.

(** A fail-open decision reads the configuration, which the worker leaves alone. *)
Lemma open_same s s1 : names_part s1 = names_part s → m_config s1 = m_config s.
Proof. by intros [= ->]. Qed.

(** Starting the job of the current mode. *)
Lemma good_start s w job t (c : bool → prog SerResult) :
  Inv o w s → m_hPollThread s = false → m_authenticated s = false →
  kind_of (m_currentMode s) = job →
  (∀ ok w' s', Inv o w' s' → names_part s' = names_part s → mono s s' → m_authenticated s' = false →
     good s (exec o (c ok) w' s')) →
  good s (exec o (StartWorkerJob o job t ≫= c) w s).
Proof.
  intros HI Ht Ha Hk Hc. destruct (Inv_no_thread w s HI Ht) as [-> Hid].
  destruct (exec_Start job t c s Hid Ha Hk) as (ok & w' & s' & -> & HI' & Hnp & Hm & Ha').
  by apply Hc.
Qed.

Lemma good_serialize_otp s w :
  Inv o w s → m_authenticated s = false → m_currentMode s = MODE_OTP →
  good s (exec o (serialize_otp o) w s).
Proof.
  intros HI Ha Hmode. unfold serialize_otp. xstep. case_bool_decide.
  { by apply good_mret; [| |apply mono_refl|]. }
  xstep. destruct (m_hPollThread s) eqn:Et; cbn [negb].
  - xstep. destruct (w_done (m_worker s)) eqn:Ed; cbn [negb];
      [|by apply good_mret; [| |apply mono_refl|]].
    pose proof (Inv_otp_done w s HI Et Hmode Ed) as H2.
    apply good_refused; [done|done|apply mono_refl|]. intros s1 Hid Hnp Hm.
    destruct (w_beginDone (m_worker s) && w_beginOk (m_worker s)) eqn:Eb.
    + apply andb_true_iff in Eb as [Eb Eo]. specialize (H2 Eb Eo). xstep.
      assert (second_factor s s1) as H2' by (by eapply second_factor_mono).
      apply good_pack; [by apply (Idle_confirm s)|done|done|]. right; right. exact H2'.
    + xstep. destruct (negb (failClose (m_config s1)) && bool_decide _) eqn:Ef.
      * apply andb_true_iff in Ef as [Ef%negb_true_iff Ee%bool_decide_eq_true].
        apply good_pack; [by apply Idle_Inv|done|done|]. right; left.
        rewrite (open_same s s1 Hnp) in Ef. done.
      * by apply good_mret; [apply Idle_Inv| | |].
  - apply good_start; [done..|by rewrite Hmode|]. intros ok w' s' HI' Hnp Hm _.
    destruct ok; by apply good_mret.
Qed.

Lemma good_push_begin_failed s w :
  Inv o w s → w_beginOk (m_worker s) = false →
  good s (exec o (push_begin_failed o (m_worker s)) w s).
Proof.
  intros HI Hb. unfold push_begin_failed.
  apply good_refused; [done|done|apply mono_refl|]. intros s1 Hid Hnp Hm.
  xquiet s2 Hn2. xstep.
  destruct (keep_neutral s (Ret tt) s1 s2 Hn2 (Idle_Inv o s1 Hid) Hnp Hm) as (HI2 & Hnp2 & Hm2).
  destruct (negb (failClose (m_config s2)) && bool_decide _) eqn:Ef.
  - apply andb_true_iff in Ef as [Ef%negb_true_iff Ee%bool_decide_eq_true].
    apply good_pack; [done..|]. right; left. rewrite (open_same s s2 Hnp2) in Ef.
    unfold fail_open. by rewrite Hb, andb_false_r.
  - cbv zeta. xquiet s3 Hn3. xquiet s4 Hn4.
    destruct (keep_neutral s (Ret tt) s2 s4 (neutral_trans _ _ _ Hn3 Hn4) HI2 Hnp2 Hm2)
      as (HI4 & Hnp4 & Hm4).
    by apply good_mret.
Qed.

Lemma good_serialize_push s w :
  Inv o w s → m_authenticated s = false → m_currentMode s = MODE_PUSH →
  good s (exec o (serialize_push o) w s).
Proof.
  intros HI Ha Hmode. unfold serialize_push. xstep.
  destruct (m_hPollThread s) eqn:Et; cbn [negb].
  - xstep. destruct (w_beginDone (m_worker s) && negb (w_beginOk (m_worker s))) eqn:Eb.
    { apply andb_true_iff in Eb as [_ Eb%negb_true_iff]. by apply good_push_begin_failed. }
    assert (quiet (apply_begin_push o (m_worker s))) as Hq.
    { unfold apply_begin_push. apply quiet_bind; [apply quiet_gets|intros applied].
      apply quiet_when. apply quiet_bind; [by apply quiet_modify|intros _].
      apply quiet_bind; [by apply quiet_modify|intros _]. quiet. }
    destruct (exec_quiet_bind o (apply_begin_push o (m_worker s)) (λ _,
      if negb (w_done (m_worker s)) then mret not_finished else
      auth ← gets m_authenticated;
      if bool_decide (w_status (m_worker s) = W "approved") || auth then
        JoinPollThread;; clear_number;; modify (λ s, s <| m_authenticated := true |>);;
        set_status_text approved_text;; show_status approved_text;; pack_finish o
      else
      let '(msg, icon) := push_reason (w_status (m_worker s)) in
      JoinPollThread;; clear_number;; set_status_text msg;;
      when_events (NotifyFieldChanged o FID_NUMBER_MATCH;; NotifyFieldChanged o FID_LARGE_TEXT;;
               show_status msg);;
      mret (with_text msg icon)) w s Hq) as (a & s1 & Hn1 & ->). clear a.
    destruct (keep_neutral s w s s1 Hn1 HI eq_refl (mono_refl s)) as (HI1 & Hnp1 & Hm1).
    destruct (w_done (m_worker s)); cbn [negb]; [|by apply good_mret].
    xstep. rewrite (neutral_auth _ _ Hn1), Ha, orb_false_r. case_bool_decide as Est.
    + apply good_approved; [done..| |apply quiet_clear_number].
      eapply second_factor_mono; [exact Hm1|by eapply Inv_approved].
    + destruct (push_reason _) as [msg icon].
      apply good_refused; [done..|]. intros s2 Hid Hnp Hm.
      xquiet s3 Hn3. xquiet s4 Hn4. xquiet s5 Hn5.
      destruct (keep_neutral s (Ret tt) s2 s5) as (HI5 & Hnp5 & Hm5);
        [by eauto using neutral_trans|by apply Idle_Inv|done..|].
      by apply good_mret.
  - apply good_start; [done..|by rewrite Hmode|]. intros ok w' s' HI' Hnp Hm _.
    destruct ok; by apply good_mret.
Qed.

Lemma quiet_UpdateFieldStates' : quiet (UpdateFieldStates o).
Proof. apply quiet_UpdateFieldStates. Qed.

(** [TriggerFIDO2Auth] on an idle tile in passkey mode. *)
Lemma exec_Trigger {C} (c : unit → prog C) w s :
  Inv o w s → m_hPollThread s = false → m_currentMode s = MODE_FIDO2 →
  ∃ w' s', exec o (TriggerFIDO2Auth o ≫= c) w s = exec o (c tt) w' s' ∧ Inv o w' s' ∧
    names_part s' = names_part s ∧ mono s s' ∧ m_authenticated s' = m_authenticated s.
Proof.
  intros HI Ht Hmode. unfold TriggerFIDO2Auth. xstep.
  assert (∀ t (c' : unit → prog C), ∃ s', exec o ((set_status_text t;; NotifyFieldChanged o FID_STATUS_TEXT) ≫= c') w s
    = exec o (c' tt) w s' ∧ Inv o w s' ∧ names_part s' = names_part s ∧ mono s s' ∧
      m_authenticated s' = m_authenticated s) as Hsay.
  { intros t c'. xquiet s1 Hn1. xquiet s2 Hn2.
    assert (neutral s s2) as Hn by eauto using neutral_trans.
    destruct (keep_neutral s w s s2 Hn HI eq_refl (mono_refl s)) as (? & ? & ?).
    exists s2. split; [by destruct a0|]. split_and!; [done..|]. apply (neutral_auth _ _ Hn). }
  case_match.
  { destruct (Hsay (W "Passkey: сначала введите имя пользователя и пароль") c) as (s' & E & ?).
    by exists w, s'. }
  xstep. destruct (m_authenticated s) eqn:Ha.
  { destruct (Hsay (W "Passkey уже подтвержден! Нажмите стрелку для входа") c) as (s' & E & ?).
    by exists w, s'. }
  rewrite exec_assoc. destruct (Inv_no_thread w s HI Ht) as [-> Hid].
  destruct (exec_Start JobWebAuthnBegin (W "Генерация сессии Passkey...") (λ ok, when (negb ok) (
    set_status_text (W "Не удалось запустить Passkey, попробуйте еще раз");;
    NotifyFieldChanged o FID_STATUS_TEXT) ≫= c) s Hid Ha) as (ok & w1 & s1 & -> & HI1 & Hnp1 & Hm1 & Ha1).
  { by rewrite Hmode. }
  xquiet s2 Hn2. exists w1, s2. split; [by destruct a|].
  destruct (keep_neutral s w1 s1 s2 Hn2 HI1 Hnp1 Hm1) as (? & ? & ?).
  split_and!; [done..|]. by rewrite (neutral_auth _ _ Hn2).
Qed.

Lemma good_fido_begin_failed s w :
  Inv o w s → good s (exec o (fido_begin_failed o (m_worker s)) w s).
Proof.
  intros HI. unfold fido_begin_failed.
  apply good_refused; [done|done|apply mono_refl|]. intros s1 Hid Hnp Hm. cbv zeta.
  xquiet s2 Hn2. xquiet s3 Hn3. xquiet s4 Hn4. xquiet s5 Hn5.
  destruct (keep_neutral s (Ret tt) s1 s5) as (? & ? & ?);
    [by eauto using neutral_trans|by apply Idle_Inv|done..|].
  by apply good_mret.
Qed.

Lemma good_serialize_fido s w :
  Inv o w s → m_authenticated s = false → m_currentMode s = MODE_FIDO2 →
  good s (exec o (serialize_fido o) w s).
Proof.
  intros HI Ha Hmode. unfold serialize_fido. xstep.
  destruct (m_hPollThread s) eqn:Et; cbn [negb].
  - xstep. destruct (w_beginDone (m_worker s) && negb (w_beginOk (m_worker s))) eqn:Eb.
    { by apply good_fido_begin_failed. }
    assert (quiet (apply_begin_fido o (m_worker s))) as Hq.
    { unfold apply_begin_fido. apply quiet_bind; [apply quiet_gets|intros applied].
      apply quiet_when. apply quiet_bind; [by apply quiet_modify|intros _].
      apply quiet_bind; [apply quiet_gets|intros q]. apply quiet_when. cbv zeta.
      apply quiet_bind; [by apply quiet_modify|intros _].
      apply quiet_bind; [apply quiet_UpdateFieldStates|intros _]. quiet. }
    destruct (exec_quiet_bind o (apply_begin_fido o (m_worker s)) (λ _,
      if negb (w_done (m_worker s)) then mret not_finished else
      auth ← gets m_authenticated;
      if bool_decide (w_status (m_worker s) = W "approved") || auth then
        JoinPollThread;; ClearQrBitmap o;; modify (λ s, s <| m_authenticated := true |>);;
        set_status_text approved_text;; show_status approved_text;; pack_finish o
      else
      let '(msg, icon) := fido_reason (w_status (m_worker s)) in
      JoinPollThread;; ClearQrBitmap o;; set_status_text msg;; show_status msg;;
      mret (with_text msg icon)) w s Hq) as (a & s1 & Hn1 & ->). clear a.
    destruct (keep_neutral s w s s1 Hn1 HI eq_refl (mono_refl s)) as (HI1 & Hnp1 & Hm1).
    destruct (w_done (m_worker s)); cbn [negb]; [|by apply good_mret].
    xstep. rewrite (neutral_auth _ _ Hn1), Ha, orb_false_r. case_bool_decide as Est.
    + apply good_approved; [done..| |apply quiet_ClearQrBitmap].
      eapply second_factor_mono; [exact Hm1|by eapply Inv_approved].
    + destruct (fido_reason _) as [msg icon].
      apply good_refused; [done..|]. intros s2 Hid Hnp Hm.
      xquiet s3 Hn3. xquiet s4 Hn4. xquiet s5 Hn5.
      destruct (keep_neutral s (Ret tt) s2 s5) as (HI5 & Hnp5 & Hm5);
        [by eauto using neutral_trans|by apply Idle_Inv|done..|].
      by apply good_mret.
  - destruct (exec_Trigger (λ _, auth ← gets m_authenticated;
      if (auth : bool) then pack_finish o else mret not_finished) w s HI Et Hmode)
      as (w' & s' & -> & HI' & Hnp & Hm & Ha').
    xstep. rewrite Ha', Ha. by apply good_mret.
Qed.

Lemma good_GetSerialization s w : Inv o w s → good s (exec o (GetSerialization o) w s).
Proof.
  intros HI. unfold GetSerialization. xstep. case_match.
  { apply good_mret; [done|done|apply mono_refl|done]. }
  xstep. destruct (IsBypassAccount _ _ _) eqn:Eb.
  { apply good_pack; [done|done|apply mono_refl|by left]. }
  xstep. destruct (m_authenticated s) eqn:Ha.
  - destruct (exec_Join o (λ _, ClearQrBitmap o;; clear_number;; pack_finish o) w s HI)
      as (s1 & -> & Hid & Hnp1 & Hm1 & _).
    xquiet s2 Hn2. xquiet s3 Hn3.
    destruct (keep_neutral s (Ret tt) s1 s3) as (? & ? & ?);
      [by eauto using neutral_trans|by apply Idle_Inv|done..|].
    apply good_pack; [done..|]. right; right.
    eapply second_factor_mono; [|by eapply Inv_confirmed]. done.
  - xstep. destruct (m_currentMode s) eqn:Em.
    + by apply good_serialize_fido.
    + by apply good_serialize_push.
    + by apply good_serialize_otp.
Qed.

(** ** The other calls *)
Lemma Inv_exec_quiet {A C} (p : prog A) (c : A → prog C) w s :
  Inv o w s → quiet p →
  ∃ a s', exec o (p ≫= c) w s = exec o (c a) w s' ∧ Inv o w s' ∧ neutral s s'.
Proof.
  intros HI Hq. destruct (exec_quiet_bind o p c w s Hq) as (a & s' & Hn & E).
  exists a, s'. split_and!; [done|by eapply Inv_neutral|done].
Qed.

Definition preserves {A} (p : prog A) : Prop :=
  ∀ w s, Inv o w s → Inv o (exec o p w s).1.2 (exec o p w s).2.

Lemma preserves_quiet {A} (p : prog A) : quiet p → preserves p.
Proof.
  intros Hq w s HI. destruct (exec_quiet o p w s Hq) as (a & s' & Hn & ->).
  by eapply Inv_neutral.
Qed.

Lemma exec_map {A C} (g : A → C) (p : prog A) : ∀ w s,
  exec o (r ← p; mret (g r)) w s =
    (g (exec o p w s).1.1, (exec o p w s).1.2, (exec o p w s).2).
Proof. induction p as [a|f q IH|q IH|q IH]; intros w s; [done|apply (IH s)|apply IH..]. Qed.

Lemma preserves_map {A C} (g : A → C) (p : prog A) : preserves p → preserves (r ← p; mret (g r)).
Proof. intros Hp w s HI. rewrite exec_map. by apply Hp. Qed.

Lemma preserves_Reset : preserves (ResetAuthState o).
Proof.
  intros w s HI. rewrite exec_tail. destruct (exec_Reset mret w s (Inv_Loose w s HI)) as (s' & -> & Hid & _).
  by apply Idle_Inv.
Qed.

Lemma preserves_SetDeselected : preserves (SetDeselected o).
Proof.
  intros w s HI. unfold SetDeselected. xstep.
  destruct (m_hPollThread s || m_authenticated s); [done|]. by apply preserves_Reset.
Qed.

(** After a reset the names may change freely. *)
Lemma Idle_rename s raw p : Idle o s → m_authenticated s = false → typed_name raw →
  Idle o (s <| m_usernameRaw := raw |> <| m_domain := (split_user raw).1 |>
            <| m_username := (split_user raw).2 |> <| m_password := p |>).
Proof.
  intros (_ & Ht & Hs & Hd & _) Ha Hraw. split_and!; [|done..|].
  - exists raw. split; [done|]. cbn. by destruct (split_user raw).
  - exists (split_user raw).1, (split_user raw).2. cbn. rewrite Ha. by split_and!.
Qed.

Lemma preserves_SetUser raw : typed_name raw → preserves (SetStringValue o FID_USERNAME raw).
Proof.
  intros Hraw w s HI. unfold SetStringValue. xstep. case_bool_decide as Hsame; cbn [negb when].
  - destruct HI as (Hob & (raw0 & Hraw0 & Hsplit) & k & d & u & b & Hd & Hu & HW & Hk & Hw & Hb & Hs).
    assert (ieq (split_user raw).1 (m_domain s) ∧ ieq (split_user raw).2 (m_username s)) as [H1 H2].
    { pose proof (same_name_same_parts raw0 raw Hraw0 Hraw) as H. rewrite Hsplit in H. by apply H. }
    split_and!; [done| |].
    + exists raw. split; [done|]. cbn. by destruct (split_user raw).
    + exists k, d, u, b. cbn. unfold ieq in *. split_and!; try done; congruence.
  - destruct (exec_Reset (λ _, modify (λ s, s <| m_usernameRaw := raw |>
       <| m_domain := (split_user raw).1 |> <| m_username := (split_user raw).2 |>)) w s (Inv_Loose w s HI))
      as (s' & -> & Hid & Hnp & Hm & Ha).
    cbn [exec modify]. apply Idle_Inv.
    pose proof (Idle_rename s' raw (m_password s') Hid Ha Hraw) as Hr. by destruct s'.
Qed.

Lemma preserves_SetPassword p : preserves (SetStringValue o FID_PASSWORD p).
Proof.
  intros w s HI. unfold SetStringValue. xstep. case_bool_decide as Hsame; cbn [negb when].
  - subst p. eapply Inv_neutral; [|exact HI]. done.
  - destruct (exec_Reset (λ _, modify (λ s, s <| m_password := p |>)) w s (Inv_Loose w s HI))
      as (s' & -> & Hid & Hnp & Hm & Ha).
    cbn [exec modify]. apply Idle_Inv.
    destruct Hid as (Hn & Ht & Hs & Hd & _). split_and!; [done..|].
    exists (m_domain s'), (m_username s'). cbn. rewrite Ha. done.
Qed.

Lemma preserves_SwitchToMode m : preserves (SwitchToMode o m).
Proof.
  intros w s HI. unfold SwitchToMode. xstep.
  destruct (_ || _); cbn [negb when]; [done|].
  destruct (exec_Stop o (λ _, ClearQrBitmap o;;
    modify (λ s, s <| m_currentMode := m |> <| m_numberMatch := [] |>);;
    modify (λ s, s <| m_statusText := mode_status s |>);; UpdateFieldStates o;;
    trigger ← gets (λ s, bool_decide (m = MODE_FIDO2) &&
      negb (bool_decide (m_username s = [])) && negb (bool_decide (m_password s = [])));
    when trigger (TriggerFIDO2Auth o)) w s HI) as (s1 & -> & Hid & Hnp1 & Hm1 & Ha1).
  xquiet s2 Hn2. apply (Idle_neutral o _ _ Hn2) in Hid. xstep.
  set (s3 := s2 <| m_currentMode := m |> <| m_numberMatch := [] |>).
  assert (Idle o s3) as Hid3 by exact Hid. assert (m_currentMode s3 = m) as Hm3 by done.
  clearbody s3. xquiet s4 Hn4.
  destruct (Inv_exec_quiet (UpdateFieldStates o) (λ _, trigger ← gets (λ s, bool_decide (m = MODE_FIDO2) &&
      negb (bool_decide (m_username s = [])) && negb (bool_decide (m_password s = [])));
    when trigger (TriggerFIDO2Auth o)) (Ret tt) s4) as (a2 & s5 & -> & HI5 & Hn5).
  { apply Idle_Inv. by eapply Idle_neutral. }
  { apply quiet_UpdateFieldStates. }
  xstep. assert (neutral s3 s5) as Hn by eauto using neutral_trans.
  destruct (bool_decide (m = MODE_FIDO2) && _ && _) eqn:E; [|done]. cbn [when].
  apply andb_true_iff in E as [E _]. apply andb_true_iff in E as [E%bool_decide_eq_true _].
  rewrite exec_tail.
  destruct (exec_Trigger mret (Ret tt) s5 HI5) as (w' & s' & -> & HI' & _); [| |done].
  - destruct (Idle_neutral o _ _ Hn Hid3) as (_ & ? & _). done.
  - destruct Hn as [[= _ _ _ _ -> _ _ _ _] _]. congruence.
Qed.

Lemma preserves_CommandLink f : preserves (CommandLinkClicked o f).
Proof.
  intros w s HI. unfold CommandLinkClicked. xstep.
  destruct f; try done; destruct (m_currentMode s); by apply preserves_SwitchToMode.
Qed.

Lemma preserves_ReportResult st : preserves (ReportResult o st).
Proof.
  intros w s HI%Inv_Loose. unfold ReportResult. xquiet s1 Hn1. clear a.
  apply (Loose_neutral w _ _ Hn1) in HI. xstep. rewrite exec_tail.
  destruct (exec_Reset mret w (s1 <| m_password := [] |> <| m_otpCode := [] |>)) as (s' & -> & Hid & _).
  - exact HI.
  - by apply Idle_Inv.
Qed.

Lemma preserves_GetSerialization : preserves (GetSerialization o).
Proof. intros w s HI. apply (good_GetSerialization s w HI). Qed.
End Handlers.
