(* ===== verification/Logon.v ===== *)
(** * The tile over time

    The reachable states of the tile of [Credential]: LogonUI's calls in any
    order, the worker's steps between them. What a credential handed to Windows
    proves, what the worker does before it ends, what a reset leaves behind,
    and four ways in which the code departs from its own comments. *)
From S2P Require Import Prelude Text Config HttpClient RdpGate Pack Credential CredentialSafety.

(** ** Reachable tiles *)
Section Reach.
Context (o : World).

(** A call's arguments: user names as LogonUI sends them. *)
Definition typed_call (c : UiCall) : Prop :=
  match c with CallSetStringValue FID_USERNAME t => typed_name t | _ => True end.

(** The members as the constructor leaves them, then [Initialize]. *)
Definition fresh (net : NetLog) (gates : list (wstr * RdpGateResult)) : Sys :=
  mkSys default_Config false CPUS_LOGON 0 MODE_PUSH [] [] [] [] []
    (W "Подтвердите вход вторым фактором") [] false None false
    false new_worker JobNone [] [] [] [] false false None lsa_start net gates [] [] 0 0.

Inductive tile_step : prog unit * Sys → prog unit * Sys → Prop :=
  | TileWorker f k s : tile_step (Act f k, s) (k s, f s)
  | TileCall c w s : typed_call c →
      tile_step (w, s) ((exec o (handler o c) w s).1.2, (exec o (handler o c) w s).2)
  | TileInit cfg remote cpus flags w s : m_hPollThread s = false →
      tile_step (w, s) ((exec o (Initialize cfg remote cpus flags) w s).1.2,
                        (exec o (Initialize cfg remote cpus flags) w s).2).

Definition reachable (x : prog unit * Sys) : Prop :=
  ∃ net gates, rtc tile_step (Ret tt, fresh net gates) x.

Lemma Inv_fresh net gates : Inv o (Ret tt) (fresh net gates).
Proof.
  apply Idle_Inv. split_and!; [|done..|].
  - exists []. split; [|done]. split; [apply not_elem_of_nil|done].
  - by exists [], [].
Qed.

Lemma Inv_worker f k s : Inv o (Act f k) s → Inv o (k s) (f s).
Proof.
  intros (Hob & (raw & Hraw & Hsplit) & j & d & u & b & Hd & Hu & HW & Hk & Hw & Hb & Hs).
  destruct (Hs s Hb HW) as (HW' & Hui & Hm & Hs'). destruct (Hob s) as [_ Hob'].
  injection Hui as _ _ _ _ Emode Euser Edom Epass Ethr.
  split_and!; [done|exists raw; by rewrite Edom, Euser|].
  exists j, d, u, (f s). rewrite Edom, Euser, Epass, Ethr, Emode.
  split_and!; try done; [|apply later_refl].
  intros E. by destruct (Hw E).
Qed.

Lemma preserves_Initialize cfg remote cpus flags w s : Inv o w s → m_hPollThread s = false →
  Inv o (exec o (Initialize cfg remote cpus flags) w s).1.2
        (exec o (Initialize cfg remote cpus flags) w s).2.
Proof.
  intros HI Ht. destruct (Inv_no_thread o w s HI Ht) as [-> Hid].
  unfold Initialize. cbn [exec modify fst snd]. apply Idle_Inv.
  destruct Hid as (Hn & Ht' & Hs & Hd & He).
  repeat case_match; (split_and!; [exact Hn|exact Ht'|exact Hs|exact Hd|exact He]).
Qed.

Lemma preserves_handler c : typed_call c → preserves o (handler o c).
Proof.
  intros Hc. destruct c as [ctx|e| | | |f t|f| |st]; cbn [handler]; unfold discard; apply preserves_map.
  - apply preserves_quiet. by apply quiet_modify.
  - apply preserves_quiet. by apply quiet_modify.
  - apply preserves_quiet. by apply quiet_modify.
  - apply preserves_quiet. apply quiet_gets.
  - apply preserves_SetDeselected.
  - destruct f; try (by apply preserves_quiet, quiet_Ret).
    + by apply preserves_SetUser.
    + apply preserves_SetPassword.
    + apply preserves_quiet. by apply quiet_modify.
  - apply preserves_CommandLink.
  - apply preserves_GetSerialization.
  - apply preserves_ReportResult.
Qed.

Lemma Inv_reachable w s : reachable (w, s) → Inv o w s.
Proof.
  intros (net & gates & H). remember (Ret tt, fresh net gates) as x eqn:Ex.
  assert (Inv o x.1 x.2) as HI by (subst; apply Inv_fresh). clear Ex.
  change (Inv o (w, s).1 (w, s).2). induction H as [|x y z Hxy _ IH]; [done|].
  apply IH. destruct Hxy as [f k s'|c w' s' Hc|cfg r cpus fl w' s' Ht]; cbn [fst snd] in *.
  - by apply Inv_worker.
  - by apply preserves_handler.
  - by apply preserves_Initialize.
Qed.
End Reach.

(** ** Schedules, to evaluate *)
Inductive Event :=
  | LogonUI (c : UiCall)
  | WorkerRuns
  | Reinitialized (cfg : Config) (remote : bool) (cpus : CPUS) (flags : Z).

Section Drive.
Context (o : World).

Definition happen (x : prog unit * Sys) (e : Event) : prog unit * Sys :=
  match e with
  | LogonUI c => let r := exec o (handler o c) x.1 x.2 in (r.1.2, r.2)
  | WorkerRuns => (Ret tt, run_worker x.1 x.2)
  | Reinitialized cfg remote cpus flags =>
    let r := exec o (Initialize cfg remote cpus flags) x.1 x.2 in (r.1.2, r.2)
  end.
Definition drive (es : list Event) (x : prog unit * Sys) : prog unit * Sys := fold_left happen es x.

(** What the reachability of a schedule asks: typed names, no re-initialisation. *)
Definition typed_event (e : Event) : Prop :=
  match e with LogonUI c => typed_call c | _ => True end.
Definition no_reinit (e : Event) : Prop :=
  match e with Reinitialized _ _ _ _ => False | _ => True end.

Lemma worker_steps w : ∀ s, obeys_stop w → rtc (tile_step o) (w, s) (Ret tt, run_worker w s).
Proof.
  induction w as [[]|f k IH|k IH|k IH]; intros s Hw; simpl in Hw; try done.
  eapply rtc_l; [apply TileWorker|]. apply IH. by destruct (Hw s).
Qed.

Lemma reachable_step x y : reachable o x → rtc (tile_step o) x y → reachable o y.
Proof. intros (net & gates & H) Hxy. exists net, gates. by etrans. Qed.

Lemma reachable_drive es : ∀ x, reachable o x → Forall typed_event es → Forall no_reinit es →
  reachable o (drive es x).
Proof.
  induction es as [|e es IH]; intros x Hx Ht Hn; [done|]. inversion Ht; inversion Hn; subst.
  apply IH; [|done..]. eapply reachable_step; [exact Hx|]. destruct x as [w s], e; cbn [happen fst snd].
  - apply rtc_once. by apply TileCall.
  - apply worker_steps. apply Inv_reachable in Hx. apply Hx.
  - done.
Qed.

(** The tile that [SetUsageScenario] creates. *)
Definition tile (cfg : Config) (remote : bool) (cpus : CPUS) (flags : Z) : prog unit * Sys :=
  happen (Ret tt, fresh [] []) (Reinitialized cfg remote cpus flags).

Lemma reachable_tile cfg remote cpus flags : reachable o (tile cfg remote cpus flags).
Proof. exists [], []. apply rtc_once. by apply TileInit. Qed.
End Drive.

(** ** A world to evaluate in *)

(** Replies by the position of the exchange in the log; the last one repeats. *)
Definition replies (bodies : list str) : Net := λ n _,
  mkAttempt true true true true 200
    [mkReadStep true 1 true (nth (min n (length bodies - 1)) bodies [])].

Definition a_world (net : Net) : World :=
  mkWorld test_crack net ascii_u8 ascii_u8 (mkSysInfo None None None None) (λ _, test_gate)
    (λ _, true) (λ _, test_env) (W "PC1") true true (λ _, true) ([], []) (λ _ _ _, false).

Definition a_config : Config :=
  default_Config <| serverUrl := W "https://twofa" |> <| serverUrlConfigured := true |>
    <| pushTimeoutSec := 5 |>.

Definition challenge : str := J "{'challenge_id':'c1','number_match':'42'}".
Definition pending : str := J "{'status':'pending'}".
Definition approval : str := J "{'status':'approved','sso_ticket':'t'}".
Definition denial : str := J "{'status':'denied'}".

Definition type_name (t : wstr) : Event := LogonUI (CallSetStringValue FID_USERNAME t).
Definition type_password (t : wstr) : Event := LogonUI (CallSetStringValue FID_PASSWORD t).
Definition type_code (t : wstr) : Event := LogonUI (CallSetStringValue FID_OTP_CODE t).
Definition submit : Event := LogonUI CallGetSerialization.

(** A push logon up to the approval. *)
Definition push_logon : list Event :=
  [type_name (W "CORP\alice"); type_password (W "pw"); submit; WorkerRuns].

Definition approving : World := a_world (replies [challenge; pending; approval]).
Definition waiting_tile : prog unit * Sys :=
  drive approving push_logon (tile approving a_config false CPUS_LOGON 0).

(** Schedules of concrete events. *)
Ltac events := repeat (apply Forall_cons; split;
  [first [exact I|apply (bool_decide_unpack _); vm_compute; exact I]|]); apply Forall_nil; exact I.

Lemma reachable_waiting : reachable approving waiting_tile.
Proof. apply reachable_drive; [apply reachable_tile|events..]. Qed.

(** ** A credential needs a second factor *)

(** C1: Whatever calls LogonUI makes and however the worker's steps fall between them,
    [GetSerialization] hands a credential to Windows only if the account is on the bypass
    list, or the configuration is fail-open and the worker's error is a network error, or
    the network log (or the RDP gate) holds an approval for the name and password on the
    tile. *)
Theorem GetSerialization_second_factor (o : World) (w : prog unit) (s : Sys) :
  reachable o (w, s) →
  sr_gsr (exec o (GetSerialization o) w s).1.1 = CPGSR_RETURN_CREDENTIAL_FINISHED →
  IsBypassAccount (m_config s) (m_username s) (m_domain s) = true ∨ fail_open s ∨
  second_factor o s (exec o (GetSerialization o) w s).2.
Proof. intros HI%Inv_reachable Hr. by apply (good_GetSerialization o s w HI). Qed.

Lemma GetSerialization_second_factor_witness :
  let w := waiting_tile.1 in let s := waiting_tile.2 in
  sr_gsr (exec approving (GetSerialization approving) w s).1.1 = CPGSR_RETURN_CREDENTIAL_FINISHED ∧
  (IsBypassAccount (m_config s) (m_username s) (m_domain s) = true ∨ fail_open s ∨
   second_factor approving s (exec approving (GetSerialization approving) w s).2).
Proof.
  split; [vm_compute; reflexivity|].
  apply (GetSerialization_second_factor approving); [|vm_compute; reflexivity].
  rewrite <- surjective_pairing. apply reachable_waiting.
Defined.

(** ** The atomic calls are schedules of the fine-grained steps *)
Section Schedules.
Context (o : World).

Lemma worker_schedule {A} (u : prog A) w : ∀ s, obeys_stop w →
  rtc (step o) (u, w, s) (u, Ret tt, run_worker w s).
Proof.
  induction w as [[]|f k IH|k IH|k IH]; intros s Hw; simpl in Hw; try done.
  eapply rtc_l; [apply StepWorker|]. apply IH. by destruct (Hw s).
Qed.

Lemma exec_steps {A} (p : prog A) : ∀ w s, obeys_stop w →
  rtc (step o) (p, w, s) (Ret (exec o p w s).1.1, (exec o p w s).1.2, (exec o p w s).2).
Proof.
  induction p as [a|f k IH|k IH|k IH]; intros w s Hw; cbn [exec].
  - done.
  - eapply rtc_l; [apply StepUi|]. by apply IH.
  - eapply rtc_l; [apply StepSpawn|]. apply IH, obeys_RunAsyncJob.
  - etrans; [by apply worker_schedule|].
    eapply rtc_l; [apply StepJoin|]. by apply IH.
Qed.

End Schedules.

(** ** What a changed name or password leaves behind *)
Definition forgotten (s : Sys) : Prop :=
  m_authenticated s = false ∧ m_hPollThread s = false ∧ m_worker s = new_worker ∧
  m_job s = JobNone ∧ m_jobPass s = [] ∧ m_jobOtp s = [] ∧ m_otpCode s = [] ∧
  m_numberMatch s = [] ∧ m_hQrBmp s = None ∧ m_beginApplied s = false.

Section Notifications.
Context (o : World).

(** The notifications of the LogonUI thread touch nothing but [x_ui]. *)
Definition ui_only (s s' : Sys) : Prop := ∃ evs, s' = add_ui evs s.

Fixpoint notifies {A} (p : prog A) : Prop :=
  match p with
  | Ret _ => True
  | Act f k => ∀ s, ui_only s (f s) ∧ notifies (k s)
  | Spawn _ | Join _ => False
  end.

Lemma ui_only_trans s1 s2 s3 : ui_only s1 s2 → ui_only s2 s3 → ui_only s1 s3.
Proof.
  intros [e1 ->] [e2 ->]. exists (e1 ++ e2). unfold add_ui. by destruct s1; cbn; rewrite app_assoc.
Qed.
Lemma ui_only_refl s : ui_only s s.
Proof. exists []. unfold add_ui. destruct s. cbn. by rewrite app_nil_r. Qed.

Lemma exec_notifies {A C} (p : prog A) (c : A → prog C) w : ∀ s, notifies p →
  ∃ a s', ui_only s s' ∧ exec o (p ≫= c) w s = exec o (c a) w s'.
Proof.
  induction p as [a|f k IH|k IH|k IH]; intros s Hp; simpl in Hp; try done.
  - exists a, s. split; [apply ui_only_refl|done].
  - destruct (Hp s) as [Hf Hk]. destruct (IH s (f s) Hk) as (a & s' & Hs' & E).
    exists a, s'. split; [by eapply ui_only_trans|exact E].
Qed.

Lemma notifies_bind {A C} (p : prog A) (c : A → prog C) :
  notifies p → (∀ a, notifies (c a)) → notifies (p ≫= c).
Proof.
  intros Hp Hc. induction p as [a|f k IH|k IH|k IH]; simpl in *; try done.
  intros s. destruct (Hp s). split; [done|]. by apply IH.
Qed.

Lemma notifies_when_events p : notifies p → notifies (when_events p).
Proof. intros Hp s. split; [apply ui_only_refl|]. by destruct (m_pEvents s). Qed.

Lemma notifies_when b p : notifies p → notifies (when b p).
Proof. by destruct b. Qed.

Lemma notifies_gets {A} (g : Sys → A) : notifies (gets g).
Proof. intros s. split; [apply ui_only_refl|done]. Qed.

Lemma notifies_tell e : notifies (tell e).
Proof. intros s. split; [by eexists|done]. Qed.

Lemma notifies_logo qr logo : notifies (show_logo o qr logo).
Proof.
  destruct qr; [apply notifies_tell|]. apply notifies_when. destruct (o_events3 o); apply notifies_tell.
Qed.

Ltac notifies := repeat first [exact I|lazymatch goal with
  | |- notifies (mbind _ _) => apply notifies_bind; [|intros ?]
  | |- notifies (tell _) => apply notifies_tell
  | |- notifies (gets _) => apply notifies_gets
  | |- notifies (show_logo _ _ _) => apply notifies_logo
  | |- notifies (when _ _) => apply notifies_when
  end].

Lemma notifies_Field f : notifies (NotifyFieldChanged o f).
Proof. unfold NotifyFieldChanged, GetStringValue. notifies. destruct f; notifies. Qed.

Lemma notifies_Qr : notifies (NotifyQrChanged o).
Proof. unfold NotifyQrChanged. notifies. destruct a2; notifies. Qed.

Lemma notifies_Provider : notifies NotifyProviderChangedFromWorker.
Proof. unfold NotifyProviderChangedFromWorker. notifies. intros s. split; [by eexists|done]. Qed.

Lemma ui_only_forgotten s s' : ui_only s s' → forgotten s → forgotten s'.
Proof. by intros [evs ->]. Qed.

Lemma exec_JoinOp {C} (k : prog unit) (c : unit → prog C) w s :
  exec o (Join k ≫= c) w s = exec o (k ≫= c) (Ret tt) (run_worker w s).
Proof. cbn [mbind prog_mbind prog_bind exec]. exact eq_refl. Qed.
Lemma exec_retu {C} (c : unit → prog C) w s : exec o (Ret tt ≫= c) w s = exec o (c tt) w s.
Proof. done. Qed.

(** The join after a stop request, from members that a stopped worker leaves alone. *)
Lemma exec_Stop_shown {C} (c : unit → prog C) w s :
  obeys_stop w → (m_hPollThread s = false → w = Ret tt) →
  ∃ s', exec o (StopPollThread ≫= c) w s = exec o (c tt) (Ret tt) s' ∧
    m_authenticated s' = m_authenticated s ∧ m_hPollThread s' = false ∧ m_worker s' = new_worker ∧
    m_job s' = JobNone ∧ m_jobPass s' = [] ∧ m_jobOtp s' = [] ∧ m_otpCode s' = m_otpCode s ∧
    m_numberMatch s' = m_numberMatch s ∧ m_hQrBmp s' = m_hQrBmp s ∧
    m_beginApplied s' = m_beginApplied s.
Proof.
  intros Hob Hw. unfold StopPollThread. rewrite exec_assoc, exec_modify.
  set (s1 := s <| m_worker := (m_worker s) <| w_stop := true |> |>).
  unfold JoinPollThread. rewrite exec_assoc, exec_gets, exec_assoc.
  change (m_hPollThread s1) with (m_hPollThread s).
  destruct (m_hPollThread s) eqn:Et; cbn [when].
  - pose proof (run_worker_stopped w s1 Hob eq_refl) as Hsh.
    rewrite exec_JoinOp, exec_modify, exec_modify. set (s2 := run_worker w s1) in *.
    exists (wipe_job (s2 <| m_hPollThread := false |>)). split; [reflexivity|].
    injection Hsh as Ha _ Hq Hn _ Ho Hb. split_and!; first [done|cbn; congruence].
  - rewrite (Hw eq_refl), exec_retu, exec_modify.
    exists (wipe_job s1). by split_and!.
Qed.

End Notifications.

(** Symbolic execution of a notification. *)
Ltac xnotify s' :=
  rewrite ?exec_assoc;
  match goal with
  | |- context [exec ?o (?p ≫= ?c) ?w ?s] =>
    let H := fresh in
    assert (notifies p) as H; [|
    let a := fresh "a" in let E := fresh in let Hn := fresh "H" s' in
    destruct (exec_notifies o p c w s H) as (a & s' & Hn & E); rewrite E; clear H E]
  end.

Section Forget.
Context (o : World).

Lemma exec_Reset_forgotten {C} (c : unit → prog C) w s :
  obeys_stop w → (m_hPollThread s = false → w = Ret tt) →
  ∃ s', exec o (ResetAuthState o ≫= c) w s = exec o (c tt) (Ret tt) s' ∧ forgotten s'.
Proof.
  intros Hob Hw. unfold ResetAuthState, ClearQrBitmap.
  rewrite !exec_assoc, exec_modify, exec_assoc, exec_modify, !exec_assoc, exec_act. cbn [fst snd].
  xnotify s2. { apply notifies_when, notifies_Qr. }
  rewrite exec_assoc, exec_modify, exec_assoc.
  destruct Hs2 as [evs ->]. rewrite ?exec_assoc.
  match goal with |- context [exec o (StopPollThread ≫= ?k) w ?s3] =>
    destruct (exec_Stop_shown o k w s3 Hob Hw) as (s4 & -> & Ha & Ht & Hwk & Hj & Hjp & Hjo & Ho & Hn & Hq & Hb)
  end.
  cbv beta. xnotify s5.
  { apply notifies_when_events, notifies_bind; [|intros _]; apply notifies_Field. }
  exists s5. split; [by destruct a0|]. apply (ui_only_forgotten s4 s5 Hs5).
  split_and!; assumption.
Qed.
End Forget.

Lemma exec_bind (o : World) {A C} (p : prog A) (c : A → prog C) : ∀ w s,
  exec o (p ≫= c) w s = exec o (c (exec o p w s).1.1) (exec o p w s).1.2 (exec o p w s).2.
Proof. induction p as [a|f q IH|q IH|q IH]; intros w s; [done|apply (IH s)|apply IH..]. Qed.

(** What [ResetAuthState] guarantees, whole. *)
Lemma Reset_spec (o : World) w s : Loose o w s →
  ∃ s', exec o (ResetAuthState o) w s = (tt, Ret tt, s') ∧ forgotten s' ∧
    names_part s' = names_part s.
Proof.
  intros HL. assert (obeys_stop w) as Hob by apply HL.
  assert (m_hPollThread s = false → w = Ret tt) as Hw.
  { intros Ht. destruct HL as (_ & _ & k & u & p & b & _ & Hw & _). by apply Hw. }
  destruct (exec_Reset_forgotten o mret w s Hob Hw) as (s1 & E1 & Hs1).
  destruct (exec_Reset o mret w s HL) as (s2 & E2 & _ & Hn & _).
  rewrite <- exec_tail, exec_mret in E1. rewrite <- exec_tail, exec_mret in E2.
  rewrite E1 in E2. injection E2 as <-. by exists s1.
Qed.

(** ** A confirmed tile *)

(** C11: Once the second factor is confirmed, the next [GetSerialization] of a tile with a
    name and a password hands Windows exactly what [PackAndFinish] makes of them, in every
    mode and whatever the worker is doing: the user is not asked twice. *)
Theorem GetSerialization_confirmed (o : World) (w : prog unit) (s : Sys) :
  reachable o (w, s) → m_authenticated s = true → m_username s ≠ [] → m_password s ≠ [] →
  ∃ n lsa, (exec o (GetSerialization o) w s).1.1 =
    (PackAndFinish (o_pack o n) (m_cpus s) (m_providerFlags s) (m_usernameRaw s) (m_domain s) (m_username s)
       (m_password s) lsa).1.
Proof.
  intros HI%Inv_reachable Ha Hu Hp. unfold GetSerialization. rewrite exec_gets.
  rewrite !bool_decide_eq_false_2 by done. cbn [orb]. rewrite exec_gets.
  assert (∀ w' s', names_part s' = names_part s → ∃ n lsa, (exec o (pack_finish o) w' s').1.1 =
    (PackAndFinish (o_pack o n) (m_cpus s) (m_providerFlags s) (m_usernameRaw s) (m_domain s) (m_username s)
       (m_password s) lsa).1) as Hpack.
  { intros w' s' [= _ Ec Ef Er _ Eu Ed Ep]. exists (x_packs s'), (m_lsa s').
    rewrite <- Ec, <- Ef, <- Er, <- Eu, <- Ed, <- Ep. unfold pack_finish. cbn [exec act fst snd].
    by destruct (PackAndFinish _ _ _ _ _ _ _ _). }
  destruct (IsBypassAccount _ _ _); [by apply Hpack|]. rewrite exec_gets, Ha. cbv iota.
  destruct (exec_Join o (λ _, ClearQrBitmap o;; clear_number;; pack_finish o) w s HI)
    as (s1 & -> & _ & Hn & _).
  xquiet s2 H2. xquiet s3 H3. apply Hpack.
  by rewrite (neutral_names _ _ H3), (neutral_names _ _ H2).
Qed.

Lemma GetSerialization_confirmed_witness :
  let w := waiting_tile.1 in let s := waiting_tile.2 in
  m_authenticated s = true ∧ m_username s ≠ [] ∧ m_password s ≠ [] ∧
  ∃ n lsa, (exec approving (GetSerialization approving) w s).1.1 =
    (PackAndFinish (o_pack approving n) (m_cpus s) (m_providerFlags s) (m_usernameRaw s) (m_domain s) (m_username s)
       (m_password s) lsa).1.
Proof.
  assert (m_authenticated waiting_tile.2 = true) as H1 by (vm_compute; reflexivity).
  assert (m_username waiting_tile.2 ≠ []) as H2 by (vm_compute; intros [=]).
  assert (m_password waiting_tile.2 ≠ []) as H3 by (vm_compute; intros [=]).
  split; [exact H1|]. split; [exact H2|]. split; [exact H3|].
  apply (GetSerialization_confirmed approving); [|exact H1|exact H2|exact H3].
  rewrite <- surjective_pairing. apply reachable_waiting.
Defined.

(** ** Where the code departs from its comments *)

(** A bypass entry without a domain also exempts the account when the user typed a
    domain: [SetStringValue] has already split the name, so [IsBypassAccount] never sees the
    typed domain, and [GetSerialization] packs the credential without any network exchange. *)
Theorem bypass_ignores_typed_domain (o : World) (w : prog unit) (s : Sys) (dom user : wstr) :
  reachable o (w, s) → 92 ∉ dom → user ≠ [] → m_password s ≠ [] →
  user ∈ bypassAccounts (m_config s) →
  let x := exec o (SetStringValue o FID_USERNAME (dom ++ 92 :: user)) w s in
  exec o (GetSerialization o) x.1.2 x.2 = exec o (pack_finish o) x.1.2 x.2.
Proof.
  intros HI%Inv_reachable Hd Hu Hp Hb x.
  assert (m_username x.2 = user ∧ m_password x.2 = m_password s ∧ m_config x.2 = m_config s) as (E1 & E2 & E3).
  { unfold x, SetStringValue. rewrite exec_gets. destruct (bool_decide _); cbn [negb when].
    - rewrite exec_retu. cbn [exec modify snd]. rewrite (split_user_cut dom user Hd). done.
    - destruct (Reset_spec o w s (Inv_Loose o w s HI)) as (s' & E & _ & Hn). injection Hn as Ec _ _ _ _ _ _ Ep.
      rewrite exec_bind, E. cbn [exec modify fst snd]. rewrite (split_user_cut dom user Hd). done. }
  unfold GetSerialization. rewrite exec_gets, E1, E2.
  rewrite !bool_decide_eq_false_2 by done. cbn [orb]. rewrite exec_gets, E1, E3.
  unfold IsBypassAccount. rewrite decide_False.
  - replace (existsb _ _) with true; [done|]. symmetry. apply existsb_exists.
    exists user. split; [by apply list_elem_of_In|]. unfold bypass_match.
    destruct (raw_user user). by rewrite decide_True.
  - intros [?|E]; [done|]. rewrite E in Hb. by apply not_elem_of_nil in Hb.
Qed.

Definition exempting : Config := a_config <| bypassAccounts := [W "administrator"] |>.
Definition typed_tile : prog unit * Sys :=
  drive approving [type_password (W "pw")] (tile approving exempting false CPUS_LOGON 0).

Lemma bypass_ignores_typed_domain_witness :
  W "administrator" ∈ bypassAccounts (m_config typed_tile.2) ∧
  let x := exec approving (SetStringValue approving FID_USERNAME (W "CORP" ++ 92 :: W "administrator"))
             typed_tile.1 typed_tile.2 in
  exec approving (GetSerialization approving) x.1.2 x.2 = exec approving (pack_finish approving) x.1.2 x.2.
Proof.
  assert (W "administrator" ∈ bypassAccounts (m_config typed_tile.2)) as H
    by (apply (bool_decide_unpack _); vm_compute; exact I).
  split; [exact H|]. apply (bypass_ignores_typed_domain approving).
  - rewrite <- surjective_pairing. apply reachable_drive; [apply reachable_tile|events..].
  - apply (bool_decide_unpack _). vm_compute. exact I.
  - vm_compute. intros [=].
  - vm_compute. intros [=].
  - exact H.
Defined.

(** [Initialize] on a scenario change neither stops the worker nor forgets its result:
    a push that the user denied, started on a tile that was switched to push, is taken for an
    accepted one-time code once the provider re-initialises the tile to the code mode. No
    reply in the log approves anything. *)
Theorem Initialize_keeps_refused_push :
  let net := replies [challenge; denial] in
  let o := a_world net in
  let cfg := a_config <| defaultFactor := 2 |> in
  let x := drive o [type_name (W "alice"); type_password (W "pw");
                    LogonUI (CallCommandLinkClicked FID_FIDO2_BTN); submit; WorkerRuns;
                    Reinitialized cfg false CPUS_UNLOCK_WORKSTATION 0; type_code (W "0")]
             (tile o cfg false CPUS_LOGON 0) in
  let r := exec o (GetSerialization o) x.1 x.2 in
  sr_gsr r.1.1 = CPGSR_RETURN_CREDENTIAL_FINISHED ∧
  ((λ e, reply_body e.2) <$> x_net r.2 = [challenge; denial]) ∧ x_gates r.2 = [] ∧
  failClose (m_config r.2) = true ∧ bypassAccounts (m_config r.2) = [].
Proof. vm_compute. by split_and!. Qed.

(** One step of the chosen thread, if it can move. *)
Section Interleave.
Context (o : World).

Definition move {A} (ui : bool) (x : prog A * prog unit * Sys) : prog A * prog unit * Sys :=
  match ui, x with
  | true, (Act f k, w, s) => (k s, w, f s)
  | true, (Spawn k, w, s) => (k, RunAsyncJob o, s)
  | true, (Join k, Ret tt, s) => (k, Ret tt, s)
  | false, (u, Act f k, s) => (u, k s, f s)
  | _, _ => x
  end.

Definition interleave {A} (l : list bool) (x : prog A * prog unit * Sys) :=
  fold_left (λ y ui, move ui y) l x.

Lemma interleave_steps {A} (l : list bool) : ∀ x : prog A * prog unit * Sys,
  rtc (step o) x (interleave l x).
Proof.
  induction l as [|b l IH]; intros x; [done|].
  cbn [interleave fold_left]. etrans; [|apply IH].
  destruct x as [[u w] s], b; cbn [move].
  - destruct u as [a|f k|k|k]; [done| | |].
    + apply rtc_once, StepUi.
    + apply rtc_once, StepSpawn.
    + destruct w as [[]|? ?|?|?]; [apply rtc_once, StepJoin|done..].
  - destruct u, w; first [done|apply rtc_once, StepWorker].
Qed.
End Interleave.

(** An approval on its way: the name is changed while the worker holds it. *)
Definition polling_tile : prog unit * Sys :=
  drive approving [type_name (W "alice"); type_password (W "pw"); submit]
    (tile approving a_config false CPUS_LOGON 0).

(** The worker up to the third reply; the new name's reset clears the flag; the worker
    writes the approval and ends; the reset stops and joins it. *)
Definition late_approval : list bool :=
  replicate 20 false ++ [true; true] ++ replicate 12 false ++ replicate 60 true.

(** [ResetAuthState] clears [m_authenticated] before it stops the worker, so an
    approval that arrives in between survives the change of name: the tile then serialises
    the new name although every request in the log was made for the old one. *)
Theorem rename_keeps_late_approval :
  ∃ s', rtc (step approving)
          (SetStringValue approving FID_USERNAME (W "bob"), polling_tile.1, polling_tile.2)
          (Ret tt, Ret tt, s') ∧
    m_username s' = W "bob" ∧ m_authenticated s' = true ∧
    Forall (λ e, containsb (B "bob") (rq_body e.1) = false) (x_net s') ∧ x_gates s' = [] ∧
    sr_gsr (exec approving (GetSerialization approving) (Ret tt) s').1.1 =
      CPGSR_RETURN_CREDENTIAL_FINISHED.
Proof.
  set (y := interleave approving late_approval
    (SetStringValue approving FID_USERNAME (W "bob"), polling_tile.1, polling_tile.2)).
  exists y.2. split.
  - replace (Ret tt, Ret tt, y.2) with y by (vm_compute; reflexivity). apply interleave_steps.
  - split_and!; try (vm_compute; reflexivity).
    apply (bool_decide_unpack _). vm_compute. exact I.
Qed.

(** The count of consecutive network errors, which the comment at the poll says ends the
    wait early, changes nothing: from any count the worker does the same. *)
Theorem network_errors_never_end_the_poll (o : World) (n e1 e2 : nat) (client : HttpApiClient)
    (job : WorkerJob) (cid user domain : wstr) (s : Sys) :
  run_worker (poll_loop o n e1 client job cid user domain) s =
  run_worker (poll_loop o n e2 client job cid user domain) s.
Proof.
  assert (∀ (m : nat) p q s, (∀ s, run_worker p s = run_worker q s) →
    run_worker (slices m p) s = run_worker (slices m q) s) as Hslices.
  { intros m p q s' H. revert s'. induction m as [|m IH]; intros s'; [apply H|].
    cbn. destruct (w_stop _); [done|apply IH]. }
  revert e1 e2 s. induction n as [|n IH]; intros e1 e2 s; [done|]. cbn [poll_loop].
  apply Hslices. intros s1. cbn. destruct (PollStatus _ _ _ _ _ _) as [[out cl] log]. cbn.
  destruct (po_ok out && is_terminal (po_status out)); [done|].
  cbn. destruct (w_stop _); [done|]. apply IH.
Qed.

(** ** The diagnostic probe of [ReportResult] *)
Definition is_probe (e : UiEvent) : bool := match e with EvProbe _ _ => true | _ => false end.
Definition probes (l : list UiEvent) : list UiEvent := filter (λ e, is_probe e = true) l.

Lemma probes_app l1 l2 : probes (l1 ++ l2) = probes l1 ++ probes l2.
Proof. apply filter_app. Qed.

Section Probe.
Context (o : World).

Lemma sam_probe_spec user pass ds :
  probes (sam_probe o user pass ds) = sam_probe o user pass ds ∧
  (length (sam_probe o user pass ds) ≤ length ds)%nat ∧
  (∀ l d u r, sam_probe o user pass ds = l ++ EvProbe d u :: r →
     u = user ∧ d ≠ [] ∧ (o_logon o user d pass = true → r = [])).
Proof.
  induction ds as [|d ds (IH1 & IH2 & IH3)]; cbn [sam_probe].
  { split_and!; [done..|]. by intros [|? ?]. }
  case_bool_decide as Hd.
  { split_and!; [done|cbn; lia|done]. }
  destruct (o_logon o user d pass) eqn:El.
  - split_and!; [done|cbn; lia|]. intros [|? [|? ?]] d2 u2 r2 [=]; subst. by split_and!.
  - split_and!; [|cbn; lia|].
    + unfold probes in *. rewrite filter_cons_True by done. by rewrite IH1.
    + intros [|e l] d2 u2 r2 [=]; subst; [split_and!; [done..|by rewrite El]|]. by eapply IH3.
Qed.
End Probe.

(** The diagnostic SAM probe of [ReportResult] stays harmless: it runs only when the
    policy enables it and the logon failed, makes at most three [LogonUserW] attempts, all
    for the name on the tile, and stops at the first success. *)
Theorem ReportResult_probe (o : World) (st : Z) (s : Sys) :
  (probe_events o st s ≠ [] → samProbeEnabled (m_config s) = true ∧ st ≠ 0) ∧
  probes (probe_events o st s) = probe_events o st s ∧ (length (probe_events o st s) ≤ 3)%nat ∧
  (∀ l d u r, probe_events o st s = l ++ EvProbe d u :: r →
     u = m_username s ∧ d ≠ [] ∧ (o_logon o u d (m_password s) = true → r = [])).
Proof.
  unfold probe_events. destruct (samProbeEnabled _); cbn [andb].
  2:{ split_and!; [done|done|cbn; lia|by intros [|? ?]]. }
  destruct (Z.eqb_spec st 0) as [->|Hst]; cbn [negb andb].
  { split_and!; [done|done|cbn; lia|by intros [|? ?]]. }
  destruct (_ && _).
  - destruct (sam_probe_spec o (m_username s) (m_password s) [W "."; (o_names o).1; (o_names o).2])
      as (H1 & H2 & H3).
    split_and!; [done|done|exact H2|]. intros l d u r E. destruct (H3 l d u r E) as (-> & Hd & Hr).
    by split_and!.
  - split_and!; [done|done|cbn; lia|by intros [|? ?]].
Qed.

(** Reporting a result to the tile ends the attempt: whatever the status, the password
    and the code are wiped and everything the attempt left behind is dropped, a confirmation
    included, so the next logon needs a new second factor. *)
Theorem ReportResult_ends_attempt (o : World) (w : prog unit) (s : Sys) (st : Z) :
  reachable o (w, s) →
  let x := exec o (ReportResult o st) w s in
  x.1.2 = Ret tt ∧ m_password x.2 = [] ∧ forgotten x.2 ∧
  (m_config x.2, m_domain x.2, m_username x.2) = (m_config s, m_domain s, m_username s).
Proof.
  intros HI%Inv_reachable%Inv_Loose. cbv zeta. unfold ReportResult. rewrite exec_modify, exec_modify.
  set (s1 := add_ui (probe_events o st s) s). set (s2 := s1 <| m_password := [] |> <| m_otpCode := [] |>).
  assert (Loose o w s2) as HL.
  { apply (Loose_neutral o w s s1) in HI; [exact HI|done]. }
  destruct (Reset_spec o w s2 HL) as (s' & -> & Hf & Hn). injection Hn as Ec _ _ _ _ Eu Ed Ep.
  cbn [fst snd]. split_and!; [done|by rewrite Ep|exact Hf|]. by rewrite Ec, Ed, Eu.
Qed.

Lemma ReportResult_ends_attempt_witness :
  m_authenticated waiting_tile.2 = true ∧
  let x := exec approving (ReportResult approving 3221225581) waiting_tile.1 waiting_tile.2 in
  x.1.2 = Ret tt ∧ m_password x.2 = [] ∧ forgotten x.2 ∧
  (m_config x.2, m_domain x.2, m_username x.2) =
    (m_config waiting_tile.2, m_domain waiting_tile.2, m_username waiting_tile.2).
Proof.
  split; [vm_compute; reflexivity|].
  apply (ReportResult_ends_attempt approving). rewrite <- surjective_pairing. apply reachable_waiting.
Defined.
