(* ===== verification/Forget.v ===== *)
(** * What a changed name or password leaves behind

    [ResetAuthState] of [Credential], as [SetStringValue] calls it, in every
    interleaving with the worker: what is gone in all of them, and what a worker
    that is still running can leave because the confirmation, the number and the
    QR code are cleared before it is told to stop. *)
From S2P Require Import Prelude Text Config HttpClient RdpGate Pack Credential CredentialSafety Logon.

(** ** Two threads, one call *)
Section Runs.
Context (o : World).

(** A run of a sequence passes through the end of its first part. *)
Lemma steps_bind {A C} (p : prog A) (c : A → prog C) w s a w' s' :
  rtc (step o) (p ≫= c, w, s) (Ret a, w', s') →
  ∃ b w1 s1, rtc (step o) (p, w, s) (Ret b, w1, s1) ∧ rtc (step o) (c b, w1, s1) (Ret a, w', s').
Proof.
  intros H. remember (p ≫= c, w, s) as x eqn:Ex. remember (Ret a, w', s') as y eqn:Ey.
  revert p w s Ex Ey. induction H as [x|x y z Hxy Hyz IH]; intros p w s -> Ey.
  - destruct p as [b|f k|k|k]; simplify_eq/=. exists b, w', s'. by split.
  - assert (∀ (p' : prog A) w2 s2, y = (p' ≫= c, w2, s2) → step o (p, w, s) (p', w2, s2) →
      ∃ b w1 s1, rtc (step o) (p, w, s) (Ret b, w1, s1) ∧ rtc (step o) (c b, w1, s1) z) as Hgo.
    { intros p' w2 s2 E Hp. destruct (IH p' w2 s2 E Ey) as (b & w1 & s1 & H1 & H2).
      exists b, w1, s1. split; [by eapply rtc_l|exact H2]. }
    clear IH. destruct p as [b|f k|k|k].
    { exists b, w, s. split; [done|]. by eapply rtc_l. }
    all: inversion Hxy; subst.
    + refine (Hgo (k s) _ _ eq_refl _). constructor.
    + refine (Hgo (Act f k) _ _ eq_refl _). constructor.
    + refine (Hgo (Spawn k) _ _ eq_refl _). constructor.
    + refine (Hgo k _ _ eq_refl _). constructor.
    + refine (Hgo (Join k) _ _ eq_refl _). constructor.
    + refine (Hgo k _ _ eq_refl _). constructor.
Qed.

(** An assertion on the worker and the members that the worker's steps keep. *)
Definition stable (J : prog unit → Sys → Prop) : Prop := ∀ f k s, J (Act f k) s → J (k s) (f s).

(** A call whose own steps keep it, too. *)
Fixpoint keeps {A} (J : prog unit → Sys → Prop) (p : prog A) : Prop :=
  match p with
  | Ret _ => True
  | Act f k => ∀ s, (∀ w, J w s → J w (f s)) ∧ keeps J (k s)
  | Spawn _ | Join _ => False
  end.

Lemma steps_keeps {A} J (p : prog A) w s a w' s' : stable J → keeps J p → J w s →
  rtc (step o) (p, w, s) (Ret a, w', s') → J w' s'.
Proof.
  intros HJ Hp HI H. remember (p, w, s) as x eqn:Ex. remember (Ret a, w', s') as y eqn:Ey.
  revert p w s Hp HI Ex Ey. induction H as [x|x y z Hxy _ IH]; intros p w s Hp HI -> Ey; [by simplify_eq|].
  inversion Hxy; subst; [|by eapply IH; [exact Hp|by apply HJ|..]|done..].
  destruct (Hp s) as [Hf Hk]. by eapply IH; [exact Hk|by apply Hf|..].
Qed.

(** The call's next step, after some of the worker's. *)
Lemma steps_act {C} J f (k : Sys → prog C) w s a w' s' :
  stable J → J w s → rtc (step o) (Act f k, w, s) (Ret a, w', s') →
  ∃ w1 s1, J w1 s1 ∧ rtc (step o) (k s1, w1, f s1) (Ret a, w', s').
Proof.
  intros HJ HI H. remember (Act f k, w, s) as x eqn:Ex. remember (Ret a, w', s') as y eqn:Ey.
  revert w s HI Ex Ey. induction H as [x|x y z Hxy Hyz IH]; intros w s HI -> Ey; [by simplify_eq|].
  inversion Hxy; subst.
  - by exists w, s.
  - by eapply IH; [apply HJ|..].
Qed.

Lemma steps_modify {C} J f (c : unit → prog C) w s a w' s' :
  stable J → J w s → rtc (step o) (modify f ≫= c, w, s) (Ret a, w', s') →
  ∃ w1 s1, J w1 s1 ∧ rtc (step o) (c tt, w1, f s1) (Ret a, w', s').
Proof. apply steps_act. Qed.

Lemma steps_gets {A C} J (g : Sys → A) (c : A → prog C) w s a w' s' :
  stable J → J w s → rtc (step o) (gets g ≫= c, w, s) (Ret a, w', s') →
  ∃ w1 s1, J w1 s1 ∧ rtc (step o) (c (g s1), w1, s1) (Ret a, w', s').
Proof. apply (steps_act J (λ s, s)). Qed.

Lemma steps_join {C} J (k : prog C) w s a w' s' :
  stable J → J w s → rtc (step o) (Join k, w, s) (Ret a, w', s') →
  ∃ s1, J (Ret tt) s1 ∧ rtc (step o) (k, Ret tt, s1) (Ret a, w', s').
Proof.
  intros HJ HI H. remember (Join k, w, s) as x eqn:Ex. remember (Ret a, w', s') as y eqn:Ey.
  revert w s HI Ex Ey. induction H as [x|x y z Hxy Hyz IH]; intros w s HI -> Ey; [by simplify_eq|].
  inversion Hxy; subst.
  - by eapply IH; [apply HJ|..].
  - by exists s.
Qed.

(** Without a worker there is one run. *)
Fixpoint spawnless {A} (p : prog A) : Prop :=
  match p with Ret _ => True | Act f k => ∀ s, spawnless (k s) | Spawn _ => False | Join k => spawnless k end.

Lemma steps_alone {A} (p : prog A) : ∀ s a w' s', spawnless p →
  rtc (step o) (p, Ret tt, s) (Ret a, w', s') → exec o p (Ret tt) s = (a, w', s').
Proof.
  induction p as [b|f k IH|k IH|k IH]; intros s a w' s' Hp H; cbn in Hp; try done.
  - inversion H as [|? y ? Hxy]; subst; [done|]. inversion Hxy.
  - inversion H as [|? y ? Hxy Hyz]; subst. inversion Hxy; subst. by apply IH.
  - inversion H as [|? y ? Hxy Hyz]; subst. inversion Hxy; subst. by apply IH.
Qed.

Lemma spawnless_bind {A C} (p : prog A) (c : A → prog C) :
  spawnless p → (∀ a, spawnless (c a)) → spawnless (p ≫= c).
Proof. induction p as [b|f k IH|k IH|k IH]; cbn; intros Hp Hc; [done| |done|by apply IH]. intros s. by apply IH. Qed.

Lemma spawnless_notifies {A} (p : prog A) : notifies p → spawnless p.
Proof. induction p as [b|f k IH|k IH|k IH]; cbn; try done. intros H s. apply IH, (H s). Qed.
End Runs.

(** ** Members that are LogonUI's alone *)
Definition own (s : Sys) := (m_otpCode s, m_beginApplied s).

Fixpoint spares {A} (p : prog A) : Prop :=
  match p with
  | Ret _ => True
  | Act f k => ∀ s, own (f s) = own s ∧ spares (k s)
  | Spawn _ | Join _ => False
  end.

Lemma spares_bind {A C} (p : prog A) (c : A → prog C) : spares p → (∀ a, spares (c a)) → spares (p ≫= c).
Proof.
  intros Hp Hc. induction p as [b|f k IH|k IH|k IH]; cbn in *; try done.
  intros s. destruct (Hp s). split; [done|]. by apply IH.
Qed.
Lemma spares_act {A} (g : Sys → A * Sys) : (∀ s, own (g s).2 = own s) → spares (act g).
Proof. intros H s. by split. Qed.
Lemma spares_modify f : (∀ s, own (f s) = own s) → spares (modify f).
Proof. intros H s. by split. Qed.
Lemma spares_gets {A} (g : Sys → A) : spares (gets g).
Proof. intros s. by split. Qed.
Lemma spares_when b p : spares p → spares (when b p).
Proof. by destruct b. Qed.
Lemma spares_ret {A} (a : A) : spares (mret a).
Proof. done. Qed.
Lemma spares_unless f : (∀ s, own (f s) = own s) → spares (unless_stopped f).
Proof. intros H. apply spares_act. intros s. cbn. by destruct (w_stop _). Qed.
Lemma spares_call {O} (f : NetLog → O * HttpApiClient * NetLog) : spares (call f).
Proof. apply spares_act. intros s. by destruct (f (x_net s)) as [[? ?] ?]. Qed.
Lemma spares_notifies {A} (p : prog A) : notifies p → spares p.
Proof.
  induction p as [b|f k IH|k IH|k IH]; cbn; try done. intros H s. destruct (H s) as [[evs ->] Hk].
  split; [done|by apply IH].
Qed.

Create HintDb spares.
#[export] Hint Resolve spares_gets spares_ret spares_call : spares.
#[export] Hint Extern 1 (spares (NotifyFieldChanged _ _)) => apply spares_notifies, notifies_Field : spares.
#[export] Hint Extern 1 (spares NotifyProviderChangedFromWorker) => apply spares_notifies, notifies_Provider : spares.

(** Through the binds and cases of the worker's program. *)
Ltac spares := repeat first
  [ solve [eauto with spares]
  | lazymatch goal with
    | |- spares (mbind _ _) => apply spares_bind; [|intros ?]
    | |- spares (when _ _) => apply spares_when
    | |- spares (unless_stopped _) => apply spares_unless; intros ?; cbv zeta
    | |- spares (modify _) => apply spares_modify; intros ?; done
    | |- spares (act _) => apply spares_act; intros ?; done
    | |- spares (if ?b then _ else _) => destruct b
    | |- spares (let '(_, _) := ?x in _) => destruct x
    | |- own (if ?b then _ else _) = _ => destruct b
    end
  | done ].

Section Spares.
Context (o : World).

Lemma spares_notify_poll : spares (notify_poll o).
Proof. unfold notify_poll. spares. Qed.
#[local] Hint Resolve spares_notify_poll : spares.

Lemma spares_slices n p : spares p → spares (slices n p).
Proof. intros Hp. induction n as [|n IH]; cbn [slices]; [done|]. unfold stopRequested. spares. Qed.

Lemma spares_poll_loop n : ∀ errors client job cid user domain,
  spares (poll_loop o n errors client job cid user domain).
Proof.
  induction n as [|n IH]; intros; cbn [poll_loop]; [spares|]. apply spares_slices.
  unfold stopRequested. spares.
Qed.

Lemma spares_RunAsyncJob : spares (RunAsyncJob o).
Proof.
  assert (∀ cfg cpus j, spares (run_job o cfg cpus j)) as Hj.
  { intros cfg cpus j. unfold run_job, run_push, run_webauthn, run_otp, poll_phase. cbv zeta.
    pose proof spares_poll_loop. destruct (j_job j); spares; by eauto. }
  unfold RunAsyncJob, consult_gate. spares.
Qed.

Lemma spares_exec {A} (p : prog A) : ∀ w s, spares w → spares (exec o p w s).1.2.
Proof.
  induction p as [b|f k IH|k IH|k IH]; intros w s Hw; cbn [exec fst snd]; [done|by apply IH| |].
  - apply IH, spares_RunAsyncJob.
  - by apply IH.
Qed.

Lemma reachable_spares x : reachable o x → spares x.1.
Proof.
  intros (net & gates & H). remember (Ret tt, fresh net gates) as y eqn:Ey.
  assert (spares y.1) as Hy by by subst. clear Ey. induction H as [x|x y z Hxy _ IH]; [done|]. apply IH.
  destruct Hxy as [f k s|c w s _|cfg r cpus fl w s _]; cbn [fst snd] in *.
  - apply (Hy s).
  - by apply spares_exec.
  - by apply spares_exec.
Qed.
End Spares.

(** ** [ResetAuthState] in every interleaving *)
Section Reset.
Context (o : World) (names : Config * CPUS * Z * wstr * AUTH_FACTOR_MODE * wstr * wstr * wstr)
  (u p : wstr) (thread : bool).

(** A worker for [u] and [p] at work, LogonUI's members as they were. *)
Definition working (w : prog unit) (s : Sys) : Prop :=
  spares w ∧ names_part s = names ∧ m_hPollThread s = thread ∧ (thread = false → w = Ret tt) ∧
  ∃ k b, later b s ∧ wsafe o k u p b w ∧ WI o k u p s.

Lemma stable_working : stable working.
Proof.
  intros f c s (Hsp & Hn & Ht & Hw & k & b & Hb & Hs & HW). destruct (Hsp s) as [_ Hsp'].
  destruct (Hs s Hb HW) as (HW' & Hui & _ & Hs'). pose proof (ui_names _ _ Hui) as Hn'.
  injection Hui as _ _ _ _ _ _ _ _ Et.
  split_and!; [done|congruence|congruence|intros E; discriminate (Hw E)|].
  exists k, (f s). split_and!; [apply later_refl|done|done].
Qed.

Lemma working_neutral w s s' : neutral s s' → working w s → working w s'.
Proof.
  intros Hq (Hsp & Hn & Ht & Hw & k & b & Hb & Hs & HW). pose proof (neutral_names _ _ Hq) as Hn'.
  pose proof Hq as [Hui _]. injection Hui as _ _ _ _ _ _ _ _ Et.
  split_and!; [done|congruence|congruence|done|]. exists k, b.
  split_and!; [|done|by eapply neutral_WI]. eapply later_trans; [exact Hb|by apply neutral_later].
Qed.

Lemma working_unconfirm w s : working w s → working w (s <| m_authenticated := false |>).
Proof.
  intros (Hsp & Hn & Ht & Hw & k & b & Hb & Hs & (H1 & H2 & H3)). split_and!; [done..|].
  exists k, b. split_and!; done.
Qed.

(** ... once LogonUI's own members satisfy [P]. *)
Definition working_with (P : wstr * bool → Prop) (w : prog unit) (s : Sys) : Prop := working w s ∧ P (own s).

Lemma stable_with P : stable (working_with P).
Proof.
  intros f c s [H1 H2]. split; [by apply stable_working|]. destruct H1 as (Hsp & _). destruct (Hsp s) as [-> _]. done.
Qed.

Lemma keeps_quiet {A} P (q : prog A) : quiet q → spares q → keeps (working_with P) q.
Proof.
  induction q as [b|f k IH|k IH|k IH]; cbn; try done. intros Hq Hs s. destruct (Hq s) as [Hn Hq'], (Hs s) as [Ho Hs'].
  split; [|by apply IH]. intros w [H1 H2]. split; [by eapply working_neutral|by rewrite Ho].
Qed.

(** What is left when the worker has been joined. *)
Definition ended (w : prog unit) (s : Sys) : Prop :=
  w = Ret tt ∧ m_hPollThread s = false ∧ names_part s = names ∧ own s = ([], false) ∧
  (m_authenticated s = true → ev o u p s).

Definition wiped (w : prog unit) (s : Sys) : Prop :=
  ended w s ∧ m_worker s = new_worker ∧ m_job s = JobNone ∧ m_jobPass s = [] ∧ m_jobOtp s = [].

Lemma stable_dead J : (∀ w s, J w s → w = Ret tt) → stable J.
Proof. intros H f k s HJ. by apply H in HJ. Qed.
Lemma stable_ended : stable ended.
Proof. apply stable_dead. by intros w s [-> _]. Qed.
Lemma stable_wiped : stable wiped.
Proof. apply stable_dead. by intros w s [[-> _] _]. Qed.

Lemma keeps_notifies {A} (q : prog A) : notifies q → keeps wiped q.
Proof.
  induction q as [b|f k IH|k IH|k IH]; cbn; try done. intros H s. destruct (H s) as [[evs ->] Hk].
  split; [by intros w|by apply IH].
Qed.

Lemma Stop_wipes w s a w' s' : working_with (λ x, x = ([], false)) w s →
  rtc (step o) (StopPollThread, w, s) (Ret a, w', s') → wiped w' s'.
Proof.
  set (J := working_with _). intros HJ H. pose proof (stable_with (λ x, x = ([], false)) : stable J) as HS.
  unfold StopPollThread in H. apply (steps_modify o J) in H as (w1 & s1 & HJ1 & H); [|done..].
  assert (J w1 (s1 <| m_worker := (m_worker s1) <| w_stop := true |> |>)) as HJ2
    by (destruct HJ1; split; [by apply (working_neutral w1 s1)|done]).
  unfold JoinPollThread in H. apply (steps_gets o J) in H as (w2 & s2 & HJ3 & H); [|done..].
  assert (∀ w s, ended w s → rtc (step o) (modify wipe_job, w, s) (Ret a, w', s') → wiped w' s') as Hwipe.
  { intros w3 s3 He H3. apply (steps_act o ended) in H3 as (w4 & s4 & He' & H4); [|apply stable_ended|done].
    apply (steps_keeps o wiped) in H4; [done|apply stable_wiped|done|]. by destruct He' as (-> & ? & ? & ? & ?). }
  assert (∀ s3, J (Ret tt) s3 → ended (Ret tt) (s3 <| m_hPollThread := false |>)) as Hend.
  { intros s3 [(_ & Hn & _ & _ & k & b & _ & _ & (Ha & _)) Ho]. by split_and!. }
  destruct (m_hPollThread s2) eqn:Et; cbn [when] in H.
  - apply (steps_join o J) in H as (s3 & HJ4 & H); [|done..].
    inversion H as [|? y ? Hxy Hyz]; subst. inversion Hxy; subst.
    eapply Hwipe; [by apply Hend|exact Hyz].
  - destruct HJ3 as [(Hsp & Hn & Ht & Hw & k & b & _ & _ & (Ha & _)) Ho].
    rewrite Et in Ht. specialize (Hw (eq_sym Ht)) as ->. eapply Hwipe; [|exact H]. by split_and!.
Qed.

Lemma spares_ClearQr : spares (ClearQrBitmap o).
Proof.
  apply spares_bind; [by apply spares_act|]. intros had. by apply spares_when, spares_notifies, notifies_Qr.
Qed.

Lemma Reset_wipes w s a w' s' : working w s →
  rtc (step o) (ResetAuthState o, w, s) (Ret a, w', s') → wiped w' s'.
Proof.
  intros HW H. unfold ResetAuthState in H.
  apply (steps_modify o working) in H as (w1 & s1 & H1 & H); [|apply stable_working|done].
  apply (steps_modify o working) in H as (w2 & s2 & H2 & H); [|apply stable_working|by apply working_unconfirm].
  set (P1 := λ x : wstr * bool, x.2 = false).
  apply steps_bind in H as ([] & w3 & s3 & H3 & H).
  apply (steps_keeps o (working_with P1)) in H3;
    [|apply stable_with|apply keeps_quiet; [apply quiet_ClearQrBitmap|apply spares_ClearQr]
     |split; [by apply (working_neutral w2 s2)|done]].
  apply (steps_modify o (working_with P1)) in H as (w4 & s4 & H4 & H); [|apply stable_with|done].
  apply steps_bind in H as ([] & w5 & s5 & H5 & H). apply Stop_wipes in H5.
  - apply (steps_keeps o wiped) in H; [done|apply stable_wiped| |done].
    apply keeps_notifies, notifies_when_events, notifies_bind; [|intros _]; apply notifies_Field.
  - destruct H4 as [H4 Hb]. split; [by apply (working_neutral w4 s4)|]. unfold own. cbn. f_equal. exact Hb.
Qed.
End Reset.

Lemma spawnless_Reset (o : World) : spawnless (ResetAuthState o).
Proof.
  unfold ResetAuthState, ClearQrBitmap, StopPollThread, JoinPollThread, when_events.
  repeat lazymatch goal with
    | |- spawnless (mbind _ _) => apply spawnless_bind; [|intros ?]
    | |- spawnless (NotifyFieldChanged _ _) => apply spawnless_notifies, notifies_Field
    | |- spawnless (NotifyQrChanged _) => apply spawnless_notifies, notifies_Qr
    | |- spawnless (when ?b _) => destruct b; cbn [when]
    | |- _ => done
    end.
Qed.

(** ** A new name or password *)

(** A reachable tile's worker works for the name and password on the tile. *)
Lemma reachable_working (o : World) w s : reachable o (w, s) →
  ∃ u, ieq u (m_username s) ∧ working o (names_part s) u (m_password s) (m_hPollThread s) w s.
Proof.
  intros H. pose proof (reachable_spares o _ H) as Hsp. apply Inv_reachable in H as
    (_ & _ & k & d & u & b & _ & Hu & HW & _ & Hw & Hb & Hs).
  exists u. split; [done|]. split_and!; [done..|by intros [-> _]%Hw|]. by exists k, b.
Qed.

(** The shape of [SetStringValue] on a changed input: compare, reset, store. *)
Lemma changed_run (o : World) (same : Sys → bool) (g : Sys → Sys) u w s w' s' :
  working o (names_part s) u (m_password s) (m_hPollThread s) w s →
  (∀ s1, names_part s1 = names_part s → same s1 = false) →
  rtc (step o) (b ← gets same; when (negb b) (ResetAuthState o);; modify g, w, s) (Ret tt, w', s') →
  w' = Ret tt ∧ ∃ s2, s' = g s2 ∧ wiped o (names_part s) u (m_password s) (Ret tt) s2 ∧
    (w = Ret tt → forgotten s2).
Proof.
  set (K := working o (names_part s) u (m_password s) (m_hPollThread s)). intros HW Hsame H.
  set (J := λ w1 s1, K w1 s1 ∧ (w = Ret tt → w1 = Ret tt)).
  assert (stable J) as HJ.
  { intros f k s1 [H1 H2]. split; [by apply stable_working|]. intros E. discriminate (H2 E). }
  destruct (steps_gets o J _ _ _ _ _ _ _ HJ (conj HW (λ E, E)) H) as (w1 & s1 & [H1 Hd] & H').
  clear H. rename H' into H. change (K w1 s1) in H1. clear HJ J. assert (Es : same s1 = false) by apply Hsame, H1.
  rewrite Es in H. cbn [negb when] in H. apply steps_bind in H as ([] & w2 & s2 & H2 & H).
  assert (wiped o (names_part s) u (m_password s) w2 s2) as Hwp by (by eapply Reset_wipes).
  assert (w2 = Ret tt) as -> by apply Hwp. apply steps_alone in H; [|done]. injection H as <- <-.
  split; [done|]. exists s2. split; [done|]. split; [done|]. intros Ew. apply Hd in Ew. subst w1.
  apply steps_alone in H2; [|apply spawnless_Reset].
  destruct (exec_Reset_forgotten o mret (Ret tt) s1) as (s3 & E & Hs3); [done..|].
  rewrite <- exec_tail, H2 in E. by injection E as ->.
Qed.


(** A name changed while the worker polls, the worker moving in between. *)
Definition renamed : prog unit * prog unit * Sys :=
  interleave approving (replicate 5 true ++ replicate 12 false ++ replicate 60 true ++ replicate 20 false ++ replicate 60 true)
    (SetStringValue approving FID_USERNAME (W "bob"), polling_tile.1, polling_tile.2).

Lemma reachable_polling : reachable approving polling_tile.
Proof. apply reachable_drive; [apply reachable_tile|events..]. Qed.

