(* ===== verification/Display.v ===== *)
(** * What the tile shows

    The QR code and the control number of [Credential], in every interleaving of
    LogonUI's thread and the worker, also in the middle of a call: they are
    always ones that the server issued. *)
From S2P Require Import Prelude Text Config HttpClient RdpGate Pack Credential CredentialSafety Logon.

(** A step that shows nothing new. *)
Ltac plain :=
  let s := fresh "s" in let H := fresh "H" in
  intros s H; cbv zeta; repeat match goal with |- context [if ?b then _ else _] => destruct b end;
  (split; [destruct H; split; cbn; first [done|by left|intros ? [=]]|done]).

Section Display.
Context (o : World).

(** ** Issued by the server *)

(** The answer [x] issues the number [n], or the handle behind the link [t]. *)
Definition issues_number (n : wstr) (x : Request * Attempt) : Prop :=
  (∃ user pass ep, rq_body x.1 = start_body (o_utf8 o) user pass ep) ∧
  rq_path x.1 = W "/api/v1/auth/start" ∧ ok_reply x.2 ∧
  n = o_wide o (ExtractJsonString (reply_body x.2) (B "number_match")).

Definition link (server : wstr) (handle : str) : str :=
  o_utf8 o server ++ B "/auth/passkey?handle=" ++ handle.

Definition issues_link (t : str) (x : Request * Attempt) : Prop :=
  (∃ user pass ep, rq_body x.1 = start_body (o_utf8 o) user pass ep) ∧
  rq_path x.1 = W "/api/v1/auth/webauthn/begin" ∧ ok_reply x.2 ∧
  ExtractJsonString (reply_body x.2) (B "handle") ≠ [] ∧
  ∃ server, t = link server (ExtractJsonString (reply_body x.2) (B "handle")).

Definition number (log : NetLog) (n : wstr) : Prop := n = [] ∨ ∃ x, x ∈ log ∧ issues_number n x.
Definition issued (log : NetLog) (t : str) : Prop := ∃ x, x ∈ log ∧ issues_link t x.

(** The link, or what is left of it after a conversion to UTF-16 and back. *)
Definition shown_link (log : NetLog) (t : str) : Prop :=
  ∃ u, issued log u ∧ (t = u ∨ t = o_utf8 o (o_wide o u)).

(** The header's texts without a number. *)
Definition pc_header : wstr :=
  if bool_decide (o_computer o = []) then [] else W "  ·  Имя ПК: " ++ o_computer o.
Definition titles : list wstr :=
  [W "🔑 Вход по Passkey (QR-код)" ++ pc_header; W "⏱️ Вход по коду TOTP / YubiKey" ++ pc_header;
   W "🛡️ Ligament Enterprise 2FA" ++ pc_header].

(** What LogonUI was told: of the fields that carry a picture or a control number. *)
Definition told_ok (log : NetLog) (e : UiEvent) : Prop :=
  match e with
  | EvBitmap (Some t) => shown_link log t
  | EvFieldString FID_NUMBER_MATCH v =>
    v = [] ∨ ∃ n, v = W "   [  " ++ n ++ W "  ]   " ∧ n ≠ [] ∧ number log n
  | EvFieldString FID_LARGE_TEXT v =>
    v ∈ titles ∨ ∃ n, v = W "🔢 Контрольное число: " ++ n ++ pc_header ∧ n ≠ [] ∧ number log n
  | _ => True
  end.

Record served (s : Sys) : Prop := mkServed {
  served_qr : ∀ t, m_hQrBmp s = Some t → shown_link (x_net s) t;
  served_number : number (x_net s) (m_numberMatch s);
  served_url : w_qrUrl (m_worker s) = [] ∨
    ∃ u, w_qrUrl (m_worker s) = o_wide o u ∧ issued (x_net s) u;
  served_worker : number (x_net s) (w_numberMatch (m_worker s));
  served_told : Forall (told_ok (x_net s)) (x_ui s) }.

Lemma number_mono log l n : number log n → number (log ++ l) n.
Proof. intros [?|(x & Hx & H)]; [by left|right]. exists x. split; [apply elem_of_app; by left|done]. Qed.
Lemma issued_mono log l t : issued log t → issued (log ++ l) t.
Proof. intros (x & Hx & H). exists x. split; [apply elem_of_app; by left|done]. Qed.
Lemma shown_link_mono log l t : shown_link log t → shown_link (log ++ l) t.
Proof. intros (u & H & E). exists u. split; [by apply issued_mono|done]. Qed.
Lemma told_ok_mono log l e : told_ok log e → told_ok (log ++ l) e.
Proof.
  destruct e as [| |[] v| |[t|]| |]; cbn [told_ok]; try done; [| |apply shown_link_mono];
    (intros [?|(n & ? & ? & ?)]; [by left|]; right; exists n; split_and!; [done..|by apply number_mono]).
Qed.

(** ** Programs that only show what was issued *)

(** Every step keeps [served] and only adds to the log; [b] is what the log has
    when the program gets its turn. *)
Fixpoint shows {A} (b : NetLog) (p : prog A) : Prop :=
  match p with
  | Ret _ => True
  | Act f k => ∀ s, (∃ l, x_net s = b ++ l) → served s →
      served (f s) ∧ (∃ l, x_net (f s) = x_net s ++ l) ∧ shows (x_net (f s)) (k s)
  | Spawn k | Join k => shows b k
  end.

Lemma shows_later {A} (p : prog A) b l : shows b p → shows (b ++ l) p.
Proof.
  induction p as [a|f k IH|k IH|k IH]; cbn; [done| |done|done].
  intros H s [l' E]. apply H. exists (l ++ l'). by rewrite E, app_assoc.
Qed.

Lemma shows_bind {A C} (p : prog A) (c : A → prog C) b :
  shows b p → (∀ a l, shows (b ++ l) (c a)) → shows b (p ≫= c).
Proof.
  revert b. induction p as [a|f k IH|k IH|k IH]; cbn; intros b Hp Hc.
  - specialize (Hc a []). by rewrite app_nil_r in Hc.
  - intros s [l E] Hs. destruct (Hp s (ex_intro _ l E) Hs) as (H1 & [l' E'] & H3).
    split; [done|]. split; [by exists l'|]. apply IH; [done|]. intros a l2. rewrite E', E, <- !app_assoc. apply Hc.
  - by apply IH.
  - by apply IH.
Qed.

(** A step that issues nothing. *)
Definition plain_step (f : Sys → Sys) : Prop := ∀ s, served s → served (f s) ∧ x_net (f s) = x_net s.

Lemma shows_act {A} b (g : Sys → A * Sys) : plain_step (λ s, (g s).2) → shows b (act g).
Proof. intros H s _ Hs. destruct (H s Hs) as [H1 E]. split; [done|]. split; [|done]. exists []. by rewrite E, app_nil_r. Qed.
Lemma shows_modify b f : plain_step f → shows b (modify f).
Proof. intros H s _ Hs. destruct (H s Hs) as [H1 E]. split; [done|]. split; [|done]. exists []. by rewrite E, app_nil_r. Qed.
Lemma shows_gets {A} b (g : Sys → A) : shows b (gets g).
Proof. intros s _ Hs. split; [done|]. split; [|done]. exists []. by rewrite app_nil_r. Qed.
Lemma shows_when b c p : shows b p → shows b (when c p).
Proof. by destruct c. Qed.
Lemma shows_ret {A} b (a : A) : shows b (Ret a).
Proof. done. Qed.
Lemma shows_spawn {A} b (k : prog A) : shows b k → shows b (Spawn k).
Proof. done. Qed.
Lemma shows_join {A} b (k : prog A) : shows b k → shows b (Join k).
Proof. done. Qed.
Lemma shows_unless b f : plain_step f → shows b (unless_stopped f).
Proof. intros H. apply shows_act. intros s Hs. cbn. destruct (w_stop (m_worker s)); [done|by apply H]. Qed.

Lemma shows_gets_bind {A C} b (g : Sys → A) (c : A → prog C) :
  (∀ s, (∃ l, x_net s = b ++ l) → served s → shows (x_net s) (c (g s))) → shows b (gets g ≫= c).
Proof. intros Hc s Hl Hs. split; [done|]. split; [exists []; by rewrite app_nil_r|]. by apply Hc. Qed.

(** Telling LogonUI. *)
Lemma served_add_ui evs s : served s → Forall (told_ok (x_net s)) evs → served (add_ui evs s).
Proof. intros [H1 H2 H3 H4 H5] He. split; cbn; [done..|]. by apply Forall_app. Qed.

Lemma shows_tell b e : told_ok b e → shows b (tell e).
Proof.
  intros He s [l E] Hs. split; [|split; [exists []; by rewrite app_nil_r|done]].
  apply served_add_ui; [done|]. apply Forall_singleton. rewrite E. by apply told_ok_mono.
Qed.

Lemma shows_logo b qr logo : (∀ t, qr = Some t → shown_link b t) → shows b (show_logo o qr logo).
Proof.
  intros H. destruct qr as [t|]; cbn [show_logo]; [by apply shows_tell, H|].
  apply shows_when. destruct (o_events3 o); by apply shows_tell.
Qed.

Lemma told_string b s n t f : number b n → told_ok b (EvFieldString f (string_of o s n t f)).
Proof.
  intros Hn. destruct f; cbn [told_ok string_of]; try done; fold pc_header.
  - unfold titles. destruct (m_currentMode s); [left; set_solver| |left; set_solver].
    case_bool_decide; cbn [negb]; [left; set_solver|right; by exists n].
  - case_bool_decide; cbn [negb]; [by left|right; by exists n].
Qed.

Lemma shows_GetString b f : shows b (psz ← GetStringValue o f; tell (EvFieldString f psz)).
Proof.
  intros s _ Hs. split; [done|]. split; [exists []; by rewrite app_nil_r|].
  cbn [prog_bind fst snd]. apply shows_gets_bind. intros s2 [l E] _. apply shows_tell, told_string.
  rewrite E. apply number_mono, Hs.
Qed.

Lemma shows_bitmap b (c : option str * bool → prog unit) :
  (∀ qr logo l, (∀ t, qr = Some t → shown_link (b ++ l) t) → shows (b ++ l) (c (qr, logo))) →
  shows b (bmp ← gets (λ s, (m_hQrBmp s, m_hDefaultLogoBmp s)); c bmp).
Proof. intros H. apply shows_gets_bind. intros s [l E] Hs. rewrite E. apply H. rewrite <- E. apply Hs. Qed.

Lemma shows_NotifyField b f : shows b (NotifyFieldChanged o f).
Proof.
  unfold NotifyFieldChanged. apply shows_bind; [apply shows_gets|]. intros e l0. apply shows_when.
  apply shows_bind; [apply shows_gets|]. intros st l1.
  do 2 (apply shows_bind; [by apply shows_tell|]; intros _ ?).
  destruct f; try apply shows_GetString; try done.
  - apply shows_bitmap. intros qr logo l8 Hq.
    apply shows_bind; [by apply shows_logo|]. intros _ l6. by apply shows_tell.
  - apply shows_bind; [apply shows_gets|]. intros t l7. by apply shows_tell.
Qed.
Lemma shows_NotifyProvider b : shows b NotifyProviderChangedFromWorker.
Proof.
  apply shows_bind; [apply shows_gets|]. intros e l. apply shows_modify. intros s Hs. split; [|done].
  apply served_add_ui; [done|]. destruct e; by repeat constructor.
Qed.
Lemma shows_NotifyQr b : shows b (NotifyQrChanged o).
Proof.
  unfold NotifyQrChanged. apply shows_bitmap. intros qr logo l Hq.
  apply shows_gets_bind. intros s1 [l9 E1] _. rewrite E1. apply shows_bind.
  - apply shows_when, shows_bind; [|intros; by apply shows_tell]. apply shows_logo.
    intros t Ht. by apply shown_link_mono, Hq.
  - intros _ l4. apply shows_bind; [apply shows_gets|]. intros [ctx|] l5; [|done].
    by apply shows_when, shows_tell.
Qed.
Lemma shows_ClearQr b : shows b (ClearQrBitmap o).
Proof.
  apply shows_bind; [|intros; apply shows_when, shows_NotifyQr]. apply shows_act. plain.
Qed.
Lemma shows_status b t : shows b (set_status_text t).
Proof. apply shows_modify. plain. Qed.
Lemma shows_clear_number b : shows b clear_number.
Proof. apply shows_modify. plain. Qed.
Lemma shows_show_status b t : shows b (show_status t).
Proof. apply shows_bind; [apply shows_gets|]. intros e l. by apply shows_when, shows_tell. Qed.
Lemma shows_when_events b p : (∀ l, shows (b ++ l) p) → shows b (when_events p).
Proof. intros H. apply shows_bind; [apply shows_gets|]. intros e l. by apply shows_when. Qed.
End Display.

Create HintDb shows.
#[export] Hint Resolve shows_NotifyField shows_NotifyProvider shows_NotifyQr shows_ClearQr shows_status
  shows_clear_number shows_show_status shows_gets shows_ret : shows.

(** Through the binds and cases of a program; what is left are the steps that
    write what is shown. *)
Ltac shows_step :=
  first [ solve [eauto with shows]
        | apply shows_when
        | apply shows_when_events; intros ?
        | apply shows_bind; [|intros ? ?]
        | apply shows_modify; solve [plain]
        | apply shows_act; solve [plain]
        | match goal with
          | |- shows _ _ (match ?x with _ => _ end) => destruct x
          | |- shows _ _ (let '(_, _) := ?x in _) => destruct x
          | |- shows _ _ (mret _) => exact I
          | |- shows _ _ (Spawn _) => apply shows_spawn
          | |- shows _ _ (Join _) => apply shows_join
          end ].
Ltac shows := repeat shows_step.

Section Programs.
Context (o : World).

Lemma shows_UpdateFieldStates b : shows o b (UpdateFieldStates o).
Proof. unfold UpdateFieldStates. shows. Qed.
Lemma shows_Join b : shows o b JoinPollThread.
Proof. unfold JoinPollThread. shows. Qed.
Lemma shows_Stop b : shows o b StopPollThread.
Proof. unfold StopPollThread. shows. Qed.
End Programs.
#[export] Hint Resolve shows_UpdateFieldStates shows_Join shows_Stop : shows.

Section Calls.
Context (o : World).

Lemma shows_Start b job t : shows o b (StartWorkerJob o job t).
Proof. unfold StartWorkerJob, load_job. shows. Qed.
Lemma shows_Reset b : shows o b (ResetAuthState o).
Proof. unfold ResetAuthState. shows. Qed.
Lemma shows_pack b : shows o b (pack_finish o).
Proof. apply shows_act. intros s H. cbv zeta. destruct (PackAndFinish _ _ _ _ _ _ _ _) as [r lsa]. split; [by destruct H|done]. Qed.
End Calls.
#[export] Hint Resolve shows_Start shows_Reset shows_pack : shows.

(** ** The answers that issue something *)
Section Answers.
Context (o : World).

Lemma SendRequest_true verb path body c log status text log' :
  SendRequest (o_net o) verb path body c log = ((true, status, text), log') →
  ∃ x, log' = log ++ [x] ∧ rq_body x.1 = body ∧ rq_path x.1 = path ∧ answered x.2 = true ∧
    status = i32 (at_status x.2) ∧ text = reply_body x.2.
Proof.
  intros E. apply exchange_log in E as [(_ & [=] & _)|(a & -> & _ & _ & _ & Ha)].
  destruct (answered a) eqn:Ea; [|done]. injection Ha as -> ->. eexists. by split_and!.
Qed.

Lemma StartPush_number user pass c log out c' log' :
  StartPush (o_net o) (o_utf8 o) (o_wide o) (o_sys o) user pass c log = (out, c', log') →
  so_ok out = true → number o log' (so_number out).
Proof.
  unfold StartPush. destruct (SendRequest _ _ _ _ _ log) as [[[sent status] text] log1] eqn:E.
  intros H Hok. destruct sent; cbn in H; [|by simplify_eq].
  apply SendRequest_true in E as (x & -> & Hb & Hp & Ha & -> & ->).
  destruct (Z.eqb_spec (i32 (at_status x.2)) 200) as [E200|]; cbn in H; [|by simplify_eq].
  case_bool_decide; cbn in H; simplify_eq. right. exists x. split; [apply elem_of_app; right; by left|].
  split; [do 3 eexists; exact Hb|]. split; [done|]. by split.
Qed.

Lemma WebAuthnBegin_link user pass c log out c' log' server :
  WebAuthnBegin (o_net o) (o_utf8 o) (o_sys o) user pass c log = (out, c', log') →
  wb_success out = true → issued o log' (link o server (wb_handle out)).
Proof.
  unfold WebAuthnBegin. destruct (SendRequest _ _ _ _ _ log) as [[[sent status] text] log1] eqn:E.
  intros H Hok. destruct sent; cbn in H; [|by simplify_eq].
  apply SendRequest_true in E as (x & -> & Hb & Hp & Ha & -> & ->).
  destruct (Z.eqb_spec (i32 (at_status x.2)) 200) as [E200|]; cbn in H; simplify_eq.
  cbn in Hok. apply negb_true_iff, bool_decide_eq_false in Hok.
  exists x. split; [apply elem_of_app; right; by left|].
  split; [do 3 eexists; exact Hb|]. split; [done|]. split; [by split|]. split; [done|]. by exists server.
Qed.

Lemma served_net s l : served o s → served o (s <| x_net := x_net s ++ l |>).
Proof.
  intros [H1 H2 H3 H4 H5]. split; cbn.
  - intros t Ht. by apply shown_link_mono, H1.
  - by apply number_mono.
  - destruct H3 as [?|(u & E & H)]; [by left|]. right. exists u. split; [done|by apply issued_mono].
  - by apply number_mono.
  - eapply Forall_impl; [exact H5|]. intros e. apply told_ok_mono.
Qed.

Lemma shows_call {O C} b (f : NetLog → O * HttpApiClient * NetLog) (c : O * HttpApiClient → prog C) :
  (∀ log out cl log', f log = (out, cl, log') → ∃ l, log' = log ++ l) →
  (∀ log out cl log', f log = (out, cl, log') → shows o log' (c (out, cl))) →
  shows o b (call f ≫= c).
Proof.
  intros Hf Hc s [l E] Hs. cbn. destruct (f (x_net s)) as [[out cl] log'] eqn:Ef. cbn.
  destruct (Hf _ _ _ _ Ef) as [l' ->]. split; [by apply served_net|]. split; [by exists l'|]. by eapply Hc.
Qed.

(** A write of the worker, which knows the log up to [b]. *)
Lemma shows_unless_bind {C} b f (c : bool → prog C) :
  (∀ s, (∃ l, x_net s = b ++ l) → served o s → served o (f s) ∧ x_net (f s) = x_net s) →
  (∀ st l, shows o (b ++ l) (c st)) → shows o b (unless_stopped f ≫= c).
Proof.
  intros Hf Hc s [l E] Hs. cbn. destruct (w_stop (m_worker s)).
  - split; [done|]. split; [exists []; by rewrite app_nil_r|]. rewrite E. apply Hc.
  - destruct (Hf s (ex_intro _ l E) Hs) as [H1 E1]. split; [done|]. split; [exists []; by rewrite E1, app_nil_r|].
    rewrite E1, E. apply Hc.
Qed.

(** ** The worker *)
Lemma shows_notify_poll b : shows o b (notify_poll o).
Proof. unfold notify_poll. shows. Qed.

#[local] Hint Resolve shows_notify_poll : shows.

Lemma shows_slices n : ∀ b p, (∀ l, shows o (b ++ l) p) → shows o b (slices n p).
Proof.
  induction n as [|n IH]; intros b p Hp; cbn [slices].
  - specialize (Hp []). by rewrite app_nil_r in Hp.
  - apply shows_bind; [apply shows_gets|]. intros [|] l; [done|]. apply IH. intros l'. rewrite <- app_assoc. apply Hp.
Qed.

Lemma shows_poll_loop n : ∀ b errors client job cid user domain,
  shows o b (poll_loop o n errors client job cid user domain).
Proof.
  induction n as [|n IH]; intros b errors client job cid user domain; cbn [poll_loop].
  - apply shows_unless_bind; [intros s _; revert s; plain|]. intros st l. apply shows_when, shows_notify_poll.
  - apply shows_slices. intros l. apply shows_call.
    { intros log out cl log' E. by apply PollStatus_spec in E as [? _]. }
    intros log out cl log' E. cbv zeta. cbn [fst snd]. destruct (po_ok out && is_terminal (po_status out)).
    + apply shows_unless_bind; [intros s _; revert s; plain|]. intros st ?. shows.
    + shows.
Qed.

Lemma shows_poll_phase b cfg client job cid user domain :
  shows o b (poll_phase o cfg client job cid user domain).
Proof. apply shows_poll_loop. Qed.

Lemma shows_run_push b cfg client user domain pass : shows o b (run_push o cfg client user domain pass).
Proof.
  unfold run_push. apply shows_call.
  { intros log out cl log' E. by apply StartPush_spec in E as [? _]. }
  intros log out cl log' E. cbv zeta. cbn [fst snd]. pose proof (StartPush_number _ _ _ _ _ _ _ E) as Hn.
  apply shows_unless_bind.
  - intros s [l El] [H1 H2 H3 H4 H5]. destruct (so_ok out); [|by split].
    specialize (Hn eq_refl). split; [|done]. split; cbn; [done| |done| |done]; rewrite El; by apply number_mono.
  - intros st l. destruct st; [done|]. shows. apply shows_poll_phase.
Qed.

Lemma shows_run_webauthn b cfg client user domain pass :
  shows o b (run_webauthn o cfg client user domain pass).
Proof.
  unfold run_webauthn. apply shows_call.
  { intros log out cl log' E. by apply WebAuthnBegin_spec in E as [? _]. }
  intros log out cl log' E. cbv zeta. cbn [fst snd].
  pose proof (WebAuthnBegin_link _ _ _ _ _ _ _ (serverUrl cfg) E) as Hn. unfold link in Hn.
  set (url := o_utf8 o (serverUrl cfg) ++ B "/auth/passkey?handle=" ++ wb_handle out) in *.
  apply shows_unless_bind.
  - intros s [l El] [H1 H2 H3 H4 H5]. destruct (wb_success out); [|by split].
    assert (Hu : issued o (x_net s) url) by (rewrite El; by apply issued_mono, Hn).
    split; [|done]. split; cbn; [|done| |done|done].
    + intros t. destruct (o_qr o url); [|done]. intros [= <-]. exists url. by split; [|left].
    + right. by exists url.
  - intros st l. destruct st; [done|]. shows. apply shows_poll_phase.
Qed.

Lemma shows_run_otp b client user pass otp : shows o b (run_otp o client user pass otp).
Proof.
  unfold run_otp. apply shows_call.
  { intros log [ok err] cl log' E. by apply VerifyCombined_spec in E as [? _]. }
  intros log [ok err] cl log' E. cbv zeta. cbn [fst snd]. apply shows_unless_bind.
  - intros s _. revert s. plain.
  - intros st l. destruct st; [done|]. shows.
Qed.

Lemma shows_RunAsyncJob b : shows o b (RunAsyncJob o).
Proof.
  assert (Hj : ∀ b cfg cpus j, shows o b (run_job o cfg cpus j)).
  { intros b' cfg cpus j. unfold run_job. cbv zeta.
    destruct (j_job j); [done|apply shows_run_push|apply shows_run_webauthn|apply shows_run_otp]. }
  unfold RunAsyncJob. apply shows_bind; [apply shows_act; plain|]. intros j l.
  apply shows_bind; [apply shows_gets|]. intros [[cfg cpus] remote] l'. destruct (_ && _); [|apply Hj].
  apply shows_bind; [apply shows_act; plain|]. intros gate l2. destruct (satisfied gate); [|apply Hj].
  apply shows_unless_bind; [intros s _; revert s; plain|]. intros st l3. shows.
Qed.

(** ** LogonUI's calls *)
Lemma shows_apply_push b w : shows o b (apply_begin_push o w).
Proof.
  unfold apply_begin_push. shows.
Qed.

Lemma shows_apply_fido b w : shows o b (apply_begin_fido o w).
Proof.
  unfold apply_begin_fido. apply shows_bind; [apply shows_gets|]. intros applied l. apply shows_when.
  apply shows_bind; [apply shows_modify; plain|]. intros _ l'.
  apply shows_gets_bind. intros s _ Hs. cbn [fst snd].
  destruct (negb (bool_decide (is_Some (m_hQrBmp s)))); [|done].
  case_bool_decide as Hq; [done|]. cbn [andb negb when]. cbv zeta.
  destruct (served_url o s Hs) as [?|(u & Eu & Hu)]; [done|]. rewrite Eu.
  apply shows_bind; [|intros; shows]. cbn. intros s2 [l2 E2] [H1 H2 H3 H4 H5]. split; [|split; [exists []; by rewrite app_nil_r|done]].
  split; cbn; [|done..]. intros t. destruct (o_qr o _); [|done]. intros [= <-]. exists u.
  split; [rewrite E2; by apply issued_mono|by right].
Qed.
End Answers.
#[export] Hint Resolve shows_apply_push shows_apply_fido : shows.

Section Handlers.
Context (o : World).

Lemma shows_Trigger b : shows o b (TriggerFIDO2Auth o).
Proof. unfold TriggerFIDO2Auth. shows. Qed.
#[local] Hint Resolve shows_Trigger : shows.
Lemma shows_SwitchToMode b m : shows o b (SwitchToMode o m).
Proof. unfold SwitchToMode. shows. Qed.
Lemma shows_serialize_otp b : shows o b (serialize_otp o).
Proof. unfold serialize_otp. shows. Qed.
Lemma shows_serialize_push b : shows o b (serialize_push o).
Proof. unfold serialize_push, push_begin_failed. shows. Qed.
Lemma shows_serialize_fido b : shows o b (serialize_fido o).
Proof. unfold serialize_fido, fido_begin_failed. shows. Qed.
Lemma shows_GetSerialization b : shows o b (GetSerialization o).
Proof.
  unfold GetSerialization. shows.
Qed.
Lemma shows_Initialize b cfg remote cpus flags : shows o b (Initialize cfg remote cpus flags).
Proof. unfold Initialize. apply shows_modify. plain. Qed.

Lemma shows_handler b c : shows o b (handler o c).
Proof.
  destruct c as [ctx|e| | | |f t|f| |st]; cbn [handler]; unfold discard; (apply shows_bind; [|intros; exact I]).
  - apply shows_modify. plain.
  - apply shows_modify. plain.
  - apply shows_modify. plain.
  - apply shows_gets.
  - unfold SetDeselected. shows.
  - destruct f; unfold SetStringValue; shows.
  - unfold CommandLinkClicked. shows.
  - apply shows_GetSerialization.
  - unfold ReportResult. shows. apply shows_modify. intros s Hs. split; [|done]. apply served_add_ui; [done|].
    unfold probe_events. destruct (_ && _ && _ && _); [|done].
    assert (Hp : ∀ u p ds, Forall (told_ok o (x_net s)) (sam_probe o u p ds)).
    { intros u p ds. induction ds as [|d ds IH]; cbn; [done|]. case_bool_decide; [done|].
      apply Forall_cons. split; [done|]. by destruct (o_logon o u d p). }
    apply Hp.
Qed.
End Handlers.

(** ** Every interleaving *)
Section Live.
Context (o : World).

(** The LogonUI thread in the middle of a call, or between two of them. *)
Inductive live : prog (option SerResult) * prog unit * Sys → Prop :=
  | LiveFresh net gates : live (Ret None, Ret tt, fresh net gates)
  | LiveInit cfg remote cpus flags r w s :
      live (Ret r, w, s) → live (discard (Initialize cfg remote cpus flags), w, s)
  | LiveCall c r w s : live (Ret r, w, s) → live (handler o c, w, s)
  | LiveStep x y : live x → step o x y → live y.

Definition on_screen (x : prog (option SerResult) * prog unit * Sys) : Prop :=
  served o x.2 ∧ shows o (x_net x.2) x.1.1 ∧ shows o (x_net x.2) x.1.2.

Lemma served_fresh net gates : served o (fresh net gates).
Proof. split; cbn; [done|by left|by left|by left|by apply Forall_nil]. Qed.

Lemma on_screen_step x y : on_screen x → step o x y → on_screen y.
Proof.
  intros (Hs & Hu & Hw) Hxy. assert (Hb : ∀ s, ∃ l, x_net s = x_net s ++ l) by (intros s; exists []; by rewrite app_nil_r).
  destruct Hxy as [f k w s|u f k s|k w s|k s]; cbn [fst snd] in *.
  - destruct (Hu s (Hb s) Hs) as (H1 & [l E] & H3). split; [done|]. split; [done|]. cbn. rewrite E. by apply shows_later.
  - destruct (Hw s (Hb s) Hs) as (H1 & [l E] & H3). split; [done|]. split; [|done]. cbn. rewrite E. by apply shows_later.
  - split; [done|]. split; [done|apply shows_RunAsyncJob].
  - by split.
Qed.

Lemma live_on_screen x : live x → on_screen x.
Proof.
  induction 1 as [net gates|cfg remote cpus flags r w s _ (Hs & _ & Hw)|c r w s _ (Hs & _ & Hw)|x y _ IH Hxy].
  - split; [apply served_fresh|by split].
  - split; [done|]. split; [|done]. apply shows_bind; [apply shows_Initialize|by intros].
  - split; [done|]. split; [apply shows_handler|done].
  - by eapply on_screen_step.
Qed.

(** Schedules of whole calls are among them. *)
Lemma live_steps x y : live x → rtc (step o) x y → live y.
Proof. intros Hx H. induction H as [|x y z Hxy _ IH]; [done|]. apply IH. by eapply LiveStep. Qed.

Definition between (x : prog unit * Sys) : Prop := ∃ r, live (Ret r, x.1, x.2).

Lemma between_tile cfg remote cpus flags : between (tile o cfg remote cpus flags).
Proof.
  exists None. eapply live_steps; [eapply LiveInit, (LiveFresh [] [])|].
  eapply rtc_l; [apply StepUi|]. apply rtc_refl.
Qed.

Lemma between_drive es : ∀ x, reachable o x → Forall typed_event es → Forall no_reinit es →
  between x → between (drive o es x).
Proof.
  induction es as [|e es IH]; intros x Hx Ht Hn Hb; [done|].
  pose proof (reachable_drive o [e] x Hx) as Hr. inversion Ht; inversion Hn; subst.
  apply IH; [apply Hr; by repeat constructor|done..|]. destruct Hb as [r Hl]. destruct x as [w s].
  assert (obeys_stop w) by (by apply Inv_reachable in Hx; apply Hx).
  destruct e as [c| |]; cbn [happen fst snd]; [|exists r|done].
  - eexists. eapply live_steps; [by eapply LiveCall|]. by apply exec_steps.
  - eapply live_steps; [exact Hl|]. by apply worker_schedule.
Qed.
End Live.

(** ** What is shown was issued *)

(** C5: In every interleaving of LogonUI's thread and the worker, also in the middle of a
    call or of a notification: the picture on the tile is the QR code of a link to a handle
    that the server returned to a passkey request; the control number of the tile is empty or
    the one that the server returned to a push request; and whatever LogonUI was ever told to
    draw as the logo, in the number field or in the header is such a code, such a number in
    its fixed frame, or one of the header's three texts without a number. So is what
    [GetStringValue] would answer for these fields now. *)
Theorem tile_shows_servers (o : World) (u : prog (option SerResult)) (w : prog unit) (s : Sys) :
  live o (u, w, s) →
  (∀ t, m_hQrBmp s = Some t → shown_link o (x_net s) t) ∧
  number o (x_net s) (m_numberMatch s) ∧
  Forall (told_ok o (x_net s)) (x_ui s) ∧
  (∀ f, told_ok o (x_net s) (EvFieldString f (string_of o s (m_numberMatch s) (m_statusText s) f))).
Proof.
  intros H. destruct (live_on_screen o _ H) as ([H1 H2 _ _ H5] & _). split_and!; [done..|].
  intros f. by apply told_string.
Qed.

(** A push logon with the events of LogonUI attached: the number 42 is drawn. *)
Definition drawn_tile : prog unit * Sys :=
  drive approving (LogonUI (CallAdvise true) :: push_logon ++ [submit])
    (tile approving a_config false CPUS_LOGON 0).

Lemma between_drawn : between approving drawn_tile.
Proof. apply between_drive; [apply reachable_tile|events|events|apply between_tile]. Qed.

Lemma tile_shows_servers_witness :
  EvFieldString FID_NUMBER_MATCH (W "   [  42  ]   ") ∈ x_ui drawn_tile.2 ∧
  EvFieldString FID_LARGE_TEXT (W "🔢 Контрольное число: 42  ·  Имя ПК: PC1") ∈ x_ui drawn_tile.2 ∧
  ((∃ r, live approving (Ret r, drawn_tile.1, drawn_tile.2)) ∧
   number approving (x_net drawn_tile.2) (m_numberMatch drawn_tile.2) ∧
   told_ok approving (x_net drawn_tile.2) (EvFieldString FID_NUMBER_MATCH (W "   [  42  ]   "))).
Proof.
  assert (EvFieldString FID_NUMBER_MATCH (W "   [  42  ]   ") ∈ x_ui drawn_tile.2) as Hin
    by (apply (list_elem_of_lookup_2 _ 20); vm_compute; reflexivity).
  split; [exact Hin|]. split; [apply (list_elem_of_lookup_2 _ 23); vm_compute; reflexivity|].
  split; [apply between_drawn|]. destruct between_drawn as [r H].
  destruct (tile_shows_servers approving _ _ _ H) as (_ & Hn & Ht & _). split; [exact Hn|].
  rewrite Forall_forall in Ht. by apply Ht.
Defined.
