(* ===== verification/Verdict.v ===== *)
(** * The worker's verdict

    [RunAsyncJob] of [Credential], run by itself to its end: how many requests
    it makes, the state it leaves, and that LogonUI is always told. *)
From S2P Require Import Prelude Text Config HttpClient RdpGate Pack Credential CredentialSafety Logon.

(** ** The worker's verdict *)
Section Outcome.
Context (o : World).

(** At most [n] exchanges, further LogonUI events, no other change of what a run reads. *)
Definition ran (n : nat) (s s' : Sys) : Prop :=
  (∃ l, x_net s' = x_net s ++ l ∧ (length l ≤ n)%nat) ∧ (∃ evs, x_ui s' = x_ui s ++ evs) ∧
  m_config s' = m_config s ∧ m_pProviderEvents s' = m_pProviderEvents s ∧
  w_stop (m_worker s') = w_stop (m_worker s) ∧
  (m_job s', m_jobPass s', m_jobOtp s') = (m_job s, m_jobPass s, m_jobOtp s).

(** LogonUI is told that the credentials changed. *)
Definition told (s s' : Sys) : Prop := ∀ ctx, m_pProviderEvents s = Some ctx →
  ∃ evs, x_ui s' = x_ui s ++ evs ∧ EvCredentialsChanged ctx ∈ evs.

Definition refusals : list wstr := [W "denied"; W "expired"; W "timeout"].

(** Phase 1 has a result, and an accepted phase 1 ends confirmed or with a refusal. *)
Definition verdict (s : Sys) : Prop :=
  w_beginDone (m_worker s) = true ∧
  (w_beginOk (m_worker s) = true → w_done (m_worker s) = true ∧
     (m_authenticated s = true ∨ w_status (m_worker s) ∈ refusals)).

Lemma ran_refl s : ran 0 s s.
Proof. split_and!; [exists []|exists []|done..]; by rewrite app_nil_r. Qed.

Lemma ran_trans n m s1 s2 s3 : ran n s1 s2 → ran m s2 s3 → ran (n + m) s1 s3.
Proof.
  intros ((l1 & E1 & L1) & (v1 & U1) & ? & ? & ? & J1) ((l2 & E2 & L2) & (v2 & U2) & ? & ? & ? & J2).
  split_and!; [| |congruence..].
  - exists (l1 ++ l2). rewrite E2, E1, app_assoc, length_app. split; [done|lia].
  - exists (v1 ++ v2). by rewrite U2, U1, app_assoc.
Qed.

Lemma ran_mono n m s s' : ran n s s' → (n ≤ m)%nat → ran m s s'.
Proof. intros ((l & E & L) & H) Hm. split; [|exact H]. exists l. split; [done|lia]. Qed.

Lemma ran_write s s' : x_net s' = x_net s → x_ui s' = x_ui s → m_config s' = m_config s →
  m_pProviderEvents s' = m_pProviderEvents s → w_stop (m_worker s') = w_stop (m_worker s) →
  (m_job s', m_jobPass s', m_jobOtp s') = (m_job s, m_jobPass s, m_jobOtp s) → ran 0 s s'.
Proof. intros E1 E2 **. split_and!; [exists []|exists []|done..]; by rewrite app_nil_r. Qed.

Lemma told_after n s1 s2 s3 : ran n s1 s2 → told s2 s3 → told s1 s3.
Proof.
  intros (_ & (v & U) & _ & Hp & _) Ht ctx Hc. destruct (Ht ctx) as (e & E & Hin); [congruence|].
  exists (v ++ e). rewrite E, U, app_assoc. split; [done|]. apply elem_of_app. by right.
Qed.

Lemma told_before n s1 s2 s3 : told s1 s2 → ran n s2 s3 → told s1 s3.
Proof.
  intros Ht (_ & (v & U) & _) ctx Hc. destruct (Ht ctx Hc) as (e & E & Hin).
  exists (e ++ v). rewrite U, E, app_assoc. split; [done|]. apply elem_of_app. by left.
Qed.

(** *** Steps *)
Lemma run_modify f (c : unit → prog unit) s : run_worker (modify f ≫= c) s = run_worker (c tt) (f s).
Proof. done. Qed.
Lemma run_gets {A} (g : Sys → A) c s : run_worker (gets g ≫= c) s = run_worker (c (g s)) s.
Proof. done. Qed.
Lemma run_act {A} (g : Sys → A * Sys) c s :
  run_worker (act g ≫= c) s = run_worker (c (g s).1) (g s).2.
Proof. done. Qed.
Lemma run_assoc {A C} (p : prog A) (k : A → prog C) c : ∀ s,
  run_worker ((p ≫= k) ≫= c) s = run_worker (p ≫= λ a, k a ≫= c) s.
Proof. induction p as [a|f q IH|q IH|q IH]; intros s; [done| |apply IH..]. apply (IH s). Qed.
Lemma run_tail (p : prog unit) s : run_worker p s = run_worker (p ≫= mret) s.
Proof. revert s. induction p as [[]|f q IH|q IH|q IH]; intros s; [done| |apply IH..]. apply (IH s). Qed.
Lemma run_when b p (c : unit → prog unit) s :
  run_worker (when b p ≫= c) s = if b then run_worker (p ≫= c) s else run_worker (c tt) s.
Proof. by destruct b. Qed.

Lemma ran_ui s evs : ran 0 s (add_ui evs s).
Proof.
  split_and!; [|by exists evs|done..]. exists []. by rewrite app_nil_r.
Qed.

Lemma run_notifies {A} (p : prog A) (c : A → prog unit) : ∀ s, notifies p →
  ∃ a evs, run_worker (p ≫= c) s = run_worker (c a) (add_ui evs s).
Proof.
  induction p as [a|f k IH|k IH|k IH]; intros s Hp; simpl in Hp; try done.
  - exists a, []. unfold add_ui. destruct s. cbn. by rewrite app_nil_r.
  - destruct (Hp s) as [Hf Hk]. destruct (IH s (f s) Hk) as (a & evs & E). destruct Hf as [evs' Ef].
    exists a, (evs' ++ evs).
    change (run_worker (k s ≫= c) (f s) = run_worker (c a) (add_ui (evs' ++ evs) s)).
    rewrite E, Ef. unfold add_ui. destruct s. cbn. by rewrite app_assoc.
Qed.

Lemma run_Field f c s : ∃ evs,
  run_worker (NotifyFieldChanged o f ≫= c) s = run_worker (c tt) (add_ui evs s).
Proof.
  destruct (run_notifies (NotifyFieldChanged o f) c s (notifies_Field o f)) as ([] & evs & E). by exists evs.
Qed.

Lemma run_Provider c s : run_worker (NotifyProviderChangedFromWorker ≫= c) s =
  run_worker (c tt) (add_ui (credentials_changed (m_pProviderEvents s)) s).
Proof. done. Qed.

Lemma told_Provider s : told s (add_ui (credentials_changed (m_pProviderEvents s)) s).
Proof.
  intros ctx Hc. exists (credentials_changed (m_pProviderEvents s)). split; [done|].
  unfold credentials_changed. rewrite Hc. by left.
Qed.

End Outcome.

(** Step over the notifications of a field. *)
Ltac xfield :=
  rewrite ?run_assoc;
  match goal with
  | |- context [run_worker (NotifyFieldChanged ?o ?f ≫= ?c) ?s] =>
    let evs := fresh "evs" in destruct (run_Field o f c s) as (evs & ->); cbv beta
  end.

Section Verdict.
Context (o : World).

Lemma run_notify_poll c s : ∃ s', run_worker (notify_poll o ≫= c) s = run_worker (c tt) s' ∧
  ui_only s s' ∧ told s s'.
Proof.
  unfold notify_poll. do 4 xfield. rewrite run_Provider.
  set (s4 := add_ui evs2 _). eexists. split; [reflexivity|].
  assert (ui_only s s4) as H4.
  { repeat (eapply ui_only_trans; [|by eexists]). apply ui_only_refl. }
  split; [eapply ui_only_trans; [exact H4|by eexists]|].
  eapply (told_after 0); [|apply told_Provider]. destruct H4 as [evs' ->]. apply ran_ui.
Qed.

Lemma verdict_ui s s' : ui_only s s' → verdict s → verdict s'.
Proof. by intros [evs ->]. Qed.
Lemma ran_ui_only s s' : ui_only s s' → ran 0 s s'.
Proof. intros [evs ->]. apply ran_ui. Qed.

(** What a run from [s] with at most [n] exchanges must achieve. *)
Definition decided (n : nat) (s s' : Sys) : Prop := ran n s s' ∧ told s s' ∧ verdict s'.

Lemma decided_after n m s1 s2 s3 : ran n s1 s2 → decided m s2 s3 → decided (n + m) s1 s3.
Proof.
  intros H1 (H2 & Ht & Hv). split_and!; [by eapply ran_trans|by eapply told_after|done].
Qed.

Lemma decided_mono n m s s' : decided n s s' → (n ≤ m)%nat → decided m s s'.
Proof. intros (H & ?) Hm. split; [by eapply ran_mono|done]. Qed.

(** The end of a poll: the terminal write, then the notifications, then at most a ticket. *)
Lemma decided_end s b tk : verdict s →
  decided 0 s (run_worker (notify_poll o;; when b (modify (λ s, s <| x_tickets := x_tickets s ++ tk |>))) s).
Proof.
  intros Hv. destruct (run_notify_poll (λ _, when b (modify (λ s, s <| x_tickets := x_tickets s ++ tk |>))) s)
    as (s1 & -> & Hu & Ht).
  assert (decided 0 s s1) as H1.
  { split_and!; [by apply ran_ui_only|done|by eapply verdict_ui]. }
  destruct b; [|exact H1]. cbn [when modify run_worker].
  destruct H1 as (H1 & H2 & H3).
  assert (ran 0 s1 (s1 <| x_tickets := x_tickets s1 ++ tk |>)) as H4 by (by apply ran_write).
  split_and!; [by apply (ran_trans 0 0 s s1)|by eapply (told_before 0)|exact H3].
Qed.

Lemma run_slices n c s : w_stop (m_worker s) = false → run_worker (slices n c) s = run_worker c s.
Proof. intros Hs. induction n as [|n IH]; [done|]. cbn. rewrite Hs. exact IH. Qed.

Lemma run_unless f (c : bool → prog unit) s : w_stop (m_worker s) = false →
  run_worker (unless_stopped f ≫= c) s = run_worker (c false) (f s).
Proof. intros Hs. unfold unless_stopped. rewrite run_act. cbn [fst snd]. by rewrite Hs. Qed.

Lemma run_call {O} (f : NetLog → O * HttpApiClient * NetLog) c s :
  run_worker (call f ≫= c) s =
  run_worker (c (f (x_net s)).1) (s <| x_net := (f (x_net s)).2 |>).
Proof. unfold call. rewrite run_act. by destruct (f (x_net s)) as [[out cl] log]. Qed.

Lemma ran_call s log l : log = x_net s ++ l → ran (length l) s (s <| x_net := log |>).
Proof.
  intros ->. split_and!; [by exists l|exists []; by rewrite app_nil_r|done..].
Qed.
End Verdict.

(** ** How many exchanges a call makes *)
Section Counts.
Context (o : World).

Definition grows (n : nat) (log log' : NetLog) : Prop := ∃ l, log' = log ++ l ∧ (length l ≤ n)%nat.

Lemma grows_of n log log' :
  (∃ l, log' = log ++ l) → (length log' ≤ length log + n)%nat → grows n log log'.
Proof. intros [l ->] H. exists l. rewrite length_app in H. split; [done|lia]. Qed.

Lemma StartPush_grows user pass c log :
  grows 1 log (StartPush (o_net o) (o_utf8 o) (o_wide o) (o_sys o) user pass c log).2.
Proof.
  destruct (StartPush _ _ _ _ _ _ c log) as [[out c'] log'] eqn:E. apply grows_of.
  { by apply StartPush_spec in E as [? _]. }
  unfold StartPush in E. destruct (SendRequest _ _ _ _ _ log) as [[[sent status] text] log1] eqn:E1.
  apply exchange_length in E1. cbn [snd]. repeat case_match; by simplify_eq.
Qed.

Lemma WebAuthnBegin_grows user pass c log :
  grows 1 log (WebAuthnBegin (o_net o) (o_utf8 o) (o_sys o) user pass c log).2.
Proof.
  destruct (WebAuthnBegin _ _ _ _ _ c log) as [[out c'] log'] eqn:E. apply grows_of.
  { by apply (WebAuthnBegin_spec o) in E as [? _]. }
  unfold WebAuthnBegin in E. destruct (SendRequest _ _ _ _ _ log) as [[[sent status] text] log1] eqn:E1.
  apply exchange_length in E1. cbn [snd]. repeat case_match; by simplify_eq.
Qed.

Lemma PollStatus_grows cid c log :
  grows 1 log (PollStatus (o_net o) (o_utf8 o) (o_wide o) cid c log).2.
Proof.
  destruct (PollStatus _ _ _ _ c log) as [[out c'] log'] eqn:E. apply grows_of.
  { by apply PollStatus_spec in E as [? _]. }
  unfold PollStatus in E. destruct (SendRequest _ _ _ _ _ log) as [[[sent status] text] log1] eqn:E1.
  apply exchange_length in E1. cbn [snd]. repeat case_match; by simplify_eq.
Qed.

Lemma VerifyCombined_grows user pass code c log :
  grows 2 log (VerifyCombined (o_net o) (o_utf8 o) (o_sys o) user pass code c log).2.
Proof.
  destruct (VerifyCombined _ _ _ _ _ _ c log) as [[[ok err] c'] log'] eqn:E. apply grows_of.
  { by apply VerifyCombined_spec in E as [? _]. }
  unfold VerifyCombined in E. cbv zeta in E.
  destruct (SendRequest _ _ _ _ _ log) as [[[sent status] text] log1] eqn:E1.
  destruct (SendRelayRequest _ _ _ _ _ log1) as [[[rsent rstatus] rtext] log2] eqn:E2.
  apply exchange_length in E1. apply exchange_length in E2. cbn [snd].
  repeat case_match; simplify_eq; lia.
Qed.

Lemma ran_grows n s log : grows n (x_net s) log → ran n s (s <| x_net := log |>).
Proof. intros (l & E & H). eapply ran_mono; [by apply (ran_call s log l)|done]. Qed.

(** ** The poll and the jobs end with a verdict *)
Lemma decided_poll_loop job cid user domain n : ∀ errors client s,
  w_stop (m_worker s) = false → w_beginDone (m_worker s) = true →
  decided n s (run_worker (poll_loop o n errors client job cid user domain) s).
Proof.
  induction n as [|n IH]; intros errors client s Hs Hb; cbn [poll_loop].
  - rewrite run_unless by done. cbn [negb when]. rewrite run_tail.
    destruct (run_notify_poll o mret (timeout_poll job s)) as (s1 & -> & Hu & Ht).
    apply (decided_after 0 0 s (timeout_poll job s)); [by apply ran_write|].
    split_and!; [by apply ran_ui_only|done|]. eapply verdict_ui; [exact Hu|].
    split; [exact Hb|]. intros _. split; [done|]. right. unfold refusals. set_solver.
  - rewrite run_slices, run_call by done. set (f := PollStatus _ _ _ cid client).
    pose proof (PollStatus_grows cid client (x_net s)) as Hg. fold f in Hg.
    set (s1 := s <| x_net := (f (x_net s)).2 |>).
    assert (ran 1 s s1) as H1 by (by apply ran_grows).
    destruct (f (x_net s)).1 as [p c']. cbv zeta. cbn [fst].
    destruct (po_ok p && is_terminal (po_status p)) eqn:Ek.
    + rewrite run_unless by done. cbn [negb].
      eapply decided_mono; [apply (decided_after 1 0 s s1); [exact H1|]|lia].
      eapply (decided_after 0 0); [|apply (decided_end o _ _ [(domain, user, po_ticket p)])].
      * by apply ran_write.
      * apply andb_true_iff in Ek as [_ Ek]. split; [exact Hb|]. intros _. split; [done|].
        unfold is_terminal in Ek. cbn. unfold refusals.
        destruct (bool_decide_reflect (po_status p = W "approved")) as [Ea|_].
        { left. by rewrite orb_true_r. }
        right. apply orb_true_iff in Ek as [Ek|Ek]; apply bool_decide_eq_true in Ek; rewrite Ek; set_solver.
    + unfold stopRequested. rewrite run_gets.
      change (w_stop (m_worker s1)) with (w_stop (m_worker s)). rewrite Hs.
      apply (decided_after 1 n s s1); [exact H1|]. by apply IH.
Qed.
End Counts.

Section Jobs.
Context (o : World).

(** After phase 1: tell LogonUI, then poll when there is a challenge. *)
Lemma decided_phase cfg client job cid user domain ok s :
  w_stop (m_worker s) = false → w_beginDone (m_worker s) = true → w_beginOk (m_worker s) = ok →
  decided (Z.to_nat (pushTimeoutSec cfg)) s
    (run_worker (NotifyProviderChangedFromWorker;;
       when ok (poll_phase o cfg client job cid user domain)) s).
Proof.
  intros Hs Hb Ho. rewrite run_Provider. set (s1 := add_ui _ s).
  assert (ran 0 s s1) as H1 by apply ran_ui. assert (told s s1) as Ht by apply told_Provider.
  destruct ok; cbn [when].
  - apply (decided_after 0 (Z.to_nat (pushTimeoutSec cfg)) s s1); [exact H1|].
    unfold poll_phase. cbv beta. apply decided_poll_loop; [exact Hs|exact Hb].
  - cbn [run_worker]. eapply decided_mono; [|apply Nat.le_0_l].
    split_and!; [exact H1|exact Ht|]. split; [exact Hb|].
    change (w_beginOk (m_worker s1)) with (w_beginOk (m_worker s)). rewrite Ho. by intros [=].
Qed.

Lemma decided_run_push cfg client user domain pass s : w_stop (m_worker s) = false →
  decided (1 + Z.to_nat (pushTimeoutSec cfg)) s (run_worker (run_push o cfg client user domain pass) s).
Proof.
  intros Hs. unfold run_push. rewrite run_call. set (f := StartPush _ _ _ _ user pass client).
  pose proof (StartPush_grows o user pass client (x_net s)) as Hg. fold f in Hg.
  set (s1 := s <| x_net := (f (x_net s)).2 |>).
  assert (ran 1 s s1) as H1 by (by apply ran_grows).
  destruct (f (x_net s)).1 as [out c']. cbv zeta. cbn [fst snd].
  apply (decided_after 1 _ s s1); [exact H1|]. rewrite run_unless by done. cbv iota.
  set (s2 := if so_ok out then _ else _).
  assert (ran 0 s1 s2 ∧ w_beginDone (m_worker s2) = true ∧ w_beginOk (m_worker s2) = so_ok out ∧
    w_stop (m_worker s2) = false) as (H2 & Hb & Ho & Hs2).
  { unfold s2. destruct (so_ok out); (split; [by apply ran_write|done]). }
  clearbody s2. apply (decided_after 0 _ s1 s2); [exact H2|]. rewrite run_when.
  destruct (so_ok out) eqn:Eok.
  - do 3 xfield. set (s3 := add_ui _ (add_ui _ (add_ui _ s2))).
    apply (decided_after 0 _ s2 s3); [apply ran_ui_only; repeat (eapply ui_only_trans; [|by eexists]);
      apply ui_only_refl|].
    by apply (decided_phase cfg c' JobStartPush _ user domain true).
  - by apply (decided_phase cfg c' JobStartPush (so_challenge out) user domain false).
Qed.

Lemma decided_run_webauthn cfg client user domain pass s : w_stop (m_worker s) = false →
  decided (1 + Z.to_nat (pushTimeoutSec cfg)) s
    (run_worker (run_webauthn o cfg client user domain pass) s).
Proof.
  intros Hs. unfold run_webauthn. rewrite run_call. set (f := WebAuthnBegin _ _ _ user pass client).
  pose proof (WebAuthnBegin_grows o user pass client (x_net s)) as Hg. fold f in Hg.
  set (s1 := s <| x_net := (f (x_net s)).2 |>).
  assert (ran 1 s s1) as H1 by (by apply ran_grows).
  destruct (f (x_net s)).1 as [out c']. cbv zeta. cbn [fst snd].
  apply (decided_after 1 _ s s1); [exact H1|]. rewrite run_unless by done. cbv iota.
  set (s2 := if wb_success out then _ else _).
  assert (ran 0 s1 s2 ∧ w_beginDone (m_worker s2) = true ∧ w_beginOk (m_worker s2) = wb_success out ∧
    w_stop (m_worker s2) = false) as (H2 & Hb & Ho & Hs2).
  { unfold s2. destruct (wb_success out); (split; [by apply ran_write|done]). }
  clearbody s2. apply (decided_after 0 _ s1 s2); [exact H2|]. do 2 xfield.
  set (s3 := add_ui _ (add_ui _ s2)).
  apply (decided_after 0 _ s2 s3); [apply ran_ui_only; repeat (eapply ui_only_trans; [|by eexists]);
    apply ui_only_refl|].
  by apply (decided_phase cfg c' JobWebAuthnBegin _ user domain (wb_success out)).
Qed.

Lemma decided_tell f s : verdict s →
  decided 0 s (run_worker (NotifyFieldChanged o f;; NotifyProviderChangedFromWorker) s).
Proof.
  intros Hv. rewrite (run_tail (_ ;; _)). xfield. rewrite run_Provider. cbn [run_worker mret prog_mret].
  set (s1 := add_ui _ s). apply (decided_after 0 0 s s1); [apply ran_ui|].
  split_and!; [apply ran_ui|apply told_Provider|exact Hv].
Qed.

Lemma decided_run_otp client user pass otp s : w_stop (m_worker s) = false →
  decided 2 s (run_worker (run_otp o client user pass otp) s) ∧
  w_done (m_worker (run_worker (run_otp o client user pass otp) s)) = true.
Proof.
  intros Hs. unfold run_otp. rewrite run_call. set (f := VerifyCombined _ _ _ user pass otp client).
  pose proof (VerifyCombined_grows o user pass otp client (x_net s)) as Hg. fold f in Hg.
  set (s1 := s <| x_net := (f (x_net s)).2 |>).
  assert (ran 2 s s1) as H1 by (by apply ran_grows).
  destruct (f (x_net s)).1 as [[ok err] c']. cbv zeta. cbn [fst snd]. rewrite run_unless by done. cbv iota.
  set (s2 := if ok then _ else _).
  assert (ran 0 s1 s2 ∧ verdict s2 ∧ w_done (m_worker s2) = true) as (H2 & Hv & Hd).
  { unfold s2. destruct ok; (split; [by apply ran_write|]); (split; [split; [done|]|done]).
    - intros _. split; [done|by left].
    - by intros [=]. }
  clearbody s2. split.
  - apply (decided_after 2 0 s s1); [exact H1|]. apply (decided_after 0 0 s1 s2); [exact H2|].
    by apply decided_tell.
  - rewrite (run_tail (_ ;; _)). xfield. exact Hd.
Qed.

Lemma decided_run_job cfg cpus j s : j_job j ≠ JobNone → w_stop (m_worker s) = false →
  decided (match j_job j with JobVerifyOtp => 2 | _ => 1 + Z.to_nat (pushTimeoutSec cfg) end) s
    (run_worker (run_job o cfg cpus j) s).
Proof.
  intros Hj Hs. unfold run_job. destruct (j_job j); [done| | |].
  - by apply decided_run_push.
  - by apply decided_run_webauthn.
  - by apply decided_run_otp.
Qed.
End Jobs.

(** C4: A worker that nobody stops comes to a verdict after a bounded number of requests
    (two for a code, one plus one per second of the push timeout otherwise): phase 1 has its
    result, an accepted phase 1 ends confirmed or with [denied], [expired] or [timeout],
    LogonUI is told to ask again, and the worker's copy of the secrets is gone. *)
Theorem RunAsyncJob_verdict (o : World) (s : Sys) :
  m_job s ≠ JobNone → w_stop (m_worker s) = false →
  let s' := run_worker (RunAsyncJob o) s in
  (∃ l, x_net s' = x_net s ++ l ∧
     (length l ≤ match m_job s with
                 | JobVerifyOtp => 2 | _ => 1 + Z.to_nat (pushTimeoutSec (m_config s)) end)%nat) ∧
  w_beginDone (m_worker s') = true ∧
  (w_beginOk (m_worker s') = true → w_done (m_worker s') = true ∧
     (m_authenticated s' = true ∨ w_status (m_worker s') ∈ refusals)) ∧
  told s s' ∧ m_job s' = JobNone ∧ m_jobPass s' = [] ∧ m_jobOtp s' = [].
Proof.
  intros Hj Hs. set (n := match m_job s with JobVerifyOtp => _ | _ => _ end). set (s1 := (take_job s).2).
  cbv zeta. set (r := run_worker (RunAsyncJob o) s).
  assert (decided n s1 r) as (((l & El & Hl) & _ & _ & _ & _ & Hjob) & Ht & Hv).
  { unfold r, RunAsyncJob. rewrite run_act, run_gets. cbn [fst snd].
    assert (∀ s2, ran 0 s1 s2 → decided n s1 (run_worker (run_job o (m_config s) (m_cpus s) (take_job s).1) s2)) as Hrun.
    { intros s2 H2. apply (decided_after 0 n s1 s2); [exact H2|].
      apply (decided_run_job o (m_config s) (m_cpus s) (take_job s).1 s2); [exact Hj|].
      destruct H2 as (_ & _ & _ & _ & H2 & _). rewrite H2. exact Hs. }
    case_match; [|apply Hrun, ran_refl].
    unfold consult_gate. rewrite run_act. cbn [fst snd].
    set (g := (CheckRdpMfaSatisfied _ _ _ _ _ _ _ _).1). set (s2 := s1 <| x_gates := x_gates s1 ++ [(j_user (take_job s).1, g)] |>).
    assert (ran 0 s1 s2) as H2 by (by apply ran_write).
    destruct (satisfied g); [|by apply Hrun].
    rewrite run_unless by exact Hs. cbn [negb when].
    eapply decided_mono; [|apply Nat.le_0_l]. apply (decided_after 0 0 s1 (gate_satisfied s2)).
    - by apply ran_write.
    - apply decided_tell. split; [done|]. intros _. split; [done|by left]. }
  injection Hjob as -> -> ->. split_and!; [by exists l|apply Hv|apply Hv|exact Ht|done..].
Qed.

Definition loaded_tile : Sys :=
  (load_job JobStartPush (W "Отправка Push...") (tile approving a_config false CPUS_LOGON 0).2)
    <| m_jobUser := W "alice" |> <| m_jobPass := W "pw" |>.

Lemma RunAsyncJob_verdict_witness :
  let s := loaded_tile in let s' := run_worker (RunAsyncJob approving) s in
  m_job s ≠ JobNone ∧ w_stop (m_worker s) = false ∧ m_authenticated s' = true ∧
  (∃ l, x_net s' = x_net s ++ l ∧
     (length l ≤ match m_job s with
                 | JobVerifyOtp => 2 | _ => 1 + Z.to_nat (pushTimeoutSec (m_config s)) end)%nat) ∧
  w_beginDone (m_worker s') = true ∧
  (w_beginOk (m_worker s') = true → w_done (m_worker s') = true ∧
     (m_authenticated s' = true ∨ w_status (m_worker s') ∈ refusals)) ∧
  told s s' ∧ m_job s' = JobNone ∧ m_jobPass s' = [] ∧ m_jobOtp s' = [].
Proof.
  assert (m_job loaded_tile ≠ JobNone) as H1 by (vm_compute; intros [=]).
  assert (w_stop (m_worker loaded_tile) = false) as H2 by (vm_compute; reflexivity).
  split; [exact H1|]. split; [exact H2|]. split; [vm_compute; reflexivity|].
  exact (RunAsyncJob_verdict approving loaded_tile H1 H2).
Defined.
