(* ===== verification/ComModule.v ===== *)
(** * The provider's module

    [windows/credential_provider/dllmain.cpp], [ClassFactory.cpp] and the
    reference counts of [LigamentProvider.cpp] and [LigamentCredential.cpp]: when
    the DLL may be unloaded, and which objects are alive until then. The objects
    are a heap; what the clients (LogonUI, COM) hold of it is counted beside it.
    The second half is the registration. *)
From stdpp Require Import functions.
From S2P Require Import Prelude Config.
#[local] Remove Hints finite.finite_countable : typeclass_instances.

Abbreviation HR := Z.
Definition S_OK : HR := 0.
Definition S_FALSE : HR := 1.
Definition E_POINTER : HR := 0x80004003.
Definition E_NOINTERFACE : HR := 0x80004002.
Definition E_INVALIDARG : HR := 0x80070057.
Definition CLASS_E_NOAGGREGATION : HR := 0x80040110.
Definition CLASS_E_CLASSNOTAVAILABLE : HR := 0x80040111.

(** ** Objects *)

(** Each with its [m_cRef]; a provider with its [m_pCredential]. *)
Inductive Obj := Factory (m_cRef : Z) | Provider (m_cRef : Z) (m_pCredential : option nat) | Credential (m_cRef : Z).

Definition refs (o : Obj) : Z := match o with Factory n | Provider n _ | Credential n => n end.
Definition set_refs (n : Z) (o : Obj) : Obj :=
  match o with Factory _ => Factory n | Provider _ c => Provider n c | Credential _ => Credential n end.

Record Com := mkCom {
  heap : gmap nat Obj; next : nat; g_cRefDll : Z;
  held : gmap nat nat;                 (* references in the clients' hands *)
  locks : nat }.                       (* LockServer(TRUE) not undone *)

#[export] Instance eta_Com : Settable Com := λ s,
  mkCom (heap s) (next s) (g_cRefDll s) (held s) (locks s).

Definition InterlockedIncrement (z : Z) : Z := i32 (z + 1).
Definition InterlockedDecrement (z : Z) : Z := i32 (z - 1).

(** The constructors: a new object has one reference. *)
Definition construct (o : Obj) (s : Com) : nat * Com :=
  (next s, s <| heap := <[next s := o]> (heap s) |> <| next := S (next s) |>
             <| g_cRefDll := InterlockedIncrement (g_cRefDll s) |>).

Definition AddRef (id : nat) (s : Com) : Com :=
  s <| heap := alter (λ o, set_refs (InterlockedIncrement (refs o)) o) id (heap s) |>.

(** [delete this]; the count of the DLL falls in every destructor. *)
Definition free (id : nat) (s : Com) : Com :=
  s <| heap := delete id (heap s) |> <| g_cRefDll := InterlockedDecrement (g_cRefDll s) |>.

(** [Release] of an object that owns no other. *)
Definition Release_leaf (id : nat) (s : Com) : Com :=
  match heap s !! id with
  | Some o =>
    let c := InterlockedDecrement (refs o) in
    if c =? 0 then free id s else s <| heap := <[id := set_refs c o]> (heap s) |>
  | None => s
  end.

(** [Release]; the destructor of a provider releases its credential. *)
Definition Release (id : nat) (s : Com) : Com :=
  match heap s !! id with
  | Some (Provider n (Some c)) =>
    if InterlockedDecrement n =? 0 then Release_leaf c (free id s)
    else s <| heap := <[id := Provider (InterlockedDecrement n) (Some c)]> (heap s) |>
  | _ => Release_leaf id s
  end.

(** A reference passes to the client, or comes back. *)
Definition give (id : nat) (s : Com) : Com := s <| held := <[id := S (default 0%nat (held s !! id))]> (held s) |>.
Definition take_back (id : nat) (s : Com) : Com :=
  s <| held := <[id := pred (default 0%nat (held s !! id))]> (held s) |>.

(** [QueryInterface] by [QISearch]: one of the interfaces in the table or not. *)
Definition QueryInterface (id : nat) (supported : bool) (s : Com) : HR * Com :=
  if supported then (S_OK, give id (AddRef id s)) else (E_NOINTERFACE, s).

(** ** Entry points *)
Definition DllCanUnloadNow (s : Com) : HR := if g_cRefDll s =? 0 then S_OK else S_FALSE.

Definition DllGetClassObject (ppv our_clsid supported : bool) (s : Com) : HR * Com :=
  if negb ppv then (E_POINTER, s) else
  if our_clsid then
    let '(id, s) := construct (Factory 1) s in
    let '(hr, s) := QueryInterface id supported s in
    (hr, Release id s)
  else (CLASS_E_CLASSNOTAVAILABLE, s).

Definition CreateInstance (outer ppv supported : bool) (s : Com) : HR * Com :=
  if outer then (CLASS_E_NOAGGREGATION, s) else
  if negb ppv then (E_POINTER, s) else
  let '(id, s) := construct (Provider 1 None) s in
  let '(hr, s) := QueryInterface id supported s in
  (hr, Release id s).

Definition LockServer (fLock : bool) (s : Com) : HR * Com :=
  (S_OK, if fLock
         then s <| g_cRefDll := InterlockedIncrement (g_cRefDll s) |> <| locks := S (locks s) |>
         else s <| g_cRefDll := InterlockedDecrement (g_cRefDll s) |> <| locks := pred (locks s) |>).

(** The part of [LigamentProvider::SetUsageScenario] that creates the tile, when
    2FA applies. *)
Definition provide_credential (id : nat) (shouldEnforce2FA : bool) (s : Com) : Com :=
  match heap s !! id with
  | Some (Provider n None) =>
    if shouldEnforce2FA then
      let '(c, s) := construct (Credential 1) s in
      s <| heap := <[id := Provider n (Some c)]> (heap s) |>
    else s
  | _ => s
  end.

Definition hand_out_credential (id : nat) (ppcpc : bool) (dwIndex : Z) (s : Com) : HR * Com :=
  if negb ppcpc then (E_POINTER, s) else
  match heap s !! id with
  | Some (Provider _ (Some c)) =>
    if negb (dwIndex =? 0) then (E_INVALIDARG, s) else (S_OK, give c (AddRef c s))
  | _ => (E_INVALIDARG, s)
  end.

(** ** Clients *)
Inductive Op :=
  | OpGetClassObject (ppv our_clsid supported : bool)
  | OpCreateInstance (factory : nat) (outer ppv supported : bool)
  | OpLockServer (factory : nat) (fLock : bool)
  | OpQueryInterface (id : nat) (supported : bool)
  | OpAddRef (id : nat) | OpRelease (id : nat)
  | OpProvide (id : nat) (shouldEnforce2FA : bool)
  | OpHandOut (id : nat) (ppcpc : bool) (dwIndex : Z).

Definition run_op (s : Com) (op : Op) : Com :=
  match op with
  | OpGetClassObject ppv ours sup => (DllGetClassObject ppv ours sup s).2
  | OpCreateInstance _ outer ppv sup => (CreateInstance outer ppv sup s).2
  | OpLockServer _ b => (LockServer b s).2
  | OpQueryInterface id sup => (QueryInterface id sup s).2
  | OpAddRef id => give id (AddRef id s)
  | OpRelease id => Release id (take_back id s)
  | OpProvide id b => provide_credential id b s
  | OpHandOut id pp i => (hand_out_credential id pp i s).2
  end.

Definition holding (s : Com) (id : nat) : nat := default 0%nat (held s !! id).

(** The rules of COM: a client calls an object, and releases it, only while it
    holds a reference, and undoes only its own locks. *)
Definition allowed (s : Com) (op : Op) : Prop :=
  match op with
  | OpGetClassObject _ _ _ => True
  | OpCreateInstance id _ _ _ => (0 < holding s id)%nat
  | OpLockServer id b => (0 < holding s id)%nat ∧ (b = false → (0 < locks s)%nat)
  | OpQueryInterface id _ | OpAddRef id | OpRelease id | OpProvide id _ | OpHandOut id _ _ =>
    (0 < holding s id)%nat
  end.

(** No count reaches the end of a [LONG]. *)
Definition small (s : Com) : Prop :=
  Z.of_nat (size (heap s)) + Z.of_nat (locks s) < 2 ^ 31 - 2 ∧ ∀ id, Z.of_nat (holding s id) < 2 ^ 31 - 3.

Definition no_objects : Com := mkCom ∅ 0 0 ∅ 0.

Inductive reach : Com → Prop :=
  | reach_start : reach no_objects
  | reach_step s op : reach s → small s → allowed s op → reach (run_op s op).

(** ** The invariant *)

(** [id] is some provider's credential. *)
Definition owned (m : gmap nat Obj) (id : nat) : Prop := ∃ p n, m !! p = Some (Provider n (Some id)).

(** The heap against a ledger [h] of the references that are not a provider's.
    Within a call the ledger also counts the references the call itself has. *)
Record com_inv (s : Com) (h : nat → nat) : Prop := {
  inv_dll : g_cRefDll s = Z.of_nat (size (heap s)) + Z.of_nat (locks s);
  inv_next : ∀ id, (next s <= id)%nat → heap s !! id = None;
  inv_dead : ∀ id, heap s !! id = None → h id = 0%nat;
  inv_refs : ∀ id o, heap s !! id = Some o → 0 < refs o ∧
    ∃ b : bool, refs o = Z.of_nat (h id) + (if b then 1 else 0) ∧ (b = true ↔ owned (heap s) id);
  inv_child : ∀ p n c, heap s !! p = Some (Provider n (Some c)) → ∃ k, heap s !! c = Some (Credential k);
  inv_owner : ∀ p p' n n' c, heap s !! p = Some (Provider n (Some c)) →
    heap s !! p' = Some (Provider n' (Some c)) → p = p' }.

Definition leaf (o : Obj) : Prop := match o with Provider _ (Some _) => False | _ => True end.

Lemma refs_set n o : refs (set_refs n o) = n.
Proof. by destruct o. Qed.

Lemma owned_insert (m : gmap nat Obj) id o x :
  leaf o → (∀ o', m !! id = Some o' → leaf o') → owned (<[id := o]> m) x ↔ owned m x.
Proof.
  intros Hl Hm. unfold owned. split; intros (p & n & H).
  - destruct (decide (id = p)) as [<-|]; [rewrite lookup_insert_eq in H; simplify_eq; done|].
    rewrite lookup_insert_ne in H by done. eauto.
  - exists p, n. destruct (decide (id = p)) as [<-|]; [by apply Hm in H|]. by rewrite lookup_insert_ne.
Qed.

(** Changing a count only. *)
Lemma lookup_set_refs (m : gmap nat Obj) id n o p k c :
  m !! id = Some o →
  (<[id := set_refs n o]> m !! p = Some (Provider k (Some c)) →
   ∃ k', m !! p = Some (Provider k' (Some c))) ∧
  (m !! p = Some (Provider k (Some c)) →
   ∃ k', <[id := set_refs n o]> m !! p = Some (Provider k' (Some c))).
Proof.
  intros Ho. destruct (decide (id = p)) as [<-|].
  - rewrite lookup_insert_eq, Ho. split; destruct o; intros; simplify_eq/=; eauto.
  - rewrite lookup_insert_ne by done. eauto.
Qed.

Lemma owned_set_refs (m : gmap nat Obj) id n o x :
  m !! id = Some o → owned (<[id := set_refs n o]> m) x ↔ owned m x.
Proof. intros Ho. split; intros (p & k & H); apply (lookup_set_refs m id n o p k x Ho) in H as [k' H]; by exists p, k'. Qed.

(** The count of one object and its ledger entry move together. *)
Lemma count_inv s h id o n k :
  com_inv s h → heap s !! id = Some o → n = Z.of_nat k - Z.of_nat (h id) → 0 < refs o + n →
  com_inv (s <| heap := <[id := set_refs (refs o + n) o]> (heap s) |>) (<[id := k]> h).
Proof.
  intros [H1 H2 H3 H4 H5 H6] Ho Hk Hpos.
  assert (Hid : ∀ x, <[id := set_refs (refs o + n) o]> (heap s) !! x = None → heap s !! x = None).
  { intros x. destruct (decide (id = x)) as [<-|]; [by rewrite lookup_insert_eq|by rewrite lookup_insert_ne]. }
  split; cbn.
  - by rewrite map_size_insert_Some by eauto.
  - intros x Hx. rewrite lookup_insert_ne; [by apply H2|]. intros ->. by rewrite H2 in Ho.
  - intros x Hx. destruct (decide (id = x)) as [<-|]; [by rewrite lookup_insert_eq in Hx|].
    rewrite fn_lookup_insert_ne by done. by apply H3, Hid.
  - intros x o' Hx. destruct (H4 _ _ Ho) as (_ & b & Hb & Hbo).
    destruct (decide (id = x)) as [<-|Hne].
    + rewrite lookup_insert_eq in Hx. simplify_eq. rewrite refs_set, fn_lookup_insert. split; [lia|].
      exists b. split; [lia|]. by rewrite owned_set_refs.
    + rewrite lookup_insert_ne in Hx by done. rewrite fn_lookup_insert_ne by done.
      destruct (H4 _ _ Hx) as (? & b' & ? & ?). split; [done|]. exists b'. by rewrite owned_set_refs.
  - intros p m c Hp. apply (lookup_set_refs _ _ _ _ _ _ _ Ho) in Hp as [k' Hp].
    destruct (H5 _ _ _ Hp) as [j Hj]. destruct (decide (id = c)) as [<-|].
    + rewrite Ho in Hj. simplify_eq. rewrite lookup_insert_eq. by eexists.
    + rewrite lookup_insert_ne by done. eauto.
  - intros p p' m m' c Hp Hp'. apply (lookup_set_refs _ _ _ _ _ _ _ Ho) in Hp as [? ?], Hp' as [? ?]. eauto.
Qed.

Lemma alter_some {A} (f : A → A) (m : gmap nat A) id o : m !! id = Some o → alter f id m = <[id := f o]> m.
Proof.
  intros Ho. apply map_eq. intros x. destruct (decide (id = x)) as [<-|].
  - by rewrite lookup_alter_eq, lookup_insert_eq, Ho.
  - by rewrite lookup_alter_ne, lookup_insert_ne.
Qed.

Lemma AddRef_inv s h id o :
  com_inv s h → heap s !! id = Some o → refs o < 2 ^ 31 - 1 → com_inv (AddRef id s) (<[id := S (h id)]> h).
Proof.
  intros Hi Ho Hb. unfold AddRef. rewrite (alter_some _ _ _ _ Ho).
  destruct (inv_refs _ _ Hi _ _ Ho) as (Hpos & _).
  unfold InterlockedIncrement. rewrite i32_small by lia. apply count_inv; [done..|lia|lia].
Qed.

Lemma construct_inv s h o :
  com_inv s h → leaf o → refs o = 1 → Z.of_nat (size (heap s)) + Z.of_nat (locks s) < 2 ^ 31 - 1 →
  com_inv (construct o s).2 (<[next s := 1%nat]> h).
Proof.
  intros [H1 H2 H3 H4 H5 H6] Hl Hr Hb. unfold construct. cbn [snd].
  assert (Hn : heap s !! next s = None) by by apply H2.
  assert (Hno : ∀ p n c, heap s !! p = Some (Provider n (Some c)) → c ≠ next s).
  { intros p n c Hp ->. apply H5 in Hp as [k Hk]. congruence. }
  assert (Hins : ∀ p n c, <[next s := o]> (heap s) !! p = Some (Provider n (Some c)) →
    heap s !! p = Some (Provider n (Some c))).
  { intros p n c. destruct (decide (next s = p)) as [<-|]; [rewrite lookup_insert_eq; by intros [= ->]|].
    by rewrite lookup_insert_ne. }
  split; cbn.
  - rewrite map_size_insert_None by done. unfold InterlockedIncrement. rewrite H1, i32_small by lia. lia.
  - intros id Hid. rewrite lookup_insert_ne by lia. apply H2. lia.
  - intros id Hid. destruct (decide (next s = id)) as [<-|]; [by rewrite lookup_insert_eq in Hid|].
    rewrite lookup_insert_ne in Hid by done. rewrite fn_lookup_insert_ne by done. by apply H3.
  - intros id o' Hid. destruct (decide (next s = id)) as [<-|Hne].
    + rewrite lookup_insert_eq in Hid. simplify_eq. rewrite fn_lookup_insert. split; [lia|].
      exists false. split; [lia|]. split; [done|]. intros (p & n & Hp). by apply Hins, Hno in Hp.
    + rewrite lookup_insert_ne in Hid by done. rewrite fn_lookup_insert_ne by done.
      destruct (H4 _ _ Hid) as (? & b & ? & Hb'). split; [done|]. exists b.
      rewrite owned_insert by (try done; congruence). done.
  - intros p n c Hp%Hins. destruct (H5 _ _ _ Hp) as [k Hk]. exists k.
    rewrite lookup_insert_ne; [done|]. intros <-. by eapply Hno.
  - intros p p' n n' c Hp%Hins Hp'%Hins. by eapply H6.
Qed.

(** Deletion: a provider's reference to its credential passes to the ledger. *)
Definition after_free (o : Obj) (h : nat → nat) : nat → nat :=
  match o with Provider _ (Some c) => <[c := S (h c)]> h | _ => h end.

Lemma owned_delete (m : gmap nat Obj) id x :
  owned (delete id m) x → owned m x ∧ (∀ n, m !! id = Some (Provider n (Some x)) →
    ∃ p n', p ≠ id ∧ m !! p = Some (Provider n' (Some x))).
Proof.
  intros (p & n & H). destruct (decide (id = p)) as [<-|]; [by rewrite lookup_delete_eq in H|].
  rewrite lookup_delete_ne in H by done. split; [by exists p, n|]. eauto.
Qed.

Lemma free_inv s h id o :
  com_inv s h → heap s !! id = Some o → h id = 1%nat → ¬ owned (heap s) id →
  Z.of_nat (size (heap s)) + Z.of_nat (locks s) < 2 ^ 31 →
  com_inv (free id s) (after_free o (<[id := 0%nat]> h)).
Proof.
  intros [H1 H2 H3 H4 H5 H6] Ho Hh Hown Hb.
  assert (Hc : ∀ n c, o = Provider n (Some c) → c ≠ id).
  { intros n c -> ->. apply Hown. by exists id, n. }
  assert (Hdel : ∀ p n c, delete id (heap s) !! p = Some (Provider n (Some c)) →
    p ≠ id ∧ heap s !! p = Some (Provider n (Some c))).
  { intros p n c. destruct (decide (id = p)) as [<-|]; [by rewrite lookup_delete_eq|].
    rewrite lookup_delete_ne by done. auto. }
  split; cbn.
  - rewrite map_size_delete_Some by eauto. unfold InterlockedDecrement.
    assert (size (heap s) ≠ 0%nat).
    { intros E%map_size_empty_inv. rewrite E in Ho. by rewrite lookup_empty in Ho. }
    rewrite H1, i32_small by lia. lia.
  - intros x Hx. destruct (decide (id = x)) as [<-|]; [by rewrite lookup_delete_eq|].
    rewrite lookup_delete_ne by done. by apply H2.
  - intros x Hx. assert (Hz : (<[id := 0%nat]> h) x = 0%nat).
    { destruct (decide (id = x)) as [<-|]; [by rewrite fn_lookup_insert|].
      rewrite lookup_delete_ne in Hx by done. rewrite fn_lookup_insert_ne by done. by apply H3. }
    destruct o as [|n [c|]|]; cbn [after_free]; try done.
    destruct (decide (c = x)) as [<-|]; [|by rewrite fn_lookup_insert_ne].
    destruct (H5 _ _ _ Ho) as [k Hk]. rewrite lookup_delete_ne in Hx by (by apply not_eq_sym, (Hc n)).
    congruence.
  - intros x o' Hx. destruct (decide (id = x)) as [<-|Hne]; [by rewrite lookup_delete_eq in Hx|].
    rewrite lookup_delete_ne in Hx by done. destruct (H4 _ _ Hx) as (Hp & b & Hr & Hbo). split; [done|].
    assert (Hcase : (∃ n, o = Provider n (Some x)) ∨ ∀ n, o ≠ Provider n (Some x)).
    { destruct o as [|n [c|]|]; try (right; done). destruct (decide (c = x)) as [->|]; [eauto|right; naive_solver]. }
    destruct Hcase as [[n ->]|Hn].
    + exists false. cbn [after_free]. rewrite fn_lookup_insert, fn_lookup_insert_ne by done.
      assert (b = true) as -> by (apply Hbo; by exists id, n). split; [lia|]. split; [done|].
      intros [_ Hd]%owned_delete. destruct (Hd n Ho) as (p & n' & Hp' & Hpx). destruct Hp'. by eapply H6.
    + exists b. assert (after_free o (<[id := 0%nat]> h) x = h x) as ->.
      { destruct o as [|n [c|]|]; cbn [after_free]; rewrite ?fn_lookup_insert_ne; try done; intros ->; naive_solver. }
      split; [done|]. rewrite Hbo. split; [|by intros [? _]%owned_delete].
      intros (p & m & Hpm). exists p, m. rewrite lookup_delete_ne; [done|]. intros <-. rewrite Ho in Hpm.
      injection Hpm as ->. by apply (Hn m).
  - intros p n c [Hne Hp]%Hdel. destruct (H5 _ _ _ Hp) as [k Hk]. exists k.
    rewrite lookup_delete_ne; [done|]. intros <-. apply Hown. by exists p, n.
  - intros p p' n n' c [_ Hp]%Hdel [_ Hp']%Hdel. by eapply H6.
Qed.

Lemma com_inv_ext s h h' : (∀ x, h x = h' x) → com_inv s h → com_inv s h'.
Proof.
  intros He [H1 H2 H3 H4 H5 H6]. split; [done..| | |done|done].
  - intros id Hid. rewrite <- He. by apply H3.
  - intros id o Hid. rewrite <- He. by apply H4.
Qed.

Lemma com_inv_held s x h : com_inv s h → com_inv (s <| held := x |>) h.
Proof. intros [H1 H2 H3 H4 H5 H6]. by split. Qed.

Lemma alive s h id : com_inv s h → (0 < h id)%nat → ∃ o, heap s !! id = Some o.
Proof. intros Hi Hh. destruct (heap s !! id) eqn:E; [eauto|]. rewrite (inv_dead _ _ Hi _ E) in Hh. lia. Qed.

Lemma refs_bound s h id o :
  com_inv s h → heap s !! id = Some o → Z.of_nat (h id) <= refs o <= Z.of_nat (h id) + 1.
Proof. intros Hi Ho. destruct (inv_refs _ _ Hi _ _ Ho) as (_ & b & -> & _). destruct b; lia. Qed.

(** The last reference goes. *)
Lemma last_ref s h id o :
  com_inv s h → heap s !! id = Some o → (0 < h id)%nat → refs o = 1 → h id = 1%nat ∧ ¬ owned (heap s) id.
Proof.
  intros Hi Ho Hh Hr. destruct (inv_refs _ _ Hi _ _ Ho) as (_ & b & Hb & Hbo).
  destruct b; [lia|]. split; [lia|]. rewrite <- Hbo. done.
Qed.

Definition room (s : Com) : Prop := Z.of_nat (size (heap s)) + Z.of_nat (locks s) < 2 ^ 31.

Lemma Release_leaf_inv s h id o :
  com_inv s h → room s → heap s !! id = Some o → leaf o → (0 < h id)%nat → Z.of_nat (h id) < 2 ^ 31 - 1 →
  com_inv (Release_leaf id s) (<[id := pred (h id)]> h).
Proof.
  intros Hi Hroom Ho Hl Hh Hb. pose proof (refs_bound _ _ _ _ Hi Ho) as Hrb.
  unfold Release_leaf, InterlockedDecrement. rewrite Ho. cbv zeta. rewrite i32_small by lia.
  destruct (Z.eqb_spec (refs o - 1) 0).
  - destruct (last_ref _ _ _ _ Hi Ho Hh) as [H1 Hn]; [lia|]. rewrite H1.
    eapply com_inv_ext; [|by apply (free_inv s h id o)]. intros x. by destruct o as [|? []|].
  - apply (count_inv s h id o (-1) (pred (h id)) Hi Ho); lia.
Qed.

Lemma Release_inv s h id :
  com_inv s h → room s → (∀ x, Z.of_nat (h x) < 2 ^ 31 - 2) → (0 < h id)%nat →
  com_inv (Release id s) (<[id := pred (h id)]> h).
Proof.
  intros Hi Hroom Hb Hh. destruct (alive s h id Hi Hh) as [o Ho]. pose proof (Hb id) as Hbid.
  pose proof (refs_bound _ _ _ _ Hi Ho) as Hrb. unfold Release. rewrite Ho.
  destruct o as [n|n [c|]|n]; try (apply (Release_leaf_inv _ _ _ _ Hi Hroom Ho); [done|done|lia]).
  unfold InterlockedDecrement. cbn [refs] in Hrb. rewrite i32_small by lia. destruct (Z.eqb_spec (n - 1) 0).
  - destruct (last_ref _ _ _ _ Hi Ho Hh) as [H1 Hn]; [cbn; lia|]. rewrite H1. cbn [pred].
    pose proof (free_inv _ _ _ _ Hi Ho H1 Hn Hroom) as Hf. cbn [after_free] in Hf.
    destruct (inv_child _ _ Hi _ _ _ Ho) as [k Hk].
    assert (Hne : id ≠ c) by (intros <-; congruence).
    assert (Hc : heap (free id s) !! c = Some (Credential k)) by (cbn; by rewrite lookup_delete_ne).
    assert (Hroom' : room (free id s)).
    { unfold room in *. cbn. rewrite map_size_delete_Some by eauto. lia. }
    pose proof (Hb c) as Hbc.
    pose proof (Release_leaf_inv _ _ _ _ Hf Hroom' Hc) as H.
    rewrite !fn_lookup_insert, fn_lookup_insert_ne in H by done.
    eapply com_inv_ext; [|apply H; [done|lia|lia]]. intros x. cbn [pred].
    destruct (decide (c = x)) as [<-|]; [by rewrite fn_lookup_insert, fn_lookup_insert_ne|].
    by rewrite !(fn_lookup_insert_ne _ c x).
  - apply (count_inv s h id (Provider n (Some c)) (-1) (pred (h id)) Hi Ho); cbn; lia.
Qed.

(** ** The ledger of the clients *)
Lemma holding_give id s x : holding (give id s) x = (<[id := S (holding s id)]> (holding s)) x.
Proof.
  unfold holding, give. cbn. destruct (decide (id = x)) as [<-|].
  - by rewrite lookup_insert_eq, fn_lookup_insert.
  - by rewrite lookup_insert_ne, fn_lookup_insert_ne.
Qed.

Lemma holding_take id s x : holding (take_back id s) x = (<[id := pred (holding s id)]> (holding s)) x.
Proof.
  unfold holding, take_back. cbn. destruct (decide (id = x)) as [<-|].
  - by rewrite lookup_insert_eq, fn_lookup_insert.
  - by rewrite lookup_insert_ne, fn_lookup_insert_ne.
Qed.

Lemma held_Release_leaf id s : held (Release_leaf id s) = held s.
Proof. unfold Release_leaf. destruct (heap s !! id); [|done]. cbv zeta. by destruct (_ =? _). Qed.

Lemma held_Release id s : held (Release id s) = held s.
Proof.
  unfold Release. destruct (heap s !! id) as [[|n [c|]|]|]; rewrite ?held_Release_leaf; try done.
  destruct (_ =? _); by rewrite ?held_Release_leaf.
Qed.

Lemma holding_Release id s x : holding (Release id s) x = holding s x.
Proof. unfold holding. by rewrite held_Release. Qed.

Definition fine (s : Com) : Prop := com_inv s (holding s).

(** An object is created, asked for an interface and released. *)
Definition create (o : Obj) (supported : bool) (s : Com) : HR * Com :=
  let '(id, s) := construct o s in
  let '(hr, s) := QueryInterface id supported s in (hr, Release id s).

Lemma create_fine o supported s :
  fine s → small s → leaf o → refs o = 1 → fine (create o supported s).2.
Proof.
  intros Hi [Hs Hb] Hl Ho. assert (Hdead : holding s (next s) = 0%nat) by by eapply inv_dead, inv_next.
  pose proof (construct_inv s _ o Hi Hl Ho ltac:(lia)) as Hc.
  unfold create. destruct (construct o s) as [id s1] eqn:E. cbn [snd] in Hc. pose proof E as E'.
  unfold construct in E'. injection E' as <- Es1.
  assert (Hroom : room s1). { unfold room. rewrite <- Es1. cbn. rewrite map_size_insert_None by (by eapply inv_next). lia. }
  assert (Hh1 : ∀ x, holding s1 x = holding s x) by (intros; by rewrite <- Es1).
  assert (Hb1 : ∀ x, Z.of_nat ((<[next s := 1%nat]> (holding s)) x) < 2 ^ 31 - 3).
  { intros x. destruct (decide (next s = x)) as [<-|]; [rewrite fn_lookup_insert; lia|]. by rewrite fn_lookup_insert_ne. }
  destruct supported; cbn [QueryInterface snd].
  - assert (Halive : heap s1 !! next s = Some o) by (rewrite <- Es1; cbn; by rewrite lookup_insert_eq).
    pose proof (AddRef_inv _ _ _ _ Hc Halive ltac:(lia)) as Ha. rewrite fn_lookup_insert in Ha.
    assert (Hg : com_inv (give (next s) (AddRef (next s) s1)) (<[next s := 2%nat]> (<[next s := 1%nat]> (holding s))))
      by by apply com_inv_held.
    apply Release_inv with (id := next s) in Hg.
    + rewrite fn_lookup_insert in Hg. eapply com_inv_ext; [|exact Hg]. intros x.
      rewrite holding_Release, holding_give.
      change (holding (AddRef (next s) s1)) with (holding s1). rewrite Hh1, Hdead.
      destruct (decide (next s = x)) as [<-|]; [by rewrite !fn_lookup_insert|].
      rewrite !fn_lookup_insert_ne by done. by rewrite Hh1.
    + unfold room in *. cbn. rewrite (alter_some _ _ _ _ Halive), map_size_insert_Some; eauto.
    + intros x. destruct (decide (next s = x)) as [<-|]; [rewrite fn_lookup_insert; lia|].
      rewrite fn_lookup_insert_ne by done. pose proof (Hb1 x). lia.
    + rewrite fn_lookup_insert. lia.
  - apply Release_inv with (id := next s) in Hc; [|done|intros x; pose proof (Hb1 x); lia|rewrite fn_lookup_insert; lia].
    eapply com_inv_ext; [|exact Hc]. intros x. rewrite holding_Release, Hh1, fn_lookup_insert. cbn [pred].
    destruct (decide (next s = x)) as [<-|]; [by rewrite fn_lookup_insert|]. by rewrite !fn_lookup_insert_ne.
Qed.

Lemma LockServer_fine b s :
  fine s → small s → (b = false → (0 < locks s)%nat) → fine (LockServer b s).2.
Proof.
  intros [H1 H2 H3 H4 H5 H6] [Hs _] Hl. unfold fine. destruct b; split; try done; cbn;
    unfold InterlockedIncrement, InterlockedDecrement; rewrite i32_small by lia; try lia.
Qed.

Lemma AddRef_fine id s : fine s → small s → (0 < holding s id)%nat → fine (give id (AddRef id s)).
Proof.
  intros Hi [_ Hb] Hh. destruct (alive _ _ _ Hi Hh) as [o Ho].
  pose proof (refs_bound _ _ _ _ Hi Ho). pose proof (Hb id).
  pose proof (AddRef_inv _ _ _ _ Hi Ho ltac:(lia)) as Ha. apply com_inv_held with (x := held (give id (AddRef id s))) in Ha.
  eapply com_inv_ext; [|exact Ha]. intros x. by rewrite holding_give.
Qed.

Lemma Release_fine id s : fine s → small s → (0 < holding s id)%nat → fine (Release id (take_back id s)).
Proof.
  intros Hi [Hs Hb] Hh.
  assert (Ht : com_inv (take_back id s) (holding s)) by by apply com_inv_held.
  apply Release_inv with (id := id) in Ht; [|unfold room; cbn; lia|intros x; pose proof (Hb x); lia|done].
  eapply com_inv_ext; [|exact Ht]. intros x. by rewrite holding_Release, holding_take.
Qed.

(** A reference passes from the call to the provider that keeps it. *)
Lemma adopt_inv s h p n c k :
  com_inv s h → heap s !! p = Some (Provider n None) → heap s !! c = Some (Credential k) →
  ¬ owned (heap s) c → (0 < h c)%nat →
  com_inv (s <| heap := <[p := Provider n (Some c)]> (heap s) |>) (<[c := pred (h c)]> h).
Proof.
  intros [H1 H2 H3 H4 H5 H6] Hp Hc Hown Hh. assert (Hne : p ≠ c) by (intros ->; congruence).
  assert (Hins : ∀ x m d, <[p := Provider n (Some c)]> (heap s) !! x = Some (Provider m (Some d)) →
    x = p ∧ d = c ∨ x ≠ p ∧ heap s !! x = Some (Provider m (Some d))).
  { intros x m d. destruct (decide (p = x)) as [<-|]; [rewrite lookup_insert_eq; naive_solver|].
    rewrite lookup_insert_ne by done. auto. }
  assert (Ho : ∀ x, owned (<[p := Provider n (Some c)]> (heap s)) x ↔ x = c ∨ owned (heap s) x).
  { intros x. split.
    - intros (q & m & [[_ ->]|[_ Hq]]%Hins); [by left|right; by exists q, m].
    - intros [->|(q & m & Hq)]; [exists p, n; by rewrite lookup_insert_eq|].
      exists q, m. rewrite lookup_insert_ne; [done|]. intros <-. congruence. }
  split; cbn.
  - by rewrite map_size_insert_Some by eauto.
  - intros x Hx. rewrite lookup_insert_ne; [by apply H2|]. intros ->. by rewrite H2 in Hp.
  - intros x Hx. destruct (decide (p = x)) as [<-|]; [by rewrite lookup_insert_eq in Hx|].
    rewrite lookup_insert_ne in Hx by done. rewrite fn_lookup_insert_ne; [by apply H3|]. intros ->. congruence.
  - intros x o Hx.
    assert (Hx' : ∃ o', heap s !! x = Some o' ∧ refs o = refs o').
    { destruct (decide (p = x)) as [<-|]; [rewrite lookup_insert_eq in Hx; simplify_eq; eauto|].
      rewrite lookup_insert_ne in Hx by done. eauto. }
    destruct Hx' as (o' & Hx' & ->). destruct (H4 _ _ Hx') as (Hpos & b & Hr & Hb). split; [done|].
    destruct (decide (c = x)) as [<-|].
    + exists true. rewrite fn_lookup_insert. destruct b; [by destruct Hown; apply Hb|].
      split; [lia|]. rewrite Ho. naive_solver.
    + exists b. rewrite fn_lookup_insert_ne by done. split; [done|]. rewrite Hb, Ho. naive_solver.
  - intros x m d Hx. assert (Hd : ∃ k', heap s !! d = Some (Credential k')).
    { apply Hins in Hx as [[_ ->]|[_ Hx]]; eauto. }
    destruct Hd as [k' Hd]. exists k'. rewrite lookup_insert_ne; [done|]. intros <-. congruence.
  - intros x x' m m' d [[-> ->]|[? Hx]]%Hins [[-> E]|[? Hx']]%Hins; [done|..].
    + destruct Hown. by exists x', m'.
    + subst d. destruct Hown. by exists x, m.
    + by eapply H6.
Qed.

Lemma provide_credential_fine id b s : fine s → small s → fine (provide_credential id b s).
Proof.
  intros Hi [Hs Hb]. unfold provide_credential. destruct (heap s !! id) as [[|n [c|]|]|] eqn:Ho; try done.
  destruct b; [|done]. pose proof (construct_inv s _ (Credential 1) Hi I eq_refl ltac:(lia)) as Hc.
  assert (Hdead : holding s (next s) = 0%nat) by by eapply inv_dead, inv_next.
  assert (Hn : heap s !! next s = None) by by eapply inv_next.
  assert (Hne : id ≠ next s) by (intros ->; congruence).
  unfold construct in *. cbn [snd] in Hc. apply (adopt_inv _ _ id n (next s) 1) in Hc.
  - eapply com_inv_ext; [|exact Hc]. intros x. rewrite fn_lookup_insert. cbn [pred].
    destruct (decide (next s = x)) as [<-|]; [by rewrite fn_lookup_insert|by rewrite !fn_lookup_insert_ne].
  - cbn. by rewrite lookup_insert_ne.
  - cbn. by rewrite lookup_insert_eq.
  - cbn. rewrite owned_insert by (try done; congruence). intros (p & m & Hp).
    destruct (inv_child _ _ Hi _ _ _ Hp) as [k Hk]. congruence.
  - rewrite fn_lookup_insert. lia.
Qed.

Lemma hand_out_fine id pp i s : fine s → small s → fine (hand_out_credential id pp i s).2.
Proof.
  intros Hi [_ Hb]. unfold hand_out_credential. destruct pp; [|done].
  destruct (heap s !! id) as [[|n [c|]|]|] eqn:Ho; try done. cbn [negb]. destruct (i =? 0); [|done].
  cbn [negb snd]. destruct (inv_child _ _ Hi _ _ _ Ho) as [k Hk].
  pose proof (refs_bound _ _ _ _ Hi Hk). pose proof (Hb c).
  pose proof (AddRef_inv _ _ _ _ Hi Hk ltac:(lia)) as Ha.
  apply com_inv_held with (x := held (give c (AddRef c s))) in Ha.
  eapply com_inv_ext; [|exact Ha]. intros x. by rewrite holding_give.
Qed.

Lemma run_op_fine s op : fine s → small s → allowed s op → fine (run_op s op).
Proof.
  intros Hi Hs Ha. destruct op as [ppv ours sup|id outer ppv sup|id b|id sup|id|id|id b|id pp i]; cbn [run_op allowed] in *.
  - unfold DllGetClassObject. destruct ppv; [|done]. destruct ours; [|done].
    by apply (create_fine (Factory 1) sup).
  - unfold CreateInstance. destruct outer; [done|]. destruct ppv; [|done].
    by apply (create_fine (Provider 1 None) sup).
  - by apply LockServer_fine; [..|apply Ha].
  - destruct sup; [by apply AddRef_fine|done].
  - by apply AddRef_fine.
  - by apply Release_fine.
  - by apply provide_credential_fine.
  - by apply hand_out_fine.
Qed.

Lemma reach_fine s : reach s → fine s.
Proof.
  induction 1 as [|s op _ IH Hs Ha]; [|by apply run_op_fine].
  by split.
Qed.

(** An object that no client holds is a living provider's credential. *)
Lemma unheld s id o : fine s → heap s !! id = Some o → holding s id = 0%nat → owned (heap s) id.
Proof.
  intros Hi Ho Hh. destruct (inv_refs _ _ Hi _ _ Ho) as (Hp & b & Hb & Hbo). apply Hbo.
  destruct b; [done|]. lia.
Qed.

(** C16: for clients that keep the rules of COM, at any time: every object that a
    client holds is alive (nothing is freed too early), every other living object
    is the credential of a living provider (nothing is kept for ever), so when all
    references were released no object is left; and COM is told that the DLL can
    be unloaded exactly when there is no object and no lock. *)
Theorem DllCanUnloadNow_exact s :
  reach s → small s →
  (∀ id, (0 < holding s id)%nat → ∃ o, heap s !! id = Some o ∧ 0 < refs o) ∧
  (∀ id o, heap s !! id = Some o → holding s id = 0%nat → ∃ p, (0 < holding s p)%nat ∧ ∃ n, heap s !! p = Some (Provider n (Some id))) ∧
  ((∀ id, holding s id = 0%nat) → heap s = ∅) ∧
  (DllCanUnloadNow s = S_OK ↔ heap s = ∅ ∧ locks s = 0%nat).
Proof.
  intros Hi%reach_fine [Hs _].
  assert (Hown : ∀ id o, heap s !! id = Some o → holding s id = 0%nat →
    ∃ p, (0 < holding s p)%nat ∧ ∃ n, heap s !! p = Some (Provider n (Some id))).
  { intros id o Ho Hh. destruct (unheld s id o Hi Ho Hh) as (p & n & Hp). exists p. split; [|by exists n].
    destruct (holding s p) eqn:Ep; [|lia]. destruct (unheld s p _ Hi Hp Ep) as (q & m & Hq).
    destruct (inv_child _ _ Hi _ _ _ Hq) as [k Hk]. congruence. }
  split; [|split; [done|split]].
  - intros id Hh. destruct (alive _ _ _ Hi Hh) as [o Ho]. exists o. split; [done|]. by apply (inv_refs _ _ Hi id).
  - intros Hall. apply map_empty. intros id. destruct (heap s !! id) as [o|] eqn:Ho; [|done].
    destruct (Hown id o Ho (Hall id)) as (p & Hp & _). rewrite Hall in Hp. lia.
  - unfold DllCanUnloadNow. rewrite (inv_dll _ _ Hi).
    destruct (Z.eqb_spec (Z.of_nat (size (heap s)) + Z.of_nat (locks s)) 0) as [E|E].
    + split; [|done]. intros _. split; [apply map_size_empty_inv; lia|lia].
    + split; [done|]. intros [Hm Hl]. destruct E. by rewrite Hm, Hl, map_size_empty.
Qed.

Lemma small_check s :
  bool_decide (Z.of_nat (size (heap s)) + Z.of_nat (locks s) < 1000) &&
  bool_decide (map_Forall (λ _ n, Z.of_nat n < 1000) (held s)) = true → small s.
Proof.
  rewrite andb_true_iff, !bool_decide_eq_true. intros [H1 H2]. split; [lia|]. intros id. unfold holding.
  destruct (held s !! id) eqn:E; cbn; [|lia]. pose proof (map_Forall_lookup_1 _ _ _ _ H2 E). cbn in *. lia.
Qed.

(** A logon: the factory makes the provider, which outlives it; the tile outlives
    the provider. *)
Definition demo_ops : list Op :=
  [OpGetClassObject true true true; OpCreateInstance 0 false true true; OpRelease 0;
   OpProvide 1 true; OpHandOut 1 true 0; OpRelease 1].
Definition run_ops (ops : list Op) (s : Com) : Com := foldl run_op s ops.

Lemma demo_com_reach : reach (run_ops demo_ops no_objects).
Proof.
  unfold run_ops, demo_ops. cbn [foldl].
  repeat (apply reach_step; [|apply small_check; vm_compute; reflexivity|vm_compute; lia]).
  apply reach_start.
Qed.

Lemma DllCanUnloadNow_exact_witness :
  let s := run_ops demo_ops no_objects in
  heap s = {[ 2%nat := Credential 1 ]} ∧ DllCanUnloadNow s = S_FALSE ∧
  DllCanUnloadNow (run_op s (OpRelease 2)) = S_OK ∧ heap (run_op s (OpRelease 2)) = ∅.
Proof.
  assert (Hs : small (run_ops demo_ops no_objects)) by (apply small_check; vm_compute; reflexivity).
  assert (Hr : reach (run_op (run_ops demo_ops no_objects) (OpRelease 2))).
  { apply reach_step; [apply demo_com_reach|exact Hs|vm_compute; lia]. }
  assert (Hu : DllCanUnloadNow (run_op (run_ops demo_ops no_objects) (OpRelease 2)) = S_OK)
    by (vm_compute; reflexivity).
  split; [vm_compute; reflexivity|]. split; [vm_compute; reflexivity|]. split; [exact Hu|].
  destruct (DllCanUnloadNow_exact _ Hr) as (_ & _ & _ & H).
  - apply small_check. vm_compute. reflexivity.
  - apply H. exact Hu.
Defined.

(** ** Registration *)

(** A key is a root with a path; its values by name. *)
Abbreviation Key := (Z * wstr)%type.
Abbreviation Registry := (gmap (Z * wstr) (gmap wstr wstr)).

Definition HKEY_CLASSES_ROOT : Z := 0x80000000.
Definition HKEY_LOCAL_MACHINE : Z := 0x80000002.
Definition s_szCLSID : wstr := W "{7B896B21-8B35-4E7B-A350-9E17E5E3D10A}".
Definition s_szProviderName : wstr := W "Ligament 2FA Credential Provider".

Definition below (k k' : Key) : Prop := k'.1 = k.1 ∧ prefixb (k.2 ++ [92]) k'.2 = true.

#[export] Instance below_dec k k' : Decision (below k k').
Proof. unfold below. apply _. Defined.

(** The key and the keys above it. *)
Fixpoint heads (done todo : wstr) : list wstr :=
  match todo with
  | [] => [done]
  | c :: todo => if c =? 92 then done :: heads (done ++ [c]) todo else heads (done ++ [c]) todo
  end.

Definition open_key (r : Registry) (k : Key) : Registry :=
  match r !! k with Some _ => r | None => <[k := ∅]> r end.

(** [RegCreateKeyExW] makes the keys above as well. *)
Definition RegCreateKey (k : Key) (r : Registry) : Registry :=
  foldl (λ r p, open_key r (k.1, p)) r (heads [] k.2).

Definition RegSetValue (k : Key) (name data : wstr) (r : Registry) : Registry :=
  <[k := <[name := data]> (default ∅ (r !! k))]> r.

Definition HRESULT_FROM_WIN32 (e : Z) : HR := if e <=? 0 then e else Z.lor 0x80070000 (Z.land e 0xffff).

(** [fails]: the error of creating the key and of setting the value (0: none). *)
Definition CreateRegKeyAndValue (fails : Z * Z) (hRoot : Z) (subKey valueName data : wstr) (r : Registry)
    : HR * Registry :=
  if negb (fails.1 =? 0) then (HRESULT_FROM_WIN32 fails.1, r) else
  let r := RegCreateKey (hRoot, subKey) r in
  if negb (fails.2 =? 0) then (HRESULT_FROM_WIN32 fails.2, r) else
  (HRESULT_FROM_WIN32 0, RegSetValue (hRoot, subKey) valueName data r).

Definition clsidKey : wstr := W "CLSID\" ++ s_szCLSID.
Definition inprocKey : wstr := clsidKey ++ W "\InprocServer32".
Definition cpKey : wstr :=
  W "SOFTWARE\Microsoft\Windows\CurrentVersion\Authentication\Credential Providers\" ++ s_szCLSID.
Definition filterKey : wstr :=
  W "SOFTWARE\Microsoft\Windows\CurrentVersion\Authentication\Credential Provider Filters\" ++ s_szCLSID.

(** [module]: [GetModuleFileNameW], or its error; [fails]: of the five calls. *)
Definition DllRegisterServer (module : wstr + Z) (fails : nat → Z * Z) (r : Registry) : HR * Registry :=
  match module with
  | inr e => (HRESULT_FROM_WIN32 e, r)
  | inl szDllPath =>
    let r := (CreateRegKeyAndValue (fails 0%nat) HKEY_CLASSES_ROOT clsidKey [] s_szProviderName r).2 in
    let r := (CreateRegKeyAndValue (fails 1%nat) HKEY_CLASSES_ROOT inprocKey [] szDllPath r).2 in
    let r := (CreateRegKeyAndValue (fails 2%nat) HKEY_CLASSES_ROOT inprocKey (W "ThreadingModel") (W "Apartment") r).2 in
    let r := (CreateRegKeyAndValue (fails 3%nat) HKEY_LOCAL_MACHINE cpKey [] s_szProviderName r).2 in
    let r := (CreateRegKeyAndValue (fails 4%nat) HKEY_LOCAL_MACHINE filterKey [] s_szProviderName r).2 in
    (S_OK, r)
  end.

(** [RegDeleteKeyW] deletes a key without subkeys. *)
Definition RegDeleteKey (ok : bool) (k : Key) (r : Registry) : Registry :=
  if ok && bool_decide (map_Forall (λ k' _, ¬ below k k') r) then delete k r else r.

Definition DllUnregisterServer (ok : nat → bool) (r : Registry) : HR * Registry :=
  let r := RegDeleteKey (ok 0%nat) (HKEY_CLASSES_ROOT, inprocKey) r in
  let r := RegDeleteKey (ok 1%nat) (HKEY_CLASSES_ROOT, clsidKey) r in
  let r := RegDeleteKey (ok 2%nat) (HKEY_LOCAL_MACHINE, cpKey) r in
  let r := RegDeleteKey (ok 3%nat) (HKEY_LOCAL_MACHINE, filterKey) r in
  (S_OK, r).

Definition own_keys : list Key :=
  [(HKEY_CLASSES_ROOT, clsidKey); (HKEY_CLASSES_ROOT, inprocKey); (HKEY_LOCAL_MACHINE, cpKey);
   (HKEY_LOCAL_MACHINE, filterKey)].

(** A machine without the provider: none of its keys and nothing below them. *)
Definition unregistered (r : Registry) : Prop :=
  Forall (λ k, r !! k = None ∧ ∀ k', below k k' → r !! k' = None) own_keys.

(** The keys of Windows above them. *)
Definition system_keys (r : Registry) : Prop :=
  Forall (λ k, Forall (λ p, (k.1, p) ∉ own_keys → is_Some (r !! (k.1, p))) (heads [] k.2)) own_keys.

#[local] Opaque clsidKey inprocKey cpKey filterKey.

Lemma open_heads (r : Registry) (root : Z) (l : list wstr) :
  Forall (λ p, is_Some (r !! (root, p))) l → foldl (λ r p, open_key r (root, p)) r l = r.
Proof.
  induction 1 as [|p l [vs Hp] _ IH]; [done|]. cbn [foldl]. unfold open_key at 2. by rewrite Hp.
Qed.

(** Creating a key whose parents are there. *)
Lemma Create_spec (root : Z) (key : wstr) (l : list wstr) (name data : wstr) (r : Registry) :
  heads [] key = l ++ [key] → Forall (λ p, is_Some (r !! (root, p))) l →
  (CreateRegKeyAndValue (0, 0) root key name data r).2 =
  <[(root, key) := <[name := data]> (default ∅ (r !! (root, key)))]> r.
Proof.
  intros Hh Hl. unfold CreateRegKeyAndValue, RegCreateKey. cbn [fst snd Z.eqb negb].
  rewrite Hh, foldl_app, (open_heads r root l Hl). cbn [foldl]. unfold RegSetValue, open_key.
  destruct (r !! (root, key)) as [vs|] eqn:E; [by rewrite E|].
  rewrite lookup_insert_eq. cbn. by rewrite insert_insert_eq.
Qed.

Lemma Create_fails (e : Z * Z) (z : Z) (key name data : wstr) (r : Registry) :
  e.1 ≠ 0 → (CreateRegKeyAndValue e z key name data r).2 = r.
Proof. intros He. unfold CreateRegKeyAndValue. by destruct (Z.eqb_spec e.1 0). Qed.

#[local] Opaque CreateRegKeyAndValue.

Lemma RegDeleteKey_spec (k : Key) (r : Registry) :
  map_Forall (λ k' _, ¬ below k k') r → RegDeleteKey true k r = delete k r.
Proof. intros H. unfold RegDeleteKey. by rewrite bool_decide_eq_true_2. Qed.

(** Nothing in the registry is below a key. *)
Definition childless (k : Key) (r : Registry) : Prop := map_Forall (λ k' _, ¬ below k k') r.

Lemma childless_insert (k k' : Key) vs (r : Registry) : ¬ below k k' → childless k r → childless k (<[k' := vs]> r).
Proof. intros. by apply map_Forall_insert_2. Qed.

Lemma unregistered_childless (r : Registry) (k : Key) : unregistered r → k ∈ own_keys → childless k r.
Proof.
  intros Hu Hk. unfold unregistered in Hu. rewrite Forall_forall in Hu. destruct (Hu k Hk) as [_ Hb].
  intros k' vs Hk' Hbe. apply Hb in Hbe. congruence.
Qed.

Definition registered (path : wstr) (r : Registry) : Registry :=
  <[(HKEY_LOCAL_MACHINE, filterKey) := {[ [] := s_szProviderName ]}]>
  (<[(HKEY_LOCAL_MACHINE, cpKey) := {[ [] := s_szProviderName ]}]>
  (<[(HKEY_CLASSES_ROOT, inprocKey) := {[ W "ThreadingModel" := W "Apartment"; [] := path ]}]>
  (<[(HKEY_CLASSES_ROOT, clsidKey) := {[ [] := s_szProviderName ]}]> r))).

Ltac distinct := apply (bool_decide_unpack _); vm_compute; reflexivity.

(** The keys of Windows above a key, and those of the provider. *)
Definition uppers (key : wstr) : list wstr := removelast (heads [] key).

Lemma system_uppers (r : Registry) k l :
  system_keys r → k ∈ own_keys → (∀ p, p ∈ l → p ∈ heads [] k.2 ∧ (k.1, p) ∉ own_keys) →
  Forall (λ p, is_Some (r !! (k.1, p))) l.
Proof.
  intros Hs Hk Hl. unfold system_keys in Hs. rewrite Forall_forall in Hs. specialize (Hs k Hk).
  rewrite Forall_forall in Hs. apply Forall_forall. intros p [Hp Hn]%Hl. by apply Hs.
Qed.

Lemma some_insert (r : Registry) (root : Z) (l : list wstr) k vs :
  Forall (λ p, is_Some (r !! (root, p))) l → Forall (λ p, is_Some (<[k := vs]> r !! (root, p))) l.
Proof.
  intros H. eapply Forall_impl; [exact H|]. intros p [v Hp]. cbn.
  destruct (decide (k = (root, p))) as [->|]; [rewrite lookup_insert_eq; by eexists|].
  rewrite lookup_insert_ne by done. by eexists.
Qed.

Ltac upper k :=
  apply (system_uppers _ k); [assumption|distinct|];
  intros p Hp; revert p Hp; apply Forall_forall; distinct.

Lemma register_spec (path : wstr) (r : Registry) :
  unregistered r → system_keys r → DllRegisterServer (inl path) (λ _, (0, 0)) r = (S_OK, registered path r).
Proof.
  intros Hu Hs. pose proof Hu as Hn. unfold unregistered, own_keys in Hn.
  apply Forall_cons in Hn as [[N1 _] Hn]. apply Forall_cons in Hn as [[N2 _] Hn].
  apply Forall_cons in Hn as [[N3 _] Hn]. apply Forall_cons in Hn as [[N4 _] _].
  assert (U1 : Forall (λ p, is_Some (r !! (HKEY_CLASSES_ROOT, p))) (uppers clsidKey))
    by upper (HKEY_CLASSES_ROOT, clsidKey).
  assert (U3 : Forall (λ p, is_Some (r !! (HKEY_LOCAL_MACHINE, p))) (uppers cpKey))
    by upper (HKEY_LOCAL_MACHINE, cpKey).
  assert (U4 : Forall (λ p, is_Some (r !! (HKEY_LOCAL_MACHINE, p))) (uppers filterKey))
    by upper (HKEY_LOCAL_MACHINE, filterKey).
  assert (E1 : heads [] clsidKey = uppers clsidKey ++ [clsidKey]) by distinct.
  assert (E2 : heads [] inprocKey = (uppers clsidKey ++ [clsidKey]) ++ [inprocKey]) by distinct.
  assert (E3 : heads [] cpKey = uppers cpKey ++ [cpKey]) by distinct.
  assert (E4 : heads [] filterKey = uppers filterKey ++ [filterKey]) by distinct.
  unfold DllRegisterServer. cbv zeta. f_equal. unfold registered.
  rewrite (Create_spec _ _ _ _ _ _ E1 U1), N1. cbn [default from_option].
  set (r1 := <[(HKEY_CLASSES_ROOT, clsidKey) := _]> r).
  assert (U2 : Forall (λ p, is_Some (r1 !! (HKEY_CLASSES_ROOT, p))) (uppers clsidKey ++ [clsidKey])).
  { apply Forall_app. split; [by apply some_insert|]. constructor; [|constructor].
    unfold r1. rewrite lookup_insert_eq. by eexists. }
  rewrite (Create_spec _ _ _ _ _ _ E2 U2).
  rewrite (Create_spec _ _ _ _ _ _ E2 (some_insert _ _ _ _ _ U2)).
  rewrite lookup_insert_eq, insert_insert_eq. cbn [default from_option].
  assert (N2' : r1 !! (HKEY_CLASSES_ROOT, inprocKey) = None).
  { unfold r1. rewrite lookup_insert_ne by distinct. done. }
  rewrite N2'. set (r2 := <[(HKEY_CLASSES_ROOT, inprocKey) := _]> r1).
  pose proof (Create_spec HKEY_LOCAL_MACHINE cpKey (uppers cpKey) [] s_szProviderName r2 E3
    (some_insert _ _ _ _ _ (some_insert _ _ _ _ _ U3))) as C3.
  rewrite C3. clear C3.
  assert (N3' : r2 !! (HKEY_LOCAL_MACHINE, cpKey) = None).
  { unfold r2, r1. rewrite !lookup_insert_ne by distinct. exact N3. }
  rewrite N3'. set (r3 := <[(HKEY_LOCAL_MACHINE, cpKey) := _]> r2).
  pose proof (Create_spec HKEY_LOCAL_MACHINE filterKey (uppers filterKey) [] s_szProviderName r3 E4
    (some_insert _ _ _ _ _ (some_insert _ _ _ _ _ (some_insert _ _ _ _ _ U4)))) as C4.
  rewrite C4. clear C4.
  assert (N4' : r3 !! (HKEY_LOCAL_MACHINE, filterKey) = None).
  { unfold r3, r2, r1. rewrite !lookup_insert_ne by distinct. exact N4. }
  rewrite N4'. reflexivity.
Qed.

(** Deleting four keys just made, [b] below [a]. *)
Lemma unregister_keys (a b c d : Key) (va vb vc vd : gmap wstr wstr) (r : Registry) :
  r !! a = None → (∀ k, below a k → r !! k = None) → r !! b = None → (∀ k, below b k → r !! k = None) →
  r !! c = None → (∀ k, below c k → r !! k = None) → r !! d = None → (∀ k, below d k → r !! k = None) →
  NoDup [a; b; c; d] →
  (¬ below b a ∧ ¬ below b b ∧ ¬ below b c ∧ ¬ below b d) →
  (¬ below a a ∧ ¬ below a c ∧ ¬ below a d) →
  (¬ below c c ∧ ¬ below c d ∧ ¬ below d d) →
  RegDeleteKey true d (RegDeleteKey true c (RegDeleteKey true a (RegDeleteKey true b
    (<[d := vd]> (<[c := vc]> (<[b := vb]> (<[a := va]> r))))))) = r.
Proof.
  intros Na Ca Nb Cb Nc Cc Nd Cd Hnd (? & ? & ? & ?) (? & ? & ?) (? & ? & ?).
  assert (Hc : ∀ k, (∀ k', below k k' → r !! k' = None) → childless k r).
  { intros k Hk k' vs Hk' Hb. apply Hk in Hb. congruence. }
  rewrite !NoDup_cons, !not_elem_of_cons in Hnd. destruct Hnd as ((? & ? & ? & _) & (? & ? & _) & (? & _) & _).
  rewrite (RegDeleteKey_spec b) by (repeat apply childless_insert; auto).
  rewrite !(delete_insert_ne _ b) by done. rewrite delete_insert_id by (by rewrite lookup_insert_ne).
  rewrite (RegDeleteKey_spec a) by (repeat apply childless_insert; auto).
  rewrite !(delete_insert_ne _ a) by done. rewrite delete_insert_id by done.
  rewrite (RegDeleteKey_spec c) by (repeat apply childless_insert; auto).
  rewrite !(delete_insert_ne _ c) by done. rewrite delete_insert_id by done.
  rewrite (RegDeleteKey_spec d) by (repeat apply childless_insert; auto).
  by rewrite delete_insert_id.
Qed.

(** On a machine without the provider, registration writes exactly the four keys
    (the class with its server path and apartment model, the provider, the filter)
    and unregistration, whose order takes the subkey first, restores the registry.
    Registration reports success whatever happens: also when no key could be
    written. *)
Theorem registration_roundtrip (path : wstr) (r : Registry) :
  unregistered r → system_keys r →
  DllRegisterServer (inl path) (λ _, (0, 0)) r = (S_OK, registered path r) ∧
  DllUnregisterServer (λ _, true) (registered path r) = (S_OK, r) ∧
  (∀ fails, (DllRegisterServer (inl path) fails r).1 = S_OK) ∧
  (∀ fails, (∀ n, (fails n).1 ≠ 0) → (DllRegisterServer (inl path) fails r).2 = r).
Proof.
  intros Hu Hs. split; [by apply register_spec|]. split; [|split].
  - unfold unregistered, own_keys in Hu.
    apply Forall_cons in Hu as [[N1 C1] Hu]. apply Forall_cons in Hu as [[N2 C2] Hu].
    apply Forall_cons in Hu as [[N3 C3] Hu]. apply Forall_cons in Hu as [[N4 C4] _].
    unfold DllUnregisterServer. cbv zeta. f_equal.
    apply (unregister_keys _ _ _ _ _ _ _ _ r N1 C1 N2 C2 N3 C3 N4 C4); distinct.
  - done.
  - intros fails Hf. unfold DllRegisterServer. cbv zeta. by rewrite !Create_fails by apply Hf.
Qed.

(** A machine with the keys of Windows. *)
Definition demo_registry : Registry :=
  foldl (λ r k, open_key r k) ∅
    (((HKEY_CLASSES_ROOT,.) <$> uppers clsidKey) ++ ((HKEY_LOCAL_MACHINE,.) <$> uppers cpKey) ++
     ((HKEY_LOCAL_MACHINE,.) <$> uppers filterKey)).

Lemma unregistered_check (r : Registry) :
  bool_decide (Forall (λ k, r !! k = None ∧ map_Forall (λ k' _, ¬ below k k') r) own_keys) = true →
  unregistered r.
Proof.
  intros H%bool_decide_eq_true. eapply Forall_impl; [exact H|]. cbn. intros k [Hn Hc]. split; [done|].
  intros k' Hb. destruct (r !! k') eqn:E; [|done]. exfalso. by eapply (map_Forall_lookup_1 _ _ _ _ Hc E).
Qed.

Lemma registration_roundtrip_witness :
  registered (W "C:\lig.dll") demo_registry !! (HKEY_CLASSES_ROOT, inprocKey) =
    Some {[ W "ThreadingModel" := W "Apartment"; [] := W "C:\lig.dll" ]} ∧
  DllUnregisterServer (λ _, true) (registered (W "C:\lig.dll") demo_registry) = (S_OK, demo_registry).
Proof.
  destruct (registration_roundtrip (W "C:\lig.dll") demo_registry) as (_ & H & _).
  - apply unregistered_check. vm_compute. reflexivity.
  - apply (bool_decide_unpack _). vm_compute. reflexivity.
  - split; [vm_compute; reflexivity|exact H].
Defined.
