(* ===== verification/Provider.v ===== *)
(** * The credential provider and its filter

    [windows/credential_provider/LigamentProvider.cpp]: when the Ligament tile
    is offered, and when the stock password tile is hidden. The tile is used
    through an interface, [Tile]; the tile of [Credential] implements it. *)
From S2P Require Import Prelude Text Config HttpClient RdpGate Pack Credential CredentialSafety Logon.

(** ** Data *)
Definition CREDENTIAL_PROVIDER_NO_DEFAULT : Z := 4294967295.
Definition MAX_PATH : nat := 260.

Record GUID := mkGUID { g_data1 : Z; g_data2 : Z; g_data3 : Z; g_data4 : list Z }.
#[export] Instance GUID_eq : EqDecision GUID.
Proof. solve_decision. Defined.

Definition CLSID_PasswordProvider : GUID :=
  mkGUID 1622642312 60120 17500 [156; 253; 11; 135; 247; 78; 166; 205].

Inductive FieldType := CPFT_TILE_IMAGE | CPFT_LARGE_TEXT | CPFT_EDIT_TEXT | CPFT_PASSWORD_TEXT
  | CPFT_SUBMIT_BUTTON | CPFT_SMALL_TEXT | CPFT_COMMAND_LINK.

Definition s_Fields : list (FIELD_ID * FieldType * wstr) :=
  [(FID_LOGO, CPFT_TILE_IMAGE, W "Логотип");
   (FID_LARGE_TEXT, CPFT_LARGE_TEXT, W "Ligament 2FA");
   (FID_USERNAME, CPFT_EDIT_TEXT, W "Имя пользователя");
   (FID_PASSWORD, CPFT_PASSWORD_TEXT, W "Пароль");
   (FID_SUBMIT, CPFT_SUBMIT_BUTTON, W "Войти");
   (FID_STATUS_TEXT, CPFT_SMALL_TEXT, W "Статус");
   (FID_NUMBER_MATCH, CPFT_LARGE_TEXT, W "Контрольное число");
   (FID_FIDO2_BTN, CPFT_COMMAND_LINK, W "Войти по Passkey (QR-код)");
   (FID_OTP_CODE, CPFT_EDIT_TEXT, W "Код подтверждения (TOTP / YubiKey OTP)");
   (FID_SWITCH_FACTOR_BTN, CPFT_COMMAND_LINK, W "Выбрать другой способ входа")].

(** The machine as the provider reads it: registry, session, host process. *)
Record Host := mkHost {
  h_crack : wstr → option UrlComp;
  h_policy : option RegKey; h_local : option RegKey;
  h_sm_remote : Z;                    (* GetSystemMetrics(SM_REMOTESESSION) *)
  h_wts : option (option Z);          (* WTSClientProtocolType: the call, the pointer, the value *)
  h_module : option wstr;             (* GetModuleFileNameW *)
}.

Definition host_config (h : Host) : Config := LoadFromRegistry (h_crack h) (h_policy h) (h_local h).

(** ** The interface of the tile *)
Class Tile (T : Type) := {
  tile_new : T;
  tile_Initialize : Config → bool → CPUS → Z → T → T;
  tile_SetProviderEvents : option Z → T → T;
  tile_IsAuthenticated : T → bool;
  tile_cpus : T → CPUS;
  tile_cpus_Initialize cfg remote cpus flags t :
    tile_cpus (tile_Initialize cfg remote cpus flags t) = cpus;
  tile_cpus_events e t : tile_cpus (tile_SetProviderEvents e t) = tile_cpus t;
  tile_auth_new : tile_IsAuthenticated tile_new = false;
  tile_auth_Initialize cfg remote cpus flags t :
    tile_IsAuthenticated (tile_Initialize cfg remote cpus flags t) = tile_IsAuthenticated t;
  tile_auth_events e t : tile_IsAuthenticated (tile_SetProviderEvents e t) = tile_IsAuthenticated t
}.

(** The last component of the executable's path; empty when it cannot be read whole. *)
Definition CurrentHostProcessName (h : Host) : wstr :=
  match h_module h with
  | None => []
  | Some path =>
    let n := min (length path) MAX_PATH in
    if bool_decide (n = 0)%nat || bool_decide (MAX_PATH <= n)%nat then [] else
    match find_last_of path [92; 47] with
    | Some slash => substr_from path (slash + 1)
    | None => path
    end
  end.

Definition has_flag (flags bit : Z) : bool := negb (Z.land flags bit =? 0).

Definition IsUacElevationCredUI (dwFlags : Z) (hostProcess : wstr) : bool :=
  if has_flag dwFlags CREDUIWIN_GENERIC then false else
  if has_flag dwFlags CREDUIWIN_ENUMERATE_ADMINS then true else
  bool_decide (ieq hostProcess (W "consent.exe"))
  || bool_decide (ieq hostProcess (W "credentialuibroker.exe"))
  || bool_decide (ieq hostProcess (W "logonui.exe")).

Definition CheckIfRemoteSession (h : Host) : bool :=
  if negb (h_sm_remote h =? 0) then true else
  match h_wts h with
  | Some (Some proto) => negb (proto =? 0)
  | _ => false
  end.

(** [ICredentialProviderFilter::Filter]: the allow flags after the call. *)
Definition filter_enforce (h : Host) (cpus : CPUS) (dwFlags : Z) : bool :=
  let isRemote := CheckIfRemoteSession h in
  let cfg := host_config h in
  if bool_decide (cpus = CPUS_LOGON) || bool_decide (cpus = CPUS_UNLOCK_WORKSTATION) then
    serverUrlConfigured cfg &&
      (isRemote && rdp2faEnabled cfg || negb isRemote && console2faEnabled cfg)
  else if bool_decide (cpus = CPUS_CREDUI) then
    let isUacPrompt := IsUacElevationCredUI dwFlags (CurrentHostProcessName h) in
    negb (has_flag dwFlags CREDUIWIN_GENERIC) && serverUrlConfigured cfg
      && elevation2faEnabled cfg && isUacPrompt
  else false.

Definition Filter (h : Host) (cpus : CPUS) (dwFlags : Z) (providers : list GUID)
    (allow : list bool) : list bool :=
  if filter_enforce h cpus dwFlags then
    zip_with (λ g a, if bool_decide (g = CLSID_PasswordProvider) then false else a) providers allow
  else allow.

Section Provider.
Context {T : Type} `{!Tile T}.

(** The members of [LigamentProvider]; the event interface is its presence. *)
Record Provider := mkProvider {
  p_events : bool; p_adviseContext : Z; p_scenario : CPUS; p_flags : Z;
  p_config : Config; p_isRemoteSession : bool; p_shouldEnforce2FA : bool;
  p_credential : option T }.

#[global] Instance eta_Provider : Settable Provider := λ p,
  mkProvider (p_events p) (p_adviseContext p) (p_scenario p) (p_flags p) (p_config p)
    (p_isRemoteSession p) (p_shouldEnforce2FA p) (p_credential p).

Definition new_Provider (h : Host) : Provider :=
  mkProvider false 0 CPUS_INVALID 0 (host_config h) false false None.

(** The scenarios that ask for a second factor. *)
Definition scenario_enforce (h : Host) (cfg : Config) (remote : bool) (cpus : CPUS) (dwFlags : Z) : bool :=
  if bool_decide (cpus = CPUS_CREDUI) then
    serverUrlConfigured cfg && elevation2faEnabled cfg
      && IsUacElevationCredUI dwFlags (CurrentHostProcessName h)
  else if serverUrlConfigured cfg &&
      (bool_decide (cpus = CPUS_LOGON) || bool_decide (cpus = CPUS_UNLOCK_WORKSTATION)) then
    if remote && rdp2faEnabled cfg then true else
    if negb remote && console2faEnabled cfg then true else false
  else false.

(** The tile of an enforced scenario: created on the first, re-initialised on a change. *)
Definition provide_tile (p : Provider) (scenarioChanged : bool) : T :=
  let '(t, changed) := match p_credential p with
                       | Some t => (t, scenarioChanged)
                       | None => (tile_new, true)
                       end in
  let t := if (changed : bool)
           then tile_Initialize (p_config p) (p_isRemoteSession p) (p_scenario p) (p_flags p) t else t in
  if p_events p then tile_SetProviderEvents (Some (p_adviseContext p)) t else t.

Definition SetUsageScenario (h : Host) (cpus : CPUS) (dwFlags : Z) (p : Provider) : HRESULT * Provider :=
  let scenarioChanged := negb (bool_decide (p_scenario p = cpus)) in
  let p := p <| p_scenario := cpus |> <| p_flags := dwFlags |>
             <| p_isRemoteSession := CheckIfRemoteSession h |> <| p_config := host_config h |> in
  let p := p <| p_shouldEnforce2FA :=
    scenario_enforce h (p_config p) (p_isRemoteSession p) cpus dwFlags |> in
  if bool_decide (cpus = CPUS_CREDUI) && negb (p_shouldEnforce2FA p) then (E_NOTIMPL, p) else
  if p_shouldEnforce2FA p then (S_OK, p <| p_credential := Some (provide_tile p scenarioChanged) |>)
  else (S_OK, p).

Definition SetSerialization (p : Provider) : HRESULT * Provider := (E_NOTIMPL, p).
Definition UpdateRemoteCredential (p : Provider) : HRESULT * Provider := (E_NOTIMPL, p).

Definition provider_Advise (events : bool) (ctx : Z) (p : Provider) : HRESULT * Provider :=
  let p := p <| p_events := events |> <| p_adviseContext := ctx |> in
  (S_OK, p <| p_credential :=
    tile_SetProviderEvents (if events then Some ctx else None) <$> p_credential p |>).

Definition provider_UnAdvise (p : Provider) : HRESULT * Provider :=
  (S_OK, p <| p_credential := tile_SetProviderEvents None <$> p_credential p |>
           <| p_events := false |> <| p_adviseContext := 0 |>).

Definition GetFieldDescriptorCount : nat := length s_Fields.
Definition GetFieldDescriptorAt (dwIndex : nat) : HRESULT * option (FIELD_ID * FieldType * wstr) :=
  match s_Fields !! dwIndex with
  | Some d => (S_OK, Some d)
  | None => (E_INVALIDARG, None)
  end.

(** Count, default index and autologon. *)
Definition GetCredentialCount (p : Provider) : Z * Z * bool :=
  match p_shouldEnforce2FA p, p_credential p with
  | true, Some t => (1, 0, tile_IsAuthenticated t)
  | _, _ => (0, CREDENTIAL_PROVIDER_NO_DEFAULT, false)
  end.

Definition GetCredentialAt (dwIndex : Z) (p : Provider) : HRESULT * option T :=
  match p_credential p with
  | Some t => if dwIndex =? 0 then (S_OK, Some t) else (E_INVALIDARG, None)
  | None => (E_INVALIDARG, None)
  end.
End Provider.
Arguments Provider T : clear implicits.

(** ** The tile of [Credential] behind the interface *)
Section Implementation.
Context (o : World).

Lemma init_auth cfg remote cpus flags x :
  m_authenticated (happen o x (Reinitialized cfg remote cpus flags)).2 = m_authenticated x.2.
Proof. cbn. repeat case_match; done. Qed.

Lemma init_cpus cfg remote cpus flags x :
  m_cpus (happen o x (Reinitialized cfg remote cpus flags)).2 = cpus.
Proof. cbn. repeat case_match; done. Qed.

#[global] Program Instance credential_Tile : Tile (prog unit * Sys) := {
  tile_new := (Ret tt, fresh [] []);
  tile_Initialize cfg remote cpus flags x := happen o x (Reinitialized cfg remote cpus flags);
  tile_SetProviderEvents e x := happen o x (LogonUI (CallSetProviderEvents e));
  tile_IsAuthenticated x := m_authenticated x.2;
  tile_cpus x := m_cpus x.2
}.
Next Obligation. intros. apply init_cpus. Qed.
Next Obligation. done. Qed.
Next Obligation. done. Qed.
Next Obligation. intros. apply init_auth. Qed.
Next Obligation. done. Qed.
End Implementation.

(** ** When the tile is offered *)

(** The documented policy: a configured server, and the switch of the scenario at hand. *)
Definition uac_prompt (h : Host) (dwFlags : Z) : Prop :=
  Z.land dwFlags CREDUIWIN_GENERIC = 0 ∧
  (Z.land dwFlags CREDUIWIN_ENUMERATE_ADMINS ≠ 0 ∨
   ∃ name, name ∈ [W "consent.exe"; W "credentialuibroker.exe"; W "logonui.exe"] ∧
           ieq (CurrentHostProcessName h) name).

Definition needs_2fa (h : Host) (cpus : CPUS) (dwFlags : Z) : Prop :=
  serverUrlConfigured (host_config h) = true ∧
  match cpus with
  | CPUS_LOGON | CPUS_UNLOCK_WORKSTATION =>
    (if CheckIfRemoteSession h then rdp2faEnabled (host_config h)
     else console2faEnabled (host_config h)) = true
  | CPUS_CREDUI => elevation2faEnabled (host_config h) = true ∧ uac_prompt h dwFlags
  | _ => False
  end.

Section Offer.
Context {T : Type} `{!Tile T}.

Lemma uac_prompt_spec h dwFlags :
  IsUacElevationCredUI dwFlags (CurrentHostProcessName h) = true ↔ uac_prompt h dwFlags.
Proof.
  unfold IsUacElevationCredUI, uac_prompt, has_flag.
  destruct (Z.eqb_spec (Z.land dwFlags CREDUIWIN_GENERIC) 0); cbn [negb]; [|naive_solver].
  destruct (Z.eqb_spec (Z.land dwFlags CREDUIWIN_ENUMERATE_ADMINS) 0); cbn [negb]; [|naive_solver].
  rewrite !orb_true_iff, !bool_decide_eq_true. split.
  - intros Hn. split; [done|]. right. destruct Hn as [[?|?]|?]; eexists; (split; [|eassumption]); set_solver.
  - intros (_ & [?|(name & Hin & Hn)]); [done|].
    repeat (apply elem_of_cons in Hin as [->|Hin]; [tauto|]). by apply not_elem_of_nil in Hin.
Qed.

Lemma scenario_enforce_spec h cpus dwFlags :
  scenario_enforce h (host_config h) (CheckIfRemoteSession h) cpus dwFlags = true ↔
  needs_2fa h cpus dwFlags.
Proof.
  unfold scenario_enforce, needs_2fa. pose proof (uac_prompt_spec h dwFlags) as Hu.
  generalize dependent (uac_prompt h dwFlags). intros P Hu.
  generalize dependent (IsUacElevationCredUI dwFlags (CurrentHostProcessName h)). intros b Hu.
  destruct (serverUrlConfigured _), (CheckIfRemoteSession h), (rdp2faEnabled _),
    (console2faEnabled _), (elevation2faEnabled _), b, cpus; cbv -[iff not]; rewrite <- ?Hu; clear Hu; intuition congruence.
Qed.

Lemma filter_enforce_eq h cpus dwFlags : filter_enforce h cpus dwFlags =
  scenario_enforce h (host_config h) (CheckIfRemoteSession h) cpus dwFlags.
Proof.
  unfold filter_enforce, scenario_enforce. cbv zeta.
  assert (has_flag dwFlags CREDUIWIN_GENERIC = true →
    IsUacElevationCredUI dwFlags (CurrentHostProcessName h) = false) as Hg.
  { unfold IsUacElevationCredUI. by intros ->. }
  generalize dependent (IsUacElevationCredUI dwFlags (CurrentHostProcessName h)). intros b Hg.
  destruct (has_flag dwFlags CREDUIWIN_GENERIC); [rewrite (Hg eq_refl)|];
    destruct (serverUrlConfigured _), (CheckIfRemoteSession h), (rdp2faEnabled _),
      (console2faEnabled _), (elevation2faEnabled _), cpus; done.
Qed.

Lemma offered_iff h cpus dwFlags (p : Provider T) :
  (GetCredentialCount (SetUsageScenario h cpus dwFlags p).2).1.1 = 1 ↔
  scenario_enforce h (host_config h) (CheckIfRemoteSession h) cpus dwFlags = true.
Proof.
  unfold SetUsageScenario. cbn.
  destruct (scenario_enforce _ _ _ _ _) eqn:E; cbn; [|by destruct (bool_decide _)].
  by rewrite andb_false_r.
Qed.
End Offer.

(** C2: [Filter] and [SetUsageScenario] agree on the same machine: the stock password tile
    is hidden exactly when the Ligament tile is offered (and is there to be picked), so no
    scenario is left without a tile or with a way round the second factor; every other
    provider keeps its flag. *)
Theorem Filter_agrees {T : Type} `{!Tile T} (h : Host) (cpus : CPUS) (dwFlags : Z) (p : Provider T)
    (providers : list GUID) (allow : list bool) :
  length allow = length providers →
  let p' := (SetUsageScenario h cpus dwFlags p).2 in
  let offered := (GetCredentialCount p').1.1 =? 1 in
  (∀ (i : nat) g a, providers !! i = Some g → allow !! i = Some a →
     Filter h cpus dwFlags providers allow !! i =
       Some (if bool_decide (g = CLSID_PasswordProvider) && offered then false else a)) ∧
  (offered = true → ∃ t, GetCredentialAt 0 p' = (S_OK, Some t)) ∧
  ((SetUsageScenario h cpus dwFlags p).1 = E_NOTIMPL ↔ cpus = CPUS_CREDUI ∧ offered = false).
Proof.
  intros Hlen. cbv zeta. pose proof (offered_iff h cpus dwFlags p) as Hoff.
  unfold Filter. rewrite filter_enforce_eq.
  destruct (Z.eqb_spec (GetCredentialCount (SetUsageScenario h cpus dwFlags p).2).1.1 1) as [H1|H1].
  - apply Hoff in H1 as He. rewrite He. split_and!.
    + intros i g a Hg Ha. rewrite andb_true_r. rewrite lookup_zip_with, Hg, Ha. done.
    + intros _. unfold SetUsageScenario. cbn. rewrite He. cbn. rewrite andb_false_r. by eexists.
    + unfold SetUsageScenario. cbn. rewrite He. cbn. rewrite andb_false_r. cbn. naive_solver.
  - destruct (scenario_enforce _ _ _ _ _) eqn:He; [by destruct H1; apply Hoff|]. split_and!.
    + intros i g a Hg Ha. by rewrite andb_false_r.
    + by intros [=].
    + unfold SetUsageScenario. cbn. rewrite He. cbn. rewrite andb_true_r.
      destruct (bool_decide_reflect (cpus = CPUS_CREDUI)); cbn [fst]; [done|].
      split; [intros [=]|intros [? _]; done].
Qed.

(** A machine to evaluate on: [test_policy], a console session, [consent.exe]. *)
Definition a_host (policy : RegKey) (remote : Z) : Host :=
  mkHost test_crack (Some policy) None remote None (Some (W "C:\Windows\System32\Consent.exe")).
#[local] Instance approving_Tile : Tile (prog unit * Sys) := credential_Tile approving.
Definition another_guid : GUID := mkGUID 1 2 3 [].

Lemma Filter_agrees_witness :
  let h := a_host test_policy 1 in
  let p := new_Provider h : Provider (prog unit * Sys) in
  let p' := (SetUsageScenario h CPUS_LOGON 0 p).2 in
  let offered := (GetCredentialCount p').1.1 =? 1 in
  offered = true ∧
  Filter h CPUS_LOGON 0 [another_guid; CLSID_PasswordProvider] [true; true] = [true; false] ∧
  (∀ (i : nat) g a, [another_guid; CLSID_PasswordProvider] !! i = Some g → [true; true] !! i = Some a →
     Filter h CPUS_LOGON 0 [another_guid; CLSID_PasswordProvider] [true; true] !! i =
       Some (if bool_decide (g = CLSID_PasswordProvider) && offered then false else a)) ∧
  (offered = true → ∃ t, GetCredentialAt 0 p' = (S_OK, Some t)) ∧
  ((SetUsageScenario h CPUS_LOGON 0 p).1 = E_NOTIMPL ↔ CPUS_LOGON = CPUS_CREDUI ∧ offered = false).
Proof.
  cbv zeta. split; [vm_compute; reflexivity|]. split; [vm_compute; reflexivity|].
  apply (Filter_agrees (a_host test_policy 1) CPUS_LOGON 0); reflexivity.
Defined.

(** The Ligament tile is offered in exactly the documented cases: a configured server,
    and at a logon or unlock the switch for the kind of session, at a credential prompt the
    elevation switch together with a prompt that is certainly UAC's; in every other scenario
    (a password change, a generic prompt) it is not. *)
Theorem SetUsageScenario_policy {T : Type} `{!Tile T} (h : Host) (cpus : CPUS) (dwFlags : Z)
    (p : Provider T) :
  let p' := (SetUsageScenario h cpus dwFlags p).2 in
  ((GetCredentialCount p').1.1 = 1 ↔ needs_2fa h cpus dwFlags) ∧
  (¬ needs_2fa h cpus dwFlags →
     GetCredentialCount p' = (0, CREDENTIAL_PROVIDER_NO_DEFAULT, false)).
Proof.
  cbv zeta. pose proof (offered_iff h cpus dwFlags p) as Ho.
  pose proof (scenario_enforce_spec h cpus dwFlags) as Hs. split; [tauto|]. intros Hn.
  unfold SetUsageScenario. cbn.
  destruct (scenario_enforce _ _ _ _ _); [by destruct Hn; apply Hs|].
  cbn. by destruct (bool_decide _).
Qed.

Lemma SetUsageScenario_policy_witness :
  let h := a_host test_policy 0 in
  let p' := (SetUsageScenario h CPUS_CHANGE_PASSWORD 0
               (new_Provider h : Provider (prog unit * Sys))).2 in
  ¬ needs_2fa h CPUS_CHANGE_PASSWORD 0 ∧
  GetCredentialCount p' = (0, CREDENTIAL_PROVIDER_NO_DEFAULT, false).
Proof.
  assert (¬ needs_2fa (a_host test_policy 0) CPUS_CHANGE_PASSWORD 0) as H by (intros [_ []]).
  split; [exact H|].
  exact (proj2 (SetUsageScenario_policy (a_host test_policy 0)
    CPUS_CHANGE_PASSWORD 0 (new_Provider (a_host test_policy 0))) H).
Defined.

(** When the tile is offered: after a change of scenario it is initialised for the new
    one; announced again for the same scenario it is the same tile with its confirmation, so
    autologon after an approved push still happens; and the autologon flag is exactly the
    tile's confirmation. *)
Theorem SetUsageScenario_tile {T : Type} `{!Tile T} (h : Host) (cpus : CPUS) (dwFlags : Z)
    (p : Provider T) (t : T) :
  p_credential p = Some t → needs_2fa h cpus dwFlags →
  let p' := (SetUsageScenario h cpus dwFlags p).2 in
  ∃ t', GetCredentialAt 0 p' = (S_OK, Some t') ∧
    GetCredentialCount p' = (1, 0, tile_IsAuthenticated t) ∧
    (p_scenario p ≠ cpus → tile_cpus t' = cpus) ∧
    (p_scenario p = cpus → t' = if p_events p then tile_SetProviderEvents (Some (p_adviseContext p)) t
                                else t).
Proof.
  intros Ht Hn%scenario_enforce_spec. cbv zeta. unfold SetUsageScenario. cbn.
  rewrite Hn. cbn. rewrite andb_false_r. cbn. unfold provide_tile. cbn. rewrite Ht.
  eexists. split; [reflexivity|].
  destruct (bool_decide_reflect (p_scenario p = cpus)), (p_events p); cbn;
    rewrite ?tile_auth_events, ?tile_auth_Initialize, ?tile_cpus_events, ?tile_cpus_Initialize;
    by split_and!.
Qed.

Definition logon_provider : Provider (prog unit * Sys) :=
  (SetUsageScenario (a_host test_policy 1) CPUS_LOGON 0 (new_Provider (a_host test_policy 1))).2.
Definition approved_provider : Provider (prog unit * Sys) :=
  logon_provider <| p_credential := Some waiting_tile |>.

Lemma SetUsageScenario_tile_witness :
  needs_2fa (a_host test_policy 1) CPUS_LOGON 0 ∧
  let p' := (SetUsageScenario (a_host test_policy 1) CPUS_LOGON 0 approved_provider).2 in
  GetCredentialCount p' = (1, 0, true) ∧
  ∃ t', GetCredentialAt 0 p' = (S_OK, Some t') ∧
    GetCredentialCount p' = (1, 0, tile_IsAuthenticated waiting_tile) ∧
    (p_scenario approved_provider ≠ CPUS_LOGON → tile_cpus t' = CPUS_LOGON) ∧
    (p_scenario approved_provider = CPUS_LOGON →
       t' = if p_events approved_provider
            then tile_SetProviderEvents (Some (p_adviseContext approved_provider)) waiting_tile
            else waiting_tile).
Proof.
  assert (needs_2fa (a_host test_policy 1) CPUS_LOGON 0) as H.
  { split; vm_compute; reflexivity. }
  split; [exact H|]. split; [vm_compute; reflexivity|].
  exact (SetUsageScenario_tile (a_host test_policy 1) CPUS_LOGON 0 approved_provider waiting_tile
    eq_refl H).
Defined.

(** A provider that saw a logon, then a prompt of another application (which it
    declines), then a UAC prompt keeps the tile initialised for the logon: the declined call
    already recorded the scenario, so the third call sees no change. The tile would pack a
    logon blob for UAC, which the comment at the re-initialisation says cannot happen. *)
Theorem declined_prompt_leaves_stale_tile :
  let h := a_host (<[W "Elevation2FAEnabled" := reg_dword 1]> test_policy) 1 in
  let p0 : Provider (prog unit * Sys) := new_Provider h in
  let p1 := (SetUsageScenario h CPUS_LOGON 0 p0).2 in
  let x2 := SetUsageScenario h CPUS_CREDUI CREDUIWIN_GENERIC p1 in
  let x3 := SetUsageScenario h CPUS_CREDUI CREDUIWIN_ENUMERATE_ADMINS x2.2 in
  x2.1 = E_NOTIMPL ∧ x3.1 = S_OK ∧ (GetCredentialCount x3.2).1.1 = 1 ∧
  p_scenario x3.2 = CPUS_CREDUI ∧ (tile_cpus <$> p_credential x3.2) = Some CPUS_LOGON.
Proof. vm_compute. by split_and!. Qed.
