(* ===== verification/CredentialImage.v ===== *)
(** * The PNG of the tile's image

    [windows/credential_provider/credential_image.h]: CRC-32, chunks, Adler-32,
    stored DEFLATE blocks, and [EncodeOpaqueBgraPng], with a reference PNG
    reader that follows the PNG, zlib and DEFLATE specifications. *)
From Stdlib Require Import Zbitwise.
From S2P Require Import Prelude.

(** ** The encoder *)
Definition AppendBigEndian (value : Z) : str :=
  [u8 (Z.shiftr value 24); u8 (Z.shiftr value 16); u8 (Z.shiftr value 8); u8 value].

(** One round of the bit loop: the mask is all ones when the low bit is set. *)
Definition crc_bit (crc : Z) : Z :=
  let mask := u32 (0 - Z.land crc 1) in
  Z.lxor (Z.shiftr crc 1) (Z.land 3988292384 mask).

Definition crc_byte (crc byte : Z) : Z := Nat.iter 8 crc_bit (Z.lxor crc byte).

Definition PngCrc32 (bytes : str) : Z :=
  Z.lxor (fold_left crc_byte bytes 4294967295) 4294967295.

Definition AppendPngChunk (type data : str) : str :=
  AppendBigEndian (u32 (Z.of_nat (length data))) ++ type ++ data
  ++ AppendBigEndian (PngCrc32 (type ++ data)).

Definition kMaxDimension : Z := 4096.
Definition kMaxSourcePixels : Z := 16777216.
Definition kBlockSize : nat := Z.to_nat 65535.

(** The checks before any pixel is read. *)
Definition png_accepts (width height stride : Z) : bool :=
  if (width =? 0) || (height =? 0) || (kMaxDimension <? width) || (kMaxDimension <? height)
     || (stride <? width) then false else
  let rowsBeforeLast := height - 1 in
  if negb (rowsBeforeLast =? 0) && ((kMaxSourcePixels - width) / rowsBeforeLast <? stride)
  then false else
  let sourcePixels := rowsBeforeLast * stride + width in
  negb (kMaxSourcePixels <? sourcePixels).

Definition png_pixel (pixel : Z) : option str :=
  if Z.shiftr pixel 24 =? 255
  then Some [u8 (Z.shiftr pixel 16); u8 (Z.shiftr pixel 8); u8 pixel; 255] else None.

(** The filtered scan lines; [None] at the first pixel that is not opaque. *)
Fixpoint png_row (pixels : list Z) (at_ : nat) (n : nat) : option str :=
  match n with
  | O => Some []
  | S n => p ← png_pixel (pixels !!! at_); r ← png_row pixels (S at_) n; Some (p ++ r)
  end.
Fixpoint png_rows (pixels : list Z) (width stride y n : nat) : option str :=
  match n with
  | O => Some []
  | S n => r ← png_row pixels (y * stride) width; rs ← png_rows pixels width stride (S y) n;
           Some ((0 :: r) ++ rs)
  end.

Definition adler_byte (ab : Z * Z) (byte : Z) : Z * Z :=
  let a := u32 (ab.1 + byte) mod 65521 in (a, u32 (ab.2 + a) mod 65521).

Definition stored_block (length16 : Z) (last : bool) (data : str) : str :=
  let inverseLength := u16 (Z.lnot length16) in
  [if last then 1 else 0; u8 length16; u8 (Z.shiftr length16 8);
   u8 inverseLength; u8 (Z.shiftr inverseLength 8)] ++ data.

(** [for (size_t start = 0; start < rawSize;)]: what is left of [raw] at each turn. *)
Fixpoint stored_blocks (fuel : nat) (raw : str) : str :=
  match fuel, raw with
  | O, _ | _, [] => []
  | S fuel, _ =>
    let remaining := length raw in
    let n := if decide (remaining < kBlockSize)%nat then remaining else kBlockSize in
    stored_block (Z.of_nat n) (bool_decide (remaining <= kBlockSize)%nat) (take n raw)
    ++ stored_blocks fuel (drop n raw)
  end.

Definition zlib_stored (raw : str) : str :=
  let ab := fold_left adler_byte raw (1, 0) in
  [120; 1] ++ stored_blocks (length raw) raw ++ AppendBigEndian (Z.lor (Z.shiftl ab.2 16) ab.1).

Definition png_signature : str := [137; 80; 78; 71; 13; 10; 26; 10].

Definition EncodeOpaqueBgraPng (pixels : option (list Z)) (width height stride : Z) : str :=
  match pixels with
  | None => []
  | Some px =>
    if negb (png_accepts width height stride) then [] else
    match png_rows px (Z.to_nat width) (Z.to_nat stride) 0 (Z.to_nat height) with
    | None => []
    | Some raw =>
      let rawSize := Z.of_nat (length raw) in
      let blocks := (rawSize + 65535 - 1) / 65535 in
      if 4294967295 <? 2 + rawSize + blocks * 5 + 4 then [] else
      let ihdr := AppendBigEndian width ++ AppendBigEndian height ++ [8; 6; 0; 0; 0] in
      png_signature ++ AppendPngChunk (B "IHDR") ihdr
      ++ AppendPngChunk (B "IDAT") (zlib_stored raw) ++ AppendPngChunk (B "IEND") []
    end
  end.

(** ** Reference checksums *)

(** CRC-32 with the table of the PNG specification (annex D). *)
Definition table_step (c : Z) : Z :=
  if Z.odd c then Z.lxor 3988292384 (Z.shiftr c 1) else Z.shiftr c 1.
Definition crc_table (n : Z) : Z := Nat.iter 8 table_step n.
Definition update_crc (c byte : Z) : Z :=
  Z.lxor (crc_table (Z.land (Z.lxor c byte) 255)) (Z.shiftr c 8).
Definition crc (bytes : str) : Z := Z.lxor (fold_left update_crc bytes 4294967295) 4294967295.

(** Adler-32 as RFC 1950 defines it: one plus the sum, and the sum of those sums. *)
Fixpoint sum (l : str) : Z := match l with [] => 0 | x :: l => x + sum l end.
Definition adler_s1 (l : str) : Z := 1 + sum l.
Fixpoint adler_s2 (l : str) (acc : Z) : Z :=
  match l with [] => 0 | x :: l => (acc + x) + adler_s2 l (acc + x) end.
Definition adler32 (l : str) : Z := adler_s2 l 1 mod 65521 * 65536 + adler_s1 l mod 65521.

(** ** The reference reader *)
Definition read_be (l : str) : option (Z * str) :=
  match l with
  | a :: b :: c :: d :: rest => Some (a * 16777216 + b * 65536 + c * 256 + d, rest)
  | _ => None
  end.

(** Split off [n] bytes. *)
Definition split_at (n : nat) (l : str) : option (str * str) :=
  if decide (n <= length l)%nat then Some (take n l, drop n l) else None.

Definition read_chunk (l : str) : option (str * str * str) :=
  '(n, l) ← read_be l; '(type, l) ← split_at 4 l; '(data, l) ← split_at (Z.to_nat n) l;
  '(c, l) ← read_be l;
  if c =? crc (type ++ data) then Some (type, data, l) else None.

(** Stored blocks only: BTYPE 00, LEN and its complement. *)
Fixpoint inflate (fuel : nat) (l : str) : option (str * str) :=
  match fuel, l with
  | S fuel, h :: l0 :: l1 :: n0 :: n1 :: l =>
    let len := l1 * 256 + l0 in
    if (Z.land (Z.shiftr h 1) 3 =? 0) && (n1 * 256 + n0 =? 65535 - len) then
      '(data, l) ← split_at (Z.to_nat len) l;
      if Z.odd h then Some (data, l) else '(more, l) ← inflate fuel l; Some (data ++ more, l)
    else None
  | _, _ => None
  end.

Definition unzlib (l : str) : option str :=
  match l with
  | cmf :: flg :: l =>
    if (Z.land cmf 15 =? 8) && (Z.shiftr cmf 4 <=? 7) && ((cmf * 256 + flg) mod 31 =? 0)
       && negb (Z.testbit flg 5) then
      '(raw, l) ← inflate (length l) l; '(a, l) ← read_be l;
      if (a =? adler32 raw) && bool_decide (l = []) then Some raw else None
    else None
  | _ => None
  end.

(** RGBA bytes of one scan line as 0xAARRGGBB. *)
Fixpoint read_pixels (n : nat) (l : str) : option (list Z * str) :=
  match n, l with
  | O, _ => Some ([], l)
  | S n, r :: g :: b :: a :: l =>
    '(ps, l) ← read_pixels n l; Some (a * 16777216 + r * 65536 + g * 256 + b :: ps, l)
  | _, _ => None
  end.
Fixpoint read_rows (h w : nat) (l : str) : option (list (list Z)) :=
  match h, l with
  | O, [] => Some []
  | S h, 0 :: l => '(row, l) ← read_pixels w l; rows ← read_rows h w l; Some (row :: rows)
  | _, _ => None
  end.

(** Width, height and rows of an RGBA8 image without interlacing. *)
Definition read_png (l : str) : option (Z * Z * list (list Z)) :=
  '(sg, l) ← split_at 8 l;
  if negb (bool_decide (sg = png_signature)) then None else
  '(t1, ihdr, l) ← read_chunk l; '(t2, idat, l) ← read_chunk l; '(t3, iend, l) ← read_chunk l;
  '(w, hdr) ← read_be ihdr; '(h, hdr) ← read_be hdr;
  if bool_decide (t1 = B "IHDR") && bool_decide (t2 = B "IDAT") && bool_decide (t3 = B "IEND")
     && bool_decide (hdr = [8; 6; 0; 0; 0]) && bool_decide (iend = []) && bool_decide (l = []) then
    raw ← unzlib idat; rows ← read_rows (Z.to_nat h) (Z.to_nat w) raw; Some (w, h, rows)
  else None.

(** ** Checksums agree *)
Definition word32 (z : Z) : Prop := 0 <= z < 4294967296.

Lemma word32_shiftr z : 0 <= z → word32 z ↔ Z.shiftr z 32 = 0.
Proof. intros Hz. rewrite Z.shiftr_div_pow2 by lia. change (2 ^ 32) with 4294967296. unfold word32.
  pose proof (Z.div_mod z 4294967296). pose proof (Z.mod_pos_bound z 4294967296). lia.
Qed.

Lemma lxor_word32 a b : word32 a → word32 b → word32 (Z.lxor a b).
Proof.
  intros Ha Hb. assert (0 <= Z.lxor a b) by (apply Z.lxor_nonneg; unfold word32 in *; lia).
  apply word32_shiftr; [done|]. rewrite Z.shiftr_lxor.
  apply word32_shiftr in Ha as ->; [|apply Ha]. apply word32_shiftr in Hb as ->; [done|apply Hb].
Qed.

Lemma shiftr_word32 a n : 0 <= n → word32 a → word32 (Z.shiftr a n).
Proof.
  intros Hn [H1 H2]. rewrite Z.shiftr_div_pow2 by lia.
  assert (0 < 2 ^ n) by (apply Z.pow_pos_nonneg; lia). split; [apply Z.div_pos; lia|].
  eapply Z.le_lt_trans; [|exact H2]. apply Z.div_le_upper_bound; [lia|]. nia.
Qed.

Lemma land_1 c : Z.land c 1 = if Z.odd c then 1 else 0.
Proof. change 1 with (Z.ones 1) at 1. rewrite Z.land_ones by lia. apply Zmod_odd. Qed.

Lemma crc_bit_table c : crc_bit c = table_step c.
Proof.
  unfold crc_bit, table_step. cbv zeta. rewrite land_1. destruct (Z.odd c).
  - rewrite Z.lxor_comm. done.
  - rewrite Z.land_0_r, Z.lxor_0_r. done.
Qed.

Lemma table_step_lxor a b : table_step (Z.lxor a b) = Z.lxor (table_step a) (table_step b).
Proof.
  unfold table_step. rewrite Z.shiftr_lxor, <- !Z.bit0_odd, Z.lxor_spec.
  set (P := 3988292384). generalize (Z.shiftr a 1), (Z.shiftr b 1). intros x y.
  destruct (Z.testbit a 0), (Z.testbit b 0); cbn [xorb].
  - rewrite (Z.lxor_comm P x), Z.lxor_assoc, <- (Z.lxor_assoc P P y), Z.lxor_nilpotent, Z.lxor_0_l. done.
  - by rewrite Z.lxor_assoc.
  - rewrite <- !Z.lxor_assoc. f_equal. apply Z.lxor_comm.
  - done.
Qed.

Lemma table_iter_lxor n a b :
  Nat.iter n table_step (Z.lxor a b) = Z.lxor (Nat.iter n table_step a) (Nat.iter n table_step b).
Proof. induction n as [|n IH]; [done|]. rewrite !Nat.iter_succ. by rewrite IH, table_step_lxor. Qed.

Lemma table_step_even h k : 0 <= k → table_step (Z.shiftl h (k + 1)) = Z.shiftl h k.
Proof.
  intros Hk. unfold table_step. rewrite <- Z.bit0_odd, Z.shiftl_spec_low by lia.
  rewrite Z.shiftr_shiftl_l by lia. f_equal. lia.
Qed.

Lemma table_iter_shiftl h : Nat.iter 8 table_step (Z.shiftl h 8) = h.
Proof.
  change (Z.shiftl h 8) with (Z.shiftl h (((((((0 + 1) + 1) + 1) + 1) + 1) + 1) + 1 + 1)).
  rewrite 8!Nat.iter_succ_r. rewrite !table_step_even by lia. apply Z.shiftl_0_r.
Qed.

Lemma lxor_byte_split c b : is_byte b → Z.lxor c b =
  Z.lxor (Z.shiftl (Z.shiftr c 8) 8) (Z.land (Z.lxor c b) 255).
Proof.
  intros Hb. apply Z.bits_inj'. intros n Hn. change 255 with (Z.ones 8).
  rewrite !Z.lxor_spec, Z.land_spec, Z.lxor_spec. destruct (decide (n < 8)).
  - rewrite Z.shiftl_spec_low, Z.ones_spec_low by lia. by rewrite andb_true_r.
  - rewrite Z.shiftl_spec_high, Z.shiftr_spec, Z.ones_spec_high by lia.
    rewrite Z.sub_add, andb_false_r, xorb_false_r.
    replace (Z.testbit b n) with false; [apply xorb_false_r|].
    rewrite Z.testbit_odd, Z.shiftr_div_pow2 by lia. rewrite Z.div_small; [done|].
    split; [apply Hb|]. eapply Z.lt_le_trans; [apply Hb|]. change 256 with (2 ^ 8).
    apply Z.pow_le_mono_r; lia.
Qed.

Lemma crc_byte_table c b : is_byte b → crc_byte c b = update_crc c b.
Proof.
  intros Hb. unfold crc_byte, update_crc.
  assert (∀ n x, Nat.iter n crc_bit x = Nat.iter n table_step x) as ->.
  { intros n x. induction n as [|n IH]; [done|]. rewrite !Nat.iter_succ. by rewrite IH, crc_bit_table. }
  rewrite (lxor_byte_split c b Hb) at 1. rewrite table_iter_lxor, table_iter_shiftl.
  apply Z.lxor_comm.
Qed.

Lemma fold_cons {A C} (f : A → C → A) b l c : fold_left f (b :: l) c = fold_left f l (f c b).
Proof. done. Qed.

Lemma fold_crc l : Forall is_byte l → ∀ c, fold_left crc_byte l c = fold_left update_crc l c.
Proof.
  induction 1 as [|b l Hb _ IH]; intros c; [done|].
  by rewrite !fold_cons, crc_byte_table, IH.
Qed.

Lemma PngCrc32_crc l : Forall is_byte l → PngCrc32 l = crc l.
Proof. intros Hl. unfold PngCrc32, crc. by rewrite fold_crc. Qed.

Lemma table_step_word32 c : word32 c → word32 (table_step c).
Proof.
  intros Hc. unfold table_step. destruct (Z.odd c); [apply lxor_word32; [done|]|];
    by apply shiftr_word32.
Qed.

Lemma crc_word32 l : word32 (crc l).
Proof.
  unfold crc. apply lxor_word32; [|done].
  assert (word32 4294967295) as H by done. revert H. generalize 4294967295 at 1 2.
  induction l as [|b l IH]; intros c Hc; [done|]. apply IH.
  unfold update_crc. apply lxor_word32; [|by apply shiftr_word32].
  unfold crc_table. apply Nat.iter_invariant; [intros x; apply table_step_word32|].
  change 255 with (Z.ones 8). rewrite Z.land_ones by lia. change (2 ^ 8) with 256.
  pose proof (Z.mod_pos_bound (Z.lxor c b) 256). unfold word32. lia.
Qed.

Lemma adler_s2_shift l : ∀ a k, adler_s2 l (a + k) = adler_s2 l a + Z.of_nat (length l) * k.
Proof.
  induction l as [|x l IH]; intros a k; cbn [adler_s2 length]; [lia|].
  replace (a + k + x) with (a + x + k) by lia. rewrite IH. lia.
Qed.

Lemma adler_s2_mod l a : adler_s2 l (a mod 65521) mod 65521 = adler_s2 l a mod 65521.
Proof.
  rewrite (Z.div_mod a 65521) at 2 by lia. rewrite (Z.add_comm (65521 * _)), adler_s2_shift.
  replace (Z.of_nat (length l) * (65521 * (a / 65521)))
    with ((Z.of_nat (length l) * (a / 65521)) * 65521) by lia.
  by rewrite Z.mod_add by lia.
Qed.

Lemma adler_fold l : Forall is_byte l → ∀ a b, 0 <= a < 65521 → 0 <= b < 65521 →
  fold_left adler_byte l (a, b) = ((a + sum l) mod 65521, (b + adler_s2 l a) mod 65521).
Proof.
  induction 1 as [|x l Hx _ IH]; intros a b Ha Hb; cbn [fold_left sum adler_s2].
  { by rewrite !Z.add_0_r, !Z.mod_small. }
  unfold adler_byte at 2. cbn [fst snd]. cbv zeta. unfold is_byte in Hx.
  pose proof (Z.mod_pos_bound (a + x) 65521). unfold u32.
  rewrite !(Z.mod_small _ (2 ^ 32)) by (rewrite ?(Z.mod_small (a + x) (2 ^ 32)); lia).
  pose proof (Z.mod_pos_bound (b + (a + x) mod 65521) 65521).
  rewrite IH by lia. f_equal.
  - rewrite Z.add_mod_idemp_l by lia. f_equal. lia.
  - rewrite Z.add_mod_idemp_l by lia. rewrite <- Z.add_assoc.
    rewrite <- (Z.add_mod_idemp_r b) by lia. rewrite <- (Z.add_mod_idemp_r b (a + x + _)) by lia.
    f_equal. f_equal. rewrite <- Z.add_mod_idemp_r, adler_s2_mod, Z.add_mod_idemp_r by lia.
    by rewrite Z.add_mod_idemp_l by lia.
Qed.

Lemma lor_halves b a : 0 <= a < 65536 → Z.lor (Z.shiftl b 16) a = b * 65536 + a.
Proof.
  intros Ha. rewrite <- Z.add_nocarry_lor.
  - rewrite Z.shiftl_mul_pow2 by lia. done.
  - apply Z.bits_inj'. intros n Hn. rewrite Z.land_spec, Z.bits_0. destruct (decide (n < 16)).
    + by rewrite Z.shiftl_spec_low by lia.
    + replace (Z.testbit a n) with false; [apply andb_false_r|].
      rewrite Z.testbit_odd, Z.shiftr_div_pow2 by lia. rewrite Z.div_small; [done|].
      split; [lia|]. eapply Z.lt_le_trans; [apply Ha|]. change 65536 with (2 ^ 16).
      apply Z.pow_le_mono_r; lia.
Qed.

Lemma adler_word l : Forall is_byte l →
  let ab := fold_left adler_byte l (1, 0) in Z.lor (Z.shiftl ab.2 16) ab.1 = adler32 l ∧ word32 (adler32 l).
Proof.
  intros Hl. cbv zeta. rewrite adler_fold by (done || lia). cbn [fst snd].
  pose proof (Z.mod_pos_bound (1 + sum l) 65521). pose proof (Z.mod_pos_bound (0 + adler_s2 l 1) 65521).
  rewrite lor_halves by lia. split; [done|].
  unfold adler32, adler_s1, word32. rewrite Z.add_0_l in *. lia.
Qed.

(** ** Reading back what was written *)
Lemma read_be_append v rest : word32 v → read_be (AppendBigEndian v ++ rest) = Some (v, rest).
Proof.
  intros [H1 H2]. unfold AppendBigEndian, read_be, u8. cbn [app].
  rewrite !Z.shiftr_div_pow2 by lia. f_equal. f_equal.
  change (2 ^ 24) with 16777216. change (2 ^ 16) with 65536. change (2 ^ 8) with 256.
  rewrite (Z.mod_small (v / 16777216)) by (split; [apply Z.div_pos; lia|apply Z.div_lt_upper_bound; lia]).
  replace (v / 16777216) with (v / 65536 / 256) by (rewrite Z.div_div; [f_equal|lia|lia]; lia).
  replace (v / 65536) with (v / 256 / 256) by (rewrite Z.div_div; [f_equal|lia|lia]; lia).
  pose proof (Z.div_mod v 256). pose proof (Z.div_mod (v / 256) 256).
  pose proof (Z.div_mod (v / 256 / 256) 256). lia.
Qed.

Lemma length_be v : length (AppendBigEndian v) = 4%nat.
Proof. done. Qed.
Lemma bytes_be v : Forall is_byte (AppendBigEndian v).
Proof. unfold AppendBigEndian. repeat (apply Forall_cons; split; [apply u8_byte|]). by apply Forall_nil. Qed.

Lemma split_at_app l rest : split_at (length l) (l ++ rest) = Some (l, rest).
Proof.
  unfold split_at. rewrite decide_True by (rewrite length_app; lia).
  by rewrite take_app_length, drop_app_length.
Qed.

Lemma read_chunk_append type data rest :
  length type = 4%nat → Forall is_byte type → Forall is_byte data → word32 (Z.of_nat (length data)) →
  read_chunk (AppendPngChunk type data ++ rest) = Some (type, data, rest).
Proof.
  intros Ht Hbt Hbd Hlen. unfold AppendPngChunk, read_chunk.
  unfold u32. rewrite Z.mod_small by exact Hlen. rewrite <- (app_assoc (AppendBigEndian _)), read_be_append by done. cbn [mbind option_bind].
  rewrite <- app_assoc, <- Ht, split_at_app. cbn [mbind option_bind].
  rewrite Nat2Z.id, <- app_assoc, split_at_app. cbn [mbind option_bind].
  rewrite PngCrc32_crc by (by apply Forall_app). rewrite read_be_append by apply crc_word32.
  cbn [mbind option_bind].
  by rewrite Z.eqb_refl.
Qed.

Lemma kBlockSize_Z : Z.of_nat kBlockSize = 65535.
Proof. unfold kBlockSize. by rewrite Z2Nat.id by lia. Qed.

(** A stored block is read back, whatever follows. *)
Lemma inflate_block fuel n data last rest :
  Z.of_nat (length data) = n → n <= 65535 →
  inflate (S fuel) (stored_block n last data ++ rest) =
    if (last : bool) then Some (data, rest)
    else '(more, l) ← inflate fuel rest; Some (data ++ more, l).
Proof.
  intros Hn Hle. unfold stored_block. cbn [app inflate].
  assert (u8 (Z.shiftr n 8) * 256 + u8 n = n) as Elen.
  { unfold u8. rewrite Z.shiftr_div_pow2 by lia. change (2 ^ 8) with 256.
    rewrite (Z.mod_small (n / 256)) by (split; [apply Z.div_pos; lia|apply Z.div_lt_upper_bound; lia]).
    pose proof (Z.div_mod n 256). lia. }
  assert (u16 (Z.lnot n) = 65535 - n) as Einv.
  { unfold u16. unfold Z.lnot. change (2 ^ 16) with 65536.
    symmetry. apply (Z.mod_unique _ _ (-1)); lia. }
  assert (u8 (Z.shiftr (u16 (Z.lnot n)) 8) * 256 + u8 (u16 (Z.lnot n)) = 65535 - n) as Enlen.
  { rewrite Einv. set (m := 65535 - n). assert (0 <= m < 65536) by lia.
    unfold u8. rewrite Z.shiftr_div_pow2 by lia. change (2 ^ 8) with 256.
    rewrite (Z.mod_small (m / 256)) by (split; [apply Z.div_pos; lia|apply Z.div_lt_upper_bound; lia]).
    pose proof (Z.div_mod m 256). lia. }
  rewrite Elen, Enlen, Z.eqb_refl.
  assert (split_at (Z.to_nat n) (data ++ rest) = Some (data, rest)) as ->.
  { rewrite <- Hn, Nat2Z.id. apply split_at_app. }
  by destruct last.
Qed.

Lemma inflate_stored fuel : ∀ fuel' raw rest, raw ≠ [] →
  (length raw <= fuel)%nat → (length raw <= fuel')%nat →
  inflate fuel' (stored_blocks fuel raw ++ rest) = Some (raw, rest).
Proof.
  induction fuel as [|fuel IH]; intros fuel' raw rest Hne H1 H2.
  { destruct raw; [done|]. cbn in H1. lia. }
  assert (length raw ≠ 0%nat) as Hl by (by destruct raw).
  destruct fuel' as [|fuel']; [lia|].
  replace (stored_blocks (S fuel) raw) with (
    let n := if decide (length raw < kBlockSize)%nat then length raw else kBlockSize in
    stored_block (Z.of_nat n) (bool_decide (length raw <= kBlockSize)%nat) (take n raw)
    ++ stored_blocks fuel (drop n raw)) by (by destruct raw).
  cbv zeta. set (n := if decide _ then _ else _).
  assert ((0 < n <= length raw)%nat ∧ Z.of_nat n <= 65535 ∧
    ((length raw <= kBlockSize)%nat ↔ n = length raw)) as (Hn & Hn2 & Hlast).
  { pose proof kBlockSize_Z. unfold n. destruct (decide _); lia. }
  clearbody n. rewrite <- app_assoc, inflate_block by (rewrite ?length_take; lia).
  case_bool_decide as Hb.
  - apply Hlast in Hb as ->. rewrite firstn_all, drop_all. by destruct fuel.
  - rewrite IH; [cbn; by rewrite take_drop| | |]; rewrite ?length_drop; try lia.
    intros E. apply (f_equal length) in E. rewrite length_drop in E. cbn in E.
    apply Hb, Hlast. lia.
Qed.

Lemma stored_blocks_size fuel : ∀ raw, (length raw <= fuel)%nat →
  (length raw <= length (stored_blocks fuel raw) <= 6 * length raw)%nat ∧
  (Forall is_byte raw → Forall is_byte (stored_blocks fuel raw)).
Proof.
  induction fuel as [|fuel IH]; intros raw H1.
  { destruct raw; [|cbn in H1; lia]. cbn. split; [lia|done]. }
  destruct raw as [|x raw]; [cbn; split; [lia|done]|].
  cbn [stored_blocks]. set (l := x :: raw) in *. cbv zeta. set (n := if decide _ then _ else _).
  assert ((0 < n <= length l)%nat) as Hn.
  { pose proof kBlockSize_Z. unfold n. destruct (decide _); unfold l in *; cbn [length] in *; lia. }
  clearbody n. destruct (IH (drop n l)) as [[Ha Hb] Hc]; [rewrite length_drop; lia|].
  rewrite length_drop in Ha, Hb. unfold stored_block. rewrite !length_app, length_take. cbn [length].
  split; [lia|]. intros Hl. apply Forall_app. split; [|by apply Hc, Forall_drop].
  apply Forall_app. split; [|by apply Forall_take].
  repeat (apply Forall_cons; split; [first [apply u8_byte|destruct (bool_decide _); done]|]).
  by apply Forall_nil.
Qed.

Lemma unzlib_stored raw : raw ≠ [] → Forall is_byte raw → unzlib (zlib_stored raw) = Some raw.
Proof.
  intros Hne Hb. unfold zlib_stored. cbv zeta. destruct (adler_word raw Hb) as [-> Hw].
  cbn [app unzlib].
  change ((Z.land 120 15 =? 8) && (Z.shiftr 120 4 <=? 7) && ((120 * 256 + 1) mod 31 =? 0)
    && negb (Z.testbit 1 5)) with true. cbv iota.
  rewrite inflate_stored; [|done|done|].
  2:{ rewrite length_app. destruct (stored_blocks_size (length raw) raw) as [[? _] _]; lia. }
  cbn [mbind option_bind]. rewrite <- (app_nil_r (AppendBigEndian _)), read_be_append by done.
  cbn [mbind option_bind]. by rewrite Z.eqb_refl.
Qed.

Lemma zlib_size raw : Forall is_byte raw →
  (length (zlib_stored raw) <= 6 * length raw + 6)%nat ∧ Forall is_byte (zlib_stored raw).
Proof.
  intros Hb. unfold zlib_stored. cbv zeta. destruct (stored_blocks_size (length raw) raw) as [[_ H] H2]; [lia|].
  rewrite !length_app, length_be. cbn [length]. split; [lia|].
  repeat (apply Forall_cons; split; [done|]). apply Forall_app. split; [by apply H2|apply bytes_be].
Qed.

(** *** Scan lines *)
Definition opaque (p : Z) : Prop := Z.shiftr p 24 = 255.

Lemma png_pixel_Some p bytes : word32 p → png_pixel p = Some bytes →
  opaque p ∧ Forall is_byte bytes ∧
  ∀ n l, read_pixels (S n) (bytes ++ l) = '(ps, l) ← read_pixels n l; Some (p :: ps, l).
Proof.
  intros Hp. unfold png_pixel. destruct (Z.eqb_spec (Z.shiftr p 24) 255) as [Ho|]; [|done].
  intros [= <-]. split_and!; [done| |].
  - repeat (apply Forall_cons; split; [first [apply u8_byte|done]|]). by apply Forall_nil.
  - intros n l. cbn [app read_pixels]. destruct (read_pixels n l) as [[ps l']|]; [|done].
    cbn [mbind option_bind]. do 3 f_equal.
    unfold u8. rewrite Z.shiftr_div_pow2 in Ho by lia. rewrite !Z.shiftr_div_pow2 by lia.
    change (2 ^ 24) with 16777216 in Ho. change (2 ^ 16) with 65536. change (2 ^ 8) with 256.
    replace (p / 16777216) with (p / 65536 / 256) in Ho by (rewrite Z.div_div; [f_equal|lia|lia]; lia).
    replace (p / 65536) with (p / 256 / 256) in * by (rewrite Z.div_div; [f_equal|lia|lia]; lia).
    pose proof (Z.div_mod p 256). pose proof (Z.div_mod (p / 256) 256).
    pose proof (Z.div_mod (p / 256 / 256) 256). lia.
Qed.

Lemma png_row_spec px n : Forall word32 px → ∀ at_, (at_ + n <= length px)%nat →
  match png_row px at_ n with
  | Some r => length r = (4 * n)%nat ∧ Forall is_byte r ∧
      (∀ i, (i < n)%nat → opaque (px !!! (at_ + i)%nat)) ∧
      (∀ l, read_pixels n (r ++ l) = Some ((λ i, px !!! (at_ + i)%nat) <$> seq 0 n, l))
  | None => ∃ i, (i < n)%nat ∧ ¬ opaque (px !!! (at_ + i)%nat)
  end.
Proof.
  intros Hpx. induction n as [|n IH]; intros at_ Hl; cbn [png_row].
  { split_and!; [done|by apply Forall_nil|lia|done]. }
  assert (word32 (px !!! at_)) as Hw.
  { destruct (lookup_lt_is_Some_2 px at_) as [p Hp]; [lia|].
    rewrite (list_lookup_total_correct _ _ _ Hp). by eapply Forall_lookup_1. }
  destruct (png_pixel (px !!! at_)) as [bytes|] eqn:Ep; cbn [mbind option_bind].
  2:{ exists 0%nat. rewrite Nat.add_0_r. split; [lia|]. unfold png_pixel in Ep. unfold opaque.
      destruct (Z.eqb_spec (Z.shiftr (px !!! at_) 24) 255); done. }
  specialize (IH (S at_) ltac:(lia)).
  assert (length bytes = 4%nat) as H4.
  { unfold png_pixel in Ep. destruct (_ =? _); by simplify_eq. }
  destruct (png_pixel_Some _ _ Hw Ep) as (Ho & Hb & Hr).
  destruct (png_row px (S at_) n) as [r|]; cbn [mbind option_bind].
  - destruct IH as (Hlen & Hbr & Hop & Hrd). split_and!.
    + rewrite length_app. lia.
    + by apply Forall_app.
    + intros [|i] Hi; [by rewrite Nat.add_0_r|].
      replace (at_ + S i)%nat with (S at_ + i)%nat by lia. apply Hop. lia.
    + intros l. rewrite <- app_assoc, Hr, Hrd. cbn [mbind option_bind]. do 2 f_equal.
      cbn [seq fmap list_fmap]. rewrite Nat.add_0_r. f_equal.
      change (list_fmap nat Z) with (@fmap list _ nat Z).
      rewrite <- (seq_shift n 0), <- list_fmap_compose. apply list_fmap_ext. intros i j _. cbn.
      f_equal. lia.
  - destruct IH as (i & Hi & Hno). exists (S i). split; [lia|].
    replace (at_ + S i)%nat with (S at_ + i)%nat by lia. done.
Qed.

Lemma png_rows_spec px w stride n : Forall word32 px → (w <= stride)%nat → ∀ y,
  (n = 0 ∨ (y + n - 1) * stride + w <= length px)%nat →
  match png_rows px w stride y n with
  | Some raw => length raw = (n * (4 * w + 1))%nat ∧ Forall is_byte raw ∧
      (∀ i j, (i < n)%nat → (j < w)%nat → opaque (px !!! ((y + i) * stride + j)%nat)) ∧
      read_rows n w raw =
        Some ((λ i, (λ j, px !!! ((y + i) * stride + j)%nat) <$> seq 0 w) <$> seq 0 n)
  | None => ∃ i j, (i < n)%nat ∧ (j < w)%nat ∧ ¬ opaque (px !!! ((y + i) * stride + j)%nat)
  end.
Proof.
  intros Hpx Hw. induction n as [|n IH]; intros y Hl; cbn [png_rows].
  { split_and!; [done|by apply Forall_nil|lia|done]. }
  destruct Hl as [?|Hl]; [done|].
  pose proof (png_row_spec px w Hpx (y * stride) ltac:(nia)) as Hrow.
  destruct (png_row px (y * stride) w) as [r|]; cbn [mbind option_bind].
  2:{ destruct Hrow as (j & Hj & Hno). exists 0%nat, j. rewrite Nat.add_0_r. split_and!; [lia|done|done]. }
  destruct Hrow as (Hlen & Hb & Ho & Hrd).
  specialize (IH (S y) ltac:(destruct n; [left; done|right; nia])).
  destruct (png_rows px w stride (S y) n) as [rs|]; cbn [mbind option_bind].
  - destruct IH as (Hlen2 & Hb2 & Ho2 & Hrd2). split_and!.
    + cbn [app length]. rewrite length_app. lia.
    + cbn [app]. apply Forall_cons. split; [done|]. by apply Forall_app.
    + intros [|i] j Hi Hj; [rewrite Nat.add_0_r; by apply Ho|].
      replace (y + S i)%nat with (S y + i)%nat by lia. apply Ho2; lia.
    + cbn [app read_rows]. rewrite Hrd. cbn [mbind option_bind]. rewrite Hrd2. cbn [mbind option_bind].
      f_equal. cbn [seq fmap list_fmap]. rewrite Nat.add_0_r. f_equal.
      change (list_fmap nat (list Z)) with (@fmap list _ nat (list Z)).
      rewrite <- (seq_shift n 0), <- list_fmap_compose. apply list_fmap_ext. intros i k _. cbn.
      apply list_fmap_ext. intros j k' _. do 2 f_equal. lia.
  - destruct IH as (i & j & Hi & Hj & Hno). exists (S i), j.
    replace (y + S i)%nat with (S y + i)%nat by lia. split_and!; [lia|done|done].
Qed.

(** ** The encoder, as a whole *)

(** The sizes that the comment at the function allows. *)
Definition png_sizes (w h stride : Z) : Prop :=
  1 <= w <= 4096 ∧ 1 <= h <= 4096 ∧ w <= stride ∧ (h - 1) * stride + w <= 4096 * 4096.

Lemma png_accepts_spec w h stride : 0 <= w → 0 <= h → png_accepts w h stride = true ↔ png_sizes w h stride.
Proof.
  intros Hw Hh. unfold png_accepts, png_sizes, kMaxDimension, kMaxSourcePixels. cbv zeta.
  destruct (Z.eqb_spec w 0), (Z.eqb_spec h 0), (Z.ltb_spec 4096 w), (Z.ltb_spec 4096 h),
    (Z.ltb_spec stride w); cbn [orb]; try (split; [done|lia]).
  destruct (Z.eqb_spec (h - 1) 0) as [E|E]; cbn [negb andb].
  - rewrite E, negb_true_iff, Z.ltb_ge. lia.
  - assert ((16777216 - w) / (h - 1) * (h - 1) <= 16777216 - w) as Hdiv.
    { rewrite Z.mul_comm. apply Z.mul_div_le. lia. }
    destruct (Z.ltb_spec ((16777216 - w) / (h - 1)) stride) as [Hlt|Hge].
    + split; [done|]. intros (_ & _ & _ & Hpx).
      assert (stride <= (16777216 - w) / (h - 1)) by (apply Z.div_le_lower_bound; lia). lia.
    + rewrite negb_true_iff, Z.ltb_ge. nia.
Qed.

(** The image that the pixels describe: row [y] starts [y * stride] pixels in. *)
Definition image (px : list Z) (w h stride : Z) : list (list Z) :=
  (λ y, (λ x, px !!! (y * Z.to_nat stride + x)%nat) <$> seq 0 (Z.to_nat w)) <$> seq 0 (Z.to_nat h).

(** The assembled file is read back. *)
Lemma read_png_file w h raw rows :
  word32 w → word32 h → raw ≠ [] → Forall is_byte raw → Z.of_nat (length raw) < 100000000 →
  read_rows (Z.to_nat h) (Z.to_nat w) raw = Some rows →
  read_png (png_signature ++
    AppendPngChunk (B "IHDR") (AppendBigEndian w ++ AppendBigEndian h ++ [8; 6; 0; 0; 0]) ++
    AppendPngChunk (B "IDAT") (zlib_stored raw) ++ AppendPngChunk (B "IEND") []) = Some (w, h, rows).
Proof.
  intros Hw Hh Hne Hb Hlen Hrows. unfold read_png.
  change 8%nat with (length png_signature). rewrite split_at_app. cbn [mbind option_bind].
  rewrite bool_decide_eq_true_2 by done. cbn [negb].
  rewrite read_chunk_append; cycle 1.
  { done. } { apply (bool_decide_unpack _). vm_compute. exact I. }
  { rewrite !Forall_app. split; [apply bytes_be|]. split; [apply bytes_be|].
    apply (bool_decide_unpack _). vm_compute. exact I. }
  { rewrite !length_app, !length_be. done. }
  cbn [mbind option_bind]. destruct (zlib_size raw Hb) as [Hz Hzb].
  rewrite read_chunk_append; cycle 1.
  { done. } { apply (bool_decide_unpack _). vm_compute. exact I. } { done. }
  { unfold word32. lia. }
  cbn [mbind option_bind]. rewrite <- (app_nil_r (AppendPngChunk (B "IEND") [])).
  rewrite read_chunk_append; cycle 1.
  { done. } { apply (bool_decide_unpack _). vm_compute. exact I. } { by apply Forall_nil. } { done. }
  cbn [mbind option_bind]. rewrite read_be_append by done. cbn [mbind option_bind].
  rewrite read_be_append by done. cbn [mbind option_bind].
  rewrite !bool_decide_eq_true_2 by done. cbn [andb].
  rewrite unzlib_stored by done. cbn [mbind option_bind]. by rewrite Hrows.
Qed.

(** The two outcomes of the encoder. *)
Lemma encode_cases (px : list Z) (w h stride : Z) :
  Forall word32 px → 0 <= w → 0 <= h → 0 <= stride →
  (png_sizes w h stride → (h - 1) * stride + w <= Z.of_nat (length px)) →
  let png := EncodeOpaqueBgraPng (Some px) w h stride in
  (png_sizes w h stride ∧ Forall (Forall opaque) (image px w h stride) ∧
    read_png png = Some (w, h, image px w h stride)) ∨
  (¬ (png_sizes w h stride ∧ Forall (Forall opaque) (image px w h stride)) ∧ png = []).
Proof.
  intros Hpx Hw Hh Hst Hlen. cbv zeta. unfold EncodeOpaqueBgraPng.
  pose proof (png_accepts_spec w h stride Hw Hh) as Hacc.
  destruct (png_accepts w h stride); cbn [negb].
  2:{ right. split; [intros [Hs _]; by apply Hacc in Hs|done]. }
  assert (png_sizes w h stride) as Hs by (by apply Hacc). specialize (Hlen Hs).
  pose proof Hs as (Hw2 & Hh2 & Hws & Hpx2).
  pose proof (png_rows_spec px (Z.to_nat w) (Z.to_nat stride) (Z.to_nat h) Hpx ltac:(lia) 0) as Hrows.
  specialize (Hrows ltac:(right; nia)). cbn [Nat.add] in Hrows.
  destruct (png_rows px _ _ _ _) as [raw|].
  - left. destruct Hrows as (Hl & Hb & Ho & Hr).
    assert (Z.of_nat (length raw) = h * (4 * w + 1)) as Hlz by nia.
    assert (5 <= h * (4 * w + 1) <= 67112960) as Hbound by nia.
    assert ((Z.of_nat (length raw) + 65535 - 1) / 65535 <= 2000) as Hblk.
    { apply Z.div_le_upper_bound; lia. }
    cbv zeta. destruct (Z.ltb_spec 4294967295 (2 + Z.of_nat (length raw) +
      (Z.of_nat (length raw) + 65535 - 1) / 65535 * 5 + 4)); [lia|].
    split; [done|]. split.
    + unfold image. apply Forall_fmap, Forall_seq.
      intros y Hy. cbn. apply Forall_fmap, Forall_seq. intros x Hx. cbn. apply Ho; lia.
    + apply read_png_file; [unfold word32; lia..| |done|lia|exact Hr].
      intros ->. cbn in Hlz. lia.
  - right. split; [|done]. intros [_ Hall]. destruct Hrows as (y & x & Hy & Hx & Hno). destruct Hno.
    unfold image in Hall. rewrite Forall_fmap, Forall_seq in Hall. specialize (Hall y ltac:(lia)).
    cbn in Hall. rewrite Forall_fmap, Forall_seq in Hall. apply (Hall x). lia.
Qed.

(** C32: The PNG that the credential gives LogonUI for its image is right: for every size the
    comment allows, with all pixels present and opaque, a reader written from the PNG, zlib
    and DEFLATE specifications (chunk CRCs by table, Adler-32, complemented block lengths)
    gets back the width, the height and exactly the pixels, whatever the row padding; for
    any other size or a transparent pixel the result is empty. *)
Theorem EncodeOpaqueBgraPng_roundtrip (px : list Z) (w h stride : Z) :
  Forall word32 px → 0 <= w → 0 <= h → 0 <= stride →
  (png_sizes w h stride → (h - 1) * stride + w <= Z.of_nat (length px)) →
  let png := EncodeOpaqueBgraPng (Some px) w h stride in
  let good := png_sizes w h stride ∧ Forall (Forall opaque) (image px w h stride) in
  (good → read_png png = Some (w, h, image px w h stride)) ∧ (¬ good → png = []).
Proof.
  intros Hpx Hw Hh Hst Hlen. cbv zeta.
  destruct (encode_cases px w h stride Hpx Hw Hh Hst Hlen) as [(Hs & Ho & Hr)|[Hno He]]; [|done].
  split; [done|]. intros Hno. by destruct Hno.
Qed.

(** Two pixels by two, rows of three. *)
Definition small_image : list Z :=
  [4278190335; 4294967295; 0; 4279312947; 4282668390; 0].

Lemma EncodeOpaqueBgraPng_roundtrip_witness :
  (2 - 1) * 3 + 2 <= Z.of_nat (length small_image) ∧
  read_png (EncodeOpaqueBgraPng (Some small_image) 2 2 3) =
    Some (2, 2, [[4278190335; 4294967295]; [4279312947; 4282668390]]).
Proof.
  split; [vm_compute; intros [=]|].
  refine (proj1 (EncodeOpaqueBgraPng_roundtrip small_image 2 2 3 _ _ _ _ _) _).
  - repeat (apply Forall_cons; split; [split; [vm_compute; intros [=]|reflexivity]|]). by apply Forall_nil.
  - lia.
  - lia.
  - lia.
  - intros _. vm_compute. intros [=].
  - split.
    + unfold png_sizes. lia.
    + repeat (apply Forall_cons; split); try apply Forall_nil; try exact I; vm_compute; reflexivity.
Defined.
