(* ===== verification/ReedSolomon.v ===== *)
(** * Reed-Solomon codes of the QR encoder

    [windows/credential_provider/qrcodegen.cpp]: the arithmetic of the field with
    256 elements and the error correction codewords of a block of the QR code.
    A polynomial is the list of its coefficients, the highest first. *)
From S2P Require Import Prelude.

(** ** The code *)

(** The assertion [z >> 8 == 0] at its end is [reedSolomonMultiply_byte]. *)
Definition reduced (z : Z) : Z := Z.lxor (Z.shiftl z 1) (Z.shiftr z 7 * 0x11D).
Definition peasant (x y : Z) (z i : Z) : Z := Z.lxor (reduced z) (Z.land (Z.shiftr y i) 1 * x).
Definition reedSolomonMultiply (x y : Z) : Z := u8 (foldl (peasant x y) 0 [7; 6; 5; 4; 3; 2; 1; 0]).

(** The inner loop: [result.at(j + 1)] is not updated yet when it is added. *)
Fixpoint mul_root (result : list Z) (root : Z) : list Z :=
  match result with
  | [] => []
  | c :: rest =>
    let c := reedSolomonMultiply c root in
    match rest with [] => c | d :: _ => Z.lxor c d end :: mul_root rest root
  end.

Definition reedSolomonComputeDivisor (degree : Z) : option (list Z) :=
  if (degree <? 1) || (255 <? degree) then None else
  Some (Nat.iter (Z.to_nat degree)
    (λ '(result, root), (mul_root result root, reedSolomonMultiply root 2))
    (replicate (Z.to_nat degree - 1) 0 ++ [1], 1)).1.

(** One step of the division; [result.at(0)] throws when there is none. *)
Definition divide (divisor : list Z) (result : list Z) (b : Z) : option (list Z) :=
  match result with
  | [] => None
  | r0 :: rest =>
    let factor := Z.lxor b r0 in
    Some (zip_with (λ r d, Z.lxor r (reedSolomonMultiply d factor)) (rest ++ [0]) divisor)
  end.
Fixpoint divide_all (divisor data result : list Z) : option (list Z) :=
  match data with
  | [] => Some result
  | b :: data => result ← divide divisor result b; divide_all divisor data result
  end.
Definition reedSolomonComputeRemainder (data divisor : list Z) : option (list Z) :=
  divide_all divisor data (replicate (length divisor) 0).

(** ** The field *)
Lemma forall_bytes (P : Z → bool) : forallb P (seqZ 0 256) = true → ∀ b, is_byte b → P b = true.
Proof. intros H b Hb. rewrite forallb_forall in H. apply H, list_elem_of_In, elem_of_seqZ. unfold is_byte in Hb. lia. Qed.

Lemma byte_log z : 0 <= z → is_byte z ↔ Z.shiftr z 8 = 0.
Proof.
  intros Hz. rewrite Z.shiftr_div_pow2 by done. change (2 ^ 8) with 256. unfold is_byte. split; intros H.
  - apply Z.div_small. lia.
  - apply Z.div_small_iff in H; lia.
Qed.

Lemma lxor_byte a b : is_byte a → is_byte b → is_byte (Z.lxor a b).
Proof.
  intros Ha Hb. assert (0 <= Z.lxor a b) by (apply Z.lxor_nonneg; unfold is_byte in *; lia).
  apply byte_log; [done|]. rewrite Z.shiftr_lxor.
  apply byte_log in Ha; [|unfold is_byte in *; lia]. apply byte_log in Hb; [|unfold is_byte in *; lia].
  by rewrite Ha, Hb.
Qed.
Create HintDb bytes.
#[local] Hint Resolve lxor_byte : bytes.

Lemma top_bit b : 0 < b < 256 → ∃ i, (i < 8)%nat ∧ 0 <= b - 2 ^ Z.of_nat i < b ∧ b = Z.lxor (2 ^ Z.of_nat i) (b - 2 ^ Z.of_nat i).
Proof.
  intros Hb.
  pose proof (forall_bytes (λ b, (b =? 0) || existsb (λ i : nat, (0 <=? b - 2 ^ Z.of_nat i) && (b - 2 ^ Z.of_nat i <? b) &&
    (b =? Z.lxor (2 ^ Z.of_nat i) (b - 2 ^ Z.of_nat i))) (seq 0 8)) ltac:(vm_compute; reflexivity) b ltac:(unfold is_byte; lia)) as H.
  apply orb_true_iff in H as [H|H]; [apply Z.eqb_eq in H; lia|].
  apply existsb_exists in H as (i & Hi & H). apply in_seq in Hi. exists i. split; [lia|].
  apply andb_true_iff in H as [H H3]. apply andb_true_iff in H as [H1 H2].
  apply Z.eqb_eq in H3. split; [lia|done].
Qed.

Lemma pow2_byte i : (i < 8)%nat → is_byte (2 ^ Z.of_nat i).
Proof. intros H. repeat (destruct i as [|i]; [by vm_compute|]). lia. Qed.
#[local] Hint Resolve pow2_byte : bytes.

(** Two additive functions that agree on the powers of two agree. *)
Definition additive (f : Z → Z) : Prop :=
  f 0 = 0 ∧ ∀ a b, is_byte a → is_byte b → f (Z.lxor a b) = Z.lxor (f a) (f b).

Lemma additive_eq f g : additive f → additive g →
  (∀ i, (i < 8)%nat → f (2 ^ Z.of_nat i) = g (2 ^ Z.of_nat i)) → ∀ b, is_byte b → f b = g b.
Proof.
  intros [Hf0 Hf] [Hg0 Hg] Hi b Hb. unfold is_byte in Hb.
  pose proof Hb as [H0 _]. revert Hb. pattern b. apply Z_lt_induction; [|exact H0].
  clear b H0. intros b IH Hb. destruct (decide (b = 0)) as [->|]; [by rewrite Hf0, Hg0|].
  destruct (top_bit b) as (i & Hlt & Hr & E); [lia|].
  pose proof (pow2_byte i Hlt). assert (is_byte (b - 2 ^ Z.of_nat i)) by (unfold is_byte; lia).
  rewrite E, Hf, Hg by done. rewrite Hi by done. f_equal. apply IH; [lia|]. unfold is_byte in *; lia.
Qed.

Lemma land_one z : Z.land z 1 = 0 ∨ Z.land z 1 = 1.
Proof.
  assert (Z.land z 1 = z mod 2) as -> by apply (Z.land_ones z 1 ltac:(lia)).
  pose proof (Z.mod_pos_bound z 2 ltac:(lia)). lia.
Qed.

Lemma shiftr_7 z : is_byte z → Z.shiftr z 7 = 0 ∨ Z.shiftr z 7 = 1.
Proof.
  intros H. rewrite Z.shiftr_div_pow2 by done. change (2 ^ 7) with 128. unfold is_byte in H.
  assert (0 <= z / 128 < 2) by (split; [apply Z.div_pos|apply Z.div_lt_upper_bound]; lia). lia.
Qed.

Lemma reduce_byte z : is_byte z → is_byte (reduced z).
Proof.
  intros H. assert (forallb (λ z, let r := reduced z in
    (0 <=? r) && (r <? 256)) (seqZ 0 256) = true) as E by (vm_compute; reflexivity).
  pose proof (forall_bytes _ E z H) as R. cbv beta zeta in R. unfold is_byte. lia.
Qed.

Lemma peasant_byte x y z i : is_byte x → is_byte z → is_byte (peasant x y z i).
Proof.
  intros Hx Hz. unfold peasant. apply lxor_byte; [by apply reduce_byte|].
  destruct (land_one (Z.shiftr y i)) as [->| ->]; [done|by rewrite Z.mul_1_l].
Qed.

Lemma lxor_swap a b c d : Z.lxor (Z.lxor a b) (Z.lxor c d) = Z.lxor (Z.lxor a c) (Z.lxor b d).
Proof. by rewrite <- !Z.lxor_assoc, (Z.lxor_assoc a b c), (Z.lxor_comm b c), <- !Z.lxor_assoc. Qed.

Lemma reduce_add a b : is_byte a → is_byte b → reduced (Z.lxor a b) = Z.lxor (reduced a) (reduced b).
Proof.
  intros Ha Hb. unfold reduced. rewrite Z.shiftl_lxor, lxor_swap. f_equal. rewrite Z.shiftr_lxor.
  destruct (shiftr_7 a Ha) as [->| ->], (shiftr_7 b Hb) as [->| ->]; reflexivity.
Qed.

Lemma peasant_add_l x x' y z z' i : is_byte z → is_byte z' →
  peasant (Z.lxor x x') y (Z.lxor z z') i = Z.lxor (peasant x y z i) (peasant x' y z' i).
Proof.
  intros Hz Hz'. unfold peasant. rewrite (reduce_add z z') by done. rewrite lxor_swap. f_equal.
  destruct (land_one (Z.shiftr y i)) as [->| ->]; [done|by rewrite !Z.mul_1_l].
Qed.
Lemma peasant_add_r x y y' z z' i : is_byte z → is_byte z' →
  peasant x (Z.lxor y y') (Z.lxor z z') i = Z.lxor (peasant x y z i) (peasant x y' z' i).
Proof.
  intros Hz Hz'. unfold peasant. rewrite (reduce_add z z') by done. rewrite lxor_swap. f_equal.
  rewrite Z.shiftr_lxor. replace (Z.land (Z.lxor (Z.shiftr y i) (Z.shiftr y' i)) 1)
    with (Z.lxor (Z.land (Z.shiftr y i) 1) (Z.land (Z.shiftr y' i) 1)).
  - destruct (land_one (Z.shiftr y i)) as [->| ->], (land_one (Z.shiftr y' i)) as [->| ->];
      cbn; rewrite ?Z.mul_1_l, ?Z.lxor_0_r, ?Z.lxor_0_l, ?Z.lxor_nilpotent; done.
  - apply Z.bits_inj. intros n. rewrite Z.lxor_spec, !Z.land_spec, Z.lxor_spec.
    by destruct (Z.testbit (Z.shiftr y i) n), (Z.testbit (Z.shiftr y' i) n), (Z.testbit 1 n).
Qed.

Definition steps : list Z := [7; 6; 5; 4; 3; 2; 1; 0].
Lemma fold_byte x y l : ∀ z, is_byte x → is_byte z → is_byte (foldl (peasant x y) z l).
Proof. induction l as [|i l IH]; cbn; [done|]. intros z Hx Hz. apply IH; [done|]. by apply peasant_byte. Qed.
Lemma fold_add_l x x' y l : ∀ z z', is_byte x → is_byte x' → is_byte z → is_byte z' →
  foldl (peasant (Z.lxor x x') y) (Z.lxor z z') l = Z.lxor (foldl (peasant x y) z l) (foldl (peasant x' y) z' l).
Proof.
  induction l as [|i l IH]; cbn; [done|]. intros z z' Hx Hx' Hz Hz'. rewrite peasant_add_l by done.
  apply IH; auto using peasant_byte.
Qed.
Lemma fold_add_r x y y' l : ∀ z z', is_byte x → is_byte z → is_byte z' →
  foldl (peasant x (Z.lxor y y')) (Z.lxor z z') l = Z.lxor (foldl (peasant x y) z l) (foldl (peasant x y') z' l).
Proof.
  induction l as [|i l IH]; cbn; [done|]. intros z z' Hx Hz Hz'. rewrite peasant_add_r by done.
  apply IH; auto using peasant_byte.
Qed.

Abbreviation mul := reedSolomonMultiply.

Lemma mul_eq x y : is_byte x → mul x y = foldl (peasant x y) 0 steps.
Proof. intros H. unfold mul. rewrite u8_small; [done|]. by apply fold_byte. Qed.
(** The assertion at the end of the multiplication, and why the cast loses nothing. *)
Lemma reedSolomonMultiply_byte x y : is_byte x → is_byte (mul x y).
Proof. intros H. rewrite mul_eq by done. by apply fold_byte. Qed.
#[local] Hint Resolve reedSolomonMultiply_byte : bytes.
Lemma mul_0_l y : mul 0 y = 0.
Proof.
  assert (∀ l, foldl (peasant 0 y) 0 l = 0) as E.
  { induction l as [|i l IH]; cbn; [done|]. unfold peasant at 2. by rewrite Z.mul_0_r. }
  unfold mul. by rewrite E.
Qed.
Lemma mul_0_r x : mul x 0 = 0.
Proof. unfold mul, peasant. cbn [foldl]. rewrite !Z.shiftr_0_l. cbn. by rewrite Z.lxor_0_r. Qed.
Lemma mul_add_l x x' y : is_byte x → is_byte x' → mul (Z.lxor x x') y = Z.lxor (mul x y) (mul x' y).
Proof. intros Hx Hx'. rewrite !mul_eq by auto with bytes. by apply (fold_add_l x x' y steps 0 0). Qed.
Lemma mul_add_r x y y' : is_byte x → mul x (Z.lxor y y') = Z.lxor (mul x y) (mul x y').
Proof. intros Hx. rewrite !mul_eq by done. by apply (fold_add_r x y y' steps 0 0). Qed.

Lemma additive_mul_l y : additive (λ x, mul x y).
Proof. split; [apply mul_0_l|]. intros a b Ha Hb. by apply mul_add_l. Qed.
Lemma additive_mul_r x : is_byte x → additive (mul x).
Proof. intros H. split; [apply mul_0_r|]. intros a b _ _. by apply mul_add_r. Qed.
Lemma additive_comp f g : additive f → additive g → (∀ a, is_byte a → is_byte (f a)) → additive (λ a, g (f a)).
Proof.
  intros [F0 F] [G0 G] Hf. split; [by rewrite F0|]. intros a b Ha Hb. rewrite F, G by auto. done.
Qed.

Lemma mul_1_r x : is_byte x → mul x 1 = x.
Proof. intros H. apply Z.eqb_eq. revert x H. apply (forall_bytes (λ x, mul x 1 =? x)). vm_compute. reflexivity. Qed.

Lemma mul_comm x y : is_byte x → is_byte y → mul x y = mul y x.
Proof.
  intros Hx Hy. apply (additive_eq (mul x) (λ y, mul y x)); [by apply additive_mul_r|by apply additive_mul_l| |done].
  intros j Hj. apply (additive_eq (λ x, mul x (2 ^ Z.of_nat j)) (mul (2 ^ Z.of_nat j)));
    [by apply additive_mul_l|apply additive_mul_r; auto with bytes| |done].
  intros i Hi. assert (forallb (λ i : nat, forallb (λ j : nat,
    mul (2 ^ Z.of_nat i) (2 ^ Z.of_nat j) =? mul (2 ^ Z.of_nat j) (2 ^ Z.of_nat i)) (seq 0 8)) (seq 0 8) = true) as H
    by (vm_compute; reflexivity).
  rewrite forallb_forall in H. specialize (H i ltac:(apply in_seq; lia)).
  rewrite forallb_forall in H. specialize (H j ltac:(apply in_seq; lia)). by apply Z.eqb_eq.
Qed.
Lemma mul_1_l x : is_byte x → mul 1 x = x.
Proof. intros H. rewrite mul_comm by done. by apply mul_1_r. Qed.

#[local] Opaque reedSolomonMultiply.
Lemma mul_assoc_pow i j k : (i < 8)%nat → (j < 8)%nat → (k < 8)%nat →
  mul (mul (2 ^ Z.of_nat i) (2 ^ Z.of_nat j)) (2 ^ Z.of_nat k) = mul (2 ^ Z.of_nat i) (mul (2 ^ Z.of_nat j) (2 ^ Z.of_nat k)).
Proof.
  intros Hi Hj Hk.
  assert (forallb (λ i : nat, forallb (λ j : nat, forallb (λ k : nat,
    mul (mul (2 ^ Z.of_nat i) (2 ^ Z.of_nat j)) (2 ^ Z.of_nat k) =? mul (2 ^ Z.of_nat i) (mul (2 ^ Z.of_nat j) (2 ^ Z.of_nat k))) (seq 0 8)) (seq 0 8)) (seq 0 8) = true) as H
    by (vm_compute; reflexivity).
  rewrite forallb_forall in H. specialize (H i ltac:(apply in_seq; lia)).
  rewrite forallb_forall in H. specialize (H j ltac:(apply in_seq; lia)).
  rewrite forallb_forall in H. specialize (H k ltac:(apply in_seq; lia)). by apply Z.eqb_eq.
Qed.

Lemma mul_assoc x y z : is_byte x → is_byte y → is_byte z → mul (mul x y) z = mul x (mul y z).
Proof.
  intros Hx Hy Hz.
  assert (Hl : ∀ y z, is_byte y → additive (λ x, mul (mul x y) z)).
  { intros y' z' Hy'. apply (additive_comp (λ x, mul x y') (λ x, mul x z')); [apply additive_mul_l..|].
    intros a Ha. by apply reedSolomonMultiply_byte. }
  assert (Hm : ∀ x z, is_byte x → additive (λ y, mul (mul x y) z)).
  { intros x' z' Hx'. apply (additive_comp (mul x') (λ x, mul x z')); [by apply additive_mul_r|apply additive_mul_l|].
    intros a Ha. by apply reedSolomonMultiply_byte. }
  assert (Hn : ∀ x z, is_byte x → additive (λ y, mul x (mul y z))).
  { intros x' z' Hx'. apply (additive_comp (λ y, mul y z') (mul x')); [apply additive_mul_l|by apply additive_mul_r|].
    intros a Ha. by apply reedSolomonMultiply_byte. }
  assert (Hr : ∀ x y, is_byte x → is_byte y → additive (λ z, mul x (mul y z))).
  { intros x' y' Hx' Hy'. apply (additive_comp (mul y') (mul x')); [by apply additive_mul_r..|].
    intros a Ha. by apply reedSolomonMultiply_byte. }
  apply (additive_eq (λ x, mul (mul x y) z) (λ x, mul x (mul y z))); [by apply Hl|apply additive_mul_l| |done].
  intros i Hi. pose proof (pow2_byte i Hi).
  apply (additive_eq (λ y, mul (mul (2 ^ Z.of_nat i) y) z) (λ y, mul (2 ^ Z.of_nat i) (mul y z)));
    [by apply Hm|by apply Hn| |done].
  intros j Hj. pose proof (pow2_byte j Hj).
  apply (additive_eq (mul (mul (2 ^ Z.of_nat i) (2 ^ Z.of_nat j))) (λ z, mul (2 ^ Z.of_nat i) (mul (2 ^ Z.of_nat j) z)));
    [by apply additive_mul_r, reedSolomonMultiply_byte|by apply Hr| |done].
  intros k Hk. by apply mul_assoc_pow.
Qed.

(** ** Polynomials *)
Abbreviation bytes := (Forall is_byte).

Definition eval (p : list Z) (x : Z) : Z := foldl (λ acc c, Z.lxor (mul acc x) c) 0 p.
Fixpoint power (x : Z) (n : nat) : Z := match n with O => 1 | S n => mul (power x n) x end.

Lemma power_byte x n : is_byte x → is_byte (power x n).
Proof. intros H. induction n as [|n IH]; cbn; [done|by apply reedSolomonMultiply_byte]. Qed.

(** Facts about bytes, by the closure of the operations. *)
Ltac byte := repeat first [ assumption | apply lxor_byte | apply reedSolomonMultiply_byte | apply power_byte | done ].

Lemma eval_byte p x : bytes p → is_byte x → is_byte (eval p x).
Proof.
  intros Hp Hx. unfold eval. assert (H : is_byte 0) by done. revert H. generalize 0.
  induction Hp as [|c p Hc _ IH]; cbn; [done|]. intros z Hz. apply IH. byte.
Qed.

Lemma power_add x m n : is_byte x → power x (m + n) = mul (power x m) (power x n).
Proof.
  intros Hx. induction n as [|n IH]; cbn; [by rewrite Nat.add_0_r, mul_1_r by byte|].
  rewrite Nat.add_succ_r. cbn. rewrite IH. apply mul_assoc; byte.
Qed.

Lemma eval_from p x : bytes p → is_byte x → ∀ z, is_byte z →
  foldl (λ acc c, Z.lxor (mul acc x) c) z p = Z.lxor (mul z (power x (length p))) (eval p x).
Proof.
  intros Hp Hx. unfold eval. induction Hp as [|c p Hc _ IH]; intros z Hz; cbn [foldl length power].
  - by rewrite mul_1_r, Z.lxor_0_r.
  - rewrite (IH (Z.lxor (mul z x) c)), (IH (Z.lxor (mul 0 x) c)) by byte. rewrite mul_0_l, Z.lxor_0_l, mul_add_l by byte.
    rewrite <- Z.lxor_assoc. f_equal. f_equal. rewrite mul_assoc by byte. f_equal. apply mul_comm; byte.
Qed.

Lemma eval_app p q x : bytes p → bytes q → is_byte x →
  eval (p ++ q) x = Z.lxor (mul (eval p x) (power x (length q))) (eval q x).
Proof. intros Hp Hq Hx. unfold eval at 1. rewrite foldl_app. apply eval_from; [done..|]. by apply eval_byte. Qed.

Lemma eval_cons c p x : is_byte c → bytes p → is_byte x →
  eval (c :: p) x = Z.lxor (mul c (power x (length p))) (eval p x).
Proof. intros Hc Hp Hx. unfold eval at 1. cbn [foldl]. rewrite mul_0_l, Z.lxor_0_l. by apply eval_from. Qed.

(** Adding a multiple of a polynomial. *)
Lemma zip_bytes f r d : is_byte f → bytes r → bytes d →
  bytes (zip_with (λ r d, Z.lxor r (mul d f)) r d).
Proof.
  intros Hf Hr. revert d. induction Hr as [|a r Ha _ IH]; intros d Hd; [by constructor|].
  destruct Hd as [|b d Hb Hd]; cbn; [by constructor|]. constructor; [byte|by apply IH].
Qed.

Lemma eval_zip f x r d : is_byte f → is_byte x → bytes r → bytes d → length r = length d →
  eval (zip_with (λ r d, Z.lxor r (mul d f)) r d) x = Z.lxor (eval r x) (mul (eval d x) f).
Proof.
  intros Hf Hx Hr. revert d. induction Hr as [|a r Ha Hr IH]; intros d Hd E; [destruct d; [|done]; by rewrite mul_0_l|].
  destruct Hd as [|b d Hb Hd]; [done|]. injection E as E. cbn [zip_with].
  pose proof (zip_bytes f r d Hf Hr Hd). pose proof (eval_byte r x Hr Hx). pose proof (eval_byte d x Hd Hx).
  rewrite !eval_cons, IH by byte. rewrite length_zip_with_l_eq by done.
  rewrite !mul_add_l by byte. rewrite lxor_swap. f_equal. f_equal. rewrite E.
  rewrite !mul_assoc by byte. f_equal. apply mul_comm; byte.
Qed.

(** ** The divisor *)
Definition root (i : nat) : Z := power 2 i.

Lemma mul_root_length r x : length (mul_root r x) = length r.
Proof. induction r as [|c [|d r] IH]; cbn in *; [done..|]. by rewrite IH. Qed.

Lemma mul_root_bytes r x : bytes r → bytes (mul_root r x).
Proof.
  intros H. induction H as [|c r Hc Hr IH]; cbn; [constructor|]. constructor; [|done].
  destruct Hr; byte.
Qed.

(** One factor more; the highest coefficient leaves the window. *)
Lemma eval_mul_root r y x : bytes r → is_byte y → is_byte x →
  eval (mul_root r y) x =
  Z.lxor (mul (eval r x) (Z.lxor x y)) (mul (default 0 (head r)) (power x (length r))).
Proof.
  intros Hr Hy Hx. induction Hr as [|c r Hc Hr IH]; [cbn; by rewrite !mul_0_l|].
  change (mul_root (c :: r) y) with (match r with [] => mul c y | d :: _ => Z.lxor (mul c y) d end :: mul_root r y).
  rewrite (eval_cons _ (mul_root r y)); [|destruct Hr; byte|by apply mul_root_bytes|done].
  rewrite IH, mul_root_length, eval_cons by done. cbn [head from_option id length power].
  pose proof (eval_byte r x Hr Hx). rewrite mul_add_l by byte.
  assert (E : mul (mul c (power x (length r))) (Z.lxor x y) =
    Z.lxor (mul (mul c y) (power x (length r))) (mul c (mul (power x (length r)) x))).
  { rewrite mul_add_r, Z.lxor_comm by byte. f_equal; rewrite !mul_assoc by byte; [|done]. f_equal. apply mul_comm; byte. }
  rewrite E. set (e := mul (eval r x) (Z.lxor x y)). set (k := mul c (mul _ x)). set (m := mul (mul c y) _).
  assert (Hm : Z.lxor (Z.lxor (Z.lxor m k) e) k = Z.lxor m e).
  { rewrite (Z.lxor_assoc m k e), (Z.lxor_comm k e), Z.lxor_assoc, Z.lxor_assoc, Z.lxor_nilpotent. by rewrite Z.lxor_0_r. }
  rewrite Hm. destruct r as [|d r']; cbn [head from_option id length].
  - rewrite mul_0_l, Z.lxor_0_r. done.
  - rewrite mul_add_l by (inversion Hr; subst; byte). fold m. subst e.
    set (q := mul d _). by rewrite lxor_swap, Z.lxor_nilpotent, Z.lxor_0_r.
Qed.

Fixpoint factors (k : nat) (x : Z) : Z :=
  match k with O => 1 | S k => mul (factors k x) (Z.lxor x (root k)) end.

Lemma root_byte i : is_byte (root i).
Proof. by apply power_byte. Qed.
Lemma factors_byte k x : is_byte x → is_byte (factors k x).
Proof. intros H. pose proof root_byte. induction k as [|k IH]; cbn; [done|byte]. Qed.
Lemma factors_root k i : (i < k)%nat → factors k (root i) = 0.
Proof.
  pose proof (root_byte i) as Hi. induction k as [|k IH]; cbn; [lia|]. intros Hk. destruct (decide (i = k)) as [->|].
  - by rewrite Z.lxor_nilpotent, mul_0_r.
  - rewrite IH by lia. apply mul_0_l.
Qed.

Lemma mul_root_zero n rest y :
  mul_root (replicate (S n) 0 ++ 1 :: rest) y = replicate n 0 ++ 1 :: mul_root (1 :: rest) y.
Proof.
  induction n as [|n IH]; [cbn [replicate app]; cbn [mul_root]; by rewrite mul_0_l|].
  change (replicate (S (S n)) 0 ++ 1 :: rest) with (0 :: (replicate (S n) 0 ++ 1 :: rest)).
  change (mul_root (0 :: (replicate (S n) 0 ++ 1 :: rest)) y)
    with (Z.lxor (mul 0 y) 0 :: mul_root (replicate (S n) 0 ++ 1 :: rest) y).
  by rewrite IH, mul_0_l.
Qed.

Definition grow : list Z * Z → list Z * Z := λ '(result, root), (mul_root result root, mul root 2).

Lemma divisor_partial n k : (k <= n)%nat → ∃ rest,
  Nat.iter k grow (replicate n 0 ++ [1], 1) = (replicate (n - k) 0 ++ 1 :: rest, root k) ∧
  length rest = k ∧ bytes rest ∧ ∀ x, is_byte x → eval (1 :: rest) x = factors k x.
Proof.
  pose proof root_byte as Hroot.
  induction k as [|k IH]; intros Hk.
  - exists []. rewrite Nat.sub_0_r. split_and!; [done..|]. intros x Hx. rewrite eval_cons by (done || constructor). cbn.
    by rewrite Z.lxor_0_r.
  - destruct (IH ltac:(lia)) as (rest & E & Hl & Hb & He).
    assert (H1 : bytes (1 :: rest)) by (by constructor).
    exists (mul_root (1 :: rest) (root k)). rewrite mul_root_length. split_and!.
    + rewrite Nat.iter_succ, E. unfold grow. replace (n - k)%nat with (S (n - S k)) by lia. by rewrite mul_root_zero.
    + cbn. lia.
    + by apply mul_root_bytes.
    + intros x Hx. specialize (He x Hx). cbn [factors]. pose proof (mul_root_bytes (1 :: rest) (root k) H1).
      rewrite eval_cons, mul_root_length by done. rewrite eval_mul_root, He by auto. cbn [head from_option id].
      rewrite Z.lxor_comm, Z.lxor_assoc, Z.lxor_nilpotent. apply Z.lxor_0_r.
Qed.

Lemma divisor_spec degree D : reedSolomonComputeDivisor degree = Some D →
  1 <= degree <= 255 ∧ length D = Z.to_nat degree ∧ bytes D ∧
  ∀ i, (i < length D)%nat → eval D (root i) = power (root i) (length D).
Proof.
  unfold reedSolomonComputeDivisor. destruct (Z.ltb_spec degree 1); [done|]. destruct (Z.ltb_spec 255 degree); [done|].
  cbn [orb]. intros [= <-]. fold grow. set (d := Z.to_nat degree).
  assert (d = S (d - 1)) as Ed by (subst d; lia). pose proof root_byte as Hroot.
  destruct (divisor_partial (d - 1) (d - 1) ltac:(lia)) as (rest & E & Hl & Hb & He).
  assert (H1 : bytes (1 :: rest)) by (by constructor).
  assert (Ei : ∀ z, Nat.iter d grow z = grow (Nat.iter (d - 1) grow z)) by (intros z; by rewrite <- Nat.iter_succ, <- Ed).
  rewrite Ei, E, Nat.sub_diag. unfold grow. cbn [replicate app fst].
  pose proof (mul_root_length (1 :: rest) (root (d - 1))) as Em.
  split; [lia|]. split; [rewrite Em; cbn; lia|]. split; [by apply mul_root_bytes|].
  intros i Hi. rewrite Em in Hi |- *. cbn [length] in Hi.
  rewrite eval_mul_root, He by auto. cbn [head from_option id].
  rewrite (mul_1_l (power _ _)) by (by apply power_byte).
  change (mul (factors (d - 1) (root i)) (Z.lxor (root i) (root (d - 1)))) with (factors (S (d - 1)) (root i)).
  rewrite factors_root by lia. apply Z.lxor_0_l.
Qed.

(** ** The remainder *)
Lemma divide_spec D r b x : bytes D → bytes r → is_byte b → is_byte x → length r = length D → D ≠ [] →
  eval D x = power x (length D) →
  ∃ r', divide D r b = Some r' ∧ bytes r' ∧ length r' = length D ∧
    eval r' x = Z.lxor (mul (eval r x) x) (mul b (power x (length D))).
Proof.
  intros HD Hr Hb Hx El Hne HDx. destruct r as [|r0 rest]; [by destruct D|]. inversion Hr as [|? ? Hr0 Hrest]; subst.
  cbn [divide]. set (f := Z.lxor b r0). assert (is_byte f) by byte.
  assert (E1 : length (rest ++ [0]) = length D) by (rewrite length_app; cbn in *; lia).
  assert (H0 : bytes (rest ++ [0])) by (apply Forall_app; split; [done|by repeat constructor]).
  eexists. split; [done|]. split; [by apply zip_bytes|]. split; [by rewrite length_zip_with_l_eq|].
  rewrite eval_zip by done. rewrite HDx, (eval_app rest [0]) by (done || by repeat constructor).
  pose proof (eval_byte rest x Hrest Hx). rewrite (eval_cons r0 rest) by done.
  rewrite <- El. cbn [length power]. rewrite mul_1_l by done.
  change (eval [0] x) with (Z.lxor (mul 0 x) 0). rewrite mul_0_l, !Z.lxor_0_r.
  set (w := power x (length rest)). assert (is_byte w) by (subst w; byte).
  rewrite (mul_comm _ f) by byte. subst f. rewrite !mul_add_l by byte. rewrite <- (mul_assoc r0 w x) by byte.
  set (e := mul (eval rest x) x). set (p := mul b (mul w x)). set (q := mul (mul r0 w) x).
  by rewrite (Z.lxor_comm p q), <- Z.lxor_assoc, (Z.lxor_comm e q).
Qed.

Lemma divide_all_spec D x : bytes D → is_byte x → D ≠ [] → eval D x = power x (length D) →
  ∀ data r, bytes data → bytes r → length r = length D →
  ∃ r', divide_all D data r = Some r' ∧ bytes r' ∧ length r' = length D ∧
    eval r' x = Z.lxor (mul (eval r x) (power x (length data))) (mul (eval data x) (power x (length D))).
Proof.
  intros HD Hx Hne HDx data. induction data as [|b data IH]; intros r Hdata Hr El.
  - exists r. split_and!; [done..|]. cbn. pose proof (eval_byte r x Hr Hx). by rewrite mul_1_r, mul_0_l, Z.lxor_0_r by done.
  - inversion Hdata as [|? ? Hb Hdata']; subst.
    destruct (divide_spec D r b x HD Hr Hb Hx El Hne HDx) as (r1 & E1 & Hr1 & El1 & He1).
    destruct (IH r1 Hdata' Hr1 El1) as (r2 & E2 & Hr2 & El2 & He2).
    exists r2. cbn [divide_all]. rewrite E1. split_and!; [done..|]. rewrite He2, He1, eval_cons by done.
    pose proof (eval_byte r x Hr Hx). pose proof (eval_byte data x Hdata' Hx). cbn [length power].
    set (n := power x (length data)). assert (is_byte n) by (subst n; byte).
    set (d := power x (length D)). assert (is_byte d) by (subst d; byte).
    rewrite !mul_add_l by byte. rewrite Z.lxor_assoc. f_equal; [|f_equal].
    + rewrite (mul_comm n x), mul_assoc by byte. done.
    + rewrite !mul_assoc by byte. f_equal. apply mul_comm; byte.
Qed.

(** The codeword of a block: the data, then the remainder. *)
Lemma remainder_spec degree D data :
  reedSolomonComputeDivisor degree = Some D → bytes data →
  ∃ ecc, reedSolomonComputeRemainder data D = Some ecc ∧ bytes ecc ∧ length ecc = Z.to_nat degree ∧
    ∀ i, (i < Z.to_nat degree)%nat → eval (data ++ ecc) (root i) = 0.
Proof.
  intros HD Hdata. destruct (divisor_spec degree D HD) as (Hd & El & Hb & Hroots).
  assert (Hne : D ≠ []) by (intros ->; cbn in El; lia). unfold reedSolomonComputeRemainder.
  assert (H0 : bytes (replicate (length D) 0)) by (by apply Forall_replicate).
  destruct (divide_all_spec D (root 0) Hb (root_byte 0) Hne (Hroots 0%nat ltac:(lia)) data _ Hdata H0 (length_replicate _ _))
    as (ecc & E & Hecc & Hl & _).
  exists ecc. split_and!; [done..|by rewrite Hl|]. intros i Hi. rewrite <- El in Hi.
  destruct (divide_all_spec D (root i) Hb (root_byte i) Hne (Hroots i Hi) data _ Hdata H0 (length_replicate _ _))
    as (ecc' & E' & _ & _ & He). rewrite E in E'. injection E' as <-.
  rewrite eval_app by (done || apply root_byte). rewrite He, Hl.
  assert (eval (replicate (length D) 0) (root i) = 0) as ->.
  { unfold eval. generalize (length D). intros n. induction n as [|n IH]; [done|]. cbn. rewrite mul_0_l. exact IH. }
  by rewrite mul_0_l, Z.lxor_0_l, Z.lxor_nilpotent.
Qed.

(** ** The distance of the code *)
Lemma mul_zero_check : forallb (λ x, forallb (λ y, negb (mul x y =? 0)) (seqZ 1 255)) (seqZ 1 255) = true.
Proof. vm_compute. reflexivity. Qed.

Lemma mul_zero x y : is_byte x → is_byte y → mul x y = 0 → x = 0 ∨ y = 0.
Proof.
  unfold is_byte. intros Hx Hy E. destruct (decide (x = 0)); [by left|]. destruct (decide (y = 0)); [by right|].
  pose proof mul_zero_check as H. rewrite forallb_forall in H.
  specialize (H x ltac:(apply list_elem_of_In, elem_of_seqZ; lia)). rewrite forallb_forall in H.
  specialize (H y ltac:(apply list_elem_of_In, elem_of_seqZ; lia)). apply negb_true_iff, Z.eqb_neq in H. done.
Qed.

(** The powers of 2 up to the 254th are different. *)
Fixpoint powers (n : nat) (z : Z) : list Z := match n with O => [] | S n => z :: powers n (mul z 2) end.
Lemma powers_lookup n : ∀ z i, is_byte z → (i < n)%nat → powers n z !! i = Some (mul z (root i)).
Proof.
  unfold root. induction n as [|n IH]; intros z i Hz Hi; [lia|]. destruct i as [|i]; cbn.
  - by rewrite mul_1_r.
  - assert (is_byte 2) by done. rewrite IH by (byte || lia). f_equal.
    rewrite mul_assoc, (mul_comm 2) by byte. done.
Qed.
Lemma root_inj i j : (i < 255)%nat → (j < 255)%nat → root i = root j → i = j.
Proof.
  intros Hi Hj E. assert (NoDup (powers 255 1)) as Hn by (apply (bool_decide_unpack _); vm_compute; exact I).
  eapply NoDup_lookup; [exact Hn|..]; rewrite powers_lookup by done; rewrite mul_1_l by apply root_byte; [done|by rewrite E].
Qed.

Definition sum (l : list Z) : Z := foldr Z.lxor 0 l.
(** [c1 * x1^i + c2 * x2^i + ...] *)
Definition moment (l : list (Z * Z)) (i : nat) : Z := sum ((λ t, mul t.1 (power t.2 i)) <$> l).
Definition terms (l : list (Z * Z)) : Prop := Forall (λ t, is_byte t.1 ∧ is_byte t.2) l.

Lemma moment_byte l i : terms l → is_byte (moment l i).
Proof. intros H. unfold moment, sum. induction H as [|t l [? ?] _ IH]; cbn; [done|]. byte. Qed.

(** The recombination of two equations that removes the point [y]. *)
Definition weigh (y : Z) (t : Z * Z) : Z * Z := (mul t.1 (Z.lxor t.2 y), t.2).

Lemma moment_weigh y l i : terms l → is_byte y →
  moment (weigh y <$> l) i = Z.lxor (moment l (S i)) (mul y (moment l i)).
Proof.
  intros H Hy. induction H as [|[c x] l [Hc Hx] Hl IH]; [cbn; by rewrite mul_0_r|].
  pose proof (moment_byte l i Hl) as Hm. pose proof (moment_byte l (S i) Hl) as Hm'. cbn [fst snd] in Hc, Hx.
  change (moment (weigh y <$> (c, x) :: l) i) with (Z.lxor (mul (mul c (Z.lxor x y)) (power x i)) (moment (weigh y <$> l) i)).
  change (moment ((c, x) :: l) (S i)) with (Z.lxor (mul c (power x (S i))) (moment l (S i))).
  change (moment ((c, x) :: l) i) with (Z.lxor (mul c (power x i)) (moment l i)).
  rewrite IH, (mul_add_r y), lxor_swap by done. f_equal. rewrite mul_add_r, mul_add_l by byte. f_equal.
  - cbn [power]. rewrite mul_assoc, (mul_comm x) by byte. done.
  - rewrite (mul_comm c y), mul_assoc by byte. done.
Qed.

Lemma vandermonde n : ∀ l, terms l → NoDup l.*2 → (length l <= n)%nat →
  (∀ i, (i < n)%nat → moment l i = 0) → Forall (λ t, t.1 = 0) l.
Proof.
  induction n as [|n IH]; intros l Hl Hd Hn H0; [destruct l; [constructor|cbn in Hn; lia]|].
  destruct Hl as [|[c y] l [Hc Hy] Hl]; [constructor|]. cbn in Hd, Hn, Hc, Hy. apply NoDup_cons in Hd as [Hni Hd].
  assert (Hw : terms (weigh y <$> l)).
  { apply Forall_fmap. eapply Forall_impl; [exact Hl|]. intros [c' x'] [? ?]. split; cbn; byte. }
  assert (Hm : ∀ i, (i < n)%nat → moment (weigh y <$> l) i = 0).
  { intros i Hi. rewrite moment_weigh by done. pose proof (H0 i ltac:(lia)) as E0. pose proof (H0 (S i) ltac:(lia)) as E1.
    unfold moment, sum in E0, E1. cbn [fmap list_fmap foldr fst snd] in E0, E1.
    apply Z.lxor_eq in E0, E1. fold (sum ((λ t, mul t.1 (power t.2 i)) <$> l)) in E0.
    fold (sum ((λ t, mul t.1 (power t.2 (S i))) <$> l)) in E1. fold (moment l i) in E0. fold (moment l (S i)) in E1.
    rewrite <- E0, <- E1. cbn [power]. rewrite (mul_comm (power y i) y), <- mul_assoc, (mul_comm c y), mul_assoc by byte.
    apply Z.lxor_nilpotent. }
  assert (Hz : Forall (λ t, t.1 = 0) l).
  { assert ((weigh y <$> l).*2 = l.*2) as E2 by (rewrite <- list_fmap_compose; done).
    pose proof (IH (weigh y <$> l) Hw ltac:(by rewrite E2) ltac:(rewrite length_fmap; lia) Hm) as Hall.
    rewrite Forall_fmap in Hall. apply Forall_forall. intros [c' x'] Hin. rewrite Forall_forall in Hall, Hl.
    specialize (Hall _ Hin). specialize (Hl _ Hin). cbn in *. apply mul_zero in Hall as [?|E]; [done| |byte..]; [|tauto|byte; tauto].
    apply Z.lxor_eq in E. subst. exfalso. apply Hni. by apply (list_elem_of_fmap_2 snd l (c', y)). }
  constructor; [|done]. cbn. pose proof (H0 0%nat ltac:(lia)) as E0. unfold moment in E0. cbn in E0.
  assert (sum ((λ t, mul t.1 1) <$> l) = 0) as Es.
  { clear -Hz. unfold sum. induction Hz as [|[c' x'] l E _ IH]; cbn in *; [done|]. by rewrite E, IH, mul_0_l. }
  unfold sum in Es. rewrite Es, Z.lxor_0_r, mul_1_r in E0 by done. done.
Qed.

(** The number of places at which two words differ. *)
Definition distance (a b : list Z) : nat := length (filter (λ p, p.1 ≠ p.2) (zip a b)).

(** A word as terms: its coefficients and the points [2^0, 2^1, ...] they belong to. *)
Fixpoint points (e : list Z) : list (Z * Z) :=
  match e with [] => [] | c :: e => (c, root (length e)) :: points e end.

Lemma points_terms e : bytes e → terms (points e).
Proof. intros H. induction H as [|c e Hc _ IH]; cbn; constructor; [split; [done|apply root_byte]|done]. Qed.

Lemma power_swap x m n : is_byte x → power (power x m) n = power (power x n) m.
Proof.
  intros Hx. assert (∀ m n, power (power x m) n = power x (m * n)) as E.
  { intros m' n'. induction n' as [|n' IH]; cbn; [by rewrite Nat.mul_0_r|].
    by rewrite IH, <- power_add, Nat.mul_succ_r by byte. }
  by rewrite !E, Nat.mul_comm.
Qed.

Lemma eval_moment e i : bytes e → eval e (root i) = moment (points e) i.
Proof.
  intros H. induction H as [|c e Hc He IH]; [done|]. rewrite eval_cons, IH by (done || apply root_byte).
  unfold root at 1. by rewrite power_swap by done.
Qed.

Lemma moment_filter l i : moment (filter (λ t, t.1 ≠ 0) l) i = moment l i.
Proof.
  induction l as [|[c x] l IH]; [done|]. rewrite filter_cons. unfold moment, sum in *. case_decide as Hc; cbn in *; [by rewrite IH|].
  by rewrite IH, Hc, mul_0_l, Z.lxor_0_l.
Qed.

Lemma points_NoDup e : (length e <= 255)%nat → NoDup (points e).*2.
Proof.
  assert (∀ e x, x ∈ (points e).*2 → ∃ k, (k < length e)%nat ∧ x = root k) as Hin.
  { clear e. intros e x. induction e as [|c e IH]; cbn; [by intros ?%not_elem_of_nil|].
    intros [->|H]%elem_of_cons; [by exists (length e); split; [lia|]|]. destruct (IH H) as (k & ? & ?). exists k. split; [lia|done]. }
  induction e as [|c e IH]; cbn; intros Hl; constructor; [|apply IH; lia].
  intros (k & Hk & E)%Hin. apply root_inj in E; lia.
Qed.

Lemma length_points e : length (points e) = length e.
Proof. induction e as [|c e IH]; cbn; congruence. Qed.

Abbreviation xor_words := (zip_with (λ r d, Z.lxor r (mul d 1))).

Lemma xor_words_distance a b : bytes b →
  length (filter (λ t, t.1 ≠ 0) (points (xor_words a b))) = distance a b.
Proof.
  unfold distance. revert b. induction a as [|x a IH]; intros b Hb; [done|]. destruct Hb as [|y b Hy Hb]; [done|].
  cbn [zip_with zip points]. rewrite !filter_cons. cbn [fst snd]. rewrite mul_1_r by done.
  specialize (IH b Hb). destruct (decide (x = y)) as [->|Hne].
  - rewrite decide_False by (rewrite Z.lxor_nilpotent; tauto). rewrite decide_False by tauto. done.
  - rewrite decide_True by (intros E; by apply Z.lxor_eq in E). rewrite decide_True by done. cbn. by rewrite IH.
Qed.

Lemma xor_words_zero a b : bytes b → length a = length b → distance a b = 0%nat → a = b.
Proof.
  unfold distance. revert b. induction a as [|x a IH]; intros b Hb El; [by destruct b|].
  destruct Hb as [|y b Hy Hb]; [done|]. cbn [zip_with zip]. rewrite filter_cons. cbn [fst snd].
  case_decide as Hd; [done|]. subst y. intros E. f_equal. apply IH; [done|by injection El|done].
Qed.

(** C33: The error correction codewords do what they are for: two different blocks of
    data, of the same length and of at most 255 codewords with the error correction, are
    written as words that differ in more places than there are error correction codewords.
    So a reader that meets at most half as many wrong codewords in a block has only one
    block that it can stand for. *)
Theorem codewords_far (degree : Z) (divisor data1 data2 ecc1 ecc2 : list Z) :
  reedSolomonComputeDivisor degree = Some divisor →
  bytes data1 → bytes data2 → length data1 = length data2 → Z.of_nat (length data1) + degree <= 255 →
  reedSolomonComputeRemainder data1 divisor = Some ecc1 →
  reedSolomonComputeRemainder data2 divisor = Some ecc2 →
  data1 ≠ data2 → degree < Z.of_nat (distance (data1 ++ ecc1) (data2 ++ ecc2)).
Proof.
  intros HD H1 H2 El Hn E1 E2 Hne. pose proof (divisor_spec _ _ HD) as (Hd & _).
  destruct (remainder_spec _ _ _ HD H1) as (e1 & R1 & Hb1 & Hl1 & Hz1). rewrite E1 in R1. injection R1 as <-.
  destruct (remainder_spec _ _ _ HD H2) as (e2 & R2 & Hb2 & Hl2 & Hz2). rewrite E2 in R2. injection R2 as <-.
  apply Z.nle_gt. intros Hle.
  assert (B1 : bytes (data1 ++ ecc1)) by (by apply Forall_app). assert (B2 : bytes (data2 ++ ecc2)) by (by apply Forall_app).
  assert (Ew : length (data1 ++ ecc1) = length (data2 ++ ecc2)) by (rewrite !length_app; lia).
  set (a := data1 ++ ecc1) in *. set (b := data2 ++ ecc2) in *.
  assert (He : bytes (xor_words a b)) by (by apply zip_bytes).
  assert (Hle' : length (xor_words a b) = length a) by (by rewrite length_zip_with_l_eq).
  pose proof (vandermonde (Z.to_nat degree) (filter (λ t, t.1 ≠ 0) (points (xor_words a b)))) as Hv.
  assert (Hall : Forall (λ t, t.1 = 0) (filter (λ t, t.1 ≠ 0) (points (xor_words a b)))).
  { apply Hv.
    - apply Forall_forall. intros t [_ Ht]%list_elem_of_filter. pose proof (points_terms _ He) as Hp.
      unfold terms in Hp. rewrite Forall_forall in Hp. by apply Hp.
    - eapply sublist_NoDup; [apply points_NoDup|apply (fmap_sublist snd), sublist_filter].
      rewrite Hle'. subst a. rewrite length_app. lia.
    - rewrite xor_words_distance by done. lia.
    - intros i Hi. rewrite moment_filter, <- eval_moment by done.
      rewrite eval_zip by (done || apply root_byte). rewrite Hz1, Hz2 by done. by rewrite mul_0_l. }
  assert (filter (λ t, t.1 ≠ 0) (points (xor_words a b)) = []) as Hnil.
  { destruct (filter _ (points (xor_words a b))) as [|t l] eqn:Ef; [done|]. inversion Hall as [|? ? Ht _]; subst.
    assert (t ∈ filter (λ t, t.1 ≠ 0) (points (xor_words a b))) as Hin by (rewrite Ef; by left).
    by apply list_elem_of_filter in Hin as [? _]. }
  assert (distance a b = 0%nat) as H0 by (rewrite <- xor_words_distance, Hnil; done).
  apply xor_words_zero in H0; [|done..]. apply Hne. by apply (app_inj_1 data1 data2 ecc1 ecc2).
Qed.

Lemma codewords_far_witness :
  ∃ divisor ecc1 ecc2, reedSolomonComputeDivisor 7 = Some divisor ∧
    reedSolomonComputeRemainder [64; 17; 236] divisor = Some ecc1 ∧
    reedSolomonComputeRemainder [64; 17; 17] divisor = Some ecc2 ∧
    7 < Z.of_nat (distance ([64; 17; 236] ++ ecc1) ([64; 17; 17] ++ ecc2)).
Proof.
  eexists _, _, _. split; [vm_compute; reflexivity|]. split; [vm_compute; reflexivity|]. split; [vm_compute; reflexivity|].
  eapply (codewords_far 7); [vm_compute; reflexivity|by repeat constructor|by repeat constructor|reflexivity|done|
    vm_compute; reflexivity|vm_compute; reflexivity|discriminate].
Defined.
