(* ===== verification/QrSegments.v ===== *)
(** * Segments of a QR code

    [windows/credential_provider/qrcodegen.cpp]: the bit buffer and the segments
    into which a text is split, and a reader of segments, written from the
    standard (ISO/IEC 18004, 7.4), that gets the text back. A [const char *] is the
    list of the bytes before its NUL; a thrown exception is [None]. *)
From S2P Require Import Prelude.

(** ** The bit buffer *)
Definition getBit (x : Z) (i : Z) : bool := negb (Z.land (Z.shiftr x i) 1 =? 0).

(** [for (int i = len - 1; i >= 0; i--) push_back(((val >> i) & 1) != 0)] *)
Fixpoint push_bits (val : Z) (len : nat) (bb : list bool) : list bool :=
  match len with O => bb | S i => push_bits val i (bb ++ [getBit val (Z.of_nat i)]) end.

(** [val] is a [uint32_t]. *)
Definition appendBits (val len : Z) (bb : list bool) : option (list bool) :=
  if (len <? 0) || (31 <? len) || negb (Z.shiftr val len =? 0) then None
  else Some (push_bits val (Z.to_nat len) bb).

(** ** Modes *)
Record Mode := mkMode { modeBits : Z; numBitsCharCount : list Z }.
Definition NUMERIC : Mode := mkMode 0x1 [10; 12; 14].
Definition ALPHANUMERIC : Mode := mkMode 0x2 [9; 11; 13].
Definition BYTE : Mode := mkMode 0x4 [8; 16; 16].
Definition KANJI : Mode := mkMode 0x8 [8; 10; 12].
Definition ECI : Mode := mkMode 0x7 [0; 0; 0].

Definition numCharCountBits (m : Mode) (ver : Z) : Z :=
  nth (Z.to_nat ((ver + 7) / 17)) (numBitsCharCount m) 0.

Record QrSegment := mkQrSegment { seg_mode : Mode; seg_numChars : Z; seg_data : list bool }.

(** The constructor. *)
Definition new_segment (m : Mode) (numCh : Z) (dt : list bool) : option QrSegment :=
  if numCh <? 0 then None else Some (mkQrSegment m numCh dt).

(** ** Factories *)
Fixpoint append_bytes (data : list Z) (bb : list bool) : option (list bool) :=
  match data with [] => Some bb | b :: data => bb ← appendBits b 8 bb; append_bytes data bb end.

Definition makeBytes (data : list Z) : option QrSegment :=
  if INT_MAX <? Z.of_nat (length data) then None else
  bb ← append_bytes data [];
  new_segment BYTE (Z.of_nat (length data)) bb.

(** The loop of [makeNumeric] over the rest of the text. *)
Fixpoint numeric_loop (digits : list Z) (bb : list bool) (accumData accumCount charCount : Z) : option QrSegment :=
  match digits with
  | [] =>
    bb ← (if 0 <? accumCount then appendBits accumData (accumCount * 3 + 1) bb else Some bb);
    new_segment NUMERIC charCount bb
  | c :: digits =>
    if (c <? 48) || (57 <? c) then None else
    let accumData := accumData * 10 + (c - 48) in
    let accumCount := accumCount + 1 in
    if accumCount =? 3
    then bb ← appendBits accumData 10 bb; numeric_loop digits bb 0 0 (charCount + 1)
    else numeric_loop digits bb accumData accumCount (charCount + 1)
  end.
Definition makeNumeric (digits : list Z) : option QrSegment := numeric_loop digits [] 0 0 0.

Definition ALPHANUMERIC_CHARSET : str := B "0123456789ABCDEFGHIJKLMNOPQRSTUVWXYZ $%*+-./:".

(** [std::strchr(ALPHANUMERIC_CHARSET, c)] as an index; [c] is not NUL. *)
Definition charset_index (c : Z) : option nat := find_ch ALPHANUMERIC_CHARSET c 0.

Fixpoint alphanumeric_loop (text : list Z) (bb : list bool) (accumData accumCount charCount : Z) : option QrSegment :=
  match text with
  | [] =>
    bb ← (if 0 <? accumCount then appendBits accumData 6 bb else Some bb);
    new_segment ALPHANUMERIC charCount bb
  | c :: text =>
    i ← charset_index c;
    let accumData := accumData * 45 + Z.of_nat i in
    let accumCount := accumCount + 1 in
    if accumCount =? 2
    then bb ← appendBits accumData 11 bb; alphanumeric_loop text bb 0 0 (charCount + 1)
    else alphanumeric_loop text bb accumData accumCount (charCount + 1)
  end.
Definition makeAlphanumeric (text : list Z) : option QrSegment := alphanumeric_loop text [] 0 0 0.

Definition isNumeric (text : list Z) : bool := forallb (λ c, negb ((c <? 48) || (57 <? c))) text.
Definition isAlphanumeric (text : list Z) : bool :=
  forallb (λ c, negb (bool_decide (charset_index c = None))) text.

Definition makeSegments (text : list Z) : option (list QrSegment) :=
  match text with
  | [] => Some []
  | _ =>
    s ← (if isNumeric text then makeNumeric text else
         if isAlphanumeric text then makeAlphanumeric text else makeBytes text);
    Some [s]
  end.

Definition makeEci (assignVal : Z) : option QrSegment :=
  bb ← (if assignVal <? 0 then None else
        if assignVal <? Z.shiftl 1 7 then appendBits assignVal 8 [] else
        if assignVal <? Z.shiftl 1 14 then bb ← appendBits 2 2 []; appendBits assignVal 14 bb else
        if assignVal <? 1000000 then bb ← appendBits 6 3 []; appendBits assignVal 21 bb else None);
  new_segment ECI 0 bb.

(** The bits needed at a version; -1 when a count does not fit, or the sum an [int]. *)
Fixpoint total_bits (segs : list QrSegment) (version result : Z) : Z :=
  match segs with
  | [] => result
  | seg :: segs =>
    let ccbits := numCharCountBits (seg_mode seg) version in
    if Z.shiftl 1 ccbits <=? seg_numChars seg then -1 else
    if INT_MAX - result <? 4 + ccbits then -1 else
    let result := result + (4 + ccbits) in
    if INT_MAX - result <? Z.of_nat (length (seg_data seg)) then -1 else
    total_bits segs version (result + Z.of_nat (length (seg_data seg)))
  end.
Definition getTotalBits (segs : list QrSegment) (version : Z) : Z := total_bits segs version 0.

(** What [encodeSegments] writes for the segments. *)
Fixpoint append_segments (segs : list QrSegment) (version : Z) (bb : list bool) : option (list bool) :=
  match segs with
  | [] => Some bb
  | seg :: segs =>
    bb ← appendBits (modeBits (seg_mode seg)) 4 bb;
    bb ← appendBits (seg_numChars seg) (numCharCountBits (seg_mode seg) version) bb;
    append_segments segs version (bb ++ seg_data seg)
  end.

(** ** Bits *)
Definition bits (val : Z) (len : nat) : list bool := push_bits val len [].


Lemma getBit_testbit x i : 0 <= i → getBit x i = Z.testbit x i.
Proof.
  intros Hi. unfold getBit.
  assert (Z.land (Z.shiftr x i) 1 = Z.shiftr x i mod 2) as -> by apply (Z.land_ones (Z.shiftr x i) 1 ltac:(lia)).
  rewrite <- Z.bit0_mod, Z.shiftr_spec, Z.add_0_l by done.
  by destruct (Z.testbit x i).
Qed.

Lemma push_bits_app val len bb : push_bits val len bb = bb ++ bits val len.
Proof.
  unfold bits. assert (∀ b1 b2, push_bits val len (b1 ++ b2) = b1 ++ push_bits val len b2) as H.
  { induction len as [|i IH]; intros b1 b2; [done|]. cbn [push_bits]. by rewrite <- app_assoc, IH. }
  by rewrite <- H, app_nil_r.
Qed.
Lemma bits_S val i : bits val (S i) = getBit val (Z.of_nat i) :: bits val i.
Proof. unfold bits. cbn [push_bits]. by rewrite push_bits_app. Qed.
Lemma length_bits val len : length (bits val len) = len.
Proof. induction len as [|i IH]; [done|]. by rewrite bits_S; cbn; rewrite IH. Qed.
Lemma bits_zero len : bits 0 len = replicate len false.
Proof. induction len as [|i IH]; [done|]. rewrite bits_S, IH. unfold getBit. by rewrite Z.shiftr_0_l. Qed.

Lemma appendBits_ok val len bb : 0 <= len <= 31 → 0 <= val < 2 ^ len →
  appendBits val len bb = Some (bb ++ bits val (Z.to_nat len)).
Proof.
  intros Hl Hv. unfold appendBits. destruct (Z.ltb_spec len 0); [lia|]. destruct (Z.ltb_spec 31 len); [lia|].
  rewrite Z.shiftr_div_pow2, Z.div_small, push_bits_app by lia. done.
Qed.

(** ** The reader *)
Definition value (l : list bool) : Z := foldl (λ a b, 2 * a + Z.b2z b) 0 l.
Definition read_bits (n : nat) (l : list bool) : option (Z * list bool) :=
  if Nat.ltb (length l) n then None else Some (value (take n l), drop n l).

Fixpoint read_bytes (n : nat) (l : list bool) : option (list Z * list bool) :=
  match n with
  | O => Some ([], l)
  | S n => '(v, l) ← read_bits 8 l; '(r, l) ← read_bytes n l; Some (v :: r, l)
  end.

(** Three digits in ten bits, two in seven, one in four. *)
Fixpoint read_numeric (n : nat) (l : list bool) : option (list Z * list bool) :=
  match n with
  | O => Some ([], l)
  | 1%nat => '(v, l) ← read_bits 4 l; if v <? 10 then Some ([48 + v], l) else None
  | 2%nat => '(v, l) ← read_bits 7 l; if v <? 100 then Some ([48 + v / 10; 48 + v mod 10], l) else None
  | S (S (S n)) =>
    '(v, l) ← read_bits 10 l;
    if v <? 1000 then
      '(r, l) ← read_numeric n l;
      Some (48 + v / 100 :: 48 + v / 10 mod 10 :: 48 + v mod 10 :: r, l)
    else None
  end.

(** Two characters in eleven bits, one in six. *)
Fixpoint read_alphanumeric (n : nat) (l : list bool) : option (list Z * list bool) :=
  match n with
  | O => Some ([], l)
  | 1%nat => '(v, l) ← read_bits 6 l; c ← ALPHANUMERIC_CHARSET !! Z.to_nat v; Some ([c], l)
  | S (S n) =>
    '(v, l) ← read_bits 11 l;
    c1 ← ALPHANUMERIC_CHARSET !! Z.to_nat (v / 45);
    c2 ← ALPHANUMERIC_CHARSET !! Z.to_nat (v mod 45);
    '(r, l) ← read_alphanumeric n l;
    Some (c1 :: c2 :: r, l)
  end.

(** The width of the count, by the standard's table: versions 1 to 9, 10 to 26, 27 to 40. *)
Definition count_width (w1 w2 w3 : nat) (version : Z) : nat :=
  if version <=? 9 then w1 else if version <=? 26 then w2 else w3.

(** Segments up to the terminator, or to the end. *)
Fixpoint read_segments (fuel : nat) (version : Z) (l : list bool) : option (list Z) :=
  match fuel with
  | O => None
  | S fuel =>
    if Nat.ltb (length l) 4 then Some [] else
    '(mode, l) ← read_bits 4 l;
    if mode =? 0 then Some [] else
    '(text, l) ← (
      if mode =? 1 then '(n, l) ← read_bits (count_width 10 12 14 version) l; read_numeric (Z.to_nat n) l else
      if mode =? 2 then '(n, l) ← read_bits (count_width 9 11 13 version) l; read_alphanumeric (Z.to_nat n) l else
      if mode =? 4 then '(n, l) ← read_bits (count_width 8 16 16 version) l; read_bytes (Z.to_nat n) l else None);
    rest ← read_segments fuel version l;
    Some (text ++ rest)
  end.

(** ** Reading back what is written *)
Lemma value_snoc l b : value (l ++ [b]) = 2 * value l + Z.b2z b.
Proof. unfold value. by rewrite foldl_app. Qed.
Lemma value_app l r : value (l ++ r) = value l * 2 ^ Z.of_nat (length r) + value r.
Proof.
  induction r as [|b r IH] using rev_ind; [rewrite app_nil_r; cbn; lia|].
  rewrite app_assoc, !value_snoc, IH, length_app. cbn [length].
  rewrite Nat2Z.inj_add, Z.pow_add_r by lia. lia.
Qed.
Lemma value_bits v len : 0 <= v → value (bits v len) = v mod 2 ^ Z.of_nat len.
Proof.
  intros Hv. induction len as [|i IH]; [cbn; by rewrite Z.mod_1_r|].
  rewrite bits_S. change (getBit v (Z.of_nat i) :: bits v i) with ([getBit v (Z.of_nat i)] ++ bits v i).
  rewrite value_app, length_bits, IH, getBit_testbit by lia.
  assert (∀ b, value [b] = Z.b2z b) as -> by done.
  rewrite Z.testbit_spec', Nat2Z.inj_succ, Z.pow_succ_r, (Z.mul_comm 2 (2 ^ Z.of_nat i)), Z.rem_mul_r by lia. lia.
Qed.

Lemma read_bits_app v n rest : 0 <= v < 2 ^ Z.of_nat n → read_bits n (bits v n ++ rest) = Some (v, rest).
Proof.
  intros Hv. unfold read_bits. rewrite length_app, length_bits.
  destruct (Nat.ltb_spec (n + length rest) n); [lia|].
  rewrite take_app_length', drop_app_length' by (by rewrite length_bits). rewrite value_bits, Z.mod_small by lia. done.
Qed.

(** A segment reads back as [text]: whatever follows it. *)
Definition reads_as (m : Mode) (read : nat → list bool → option (list Z * list bool)) (text : list Z)
    (seg : QrSegment) : Prop :=
  seg_mode seg = m ∧ seg_numChars seg = Z.of_nat (length text) ∧
  (length (seg_data seg) <= 8 * length text)%nat ∧
  ∀ rest, read (length text) (seg_data seg ++ rest) = Some (text, rest).

Lemma append_bytes_reads data : Forall is_byte data → ∃ d,
  (∀ bb, append_bytes data bb = Some (bb ++ d)) ∧ length d = (8 * length data)%nat ∧
  ∀ rest, read_bytes (length data) (d ++ rest) = Some (data, rest).
Proof.
  induction 1 as [|b data Hb _ (d & Ha & Hl & Hr)].
  - exists []. split; [intros; by rewrite app_nil_r|done].
  - exists (bits b 8 ++ d). split; [|split].
    + intros bb. cbn [append_bytes]. rewrite appendBits_ok by (unfold is_byte in Hb; lia). cbn [mbind option_bind].
      by rewrite Ha, app_assoc.
    + rewrite length_app, length_bits, Hl. cbn. lia.
    + intros rest. cbn [length read_bytes]. rewrite <- app_assoc, read_bits_app by (unfold is_byte in Hb; lia).
      cbn [mbind option_bind]. by rewrite Hr.
Qed.

Lemma makeBytes_reads data : Forall is_byte data → Z.of_nat (length data) <= INT_MAX →
  ∃ seg, makeBytes data = Some seg ∧ reads_as BYTE read_bytes data seg.
Proof.
  intros Hd Hl. destruct (append_bytes_reads data Hd) as (d & Ha & Hlen & Hr). unfold makeBytes.
  destruct (Z.ltb_spec INT_MAX (Z.of_nat (length data))); [lia|]. rewrite Ha. cbn [mbind option_bind].
  unfold new_segment. destruct (Z.ltb_spec (Z.of_nat (length data)) 0); [lia|].
  eexists. split; [done|]. split_and!; [done..|cbn; lia|exact Hr].
Qed.

Definition digit (c : Z) : Prop := 48 <= c <= 57.

Lemma numeric_loop_step c digits bb a n k : digit c → n + 1 ≠ 3 →
  numeric_loop (c :: digits) bb a n k = numeric_loop digits bb (a * 10 + (c - 48)) (n + 1) (k + 1).
Proof.
  intros [H1 H2] Hn. cbn [numeric_loop]. destruct (Z.ltb_spec c 48); [lia|]. destruct (Z.ltb_spec 57 c); [lia|].
  cbn [orb]. destruct (Z.eqb_spec (n + 1) 3); [lia|]. done.
Qed.
Lemma numeric_loop_full c digits bb a k : digit c → 0 <= a < 100 →
  numeric_loop (c :: digits) bb a 2 k =
  numeric_loop digits (bb ++ bits (a * 10 + (c - 48)) 10) 0 0 (k + 1).
Proof.
  intros [H1 H2] Ha. cbn [numeric_loop]. destruct (Z.ltb_spec c 48); [lia|]. destruct (Z.ltb_spec 57 c); [lia|].
  cbn [orb]. change (2 + 1 =? 3) with true. cbv iota. rewrite appendBits_ok by lia. done.
Qed.
Lemma numeric_loop_end bb a n k : 0 <= k → 0 < n < 3 → 0 <= a < 2 ^ (n * 3 + 1) →
  numeric_loop [] bb a n k = Some (mkQrSegment NUMERIC k (bb ++ bits a (Z.to_nat (n * 3 + 1)))).
Proof.
  intros Hk Hn Ha. cbn [numeric_loop]. destruct (Z.ltb_spec 0 n); [|lia]. rewrite appendBits_ok by lia.
  cbn [mbind option_bind]. unfold new_segment. by destruct (Z.ltb_spec k 0); [lia|].
Qed.

Lemma numeric_reads digits : Forall digit digits → ∃ d,
  (∀ bb k, 0 <= k → numeric_loop digits bb 0 0 k =
     Some (mkQrSegment NUMERIC (k + Z.of_nat (length digits)) (bb ++ d))) ∧
  (length d <= 8 * length digits)%nat ∧
  ∀ rest, read_numeric (length digits) (d ++ rest) = Some (digits, rest).
Proof.
  induction digits as [|a|a b|a b c r IH] using group3_ind; intros Hd; rewrite ?Forall_cons in Hd; unfold digit in *.
  - exists []. split_and!; [|cbn; lia|done]. intros bb k Hk. cbn. unfold new_segment.
    destruct (Z.ltb_spec k 0); [lia|]. by rewrite app_nil_r, Z.add_0_r.
  - destruct Hd as [Ha _]. exists (bits (a - 48) 4). split_and!.
    + intros bb k Hk. rewrite numeric_loop_step, numeric_loop_end by (done || lia). done.
    + rewrite length_bits. cbn. lia.
    + intros rest. cbn [length read_numeric]. rewrite read_bits_app by lia. cbn [mbind option_bind].
      destruct (Z.ltb_spec (a - 48) 10); [|lia]. repeat f_equal; lia.
  - destruct Hd as (Ha & Hb & _). set (v := (a - 48) * 10 + (b - 48)).
    assert (v / 10 = a - 48 ∧ v mod 10 = b - 48) as [E1 E2] by (subst v; split; Z.to_euclidean_division_equations; lia).
    exists (bits v 7). split_and!.
    + intros bb k Hk. rewrite !numeric_loop_step, numeric_loop_end by (done || lia). cbn [length].
      do 2 f_equal; lia.
    + rewrite length_bits. cbn. lia.
    + intros rest. cbn [length read_numeric]. rewrite read_bits_app by (subst v; lia). cbn [mbind option_bind].
      destruct (Z.ltb_spec v 100); [|subst v; lia]. rewrite E1, E2. repeat f_equal; lia.
  - destruct Hd as (Ha & Hb & Hc & Hr). destruct (IH Hr) as (d & Hn & Hl & Hread).
    set (v := ((a - 48) * 10 + (b - 48)) * 10 + (c - 48)).
    assert (v / 100 = a - 48 ∧ v / 10 mod 10 = b - 48 ∧ v mod 10 = c - 48) as (E1 & E2 & E3)
      by (subst v; split_and!; Z.to_euclidean_division_equations; lia).
    exists (bits v 10 ++ d). split_and!.
    + intros bb k Hk. rewrite !numeric_loop_step by (done || lia). change (0 + 1 + 1) with 2.
      rewrite numeric_loop_full, Hn by (done || lia). cbn [length]. rewrite <- app_assoc. do 2 f_equal; lia.
    + rewrite length_app, length_bits. cbn [length]. lia.
    + intros rest. cbn [length read_numeric]. rewrite <- app_assoc, read_bits_app by (subst v; lia).
      cbn [mbind option_bind]. destruct (Z.ltb_spec v 1000); [|subst v; lia]. rewrite Hread. cbn [mbind option_bind].
      rewrite E1, E2, E3. repeat f_equal; lia.
Qed.

Lemma charset_lookup c i : charset_index c = Some i → ALPHANUMERIC_CHARSET !! i = Some c ∧ (i < 45)%nat.
Proof.
  intros H. apply find_ch_some in H as (l & r & E & Hl & _).
  assert (length ALPHANUMERIC_CHARSET = 45%nat) as H45 by reflexivity.
  rewrite E in H45 |- *. rewrite length_app in H45. cbn in H45. split; [|lia]. subst i.
  by rewrite lookup_app_r, Nat.sub_diag by done.
Qed.

Definition in_charset (c : Z) : Prop := is_Some (charset_index c).

Lemma alphanumeric_reads text : Forall in_charset text → ∃ d,
  (∀ bb k, 0 <= k → alphanumeric_loop text bb 0 0 k =
     Some (mkQrSegment ALPHANUMERIC (k + Z.of_nat (length text)) (bb ++ d))) ∧
  (length d <= 8 * length text)%nat ∧
  ∀ rest, read_alphanumeric (length text) (d ++ rest) = Some (text, rest).
Proof.
  induction text as [|a|a b r IH] using group2_ind; intros Hd; rewrite ?Forall_cons in Hd.
  - exists []. split_and!; [|cbn; lia|done]. intros bb k Hk. cbn. unfold new_segment.
    destruct (Z.ltb_spec k 0); [lia|]. by rewrite app_nil_r, Z.add_0_r.
  - destruct Hd as [[i Hi] _]. destruct (charset_lookup a i Hi) as [E Hlt]. exists (bits (Z.of_nat i) 6). split_and!.
    + intros bb k Hk. cbn [alphanumeric_loop]. rewrite Hi. cbn [mbind option_bind].
      change (0 + 1 =? 2) with false. cbv iota. change (0 <? 0 + 1) with true. cbv iota.
      change (0 * 45 + Z.of_nat i) with (Z.of_nat i). rewrite appendBits_ok by lia.
      cbn [mbind option_bind]. unfold new_segment. by destruct (Z.ltb_spec (k + 1) 0); [lia|].
    + rewrite length_bits. cbn. lia.
    + intros rest. cbn [length read_alphanumeric]. rewrite read_bits_app by lia. cbn [mbind option_bind].
      by rewrite Nat2Z.id, E.
  - destruct Hd as ([i Hi] & [j Hj] & Hr). destruct (IH Hr) as (d & Hn & Hl & Hread).
    destruct (charset_lookup a i Hi) as [Ei Hli]. destruct (charset_lookup b j Hj) as [Ej Hlj].
    set (v := Z.of_nat i * 45 + Z.of_nat j).
    assert (v / 45 = Z.of_nat i ∧ v mod 45 = Z.of_nat j) as (E1 & E2)
      by (subst v; split; Z.to_euclidean_division_equations; lia).
    exists (bits v 11 ++ d). split_and!.
    + intros bb k Hk. cbn [alphanumeric_loop]. rewrite Hi, Hj. cbn [mbind option_bind].
      change (0 + 1 =? 2) with false. change (0 + 1 + 1 =? 2) with true. cbv iota.
      change ((0 * 45 + Z.of_nat i) * 45 + Z.of_nat j) with v.
      rewrite appendBits_ok by (subst v; lia). cbn [mbind option_bind]. rewrite Hn by lia. cbn [length].
      rewrite <- app_assoc. do 2 f_equal; lia.
    + rewrite length_app, length_bits. cbn [length]. lia.
    + intros rest. cbn [length read_alphanumeric]. rewrite <- app_assoc, read_bits_app by (subst v; lia).
      cbn [mbind option_bind]. by rewrite E1, E2, !Nat2Z.id, Ei, Ej, Hread.
Qed.

(** Every text of bytes has its segment. *)
Lemma makeSegments_reads text : Forall is_byte text → text ≠ [] → Z.of_nat (length text) <= INT_MAX →
  ∃ seg, makeSegments text = Some [seg] ∧
    (reads_as NUMERIC read_numeric text seg ∨ reads_as ALPHANUMERIC read_alphanumeric text seg ∨
     reads_as BYTE read_bytes text seg).
Proof.
  intros Hb Hne Hl. unfold makeSegments. destruct text as [|c t] eqn:Et; [done|]. rewrite <- Et in *. clear Et.
  destruct (isNumeric text) eqn:En; [|destruct (isAlphanumeric text) eqn:Ea].
  - assert (Forall digit text) as Hd.
    { unfold isNumeric in En. rewrite forallb_forall in En. apply Forall_forall. intros x Hx%list_elem_of_In.
      specialize (En x Hx). unfold digit. lia. }
    destruct (numeric_reads text Hd) as (d & Hn & Hlen & Hr). unfold makeNumeric. rewrite Hn by done.
    eexists. split; [done|]. left. by split_and!.
  - assert (Forall in_charset text) as Hd.
    { unfold isAlphanumeric in Ea. rewrite forallb_forall in Ea. apply Forall_forall. intros x Hx%list_elem_of_In.
      specialize (Ea x Hx). apply negb_true_iff, bool_decide_eq_false in Ea. unfold in_charset. by apply not_eq_None_Some. }
    destruct (alphanumeric_reads text Hd) as (d & Hn & Hlen & Hr). unfold makeAlphanumeric. rewrite Hn by done.
    eexists. split; [done|]. right; left. by split_and!.
  - destruct (makeBytes_reads text Hb Hl) as (seg & -> & Hs). eexists. split; [done|]. by right; right.
Qed.

(** ** The bits of a version *)
Lemma getTotalBits_one seg version : 0 <= version → 0 <= numCharCountBits (seg_mode seg) version <= 16 →
  Z.of_nat (length (seg_data seg)) <= 2 ^ 30 →
  getTotalBits [seg] version =
  if 2 ^ numCharCountBits (seg_mode seg) version <=? seg_numChars seg then -1
  else 4 + numCharCountBits (seg_mode seg) version + Z.of_nat (length (seg_data seg)).
Proof.
  intros Hv Hc Hl. unfold getTotalBits. cbn [total_bits]. rewrite Z.shiftl_1_l.
  destruct (_ <=? seg_numChars seg); [done|]. unfold INT_MAX.
  destruct (Z.ltb_spec (2147483647 - 0) (4 + numCharCountBits (seg_mode seg) version)); [lia|].
  match goal with |- (if ?a <? ?b then _ else _) = _ => destruct (Z.ltb_spec a b); [lia|] end. lia.
Qed.

Lemma count_width_ok w1 w2 w3 bits version : 1 <= version <= 40 →
  Z.to_nat (numCharCountBits (mkMode bits [Z.of_nat w1; Z.of_nat w2; Z.of_nat w3]) version) = count_width w1 w2 w3 version.
Proof.
  intros Hv. unfold numCharCountBits, count_width. cbn [numBitsCharCount].
  destruct (Z.leb_spec version 9); [|destruct (Z.leb_spec version 26)].
  - assert ((version + 7) / 17 = 0) as -> by (symmetry; apply (Z.div_unique_pos _ _ _ (version + 7 - 0)); lia). apply Nat2Z.id.
  - assert ((version + 7) / 17 = 1) as -> by (symmetry; apply (Z.div_unique_pos _ _ _ (version + 7 - 17)); lia). apply Nat2Z.id.
  - assert ((version + 7) / 17 = 2) as -> by (symmetry; apply (Z.div_unique_pos _ _ _ (version + 7 - 34)); lia). apply Nat2Z.id.
Qed.
