(* ===== verification/QrCode.v ===== *)
(** * The QR code encoder

    [windows/credential_provider/qrcodegen.cpp], class [QrCode]: from the segments
    of a text to the square of modules that the tile draws. A thrown exception and
    an access out of a vector are [None]. The assertions are no part of the release
    build. *)
From S2P Require Import Prelude QrSegments ReedSolomon.

(** [for (int i = lo; i < hi; ++i)] *)
Definition for_in {A} (lo hi : Z) (body : Z → A → option A) (a : A) : option A :=
  for_from body lo (Z.to_nat (hi - lo)) a.

(** [v.at(i)], read and written. *)
Definition vec_at {A} (l : list A) (i : Z) : option A := if i <? 0 then None else l !! Z.to_nat i.
Definition vec_set {A} (i : Z) (v : A) (l : list A) : option (list A) :=
  _ ← vec_at l i; Some (<[Z.to_nat i := v]> l).

(** ** Data *)
Inductive Ecc := LOW | MEDIUM | QUARTILE | HIGH.
#[export] Instance Ecc_eq_dec : EqDecision Ecc.
Proof. solve_decision. Defined.

Definition ecc_index (e : Ecc) : nat := match e with LOW => 0 | MEDIUM => 1 | QUARTILE => 2 | HIGH => 3 end.
Definition getFormatBits (e : Ecc) : Z := match e with LOW => 1 | MEDIUM => 0 | QUARTILE => 3 | HIGH => 2 end.

Record QrCode := mkQrCode {
  qr_ver : Z; qr_size : Z; qr_ecl : Ecc; qr_mask : Z;
  modules : list (list bool); isFunction : list (list bool) }.
#[export] Instance eta_QrCode : Settable QrCode := λ q,
  mkQrCode (qr_ver q) (qr_size q) (qr_ecl q) (qr_mask q) (modules q) (isFunction q).

Definition MIN_VERSION : Z := 1.
Definition MAX_VERSION : Z := 40.
Definition PENALTY_N1 : Z := 3.
Definition PENALTY_N2 : Z := 3.
Definition PENALTY_N3 : Z := 40.
Definition PENALTY_N4 : Z := 10.
Definition LONG_MAX : Z := 2147483647.

Definition ECC_CODEWORDS_PER_BLOCK : list (list Z) :=
  [[-1;  7; 10; 15; 20; 26; 18; 20; 24; 30; 18; 20; 24; 26; 30; 22; 24; 28; 30; 28; 28; 28; 28; 30; 30; 26; 28; 30; 30; 30; 30; 30; 30; 30; 30; 30; 30; 30; 30; 30; 30];
   [-1; 10; 16; 26; 18; 24; 16; 18; 22; 22; 26; 30; 22; 22; 24; 24; 28; 28; 26; 26; 26; 26; 28; 28; 28; 28; 28; 28; 28; 28; 28; 28; 28; 28; 28; 28; 28; 28; 28; 28; 28];
   [-1; 13; 22; 18; 26; 18; 24; 18; 22; 20; 24; 28; 26; 24; 20; 30; 24; 28; 28; 26; 30; 28; 30; 30; 30; 30; 28; 30; 30; 30; 30; 30; 30; 30; 30; 30; 30; 30; 30; 30; 30];
   [-1; 17; 28; 22; 16; 22; 28; 26; 26; 24; 28; 24; 28; 22; 24; 24; 30; 28; 28; 26; 28; 30; 24; 30; 30; 30; 30; 30; 30; 30; 30; 30; 30; 30; 30; 30; 30; 30; 30; 30; 30]].

Definition NUM_ERROR_CORRECTION_BLOCKS : list (list Z) :=
  [[-1; 1; 1; 1; 1; 1; 2; 2; 2; 2; 4;  4;  4;  4;  4;  6;  6;  6;  6;  7;  8;  8;  9;  9; 10; 12; 12; 12; 13; 14; 15; 16; 17; 18; 19; 19; 20; 21; 22; 24; 25];
   [-1; 1; 1; 1; 2; 2; 4; 4; 4; 5; 5;  5;  8;  9;  9; 10; 10; 11; 13; 14; 16; 17; 17; 18; 20; 21; 23; 25; 26; 28; 29; 31; 33; 35; 37; 38; 40; 43; 45; 47; 49];
   [-1; 1; 1; 2; 2; 4; 4; 6; 6; 8; 8;  8; 10; 12; 16; 12; 17; 16; 18; 21; 20; 23; 23; 25; 27; 29; 34; 34; 35; 38; 40; 43; 45; 48; 51; 53; 56; 59; 62; 65; 68];
   [-1; 1; 1; 2; 4; 4; 4; 5; 6; 8; 8; 11; 11; 16; 16; 18; 16; 19; 21; 25; 25; 25; 34; 30; 32; 35; 37; 40; 42; 45; 48; 51; 54; 57; 60; 63; 66; 70; 74; 77; 81]].

Definition table (t : list (list Z)) (e : Ecc) (ver : Z) : Z := nth (Z.to_nat ver) (nth (ecc_index e) t []) 0.

Definition getNumRawDataModules (ver : Z) : option Z :=
  if (ver <? MIN_VERSION) || (MAX_VERSION <? ver) then None else
  let result := (16 * ver + 128) * ver + 64 in
  Some (if ver <? 2 then result else
        let numAlign := ver / 7 + 2 in
        let result := result - ((25 * numAlign - 10) * numAlign - 55) in
        if ver <? 7 then result else result - 36).

Definition getNumDataCodewords (ver : Z) (e : Ecc) : option Z :=
  raw ← getNumRawDataModules ver;
  Some (raw / 8 - table ECC_CODEWORDS_PER_BLOCK e ver * table NUM_ERROR_CORRECTION_BLOCKS e ver).

(** ** Function modules *)
Definition grid_at (g : list (list bool)) (x y : Z) : option bool := row ← vec_at g y; vec_at row x.
Definition grid_set (x y : Z) (b : bool) (g : list (list bool)) : option (list (list bool)) :=
  row ← vec_at g y; row ← vec_set x b row; vec_set y row g.

Definition setFunctionModule (x y : Z) (isDark : bool) (q : QrCode) : option QrCode :=
  m ← grid_set x y isDark (modules q);
  f ← grid_set x y true (isFunction q);
  Some (q <| modules := m |> <| isFunction := f |>).

Definition module (x y : Z) (q : QrCode) : option bool := grid_at (modules q) x y.

Definition drawFinderPattern (x y : Z) (q : QrCode) : option QrCode :=
  for_in (-4) 5 (λ dy, for_in (-4) 5 (λ dx q,
    let dist := Z.max (Z.abs dx) (Z.abs dy) in
    let xx := x + dx in
    let yy := y + dy in
    if (0 <=? xx) && (xx <? qr_size q) && (0 <=? yy) && (yy <? qr_size q)
    then setFunctionModule xx yy (negb (dist =? 2) && negb (dist =? 4)) q else Some q)) q.

Definition drawAlignmentPattern (x y : Z) (q : QrCode) : option QrCode :=
  for_in (-2) 3 (λ dy, for_in (-2) 3 (λ dx,
    setFunctionModule (x + dx) (y + dy) (negb (Z.max (Z.abs dx) (Z.abs dy) =? 1)))) q.

(** The loop inserts the positions at the front, from the last down. *)
Definition getAlignmentPatternPositions (q : QrCode) : list Z :=
  if qr_ver q =? 1 then [] else
  let numAlign := qr_ver q / 7 + 2 in
  let step := (qr_ver q * 8 + numAlign * 3 + 5) / (numAlign * 4 - 4) * 2 in
  6 :: (Nat.iter (Z.to_nat (numAlign - 1)) (λ '(result, pos), (pos :: result, pos - step)) ([], qr_size q - 7)).1.

Definition format_bits (e : Ecc) (msk : Z) : Z :=
  let data := Z.lor (Z.shiftl (getFormatBits e) 3) msk in
  let rem := Nat.iter 10 (λ rem, Z.lxor (Z.shiftl rem 1) (Z.shiftr rem 9 * 0x537)) data in
  Z.lxor (Z.lor (Z.shiftl data 10) rem) 0x5412.

Definition drawFormatBits (msk : Z) (q : QrCode) : option QrCode :=
  let bits := format_bits (qr_ecl q) msk in
  let size := qr_size q in
  q ← for_in 0 6 (λ i, setFunctionModule 8 i (getBit bits i)) q;
  q ← setFunctionModule 8 7 (getBit bits 6) q;
  q ← setFunctionModule 8 8 (getBit bits 7) q;
  q ← setFunctionModule 7 8 (getBit bits 8) q;
  q ← for_in 9 15 (λ i, setFunctionModule (14 - i) 8 (getBit bits i)) q;
  q ← for_in 0 8 (λ i, setFunctionModule (size - 1 - i) 8 (getBit bits i)) q;
  q ← for_in 8 15 (λ i, setFunctionModule 8 (size - 15 + i) (getBit bits i)) q;
  setFunctionModule 8 (size - 8) true q.

Definition version_bits (ver : Z) : Z :=
  let rem := Nat.iter 12 (λ rem, Z.lxor (Z.shiftl rem 1) (Z.shiftr rem 11 * 0x1F25)) ver in
  Z.lor (Z.shiftl ver 12) rem.

Definition drawVersion (q : QrCode) : option QrCode :=
  if qr_ver q <? 7 then Some q else
  let bits := version_bits (qr_ver q) in
  for_in 0 18 (λ i q,
    let bit := getBit bits i in
    let a := qr_size q - 11 + i mod 3 in
    let b := i / 3 in
    q ← setFunctionModule a b bit q;
    setFunctionModule b a bit q) q.

Definition drawFunctionPatterns (q : QrCode) : option QrCode :=
  let size := qr_size q in
  q ← for_in 0 size (λ i q,
    q ← setFunctionModule 6 i (i mod 2 =? 0) q;
    setFunctionModule i 6 (i mod 2 =? 0) q) q;
  q ← drawFinderPattern 3 3 q;
  q ← drawFinderPattern (size - 4) 3 q;
  q ← drawFinderPattern 3 (size - 4) q;
  let alignPatPos := getAlignmentPatternPositions q in
  let numAlign := Z.of_nat (length alignPatPos) in
  q ← for_in 0 numAlign (λ i, for_in 0 numAlign (λ j q,
    if negb (((i =? 0) && (j =? 0)) || ((i =? 0) && (j =? numAlign - 1)) || ((i =? numAlign - 1) && (j =? 0)))
    then x ← vec_at alignPatPos i; y ← vec_at alignPatPos j; drawAlignmentPattern x y q
    else Some q)) q;
  q ← drawFormatBits 0 q;
  drawVersion q.

(** ** Codewords *)

(** The blocks from the [i]-th on; [k] codewords of the data are taken. *)
Fixpoint blocks_from (numShortBlocks shortDataLen : Z) (rsDiv data : list Z) (i k : Z) (n : nat)
    : option (list (list Z)) :=
  match n with
  | O => Some []
  | S n =>
    let len := shortDataLen + (if i <? numShortBlocks then 0 else 1) in
    let dat := take (Z.to_nat len) (drop (Z.to_nat k) data) in
    ecc ← reedSolomonComputeRemainder dat rsDiv;
    rest ← blocks_from numShortBlocks shortDataLen rsDiv data (i + 1) (k + len) n;
    Some ((dat ++ (if i <? numShortBlocks then [0] else []) ++ ecc) :: rest)
  end.

(** Column by column, without the padding of the short blocks. *)
Definition interleave {A} (numShortBlocks shortDataLen : Z) (blocks : list (list A)) : option (list A) :=
  first ← vec_at blocks 0;
  for_in 0 (Z.of_nat (length first)) (λ i, for_in 0 (Z.of_nat (length blocks)) (λ j result,
    if negb (i =? shortDataLen) || (numShortBlocks <=? j)
    then block ← vec_at blocks j; c ← vec_at block i; Some (result ++ [c])
    else Some result)) [].

Definition addEccAndInterleave (data : list Z) (q : QrCode) : option (list Z) :=
  n ← getNumDataCodewords (qr_ver q) (qr_ecl q);
  if negb (Z.of_nat (length data) =? n) then None else
  let numBlocks := table NUM_ERROR_CORRECTION_BLOCKS (qr_ecl q) (qr_ver q) in
  let blockEccLen := table ECC_CODEWORDS_PER_BLOCK (qr_ecl q) (qr_ver q) in
  raw ← getNumRawDataModules (qr_ver q);
  let rawCodewords := raw / 8 in
  let numShortBlocks := numBlocks - rawCodewords mod numBlocks in
  let shortBlockLen := rawCodewords / numBlocks in
  rsDiv ← reedSolomonComputeDivisor blockEccLen;
  blocks ← blocks_from numShortBlocks (shortBlockLen - blockEccLen) rsDiv data 0 0 (Z.to_nat numBlocks);
  interleave numShortBlocks (shortBlockLen - blockEccLen) blocks.

(** One module of the zigzag; [i] is the bit index into the data. *)
Definition draw_bit (data : list Z) (func : list (list bool)) (x y : Z) (st : Z * list (list bool))
    : option (Z * list (list bool)) :=
  let '(i, m) := st in
  f ← grid_at func x y;
  if negb f && (i <? Z.of_nat (length data) * 8) then
    c ← vec_at data (Z.shiftr i 3);
    m ← grid_set x y (getBit c (7 - Z.land i 7)) m;
    Some (i + 1, m)
  else Some st.

(** [for (int right = size - 1; right >= 1; right -= 2)], with its jump over the timing column. *)
Fixpoint zigzag {A} (size : Z) (body : Z → Z → A → option A) (right : Z) (fuel : nat) (a : A) : option A :=
  match fuel with
  | O => None
  | S fuel =>
    if right <? 1 then Some a else
    let right := if right =? 6 then 5 else right in
    a ← for_in 0 size (λ vert, for_in 0 2 (λ j,
      let x := right - j in
      let upward := Z.land (right + 1) 2 =? 0 in
      let y := if upward then size - 1 - vert else vert in
      body x y)) a;
    zigzag size body (right - 2) fuel a
  end.

Definition drawCodewords (data : list Z) (q : QrCode) : option QrCode :=
  raw ← getNumRawDataModules (qr_ver q);
  if negb (Z.of_nat (length data) =? raw / 8) then None else
  '(_, m) ← zigzag (qr_size q) (draw_bit data (isFunction q)) (qr_size q - 1) (Z.to_nat (qr_size q)) (0, modules q);
  Some (q <| modules := m |>).

(** ** Masks *)
Definition invert (msk x y : Z) : bool :=
  if msk =? 0 then (x + y) mod 2 =? 0 else
  if msk =? 1 then y mod 2 =? 0 else
  if msk =? 2 then x mod 3 =? 0 else
  if msk =? 3 then (x + y) mod 3 =? 0 else
  if msk =? 4 then (x / 3 + y / 2) mod 2 =? 0 else
  if msk =? 5 then (x * y) mod 2 + (x * y) mod 3 =? 0 else
  if msk =? 6 then ((x * y) mod 2 + (x * y) mod 3) mod 2 =? 0 else
  ((x + y) mod 2 + (x * y) mod 3) mod 2 =? 0.

Definition applyMask (msk : Z) (q : QrCode) : option QrCode :=
  if (msk <? 0) || (7 <? msk) then None else
  m ← for_in 0 (qr_size q) (λ y, for_in 0 (qr_size q) (λ x m,
    b ← grid_at m x y;
    f ← grid_at (isFunction q) x y;
    grid_set x y (xorb b (invert msk x y && negb f)) m)) (modules q);
  Some (q <| modules := m |>).

(** ** The penalty of a mask *)
Definition finderPenaltyAddHistory (size currentRunLength : Z) (runHistory : list Z) : list Z :=
  let len := if nth 0 runHistory 0 =? 0 then currentRunLength + size else currentRunLength in
  len :: take 6 runHistory.

Definition finderPenaltyCountPatterns (runHistory : list Z) : Z :=
  let h i := nth i runHistory 0 in
  let n := h 1%nat in
  let core := (0 <? n) && (h 2%nat =? n) && (h 3%nat =? n * 3) && (h 4%nat =? n) && (h 5%nat =? n) in
  (if core && (n * 4 <=? h 0%nat) && (n <=? h 6%nat) then 1 else 0) +
  (if core && (n * 4 <=? h 6%nat) && (n <=? h 0%nat) then 1 else 0).

Definition finderPenaltyTerminateAndCount (size : Z) (currentRunColor : bool) (currentRunLength : Z)
    (runHistory : list Z) : Z :=
  let '(len, hist) := if currentRunColor then (0, finderPenaltyAddHistory size currentRunLength runHistory)
                      else (currentRunLength, runHistory) in
  finderPenaltyCountPatterns (finderPenaltyAddHistory size (len + size) hist).

(** One row, or one column: [color] is its modules. The state is the result, the
    colour and length of the run, and the lengths of the runs before. *)
Definition line_step (size : Z) (color : Z → option bool) (i : Z) (st : Z * bool * Z * list Z)
    : option (Z * bool * Z * list Z) :=
  let '(result, runColor, run, hist) := st in
  c ← color i;
  Some (if Bool.eqb c runColor then
          let run := run + 1 in
          ((if run =? 5 then result + PENALTY_N1 else if 5 <? run then result + 1 else result), runColor, run, hist)
        else
          let hist := finderPenaltyAddHistory size run hist in
          ((if runColor then result else result + finderPenaltyCountPatterns hist * PENALTY_N3), c, 1, hist)).
Definition line_penalty (size : Z) (color : Z → option bool) (result : Z) : option Z :=
  '(result, runColor, run, hist) ← for_in 0 size (line_step size color) (result, false, 0, replicate 7 0);
  Some (result + finderPenaltyTerminateAndCount size runColor run hist * PENALTY_N3).

Definition getPenaltyScore (q : QrCode) : option Z :=
  let size := qr_size q in
  result ← for_in 0 size (λ y, line_penalty size (λ x, module x y q)) 0;
  result ← for_in 0 size (λ x, line_penalty size (λ y, module x y q)) result;
  result ← for_in 0 (size - 1) (λ y, for_in 0 (size - 1) (λ x result,
    color ← module x y q; c1 ← module (x + 1) y q; c2 ← module x (y + 1) q; c3 ← module (x + 1) (y + 1) q;
    Some (if Bool.eqb color c1 && Bool.eqb color c2 && Bool.eqb color c3 then result + PENALTY_N2 else result))) result;
  let dark := Z.of_nat (length (List.filter id (concat (modules q)))) in
  let total := size * size in
  let k := Z.quot (Z.abs (dark * 20 - total * 10) + total - 1) total - 1 in
  Some (result + k * PENALTY_N4).

(** ** The constructor *)

(** The mask with the least penalty; the second component is [msk], the third [minPenalty]. *)
Definition try_mask (i : Z) (st : QrCode * Z * Z) : option (QrCode * Z * Z) :=
  let '(q, msk, minPenalty) := st in
  q ← applyMask i q;
  q ← drawFormatBits i q;
  penalty ← getPenaltyScore q;
  let '(msk, minPenalty) := if penalty <? minPenalty then (i, penalty) else (msk, minPenalty) in
  q ← applyMask i q;
  Some (q, msk, minPenalty).

Definition new_qr (ver : Z) (e : Ecc) (dataCodewords : list Z) (msk : Z) : option QrCode :=
  if (ver <? MIN_VERSION) || (MAX_VERSION <? ver) then None else
  if (msk <? -1) || (7 <? msk) then None else
  let size := ver * 4 + 17 in
  let blank := replicate (Z.to_nat size) (replicate (Z.to_nat size) false) in
  q ← drawFunctionPatterns (mkQrCode ver size e 0 blank blank);
  allCodewords ← addEccAndInterleave dataCodewords q;
  q ← drawCodewords allCodewords q;
  '(q, msk, _) ← (if msk =? -1 then for_in 0 8 try_mask (q, msk, LONG_MAX) else Some (q, msk, LONG_MAX));
  q ← applyMask msk (q <| qr_mask := msk |>);
  q ← drawFormatBits msk q;
  Some (q <| isFunction := [] |>).

Definition getModule (q : QrCode) (x y : Z) : bool :=
  (0 <=? x) && (x <? qr_size q) && (0 <=? y) && (y <? qr_size q) &&
  default false (modules q !! Z.to_nat y ≫= (λ row, row !! Z.to_nat x)).

(** ** Encoding *)

(** The least version from [version] on that holds the segments, with the bits they use. *)
Fixpoint find_version (segs : list QrSegment) (e : Ecc) (maxVersion version : Z) (fuel : nat) : option (Z * Z) :=
  match fuel with
  | O => None
  | S fuel =>
    n ← getNumDataCodewords version e;
    let dataUsedBits := getTotalBits segs version in
    if negb (dataUsedBits =? -1) && (dataUsedBits <=? n * 8) then Some (version, dataUsedBits) else
    if maxVersion <=? version then None else
    find_version segs e maxVersion (version + 1) fuel
  end.

Fixpoint boost (version dataUsedBits : Z) (levels : list Ecc) (e : Ecc) : option Ecc :=
  match levels with
  | [] => Some e
  | newEcl :: levels =>
    n ← getNumDataCodewords version newEcl;
    boost version dataUsedBits levels (if dataUsedBits <=? n * 8 then newEcl else e)
  end.

(** [for (uint8_t padByte = 0xEC; bb.size() < dataCapacityBits; padByte ^= 0xEC ^ 0x11)] *)
Fixpoint pad_bytes (capacity padByte : Z) (bb : list bool) (fuel : nat) : option (list bool) :=
  match fuel with
  | O => None
  | S fuel =>
    if Z.of_nat (length bb) <? capacity
    then bb ← appendBits padByte 8 bb; pad_bytes capacity (u8 (Z.lxor padByte (Z.lxor 0xEC 0x11))) bb fuel
    else Some bb
  end.

(** [dataCodewords.at(i >> 3) |= (bb.at(i) ? 1 : 0) << (7 - (i & 7))] *)
Definition pack_bits (bb : list bool) : option (list Z) :=
  let n := Z.of_nat (length bb) in
  for_in 0 n (λ i codewords,
    b ← vec_at bb i;
    c ← vec_at codewords (Z.shiftr i 3);
    vec_set (Z.shiftr i 3) (Z.lor c (Z.shiftl (if (b : bool) then 1 else 0) (7 - Z.land i 7))) codewords)
    (replicate (Z.to_nat (n / 8)) 0).

Definition encodeSegments (segs : list QrSegment) (e : Ecc) (minVersion maxVersion mask : Z) (boostEcl : bool)
    : option QrCode :=
  if negb ((MIN_VERSION <=? minVersion) && (minVersion <=? maxVersion) && (maxVersion <=? MAX_VERSION))
     || (mask <? -1) || (7 <? mask) then None else
  '(version, dataUsedBits) ← find_version segs e maxVersion minVersion (Z.to_nat (maxVersion - minVersion + 1));
  e ← (if boostEcl then boost version dataUsedBits [MEDIUM; QUARTILE; HIGH] e else Some e);
  bb ← append_segments segs version [];
  n ← getNumDataCodewords version e;
  let dataCapacityBits := n * 8 in
  bb ← appendBits 0 (Z.min 4 (dataCapacityBits - Z.of_nat (length bb))) bb;
  bb ← appendBits 0 ((8 - Z.of_nat (length bb) mod 8) mod 8) bb;
  bb ← pad_bytes dataCapacityBits 0xEC bb (S (Z.to_nat n));
  dataCodewords ← pack_bits bb;
  new_qr version e dataCodewords mask.

Definition encodeText (text : list Z) (e : Ecc) : option QrCode :=
  segs ← makeSegments text;
  encodeSegments segs e 1 40 (-1) true.
Definition encodeBinary (data : list Z) (e : Ecc) : option QrCode :=
  seg ← makeBytes data;
  encodeSegments [seg] e 1 40 (-1) true.
