(* ===== verification/QrReader.v ===== *)
(** * A reader of QR codes

    Written from the standard (ISO/IEC 18004), not from the encoder: where the
    function modules are and what they show, the order of the data modules, the
    interleaving of the blocks. It shares with the encoder the tables of the blocks
    (numbers of blocks and of codewords for error correction), the alphanumeric
    alphabet and the multiplication of the field. The reader takes a square of modules and refuses it
    if any function module is wrong or any block is not a codeword. *)
From S2P Require Import Prelude QrSegments ReedSolomon QrCode.

(** ** Function modules *)

(** Annex E: the centres of the alignment patterns, by version. *)
Definition alignment_centres (v : Z) : list Z :=
  nth (Z.to_nat v)
    [[]; []; [6; 18]; [6; 22]; [6; 26]; [6; 30]; [6; 34];
     [6; 22; 38]; [6; 24; 42]; [6; 26; 46]; [6; 28; 50]; [6; 30; 54]; [6; 32; 58]; [6; 34; 62];
     [6; 26; 46; 66]; [6; 26; 48; 70]; [6; 26; 50; 74]; [6; 30; 54; 78]; [6; 30; 56; 82]; [6; 30; 58; 86]; [6; 34; 62; 90];
     [6; 28; 50; 72; 94]; [6; 26; 50; 74; 98]; [6; 30; 54; 78; 102]; [6; 28; 54; 80; 106]; [6; 32; 58; 84; 110];
     [6; 30; 58; 86; 114]; [6; 34; 62; 90; 118];
     [6; 26; 50; 74; 98; 122]; [6; 30; 54; 78; 102; 126]; [6; 26; 52; 78; 104; 130]; [6; 30; 56; 82; 108; 134];
     [6; 34; 60; 86; 112; 138]; [6; 30; 58; 86; 114; 142]; [6; 34; 62; 90; 118; 146];
     [6; 30; 54; 78; 102; 126; 150]; [6; 24; 50; 76; 102; 128; 154]; [6; 28; 54; 80; 106; 132; 158];
     [6; 32; 58; 84; 110; 136; 162]; [6; 26; 54; 82; 110; 138; 166]; [6; 30; 58; 86; 114; 142; 170]] [].

(** Annex D: the version information, from version 7 on. *)
Definition version_words : list Z :=
  [0x07C94; 0x085BC; 0x09A99; 0x0A4D3; 0x0BBF6; 0x0C762; 0x0D847; 0x0E60D; 0x0F928; 0x10B78; 0x1145D; 0x12A17;
   0x13532; 0x149A6; 0x15683; 0x168C9; 0x177EC; 0x18EC4; 0x191E1; 0x1AFAB; 0x1B08E; 0x1CC1A; 0x1D33F; 0x1ED75;
   0x1F250; 0x209D5; 0x216F0; 0x228BA; 0x2379F; 0x24B0B; 0x2542E; 0x26A64; 0x27541; 0x28C69].

(** Annex C: the format information for the five bits of level and mask. *)
Definition format_words : list Z :=
  [0x5412; 0x5125; 0x5E7C; 0x5B4B; 0x45F9; 0x40CE; 0x4F97; 0x4AA0; 0x77C4; 0x72F3; 0x7DAA; 0x789D; 0x662F; 0x6318; 0x6C41; 0x6976;
   0x1689; 0x13BE; 0x1CE7; 0x19D0; 0x0762; 0x0255; 0x0D0C; 0x083B; 0x355F; 0x3068; 0x3F31; 0x3A06; 0x24B4; 0x2183; 0x2EDA; 0x2BED].

Definition side (v : Z) : Z := 17 + 4 * v.

(** The places of the bits 0 to 14 of the format information, twice. *)
Definition format_places (s : Z) : list (Z * Z) * list (Z * Z) :=
  ([(8, 0); (8, 1); (8, 2); (8, 3); (8, 4); (8, 5); (8, 7); (8, 8); (7, 8); (5, 8); (4, 8); (3, 8); (2, 8); (1, 8); (0, 8)],
   [(s - 1, 8); (s - 2, 8); (s - 3, 8); (s - 4, 8); (s - 5, 8); (s - 6, 8); (s - 7, 8); (s - 8, 8);
    (8, s - 7); (8, s - 6); (8, s - 5); (8, s - 4); (8, s - 3); (8, s - 2); (8, s - 1)]).

(** The centre within two modules of a coordinate. *)
Fixpoint near (centres : list Z) (x : Z) : option Z :=
  match centres with
  | [] => None
  | c :: centres => if (c - 2 <=? x) && (x <=? c + 2) then Some c else near centres x
  end.

Definition in_format (s8 x y : Z) : bool :=
  ((x =? 8) && ((y <=? 8) || (s8 <=? y))) || ((y =? 8) && ((x <=? 8) || (s8 <=? x))).

(** The three finder patterns leave no room for an alignment pattern. *)
Definition in_corner (s cx cy : Z) : bool :=
  ((cx =? 6) && (cy =? 6)) || ((cx =? 6) && (cy =? s - 7)) || ((cx =? s - 7) && (cy =? 6)).

Inductive Place := Fixed (dark : bool) | Format | Data.

Definition aligned (s : Z) (centres : list Z) (y : Z) : Z → Place :=
  match near centres y with
  | None => λ _, Data
  | Some cy => λ x,
    match near centres x with
    | None => Data
    | Some cx => if in_corner s cx cy then Data
                 else Fixed (negb (Z.max (Z.abs (x - cx)) (Z.abs (y - cy)) =? 1))
    end
  end.

(** The module in row [y] and column [x]. *)
Definition place (v : Z) : Z → Z → Place :=
  let s := side v in
  let s4 := s - 4 in
  let s8 := s - 8 in
  let s11 := s - 11 in
  let centres := alignment_centres v in
  let word := nth (Z.to_nat (v - 7)) version_words 0 in
  let has_version := 7 <=? v in
  let ring dx dy := let d := Z.max (Z.abs dx) (Z.abs dy) in Fixed (negb ((d =? 2) || (d =? 4))) in
  λ y, let elsewhere := aligned s centres y in λ x,
  if x <=? 8 then
    if (x <=? 7) && (y <=? 7) then ring (x - 3) (y - 3) else
    if (x <=? 7) && (s8 <=? y) then ring (x - 3) (y - s4) else
    if (x =? 8) && (y =? s8) then Fixed true else
    if (x =? 6) || (y =? 6) then Fixed (Z.even (x + y)) else
    if in_format s8 x y then Format else
    if has_version && (s11 <=? y) && (x <=? 5) then Fixed (Z.testbit word (y - s11 + 3 * x)) else
    elsewhere x
  else if y <=? 8 then
    if (s8 <=? x) && (y <=? 7) then ring (x - s4) (y - 3) else
    if y =? 6 then Fixed (Z.even (x + y)) else
    if in_format s8 x y then Format else
    if has_version && (s11 <=? x) && (y <=? 5) then Fixed (Z.testbit word (x - s11 + 3 * y)) else
    elsewhere x
  else elsewhere x.

Definition grid {A} (s : Z) (f : Z → Z → A) : list (list A) :=
  let line := seqZ 0 s in (λ y, f y <$> line) <$> line.

(** ** Data modules *)

(** Two columns at a time from the right, upwards and downwards in turn; the
    vertical timing pattern is stepped over. *)
Definition pair_column (s k : Z) : Z := if 6 <? s - 1 - 2 * k then s - 1 - 2 * k else s - 2 - 2 * k.
Definition zigzag_place (s : Z) (t : Z * (Z * Z)) : Z * Z :=
  let '(k, (vert, j)) := t in
  (pair_column s k - j, if Z.even k then s - 1 - vert else vert).
Definition zigzag_places (s : Z) : list (Z * Z) :=
  zigzag_place s <$> list_prod (seqZ 0 ((s - 1) / 2)) (list_prod (seqZ 0 s) [0; 1]).

Definition is_data (p : Place) : bool := match p with Data => true | _ => false end.
Definition data_places (v : Z) : list (Z * Z) :=
  List.filter (λ p, is_data (place v p.2 p.1)) (zigzag_places (side v)).

(** Table 10: the conditions of the eight masks, for row [i] and column [j]. *)
Definition mask_at (msk i j : Z) : bool :=
  nth (Z.to_nat msk)
    [ (i + j) mod 2 =? 0;
      i mod 2 =? 0;
      j mod 3 =? 0;
      (i + j) mod 3 =? 0;
      (i / 2 + j / 3) mod 2 =? 0;
      (i * j) mod 2 + (i * j) mod 3 =? 0;
      ((i * j) mod 2 + (i * j) mod 3) mod 2 =? 0;
      ((i + j) mod 2 + (i * j) mod 3) mod 2 =? 0 ] false.

(** ** Blocks *)

(** The codewords of block [j] among [total] codewords in [nb] blocks with [ecc]
    error correction codewords each: one codeword of every block in turn, the
    longer blocks last, then the same for the error correction. *)
Definition block_data_places (total nb ecc j : Z) : list Z :=
  let short := total / nb - ecc in
  let longer := total mod nb in
  ((λ i, i * nb + j) <$> seqZ 0 short) ++
  (if nb - longer <=? j then [short * nb + (j - (nb - longer))] else []).
Definition block_ecc_places (total nb ecc j : Z) : list Z :=
  (λ i, total - nb * ecc + i * nb + j) <$> seqZ 0 ecc.

Definition pick {A} (l : list A) (places : list Z) : option (list A) := mapM (vec_at l) places.

(** The data of the blocks, each of which must vanish at the roots. *)
Fixpoint read_blocks (l : list Z) (total nb ecc : Z) (blocks : list Z) : option (list Z) :=
  match blocks with
  | [] => Some []
  | j :: blocks =>
    d ← pick l (block_data_places total nb ecc j);
    e ← pick l (block_ecc_places total nb ecc j);
    if forallb (λ i, eval (d ++ e) (root i) =? 0) (seq 0 (Z.to_nat ecc)) then
      rest ← read_blocks l total nb ecc blocks; Some (d ++ rest)
    else None
  end.

(** ** The reader *)

(** Eight bits are a codeword; remainder bits are dropped. *)
Fixpoint codewords (n : nat) (l : list bool) : list Z :=
  match n with O => [] | S n => value (take 8 l) :: codewords n (drop 8 l) end.

Definition read_places (g : list (list bool)) (places : list (Z * Z)) : option (list bool) :=
  mapM (λ p, grid_at g p.1 p.2) places.

(** The format word, the highest bit first. *)
Definition read_format (g : list (list bool)) (places : list (Z * Z)) : option Z :=
  value <$> read_places g (reverse places).

Definition find_format (w : Z) : option (Z * Z) :=
  i ← find_if (λ z, z =? w) format_words; Some (Z.of_nat i / 8, Z.of_nat i mod 8).
Definition level_of (z : Z) : Ecc :=
  if z =? 0 then MEDIUM else if z =? 1 then LOW else if z =? 2 then HIGH else QUARTILE.

Definition fixed_ok (p : Place) (b : bool) : bool := match p with Fixed c => Bool.eqb b c | _ => true end.
Definition pattern_ok (v : Z) (g : list (list bool)) : bool :=
  bool_decide (Z.of_nat (length g) = side v) &&
  forallb (λ r, bool_decide (Z.of_nat (length r) = side v)) g &&
  forallb (λ y, forallb (λ x, from_option (fixed_ok (place v y x)) false (grid_at g x y)) (seqZ 0 (side v))) (seqZ 0 (side v)).

Definition read_qr (g : list (list bool)) : option (list Z) :=
  let v := (Z.of_nat (length g) - 17) / 4 in
  if negb ((1 <=? v) && (v <=? 40) && pattern_ok v g) then None else
  let (places1, places2) := format_places (side v) in
  w1 ← read_format g places1;
  w2 ← read_format g places2;
  if negb (w1 =? w2) then None else
  '(lv, msk) ← find_format w1;
  masked ← read_places g (data_places v);
  let unmasked := zip_with (λ p b, xorb b (mask_at msk p.2 p.1)) (data_places v) masked in
  let total := Z.of_nat (length unmasked) / 8 in
  data ← read_blocks (codewords (Z.to_nat total) unmasked) total
           (table NUM_ERROR_CORRECTION_BLOCKS (level_of lv) v) (table ECC_CODEWORDS_PER_BLOCK (level_of lv) v)
           (seqZ 0 (table NUM_ERROR_CORRECTION_BLOCKS (level_of lv) v));
  let stream := mjoin ((λ c, bits c 8) <$> data) in
  read_segments (S (length stream)) v stream.
