(* ===== verification/QrDrawing.v ===== *)
(** * What the encoder draws

    Loops as folds over lists of places, squares of modules as functions of their
    coordinates, and what each drawing step of [QrCode] does to them. *)
From S2P Require Import Prelude QrSegments ReedSolomon QrCode QrReader.

(** ** Loops *)
Fixpoint each {A B} (body : B → A → option A) (l : list B) (a : A) : option A :=
  match l with [] => Some a | b :: l => a ← body b a; each body l a end.

Lemma each_app {A B} (body : B → A → option A) l1 l2 a :
  each body (l1 ++ l2) a = each body l1 a ≫= each body l2.
Proof. revert a. induction l1 as [|b l1 IH]; intros a; [done|]. cbn. destruct (body b a); cbn; [apply IH|done]. Qed.
Lemma each_fmap {A B C} (body : B → A → option A) (g : C → B) l a :
  each body (g <$> l) a = each (λ c, body (g c)) l a.
Proof. revert a. induction l as [|c l IH]; intros a; [done|]. cbn. destruct (body (g c) a); cbn; [apply IH|done]. Qed.
Lemma each_ext {A B} (f g : B → A → option A) l a :
  (∀ b a, b ∈ l → f b a = g b a) → each f l a = each g l a.
Proof.
  revert a. induction l as [|b l IH]; intros a H; [done|]. cbn. rewrite H by by left.
  destruct (g b a); cbn; [|done]. apply IH. intros b' a' Hb. apply H. by right.
Qed.
Lemma each_prod {A B C} (body : B → C → A → option A) l k a :
  each (λ b, each (body b) k) l a = each (λ p, body p.1 p.2) (list_prod l k) a.
Proof.
  revert a. induction l as [|b l IH]; intros a; [done|]. cbn [each list_prod].
  rewrite each_app. change (map (λ y, (b, y)) k) with ((λ y, (b, y)) <$> k). rewrite each_fmap. cbn [fst snd].
  destruct (each (body b) k a); cbn; [apply IH|done].
Qed.

Lemma for_from_each {A} (body : Z → A → option A) n : ∀ i a,
  for_from body i n a = each body (seqZ i (Z.of_nat n)) a.
Proof.
  induction n as [|n IH]; intros i a; [done|]. rewrite seqZ_cons by lia. cbn [for_from each].
  destruct (body i a); cbn; [|done]. rewrite IH. replace (Z.pred (Z.of_nat (S n))) with (Z.of_nat n) by lia. done.
Qed.
Lemma for_in_each {A} (body : Z → A → option A) lo hi a : for_in lo hi body a = each body (seqZ lo (hi - lo)) a.
Proof.
  unfold for_in. rewrite for_from_each. destruct (decide (0 <= hi - lo)).
  - by rewrite Z2Nat.id.
  - rewrite !seqZ_nil by lia. done.
Qed.

(** A relation kept by the body is kept by the loop. *)
Definition orel {A} (R : A → A → Prop) (a b : option A) : Prop :=
  match a, b with Some a, Some b => R a b | None, None => True | _, _ => False end.
Lemma orel_bind {A} (R : A → A → Prop) a b (f g : A → option A) :
  orel R a b → (∀ a b, R a b → orel R (f a) (g b)) → orel R (a ≫= f) (b ≫= g).
Proof. destruct a, b; cbn; try done. auto. Qed.
Lemma for_from_rel {A} (R : A → A → Prop) (f g : Z → A → option A) n : ∀ i a b,
  R a b → (∀ i a b, R a b → orel R (f i a) (g i b)) → orel R (for_from f i n a) (for_from g i n b).
Proof.
  induction n as [|n IH]; intros i a b H Hfg; [done|]. cbn. apply orel_bind; [by apply Hfg|]. intros. by apply IH.
Qed.
Lemma for_in_rel {A} (R : A → A → Prop) (f g : Z → A → option A) lo hi a b :
  R a b → (∀ i a b, R a b → orel R (f i a) (g i b)) → orel R (for_in lo hi f a) (for_in lo hi g b).
Proof. apply for_from_rel. Qed.

(** ** Vectors and squares *)
Lemma vec_at_Some {A} (l : list A) i : 0 <= i < Z.of_nat (length l) → ∃ x, vec_at l i = Some x.
Proof.
  intros Hi. unfold vec_at. destruct (Z.ltb_spec i 0); [lia|]. apply lookup_lt_is_Some. lia.
Qed.
Lemma vec_at_range {A} (l : list A) i x : vec_at l i = Some x → 0 <= i < Z.of_nat (length l).
Proof. unfold vec_at. destruct (Z.ltb_spec i 0); [done|]. intros E%lookup_lt_Some. lia. Qed.
Lemma vec_at_nat {A} (l : list A) (i : nat) : vec_at l (Z.of_nat i) = l !! i.
Proof. unfold vec_at. destruct (Z.ltb_spec (Z.of_nat i) 0); [lia|]. by rewrite Nat2Z.id. Qed.

Lemma vec_set_spec {A} (l : list A) i v : 0 <= i < Z.of_nat (length l) →
  ∃ l', vec_set i v l = Some l' ∧ length l' = length l ∧
    ∀ j, vec_at l' j = if bool_decide (j = i) then Some v else vec_at l j.
Proof.
  intros Hi. destruct (vec_at_Some l i Hi) as [x Hx]. unfold vec_set. rewrite Hx. cbn [mbind option_bind].
  eexists. split; [done|]. split; [apply length_insert|]. intros j. unfold vec_at.
  destruct (Z.ltb_spec j 0); [case_bool_decide; [lia|done]|].
  case_bool_decide as Hj; [subst; apply list_lookup_insert_eq; lia|].
  apply list_lookup_insert_ne. lia.
Qed.
Lemma vec_set_None {A} (l : list A) i v : ¬ 0 <= i < Z.of_nat (length l) → vec_set i v l = None.
Proof.
  intros Hi. unfold vec_set. destruct (vec_at l i) eqn:E; [|done]. by apply vec_at_range in E.
Qed.

Definition square (s : Z) (m : list (list bool)) : Prop :=
  Z.of_nat (length m) = s ∧ Forall (λ r, Z.of_nat (length r) = s) m.
Definition within (s x y : Z) : Prop := 0 <= x < s ∧ 0 <= y < s.
#[export] Instance within_dec s x y : Decision (within s x y).
Proof. unfold within. apply _. Defined.

Lemma grid_at_Some s m x y : square s m → within s x y → ∃ b, grid_at m x y = Some b.
Proof.
  intros [Hl Hr] [Hx Hy]. destruct (vec_at_Some m y ltac:(lia)) as [r Er]. unfold grid_at. rewrite Er. cbn [mbind option_bind].
  apply vec_at_Some. unfold vec_at in Er. destruct (Z.ltb_spec y 0); [done|].
  rewrite Forall_lookup in Hr. rewrite (Hr _ _ Er). lia.
Qed.

Lemma grid_set_spec s m x y b : square s m → within s x y →
  ∃ m', grid_set x y b m = Some m' ∧ square s m' ∧
    ∀ x' y', grid_at m' x' y' = if bool_decide ((x', y') = (x, y)) then Some b else grid_at m x' y'.
Proof.
  intros [Hl Hr] [Hx Hy]. destruct (vec_at_Some m y ltac:(lia)) as [r Er]. unfold grid_set. rewrite Er. cbn [mbind option_bind].
  assert (Elr : Z.of_nat (length r) = s).
  { unfold vec_at in Er. destruct (Z.ltb_spec y 0); [done|]. rewrite Forall_lookup in Hr. by apply (Hr _ _ Er). }
  destruct (vec_set_spec r x b ltac:(lia)) as (r' & -> & Hlr & Hr'). cbn [mbind option_bind].
  destruct (vec_set_spec m y r' ltac:(lia)) as (m' & E & Hlm & Hm'). exists m'. split; [done|]. split.
  - split; [lia|]. apply Forall_lookup. intros i row Hi. rewrite <- vec_at_nat, Hm' in Hi. case_bool_decide.
    + injection Hi as <-. lia.
    + rewrite vec_at_nat in Hi. rewrite Forall_lookup in Hr. by apply (Hr _ _ Hi).
  - intros x' y'. unfold grid_at. rewrite Hm'. repeat case_bool_decide; simplify_eq; cbn [mbind option_bind].
    + rewrite Hr'. by rewrite bool_decide_true.
    + rewrite Hr', bool_decide_false by congruence. by rewrite Er.
    + done.
Qed.

Lemma grid_set_None s m x y b : square s m → ¬ within s x y → grid_set x y b m = None.
Proof.
  intros [Hl Hr] Hn. unfold grid_set. destruct (vec_at m y) as [r|] eqn:Er; [|done]. cbn [mbind option_bind].
  rewrite vec_set_None; [done|]. intros Hx. apply Hn. pose proof (vec_at_range _ _ _ Er).
  unfold vec_at in Er. destruct (Z.ltb_spec y 0); [done|]. rewrite Forall_lookup in Hr. pose proof (Hr _ _ Er) as Hlr. cbn in Hlr.
  unfold within. lia.
Qed.

Lemma grid_eq s m m' : square s m → square s m' →
  (∀ x y, within s x y → grid_at m x y = grid_at m' x y) → m = m'.
Proof.
  intros Hs Hs' H. pose proof Hs as [Hl Hr]. pose proof Hs' as [Hl' Hr']. rewrite Forall_lookup in Hr, Hr'.
  apply list_eq_same_length with (length m); [lia|done|]. intros i r r' Hi Er Er'.
  pose proof (Hr _ _ Er). pose proof (Hr' _ _ Er'). cbv beta in *.
  apply list_eq_same_length with (length r); [lia|done|]. intros j b b' Hj Eb Eb'.
  specialize (H (Z.of_nat j) (Z.of_nat i) ltac:(unfold within; lia)). unfold grid_at in H.
  rewrite !vec_at_nat, Er, Er' in H. cbn [mbind option_bind] in H. rewrite !vec_at_nat, Eb, Eb' in H. congruence.
Qed.

Lemma grid_set_same s m x y b : square s m → grid_at m x y = Some b → grid_set x y b m = Some m.
Proof.
  intros Hs Hb. destruct (decide (within s x y)) as [Hw|Hn].
  - destruct (grid_set_spec s m x y b Hs Hw) as (m' & -> & Hs' & Hm'). f_equal. apply (grid_eq s); [done..|].
    intros x' y' _. rewrite Hm'. case_bool_decide; [by simplify_eq|done].
  - exfalso. apply Hn. unfold grid_at in Hb. destruct (vec_at m y) as [r|] eqn:Er; [|done]. cbn in Hb.
    pose proof (vec_at_range _ _ _ Er). pose proof (vec_at_range _ _ _ Hb). destruct Hs as [Hl Hr].
    unfold vec_at in Er. destruct (Z.ltb_spec y 0); [done|]. rewrite Forall_lookup in Hr. pose proof (Hr _ _ Er) as Hlr. cbv beta in Hlr.
    unfold within. lia.
Qed.

(** ** Drawing on a square *)
Definition inside_of (s : Z) (p : Z * Z) : Prop := within s p.1 p.2.
Definition same_at (m' m : list (list bool)) (x y : Z) : Prop := grid_at m' x y = grid_at m x y.

(** Each place of a list is rewritten. *)
Definition rewrite_at (h : Z * Z → bool → bool) (p : Z * Z) (m : list (list bool)) : option (list (list bool)) :=
  b ← grid_at m p.1 p.2; grid_set p.1 p.2 (h p b) m.

Lemma each_rewrite s h ps : NoDup ps → Forall (inside_of s) ps → ∀ m, square s m →
  ∃ m', each (rewrite_at h) ps m = Some m' ∧ square s m' ∧
    ∀ x y, grid_at m' x y = if bool_decide ((x, y) ∈ ps) then h (x, y) <$> grid_at m x y else grid_at m x y.
Proof.
  induction ps as [|[px py] ps IH]; intros Hd Hin m Hm; [by exists m|].
  apply NoDup_cons in Hd as [Hni Hd]. apply Forall_cons in Hin as [Hp Hin].
  destruct (grid_at_Some s m px py Hm Hp) as [b Hb]. cbn in Hp.
  destruct (grid_set_spec s m px py (h (px, py) b) Hm Hp) as (m1 & Es & Hm1 & E1).
  cbn [each]. assert (rewrite_at h (px, py) m = Some m1) as -> by (unfold rewrite_at; cbn [fst snd]; by rewrite Hb).
  cbn [mbind option_bind].
  destruct (IH Hd Hin m1 Hm1) as (m' & -> & Hm' & E'). exists m'. split; [done|]. split; [done|].
  intros x y. rewrite E', E1. destruct (decide ((x, y) = (px, py))) as [E|Hne].
  - simplify_eq. rewrite bool_decide_false by done. rewrite !bool_decide_true by (done || by left). by rewrite Hb.
  - rewrite (bool_decide_false ((x, y) = (px, py))) by done.
    destruct (decide ((x, y) ∈ ps)); [rewrite !bool_decide_true by (done || by right)|
      rewrite !bool_decide_false by (done || by intros [?|?]%elem_of_cons)]; done.
Qed.

(** Function modules that are function modules already. *)
Definition draw_all (ws : list (Z * Z * bool)) : QrCode → option QrCode :=
  each (λ t, setFunctionModule t.1.1 t.1.2 t.2) ws.

Lemma draw_all_spec s F ws : square s F → NoDup ws.*1 →
  Forall (λ p, grid_at F p.1 p.2 = Some true) ws.*1 → Forall (inside_of s) ws.*1 →
  ∀ q, isFunction q = F → square s (modules q) →
  ∃ m', draw_all ws q = Some (q <| modules := m' |>) ∧ square s m' ∧
    (∀ p b, (p, b) ∈ ws → grid_at m' p.1 p.2 = Some b) ∧
    (∀ x y, (x, y) ∉ ws.*1 → same_at m' (modules q) x y).
Proof.
  intros HF. unfold draw_all. induction ws as [|[[px py] b] ws IH]; intros Hd Hf Hin q HFq Hm.
  { exists (modules q). split_and!; [by destruct q|done|by intros ? ? ?%not_elem_of_nil|done]. }
  cbn [fmap list_fmap fst snd] in Hd, Hf, Hin. apply NoDup_cons in Hd as [Hni Hd].
  apply Forall_cons in Hf as [Hpf Hf]. apply Forall_cons in Hin as [Hp Hin]. cbn [fst snd] in Hpf.
  cbn in Hp. destruct (grid_set_spec s (modules q) px py b Hm Hp) as (m1 & Es & Hm1 & E1).
  cbn [each fst snd]. assert (setFunctionModule px py b q = Some (q <| modules := m1 |>)) as ->.
  { unfold setFunctionModule. rewrite Es. cbn [mbind option_bind]. rewrite HFq, (grid_set_same s) by done.
    subst F. by destruct q. }
  cbn [mbind option_bind].
  set (q1 := q <| modules := m1 |>). destruct (IH Hd Hf Hin q1 HFq Hm1) as (m' & E & Hm' & Hw & Ho).
  exists m'. split; [exact E|]. split; [done|]. change (modules q1) with m1 in Ho. split.
  - intros p b' [E2|H2]%elem_of_cons; [simplify_eq|by apply Hw]. cbn [fst snd].
    rewrite Ho by done. cbn. by rewrite E1, bool_decide_true.
  - intros x y [Hne Hnin]%not_elem_of_cons. unfold same_at. rewrite Ho by done. cbn. rewrite E1. by rewrite bool_decide_false.
Qed.

(** The codewords, bit by bit, over the places that are not function modules. *)
Definition codeword_bit (data : list Z) (i : nat) : bool :=
  getBit (nth (i / 8) data 0) (7 - Z.of_nat (i mod 8)).
Definition data_of (F : list (list bool)) (ps : list (Z * Z)) : list (Z * Z) :=
  List.filter (λ p, negb (default true (grid_at F p.1 p.2))) ps.

Lemma draw_bit_data data F x y i m s : square s m → within s x y → grid_at F x y = Some false →
  (i < 8 * length data)%nat → ∃ m', draw_bit data F x y (Z.of_nat i, m) = Some (Z.of_nat (S i), m') ∧ square s m' ∧
    ∀ x' y', grid_at m' x' y' = if bool_decide ((x', y') = (x, y)) then Some (codeword_bit data i) else grid_at m x' y'.
Proof.
  intros Hm Hp HF Hi. unfold draw_bit. rewrite HF. cbn [mbind option_bind negb andb].
  destruct (Z.ltb_spec (Z.of_nat i) (Z.of_nat (length data) * 8)); [|lia].
  assert (Z.shiftr (Z.of_nat i) 3 = Z.of_nat (i / 8)) as ->
    by (rewrite Z.shiftr_div_pow2 by done; rewrite Nat2Z.inj_div; done).
  assert (Z.land (Z.of_nat i) 7 = Z.of_nat (i mod 8)) as ->
    by (rewrite Nat2Z.inj_mod; apply (Z.land_ones (Z.of_nat i) 3); lia).
  rewrite vec_at_nat. assert (i / 8 < length data)%nat by (apply Nat.Div0.div_lt_upper_bound; lia).
  destruct (lookup_lt_is_Some_2 data (i / 8)%nat ltac:(done)) as [c Hc]. rewrite Hc. cbn [mbind option_bind].
  destruct (grid_set_spec s m x y (getBit c (7 - Z.of_nat (i mod 8))) Hm Hp) as (m' & -> & Hm' & E).
  cbn [mbind option_bind]. exists m'. split; [do 2 f_equal; lia|]. split; [done|].
  unfold codeword_bit. by rewrite (nth_lookup_Some _ _ 0 _ Hc).
Qed.

Lemma each_draw_bit s data F ps : NoDup ps → Forall (λ p, inside_of s p ∧ is_Some (grid_at F p.1 p.2)) ps →
  ∀ i m, square s m → (i <= 8 * length data)%nat →
  ∃ i' m', each (λ p, draw_bit data F p.1 p.2) ps (Z.of_nat i, m) = Some (i', m') ∧ square s m' ∧
    (∀ k p, data_of F ps !! k = Some p → (i + k < 8 * length data)%nat →
       grid_at m' p.1 p.2 = Some (codeword_bit data (i + k))) ∧
    (∀ x y, (x, y) ∉ data_of F ps → same_at m' m x y).
Proof.
  induction ps as [|[px py] ps IH]; intros Hd Hin i m Hm Hi.
  { exists (Z.of_nat i), m. by split_and!. }
  apply NoDup_cons in Hd as [Hni Hd]. apply Forall_cons in Hin as [[Hp [f Hf]] Hin]. cbn [fst snd] in Hf.
  assert (Hsub : ∀ p, p ∈ data_of F ps → p ∈ ps).
  { intros p H. unfold data_of in H. apply list_elem_of_In, filter_In in H as [H _]. by apply list_elem_of_In. }
  cbn [each fst snd]. unfold data_of. cbn [List.filter fst snd]. rewrite Hf. cbn [default from_option].
  destruct f; cbn [negb].
  - (* a function module *)
    assert (draw_bit data F px py (Z.of_nat i, m) = Some (Z.of_nat i, m)) as -> by (unfold draw_bit; by rewrite Hf).
    cbn [mbind option_bind]. destruct (IH Hd Hin i m Hm Hi) as (i' & m' & E & Hm' & Hk & Ho). exists i', m'. by split_and!.
  - destruct (decide (i < 8 * length data)%nat) as [Hlt|Hge].
    + destruct (draw_bit_data data F px py i m s Hm Hp Hf Hlt) as (m1 & -> & Hm1 & E1). cbn [mbind option_bind].
      destruct (IH Hd Hin (S i) m1 Hm1 ltac:(lia)) as (i' & m' & E & Hm' & Hk & Ho).
      exists i', m'. split; [done|]. split; [done|]. split.
      * intros k p Hkp Hlim. destruct k as [|k]; cbn in Hkp.
        -- injection Hkp as <-. cbn [fst snd]. rewrite Ho by (intros H%Hsub; done).
           rewrite E1, bool_decide_true, Nat.add_0_r by done. done.
        -- rewrite (Hk k p Hkp) by lia. do 2 f_equal. lia.
      * intros x y [Hne Hnin]%not_elem_of_cons. unfold same_at. rewrite Ho by done. by rewrite E1, bool_decide_false.
    + assert (draw_bit data F px py (Z.of_nat i, m) = Some (Z.of_nat i, m)) as ->.
      { unfold draw_bit. rewrite Hf. cbn [mbind option_bind negb andb].
        by destruct (Z.ltb_spec (Z.of_nat i) (Z.of_nat (length data) * 8)); [lia|]. }
      cbn [mbind option_bind]. destruct (IH Hd Hin i m Hm Hi) as (i' & m' & E & Hm' & Hk & Ho). exists i', m'. split; [done|]. split; [done|].
      split; [intros; lia|]. intros x y [Hne Hnin]%not_elem_of_cons. by apply Ho.
Qed.

(** ** The zigzag *)
Lemma NoDup_list_prod {A B} (l : list A) (k : list B) : NoDup l → NoDup k → NoDup (list_prod l k).
Proof.
  intros Hl Hk. induction Hl as [|a l Ha Hl IH]; cbn; [constructor|]. apply NoDup_app. split_and!; [|intros [x y]|done].
  - by apply (NoDup_fmap_2 (λ y, (a, y))).
  - rewrite !list_elem_of_In, in_map_iff, in_prod_iff. intros (? & [= -> ->] & _) [Hin _]. by apply Ha, list_elem_of_In.
Qed.
Lemma elem_of_list_prod {A B} (l : list A) (k : list B) x y : (x, y) ∈ list_prod l k ↔ x ∈ l ∧ y ∈ k.
Proof. by rewrite !list_elem_of_In, in_prod_iff. Qed.

(** The side of a version, [4 n + 1]; the number of column pairs. *)
Definition odd_side (s : Z) : Prop := ∃ n, 5 <= n ∧ s = 4 * n + 1.
Lemma side_odd v : 1 <= v → odd_side (side v).
Proof. intros H. exists (v + 4). unfold side. lia. Qed.
Lemma pairs_of n : (4 * n + 1 - 1) / 2 = 2 * n.
Proof. replace (4 * n + 1 - 1) with (2 * n * 2) by lia. by apply Z.div_mul. Qed.

Lemma zigzag_elem s x y : odd_side s → (x, y) ∈ zigzag_places s ↔ within s x y ∧ x ≠ 6.
Proof.
  intros (n & Hn & ->). unfold zigzag_places. rewrite list_elem_of_fmap, pairs_of. split.
  - intros ((k & vert & j) & E & H). apply elem_of_list_prod in H as [Hk H]. apply elem_of_list_prod in H as [Hv Hj].
    apply elem_of_seqZ in Hk, Hv. unfold zigzag_place, pair_column in E. injection E as -> ->.
    assert (0 <= j <= 1) by (rewrite !elem_of_cons, elem_of_nil in Hj; lia). unfold within.
    destruct (Z.even k), (Z.ltb_spec 6 (4 * n + 1 - 1 - 2 * k)); lia.
  - intros [[Hx Hy] H6].
    assert (∃ k j, 0 <= k < 2 * n ∧ 0 <= j <= 1 ∧ pair_column (4 * n + 1) k - j = x) as (k & j & Hk & Hj & E).
    { unfold pair_column. destruct (Z.Even_or_Odd x) as [[h E]|[h E]], (decide (6 < x)) as [H|H].
      - exists (2 * n - h), 0. destruct (Z.ltb_spec 6 (4 * n + 1 - 1 - 2 * (2 * n - h))); lia.
      - exists (2 * n - h - 1), 1. destruct (Z.ltb_spec 6 (4 * n + 1 - 1 - 2 * (2 * n - h - 1))); lia.
      - exists (2 * n - h - 1), 1. destruct (Z.ltb_spec 6 (4 * n + 1 - 1 - 2 * (2 * n - h - 1))); lia.
      - exists (2 * n - h - 1), 0. destruct (Z.ltb_spec 6 (4 * n + 1 - 1 - 2 * (2 * n - h - 1))); lia. }
    exists (k, (if Z.even k then 4 * n + 1 - 1 - y else y, j)). split.
    + unfold zigzag_place. rewrite E. destruct (Z.even k); f_equal; lia.
    + apply elem_of_list_prod. rewrite elem_of_list_prod, !elem_of_seqZ. split; [lia|]. split.
      * destruct (Z.even k); lia.
      * rewrite !elem_of_cons, elem_of_nil. lia.
Qed.

Lemma zigzag_NoDup s : odd_side s → NoDup (zigzag_places s).
Proof.
  intros (n & Hn & ->). unfold zigzag_places. rewrite pairs_of. apply NoDup_fmap_2_strong.
  - intros (k & vert & j) (k' & vert' & j') H H' E.
    apply elem_of_list_prod in H as [Hk H], H' as [Hk' H']. apply elem_of_list_prod in H as [Hv Hj], H' as [Hv' Hj'].
    rewrite !elem_of_cons, elem_of_nil in Hj, Hj'. apply elem_of_seqZ in Hk, Hk'.
    unfold zigzag_place, pair_column in E. injection E as E1 E2.
    assert (k = k' ∧ j = j') as [-> ->].
    { destruct (Z.ltb_spec 6 (4 * n + 1 - 1 - 2 * k)), (Z.ltb_spec 6 (4 * n + 1 - 1 - 2 * k')); lia. }
    destruct (Z.even k'); repeat f_equal; lia.
  - apply NoDup_list_prod; [apply NoDup_seqZ|]. apply NoDup_list_prod; [apply NoDup_seqZ|].
    repeat constructor; rewrite ?elem_of_cons, ?elem_of_nil; lia.
Qed.

Lemma land_two r : (Z.land r 2 =? 0) = negb (Z.testbit r 1).
Proof.
  destruct (Z.testbit r 1) eqn:E; cbn [negb].
  - apply Z.eqb_neq. intros H. assert (Z.testbit (Z.land r 2) 1 = false) as F by (rewrite H; apply Z.testbit_0_l).
    by rewrite Z.land_spec, E in F.
  - apply Z.eqb_eq, Z.bits_inj. intros n. rewrite Z.land_spec, Z.testbit_0_l, (Z.pow2_bits_eqb 1) by done.
    destruct (Z.eqb_spec 1 n) as [<-|]; [by rewrite E|apply andb_false_r].
Qed.

Lemma pair_upward s k : odd_side s → (Z.land (pair_column s k + 1) 2 =? 0) = Z.even k.
Proof.
  intros (n & Hn & ->). rewrite land_two. destruct (Z.even k) eqn:Ek.
  - apply negb_true_iff. apply Z.even_spec in Ek as [j ->]. apply Z.testbit_false; [done|]. change (2 ^ 1) with 2.
    unfold pair_column. destruct (Z.ltb_spec 6 (4 * n + 1 - 1 - 2 * (2 * j))); Z.to_euclidean_division_equations; lia.
  - apply negb_false_iff. rewrite <- Z.negb_odd in Ek. apply negb_false_iff, Z.odd_spec in Ek as [j ->].
    apply Z.testbit_true; [done|]. change (2 ^ 1) with 2.
    unfold pair_column. destruct (Z.ltb_spec 6 (4 * n + 1 - 1 - 2 * (2 * j + 1))); Z.to_euclidean_division_equations; lia.
Qed.

(** The loops of [drawCodewords] visit exactly these places, in this order. *)
Lemma zigzag_each {A} s (body : Z → Z → A → option A) : odd_side s → ∀ fuel k a,
  0 <= k <= (s - 1) / 2 → (s - 1) / 2 - k < Z.of_nat fuel →
  zigzag s body (if 6 <=? s - 1 - 2 * k then s - 1 - 2 * k else s - 2 - 2 * k) fuel a =
  each (λ p, body p.1 p.2) (zigzag_place s <$> list_prod (seqZ k ((s - 1) / 2 - k)) (list_prod (seqZ 0 s) [0; 1])) a.
Proof.
  intros Hodd. pose proof Hodd as (n & Hn & ->). rewrite pairs_of. induction fuel as [|fuel IH]; intros k a Hk Hf; [lia|].
  cbn [zigzag]. set (right := if 6 <=? 4 * n + 1 - 1 - 2 * k then _ else _).
  destruct (decide (k = 2 * n)) as [->|Hne].
  - rewrite Z.sub_diag, seqZ_nil by done. cbn [list_prod fmap list_fmap each].
    assert (right < 1) by (subst right; destruct (Z.leb_spec 6 (4 * n + 1 - 1 - 2 * (2 * n))); lia).
    by destruct (Z.ltb_spec right 1); [|lia].
  - assert (1 <= right ∧ (if right =? 6 then 5 else right) = pair_column (4 * n + 1) k ∧
      pair_column (4 * n + 1) k - 2 =
      if 6 <=? 4 * n + 1 - 1 - 2 * (k + 1) then 4 * n + 1 - 1 - 2 * (k + 1) else 4 * n + 1 - 2 - 2 * (k + 1)) as (H1 & E1 & E2).
    { subst right. unfold pair_column. destruct (Z.leb_spec 6 (4 * n + 1 - 1 - 2 * k)),
        (Z.leb_spec 6 (4 * n + 1 - 1 - 2 * (k + 1))), (Z.ltb_spec 6 (4 * n + 1 - 1 - 2 * k));
        repeat match goal with |- context [?a =? 6] => destruct (Z.eqb_spec a 6) end; lia. }
    destruct (Z.ltb_spec right 1); [lia|]. rewrite E1, E2.
    rewrite (seqZ_cons k) by lia. cbn [list_prod]. rewrite fmap_app, each_app.
    replace (Z.pred (2 * n - k)) with (2 * n - (k + 1)) by lia. set (s := 4 * n + 1) in *.
    rewrite for_in_each, Z.sub_0_r.
    assert (E : ∀ a, each (λ vert, for_in 0 2 (λ j, body (pair_column s k - j)
        (if Z.land (pair_column s k + 1) 2 =? 0 then s - 1 - vert else vert))) (seqZ 0 s) a =
      each (λ p, body p.1 p.2) (zigzag_place s <$> map (λ y, (k, y)) (list_prod (seqZ 0 s) [0; 1])) a).
    { intros a0. rewrite pair_upward by done.
      change (map (λ y, (k, y)) (list_prod (seqZ 0 s) [0; 1])) with ((λ y, (k, y)) <$> list_prod (seqZ 0 s) [0; 1]).
      rewrite !each_fmap.
      etrans; [|apply (each_ext (λ p, body (pair_column s k - p.2) (if Z.even k then s - 1 - p.1 else p.1))); by intros [vert j]].
      rewrite <- (each_prod (λ vert j, body (pair_column s k - j) (if Z.even k then s - 1 - vert else vert))).
      apply each_ext. intros vert b _. by rewrite for_in_each. }
    rewrite E. destruct (each _ _ a) as [a'|]; [|done]. cbn [mbind option_bind]. apply IH; lia.
Qed.

Lemma drawCodewords_each s data F m : odd_side s →
  zigzag s (draw_bit data F) (s - 1) (Z.to_nat s) (0, m) =
  each (λ p, draw_bit data F p.1 p.2) (zigzag_places s) (0, m).
Proof.
  intros Hodd. pose proof Hodd as (n & Hn & E). unfold zigzag_places.
  assert (0 <= (s - 1) / 2 < s) as Hh by (rewrite E, pairs_of; lia).
  rewrite <- (Z.sub_0_r ((s - 1) / 2)), <- (zigzag_each s (draw_bit data F) Hodd (Z.to_nat s) 0 (0, m)) by lia.
  destruct (Z.leb_spec 6 (s - 1 - 2 * 0)); [|lia]. f_equal. lia.
Qed.
