(* ===== verification/QrLayout.v ===== *)
(** * The function modules of the forty versions

    [drawFunctionPatterns] draws what the standard says, in every version and at
    every level, and marks exactly the function modules. The forty squares are
    computed and compared once; the level, which only enters the format
    information, is dealt with by a relation between two runs. *)
From S2P Require Import Prelude QrSegments ReedSolomon QrCode QrReader QrDrawing.

(** ** The format information as one list of modules *)
Definition format_writes (s w : Z) : list (Z * Z * bool) :=
  zip_with (λ p i, (p, getBit w i)) (format_places s).1 (seqZ 0 15) ++
  zip_with (λ p i, (p, getBit w i)) (format_places s).2 (seqZ 0 15) ++ [((8, s - 8), true)].

Lemma draw_all_app l1 l2 q : draw_all (l1 ++ l2) q = draw_all l1 q ≫= draw_all l2.
Proof. apply each_app. Qed.
Lemma draw_all_one x y b q : setFunctionModule x y b q = draw_all [((x, y), b)] q.
Proof. cbn. by destruct (setFunctionModule x y b q). Qed.
Lemma draw_all_for lo hi fx fy fb q :
  for_in lo hi (λ i, setFunctionModule (fx i) (fy i) (fb i)) q =
  draw_all ((λ i, ((fx i, fy i), fb i)) <$> seqZ lo (hi - lo)) q.
Proof. rewrite for_in_each. unfold draw_all. by rewrite each_fmap. Qed.

Lemma drawFormatBits_writes msk q :
  drawFormatBits msk q = draw_all (format_writes (qr_size q) (format_bits (qr_ecl q) msk)) q.
Proof.
  unfold drawFormatBits. generalize (format_bits (qr_ecl q) msk) as w. intros w. cbv zeta. generalize (qr_size q) as s. intros s.
  set (l1 := (λ i, ((8, i), getBit w i)) <$> seqZ 0 (6 - 0)).
  set (l5 := (λ i, ((14 - i, 8), getBit w i)) <$> seqZ 9 (15 - 9)).
  set (l6 := (λ i, ((s - 1 - i, 8), getBit w i)) <$> seqZ 0 (8 - 0)).
  set (l7 := (λ i, ((8, s - 15 + i), getBit w i)) <$> seqZ 8 (15 - 8)).
  assert (format_writes s w = l1 ++ [((8, 7), getBit w 6)] ++ [((8, 8), getBit w 7)] ++ [((7, 8), getBit w 8)] ++
    l5 ++ l6 ++ l7 ++ [((8, s - 8), true)]) as ->.
  { subst l1 l5 l6 l7. unfold format_writes, format_places.
    change (seqZ 0 15) with [0; 1; 2; 3; 4; 5; 6; 7; 8; 9; 10; 11; 12; 13; 14].
    change (seqZ 0 (6 - 0)) with [0; 1; 2; 3; 4; 5]. change (seqZ 9 (15 - 9)) with [9; 10; 11; 12; 13; 14].
    change (seqZ 0 (8 - 0)) with [0; 1; 2; 3; 4; 5; 6; 7]. change (seqZ 8 (15 - 8)) with [8; 9; 10; 11; 12; 13; 14].
    cbn [zip_with fst snd fmap list_fmap app]. repeat (apply (f_equal2 cons); [apply (f_equal2 pair); [apply (f_equal2 pair); lia|done]|]). done. }
  rewrite draw_all_app, draw_all_for. fold l1. destruct (draw_all l1 q) as [q1|]; [|done]. cbn [mbind option_bind].
  rewrite draw_all_app, draw_all_one. destruct (draw_all [_] q1) as [q2|]; [|done]. cbn [mbind option_bind].
  rewrite draw_all_app, draw_all_one. destruct (draw_all [_] q2) as [q3|]; [|done]. cbn [mbind option_bind].
  rewrite draw_all_app, draw_all_one. destruct (draw_all [_] q3) as [q4|]; [|done]. cbn [mbind option_bind].
  rewrite draw_all_app, draw_all_for. fold l5. destruct (draw_all l5 q4) as [q5|]; [|done]. cbn [mbind option_bind].
  rewrite draw_all_app, draw_all_for. fold l6. destruct (draw_all l6 q5) as [q6|]; [|done]. cbn [mbind option_bind].
  rewrite draw_all_app, draw_all_for. fold l7. destruct (draw_all l7 q6) as [q7|]; [|done]. cbn [mbind option_bind].
  by rewrite draw_all_one.
Qed.

(** ** Two levels *)
Definition is_format (p : Place) : bool := match p with Format => true | _ => false end.

Record like (v : Z) (q q' : QrCode) : Prop := mkLike {
  like_ver : qr_ver q = v; like_ver' : qr_ver q' = v;
  like_size : qr_size q = side v; like_size' : qr_size q' = side v;
  like_function : isFunction q' = isFunction q;
  like_marks : square (side v) (isFunction q);
  like_square : square (side v) (modules q); like_square' : square (side v) (modules q');
  like_modules : ∀ x y, within (side v) x y → is_format (place v y x) = false → same_at (modules q') (modules q) x y }.

(** The levels stay what they are. *)
Definition alike (v : Z) (e e' : Ecc) (q q' : QrCode) : Prop := like v q q' ∧ qr_ecl q = e ∧ qr_ecl q' = e'.

Section Alike.
Context (v : Z) (e e' : Ecc).
Abbreviation R := (alike v e e').

Lemma alike_set x y b b' q q' : R q q' → (b = b' ∨ is_format (place v y x) = true) →
  orel R (setFunctionModule x y b q) (setFunctionModule x y b' q').
Proof.
  intros [[H1 H2 H3 H4 HF HM Hs Hs' Hm] [He He']] Hb. unfold setFunctionModule.
  destruct (decide (within (side v) x y)) as [Hw|Hn].
  - destruct (grid_set_spec _ _ x y b Hs Hw) as (m & -> & Hsm & Em).
    destruct (grid_set_spec _ _ x y b' Hs' Hw) as (m' & -> & Hsm' & Em'). cbn [mbind option_bind].
    rewrite HF. destruct (grid_set_spec _ _ x y true HM Hw) as (f & -> & Hsf & _). cbn [mbind option_bind orel].
    split; [|by split]. split; cbn; [done..|]. intros x' y' Hw' Hf. unfold same_at. rewrite Em, Em'.
    case_bool_decide as Hc; [|by apply Hm]. simplify_eq. destruct Hb as [->|Hb]; [done|congruence].
  - by rewrite (grid_set_None (side v) (modules q)), (grid_set_None (side v) (modules q')) by done.
Qed.
Lemma alike_same x y b q q' : R q q' → orel R (setFunctionModule x y b q) (setFunctionModule x y b q').
Proof. intros H. apply alike_set; [done|by left]. Qed.

Lemma alike_draw_all ws ws' : Forall2 (λ t t', t.1 = t'.1 ∧ (t.2 = t'.2 ∨ is_format (place v t.1.2 t.1.1) = true)) ws ws' →
  ∀ q q', R q q' → orel R (draw_all ws q) (draw_all ws' q').
Proof.
  unfold draw_all. induction 1 as [|[[x y] b] [p' b'] ws ws' [Hp Hb] _ IH]; intros q q' H; [done|].
  cbn [fst snd] in *. subst p'. cbn [each fst snd]. apply orel_bind; [by apply alike_set|done].
Qed.

Lemma alike_finder x y q q' : R q q' → orel R (drawFinderPattern x y q) (drawFinderPattern x y q').
Proof.
  intros H. unfold drawFinderPattern. apply for_in_rel; [done|]. clear q q' H. intros dy q q' H.
  apply for_in_rel; [done|]. clear q q' H. intros dx q q' H. cbv zeta.
  rewrite (like_size _ _ _ (proj1 H)), (like_size' _ _ _ (proj1 H)). destruct (_ && _ && _ && _); [by apply alike_same|done].
Qed.
Lemma alike_alignment x y q q' : R q q' → orel R (drawAlignmentPattern x y q) (drawAlignmentPattern x y q').
Proof.
  intros H. unfold drawAlignmentPattern. apply for_in_rel; [done|]. clear q q' H. intros dy q q' H.
  apply for_in_rel; [done|]. clear q q' H. intros dx q q' H. by apply alike_same.
Qed.
Lemma alike_version q q' : R q q' → orel R (drawVersion q) (drawVersion q').
Proof.
  intros H. unfold drawVersion. rewrite (like_ver _ _ _ (proj1 H)), (like_ver' _ _ _ (proj1 H)). destruct (v <? 7); [done|].
  apply for_in_rel; [done|]. clear q q' H. intros i q q' H. cbv zeta.
  rewrite (like_size _ _ _ (proj1 H)), (like_size' _ _ _ (proj1 H)).
  apply orel_bind; [by apply alike_same|]. intros. by apply alike_same.
Qed.

Lemma format_writes_alike s w w' :
  Forall (λ p, is_format (place v p.2 p.1) = true) ((format_places s).1 ++ (format_places s).2) →
  Forall2 (λ t t', t.1 = t'.1 ∧ (t.2 = t'.2 ∨ is_format (place v t.1.2 t.1.1) = true)) (format_writes s w) (format_writes s w').
Proof.
  intros [H1 H2]%Forall_app. unfold format_writes.
  assert (Hz : ∀ ps js, Forall (λ p, is_format (place v p.2 p.1) = true) ps →
    Forall2 (λ t t', t.1 = t'.1 ∧ (t.2 = t'.2 ∨ is_format (place v t.1.2 t.1.1) = true))
      (zip_with (λ p i, (p, getBit w i)) ps js) (zip_with (λ p i, (p, getBit w' i)) ps js)).
  { intros ps js H. revert js. induction H as [|p ps Hp _ IH]; intros [|i js]; constructor; [|apply IH]. split; [done|by right]. }
  apply Forall2_app; [by apply Hz|]. apply Forall2_app; [by apply Hz|]. by repeat constructor.
Qed.

Lemma alike_format msk q q' : R q q' →
  Forall (λ p, is_format (place v p.2 p.1) = true) ((format_places (side v)).1 ++ (format_places (side v)).2) →
  orel R (drawFormatBits msk q) (drawFormatBits msk q').
Proof.
  intros H Hf. rewrite !drawFormatBits_writes, (like_size _ _ _ (proj1 H)), (like_size' _ _ _ (proj1 H)).
  by apply alike_draw_all; [apply format_writes_alike|].
Qed.

Lemma alike_patterns q q' : R q q' →
  Forall (λ p, is_format (place v p.2 p.1) = true) ((format_places (side v)).1 ++ (format_places (side v)).2) →
  orel R (drawFunctionPatterns q) (drawFunctionPatterns q').
Proof.
  intros H Hf. unfold drawFunctionPatterns, getAlignmentPatternPositions. cbv zeta.
  rewrite (like_size _ _ _ (proj1 H)), (like_size' _ _ _ (proj1 H)).
  apply orel_bind. { apply for_in_rel; [done|]. intros i a b Hab. apply orel_bind; [by apply alike_same|]. intros. by apply alike_same. }
  intros a b Hab. clear q q' H. apply orel_bind; [by apply alike_finder|]. intros q q' H. apply orel_bind; [by apply alike_finder|].
  clear a b Hab q q' H. intros a b Hab. apply orel_bind; [by apply alike_finder|].
  clear a b Hab. intros q q' H.
  rewrite (like_size _ _ _ (proj1 H)), (like_size' _ _ _ (proj1 H)), (like_ver _ _ _ (proj1 H)), (like_ver' _ _ _ (proj1 H)).
  apply orel_bind.
  { apply for_in_rel; [done|]. intros i a b Hab. apply for_in_rel; [done|]. clear a b Hab. intros j a b Hab.
    destruct (negb _); [|done]. destruct (vec_at _ i); [|done]. cbn [mbind option_bind]. destruct (vec_at _ j); [|done].
    by apply alike_alignment. }
  clear q q' H. intros q q' H. apply orel_bind; [by apply alike_format|]. intros. by apply alike_version.
Qed.
End Alike.

(** ** The forty squares *)
Definition blank_qr (v : Z) (e : Ecc) : QrCode :=
  let size := v * 4 + 17 in
  let blank := replicate (Z.to_nat size) (replicate (Z.to_nat size) false) in
  mkQrCode v size e 0 blank blank.

(** Is a module marked, is it dark, and what should it be? *)
Definition agrees (f b : bool) (p : Place) : bool :=
  match p with Fixed c => f && Bool.eqb b c | Data => negb f && negb b | Format => f end.
Fixpoint agree_row (fs bs : list bool) (ps : list Place) : bool :=
  match fs, bs, ps with
  | [], [], [] => true
  | f :: fs, b :: bs, p :: ps => agrees f b p && agree_row fs bs ps
  | _, _, _ => false
  end.
Fixpoint agree_all (fs bs : list (list bool)) (ps : list (list Place)) : bool :=
  match fs, bs, ps with
  | [], [], [] => true
  | f :: fs, b :: bs, p :: ps => agree_row f b p && agree_all fs bs ps
  | _, _, _ => false
  end.
Definition count_row (n : Z) (row : list Place) : Z := foldl (λ n p, if is_data p then n + 1 else n) n row.
Definition count_data (g : list (list Place)) : Z := foldl count_row 0 g.

Definition same_fields (v : Z) (q : QrCode) : bool :=
  (qr_ver q =? v) && (qr_size q =? side v) && match qr_ecl q with LOW => true | _ => false end.

Definition layout_ok (v : Z) : bool :=
  let g := grid (side v) (place v) in
  match drawFunctionPatterns (blank_qr v LOW), getNumRawDataModules v with
  | Some q, Some raw => same_fields v q && agree_all (isFunction q) (modules q) g && (count_data g =? raw)
  | _, _ => false
  end &&
  forallb (λ row, negb (is_data (nth 6 row Format))) g &&
  forallb (λ p, is_format (place v p.2 p.1)) ((format_places (side v)).1 ++ (format_places (side v)).2) &&
  match place v (side v - 8) 8 with Fixed true => true | _ => false end.

Lemma layout_computed : forallb layout_ok (seqZ 1 40) = true.
Proof. vm_compute. reflexivity. Qed.

Lemma layout_of v : 1 <= v <= 40 → layout_ok v = true.
Proof.
  intros Hv. pose proof layout_computed as H. rewrite forallb_forall in H. apply H, list_elem_of_In, elem_of_seqZ. lia.
Qed.

(** *** Reading the comparison *)
Lemma vec_at_grid {A} s (f : Z → Z → A) y : 0 <= y < s → vec_at (grid s f) y = Some (f y <$> seqZ 0 s).
Proof.
  intros Hy. unfold grid, vec_at. destruct (Z.ltb_spec y 0); [lia|]. rewrite list_lookup_fmap, lookup_seqZ_lt by lia.
  cbn. do 3 f_equal; lia.
Qed.
Lemma vec_at_line {A} s (f : Z → A) x : 0 <= x < s → vec_at (f <$> seqZ 0 s) x = Some (f x).
Proof.
  intros Hx. unfold vec_at. destruct (Z.ltb_spec x 0); [lia|]. rewrite list_lookup_fmap, lookup_seqZ_lt by lia.
  cbn. do 2 f_equal; lia.
Qed.

Lemma agree_row_spec fs bs ps : agree_row fs bs ps = true →
  length fs = length ps ∧ length bs = length ps ∧
  ∀ x p, vec_at ps x = Some p → ∃ f b, vec_at fs x = Some f ∧ vec_at bs x = Some b ∧ agrees f b p = true.
Proof.
  revert bs ps. induction fs as [|f fs IH]; intros [|b bs] [|p ps] H; cbn [agree_row] in H; try done.
  { split_and!; [done..|]. intros x p. unfold vec_at. by destruct (x <? 0). }
  apply andb_true_iff in H as [H1 H2]. destruct (IH _ _ H2) as (El & El' & Hx). split_and!; [cbn; lia|cbn; lia|].
  intros x p' Hp. unfold vec_at in *. destruct (Z.ltb_spec x 0); [done|].
  destruct (Z.to_nat x) as [|n] eqn:En; [injection Hp as <-; by exists f, b|].
  specialize (Hx (Z.of_nat n) p'). destruct (Z.ltb_spec (Z.of_nat n) 0); [lia|]. rewrite Nat2Z.id in Hx. by apply Hx.
Qed.

Lemma agree_all_spec fs bs ps : agree_all fs bs ps = true →
  length fs = length ps ∧ length bs = length ps ∧
  (∀ i r, ps !! i = Some r → ∃ f b, fs !! i = Some f ∧ bs !! i = Some b ∧ agree_row f b r = true).
Proof.
  revert bs ps. induction fs as [|f fs IH]; intros [|b bs] [|p ps] H; cbn [agree_all] in H; try done.
  apply andb_true_iff in H as [H1 H2]. destruct (IH _ _ H2) as (El & El' & Hx). split_and!; [cbn; lia|cbn; lia|].
  intros [|i] r Hr; [injection Hr as <-; by exists f, b|]. by apply Hx.
Qed.

Lemma agree_grid s (F M : list (list bool)) (pl : Z → Z → Place) : 0 <= s → agree_all F M (grid s pl) = true →
  square s F ∧ square s M ∧
  ∀ x y, within s x y → ∃ f b, grid_at F x y = Some f ∧ grid_at M x y = Some b ∧ agrees f b (pl y x) = true.
Proof.
  intros Hs H. apply agree_all_spec in H as (EF & EM & Hr).
  assert (Hlen : length (grid s pl) = Z.to_nat s) by (unfold grid; by rewrite length_fmap, length_seqZ).
  assert (Hrow : ∀ i, (i < Z.to_nat s)%nat → grid s pl !! i = Some (pl (Z.of_nat i) <$> seqZ 0 s)).
  { intros i Hi. rewrite <- vec_at_nat. apply vec_at_grid. lia. }
  assert (Hsq : ∀ i f b, F !! i = Some f → M !! i = Some b → agree_row f b (pl (Z.of_nat i) <$> seqZ 0 s) = true).
  { intros i f b Hf Hb. apply lookup_lt_Some in Hf as Hi.
    destruct (Hr i _ (Hrow i ltac:(lia))) as (f' & b' & Hf' & Hb' & Ha). by simplify_eq. }
  split_and!.
  - split; [lia|]. apply Forall_lookup. intros i f Hf. apply lookup_lt_Some in Hf as Hi.
    destruct (lookup_lt_is_Some_2 M i ltac:(lia)) as [b Hb]. destruct (agree_row_spec _ _ _ (Hsq i f b Hf Hb)) as (El & _).
    rewrite length_fmap, length_seqZ in El. lia.
  - split; [lia|]. apply Forall_lookup. intros i b Hb. apply lookup_lt_Some in Hb as Hi.
    destruct (lookup_lt_is_Some_2 F i ltac:(lia)) as [f Hf]. destruct (agree_row_spec _ _ _ (Hsq i f b Hf Hb)) as (_ & El & _).
    rewrite length_fmap, length_seqZ in El. lia.
  - intros x y [Hx Hy].
    destruct (Hr (Z.to_nat y) _ (Hrow (Z.to_nat y) ltac:(lia))) as (f & b & Hf & Hb & Ha).
    destruct (agree_row_spec _ _ _ Ha) as (_ & _ & Hc). rewrite Z2Nat.id in Hc by lia.
    destruct (Hc x _ (vec_at_line s (pl y) x Hx)) as (f' & b' & Hf' & Hb' & Hag). exists f', b'.
    unfold grid_at. rewrite <- (Z2Nat.id y), !vec_at_nat, Hf, Hb by lia. cbn [mbind option_bind].
    rewrite Z2Nat.id by lia. done.
Qed.

(** ** The data modules *)
Lemma count_row_spec (pl : Z → Place) xs : ∀ n,
  count_row n (pl <$> xs) = n + Z.of_nat (length (List.filter (λ x, is_data (pl x)) xs)).
Proof.
  unfold count_row. induction xs as [|x xs IH]; intros n; cbn; [lia|]. rewrite IH. destruct (is_data (pl x)); cbn [length]; lia.
Qed.
Lemma filter_pairs {B C} (P : B * C → bool) y xs :
  length (List.filter P (map (λ x, (y, x)) xs)) = length (List.filter (λ x, P (y, x)) xs).
Proof. induction xs as [|x xs IH]; cbn; [done|]. destruct (P (y, x)); cbn; by rewrite IH. Qed.
Lemma count_data_spec s (pl : Z → Z → Place) :
  count_data (grid s pl) = Z.of_nat (length (List.filter (λ p, is_data (pl p.1 p.2)) (list_prod (seqZ 0 s) (seqZ 0 s)))).
Proof.
  unfold count_data, grid. cbv zeta. set (xs := seqZ 0 s) at 1 3.
  assert (H : ∀ ys n, foldl count_row n ((λ y, pl y <$> xs) <$> ys) =
    n + Z.of_nat (length (List.filter (λ p, is_data (pl p.1 p.2)) (list_prod ys xs)))).
  { induction ys as [|y ys IH]; intros n; [cbn; lia|]. cbn [fmap list_fmap foldl list_prod]. rewrite IH, count_row_spec.
    rewrite List.filter_app, length_app, filter_pairs. cbn [fst snd]. lia. }
  apply (H _ 0).
Qed.

Lemma filter_perm {A} (P : A → bool) l l' : l ≡ₚ l' → List.filter P l ≡ₚ List.filter P l'.
Proof.
  induction 1 as [|x l l' _ IH|x y l|l l' l2 _ IH1 _ IH2]; cbn; [done| | |by etrans].
  - destruct (P x); [by f_equiv|done].
  - destruct (P x), (P y); try done. apply Permutation_swap.
Qed.

Lemma column_six v y : 1 <= v <= 40 → 0 <= y < side v → is_data (place v y 6) = false.
Proof.
  intros Hv Hy. pose proof (layout_of v Hv) as H. unfold layout_ok in H.
  apply andb_true_iff in H as [H _]. apply andb_true_iff in H as [H _]. apply andb_true_iff in H as [_ H].
  rewrite forallb_forall in H. assert (Hv' : 21 <= side v) by (unfold side; lia).
  specialize (H (place v y <$> seqZ 0 (side v))). apply negb_true_iff in H.
  - assert ((place v y <$> seqZ 0 (side v)) !! 6%nat = Some (place v y 6)) as E.
    { rewrite list_lookup_fmap, lookup_seqZ_lt by lia. done. }
    by rewrite (nth_lookup_Some _ _ Format _ E) in H.
  - apply list_elem_of_In, list_elem_of_lookup. exists (Z.to_nat y).
    rewrite <- vec_at_nat, Z2Nat.id, vec_at_grid by lia. done.
Qed.

Lemma data_places_count v raw : 1 <= v <= 40 → getNumRawDataModules v = Some raw →
  Z.of_nat (length (data_places v)) = raw.
Proof.
  intros Hv Hraw. pose proof (layout_of v Hv) as H. unfold layout_ok in H.
  apply andb_true_iff in H as [H _]. apply andb_true_iff in H as [H _]. apply andb_true_iff in H as [H _].
  destruct (drawFunctionPatterns _) as [q|]; [|done]. rewrite Hraw in H. apply andb_true_iff in H as [_ H%Z.eqb_eq].
  rewrite count_data_spec in H. rewrite <- H. f_equal. unfold data_places.
  set (cells := list_prod (seqZ 0 (side v)) (seqZ 0 (side v))).
  pose proof (side_odd v ltac:(lia)) as Hodd.
  assert (zigzag_places (side v) ≡ₚ List.filter (λ p, negb (p.1 =? 6)) ((λ p, (p.2, p.1)) <$> cells)) as Hperm.
  { apply NoDup_Permutation; [by apply zigzag_NoDup| |].
    - apply NoDup_ListNoDup, List.NoDup_filter, NoDup_ListNoDup. apply NoDup_fmap_2_strong.
      { intros [? ?] [? ?] _ _ [= -> ->]. done. }
      apply NoDup_list_prod; apply NoDup_seqZ.
    - intros [x y]. rewrite zigzag_elem by done. rewrite list_elem_of_In, filter_In, <- list_elem_of_In, list_elem_of_fmap.
      cbn [fst]. rewrite negb_true_iff, Z.eqb_neq. unfold within. split.
      + intros [[Hx Hy] H6]. split; [|done]. exists (y, x). split; [done|]. apply elem_of_list_prod. rewrite !elem_of_seqZ. lia.
      + intros [([y' x'] & [= -> ->] & Hc) H6]. apply elem_of_list_prod in Hc. rewrite !elem_of_seqZ in Hc. lia. }
  rewrite (Permutation_length (filter_perm _ _ _ Hperm)).
  assert (Hin : ∀ p, p ∈ cells → within (side v) p.2 p.1).
  { intros [y x] Hc. apply elem_of_list_prod in Hc. rewrite !elem_of_seqZ in Hc. unfold within. cbn. lia. }
  clearbody cells. clear -Hin Hv. induction cells as [|[y x] cells IH]; [done|]. cbn [fmap list_fmap List.filter fst snd].
  assert (Hw : within (side v) x y) by (apply (Hin (y, x)); by left).
  specialize (IH (λ p Hp, Hin p (list_elem_of_further _ _ _ Hp))).
  destruct (Z.eqb_spec x 6) as [->|Hx]; cbn [negb].
  - rewrite column_six by (destruct Hw; lia). exact IH.
  - cbn [List.filter fst snd]. destruct (is_data (place v y x)); cbn [length]; by rewrite IH.
Qed.

(** ** A drawn square *)

(** Version [v], level [e]; the data modules show [f], the fixed ones what they should. *)
Record drawn (v : Z) (e : Ecc) (f : Z → Z → bool) (q : QrCode) : Prop := mkDrawn {
  drawn_ver : qr_ver q = v;
  drawn_size : qr_size q = side v;
  drawn_ecl : qr_ecl q = e;
  drawn_marks : square (side v) (isFunction q);
  drawn_square : square (side v) (modules q);
  drawn_function : ∀ x y, within (side v) x y → grid_at (isFunction q) x y = Some (negb (is_data (place v y x)));
  drawn_fixed : ∀ x y c, within (side v) x y → place v y x = Fixed c → grid_at (modules q) x y = Some c;
  drawn_data : ∀ x y, within (side v) x y → place v y x = Data → grid_at (modules q) x y = Some (f x y) }.

Lemma layout_formats v : 1 <= v <= 40 →
  Forall (λ p, is_format (place v p.2 p.1) = true) ((format_places (side v)).1 ++ (format_places (side v)).2) ∧
  place v (side v - 8) 8 = Fixed true.
Proof.
  intros Hv. pose proof (layout_of v Hv) as H. unfold layout_ok in H.
  apply andb_true_iff in H as [H Hd]. apply andb_true_iff in H as [_ H]. split.
  - rewrite forallb_forall in H. apply Forall_forall. intros p Hp%list_elem_of_In. by apply H.
  - by destruct (place v (side v - 8) 8) as [[]| |].
Qed.

Lemma blank_square v e : 1 <= v → square (side v) (modules (blank_qr v e)) ∧ square (side v) (isFunction (blank_qr v e)).
Proof.
  intros Hv. unfold square, blank_qr, side. cbn. rewrite length_replicate.
  split; (split; [lia|]); apply Forall_replicate; rewrite length_replicate; lia.
Qed.

Lemma base_spec v e : 1 <= v <= 40 → ∃ q, drawFunctionPatterns (blank_qr v e) = Some q ∧ drawn v e (λ _ _, false) q.
Proof.
  intros Hv. destruct (layout_formats v Hv) as [Hf _]. pose proof (blank_square v LOW ltac:(lia)) as [HsL HmL].
  pose proof (blank_square v e ltac:(lia)) as [Hs Hm].
  assert (Ha : alike v LOW e (blank_qr v LOW) (blank_qr v e)).
  { split; [|by split]. split; try done; cbn; unfold side; lia. }
  pose proof (alike_patterns v LOW e _ _ Ha Hf) as Hr.
  pose proof (layout_of v Hv) as H. unfold layout_ok in H.
  apply andb_true_iff in H as [H _]. apply andb_true_iff in H as [H _]. apply andb_true_iff in H as [H _].
  destruct (drawFunctionPatterns (blank_qr v LOW)) as [qL|]; [|done].
  destruct (drawFunctionPatterns (blank_qr v e)) as [q|]; [|done]. cbn [orel] in Hr.
  destruct (getNumRawDataModules v); [|done]. apply andb_true_iff in H as [H _]. apply andb_true_iff in H as [_ H].
  apply agree_grid in H as (HF & HM & Hxy); [|unfold side; lia]. exists q. split; [done|].
  destruct Hr as [Hl [_ He]]. split; [apply Hl|apply Hl|done|by rewrite (like_function _ _ _ Hl)|apply Hl|..].
  - intros x y Hw. rewrite (like_function _ _ _ Hl). destruct (Hxy x y Hw) as (f & b & -> & _ & Hag).
    destruct (place v y x); cbn in *; f_equal; destruct f; done.
  - intros x y c Hw Hp. rewrite (like_modules _ _ _ Hl x y Hw) by (by rewrite Hp).
    destruct (Hxy x y Hw) as (f & b & _ & -> & Hag). rewrite Hp in Hag. cbn in Hag.
    apply andb_true_iff in Hag as [_ Hag]. by apply Bool.eqb_prop in Hag as ->.
  - intros x y Hw Hp. rewrite (like_modules _ _ _ Hl x y Hw) by (by rewrite Hp).
    destruct (Hxy x y Hw) as (f & b & _ & -> & Hag). rewrite Hp in Hag. cbn in Hag.
    apply andb_true_iff in Hag as [_ Hag]. by destruct b.
Qed.

(** *** The format information *)
Definition format_cells (s : Z) : list (Z * Z) := (format_places s).1 ++ (format_places s).2 ++ [(8, s - 8)].

Lemma format_writes_places s w : (format_writes s w).*1 = format_cells s.
Proof. reflexivity. Qed.

Lemma format_cells_computed :
  forallb (λ v, bool_decide (NoDup (format_cells (side v))) &&
    forallb (λ p, bool_decide (within (side v) p.1 p.2)) (format_cells (side v))) (seqZ 1 40) = true.
Proof. vm_compute. reflexivity. Qed.

Lemma format_cells_of v : 1 <= v <= 40 →
  NoDup (format_cells (side v)) ∧ Forall (inside_of (side v)) (format_cells (side v)).
Proof.
  intros Hv. pose proof format_cells_computed as H. rewrite forallb_forall in H.
  specialize (H v ltac:(apply list_elem_of_In, elem_of_seqZ; lia)). apply andb_true_iff in H as [H1%bool_decide_eq_true H2].
  split; [done|]. apply Forall_forall. intros p Hp%list_elem_of_In. rewrite forallb_forall in H2.
  by apply H2, bool_decide_eq_true in Hp.
Qed.

Lemma drawFormatBits_spec v e f q msk : 1 <= v <= 40 → drawn v e f q →
  ∃ m', drawFormatBits msk q = Some (q <| modules := m' |>) ∧ drawn v e f (q <| modules := m' |>) ∧
    (∀ p b, (p, b) ∈ format_writes (side v) (format_bits e msk) → grid_at m' p.1 p.2 = Some b).
Proof.
  intros Hv [Hver Hsize He Hmk Hsq Hfn Hfx Hdt]. destruct (layout_formats v Hv) as [Hf Hdark].
  destruct (format_cells_of v Hv) as [Hnd Hin].
  assert (Hpl : ∀ x y, (x, y) ∈ format_cells (side v) → is_format (place v y x) = true ∨ (x, y) = (8, side v - 8)).
  { intros x y H. unfold format_cells in H. rewrite app_assoc, elem_of_app, list_elem_of_singleton in H. destruct H as [H|H]; [left|by right].
    rewrite Forall_forall in Hf. apply (Hf _ H). }
  rewrite drawFormatBits_writes, Hsize, He. set (w := format_bits e msk).
  destruct (draw_all_spec (side v) (isFunction q) (format_writes (side v) w) Hmk) with (q := q) as (m' & E & Hm' & Hw & Ho);
    rewrite ?format_writes_places; [done| |done..|].
  { apply Forall_forall. intros [x y] H. rewrite Forall_forall in Hin. specialize (Hin _ H). cbn [fst snd].
    rewrite Hfn by done. f_equal. destruct (Hpl x y H) as [H'|[= -> ->]]; [by destruct (place v y x)|by rewrite Hdark]. }
  exists m'. split; [done|]. split; [|done]. split; cbn; [done..| |].
  - intros x y c Hxy Hp. destruct (decide ((x, y) ∈ (format_writes (side v) w).*1)) as [Hc|Hc].
    + rewrite format_writes_places in Hc. destruct (Hpl x y Hc) as [H'|[= -> ->]]; [by rewrite Hp in H'|].
      rewrite Hdark in Hp. injection Hp as <-. apply (Hw (8, side v - 8) true). unfold format_writes.
      rewrite app_assoc. apply elem_of_app. right. by left.
    + rewrite Ho by done. by apply Hfx.
  - intros x y Hxy Hp. rewrite Ho; [by apply Hdt|]. rewrite format_writes_places. intros Hc.
    destruct (Hpl x y Hc) as [H'|[= -> ->]]; [by rewrite Hp in H'|by rewrite Hdark in Hp].
Qed.

(** *** Masks *)
Lemma invert_mask msk x y : 0 <= msk <= 7 → invert msk x y = mask_at msk y x.
Proof.
  intros H. assert (msk = 0 ∨ msk = 1 ∨ msk = 2 ∨ msk = 3 ∨ msk = 4 ∨ msk = 5 ∨ msk = 6 ∨ msk = 7) as Hc by lia.
  unfold invert, mask_at. rewrite ?(Z.add_comm y x), ?(Z.mul_comm y x), ?(Z.add_comm (y / 2)).
  by destruct Hc as [->|[->|[->|[->|[->|[->|[->| ->]]]]]]].
Qed.

Lemma each_swap {A} (body : Z → Z → A → option A) s a :
  each (λ y, each (λ x, body x y) (seqZ 0 s)) (seqZ 0 s) a =
  each (λ p, body p.1 p.2) ((λ p, (p.2, p.1)) <$> list_prod (seqZ 0 s) (seqZ 0 s)) a.
Proof. rewrite each_fmap. cbn [fst snd]. by rewrite <- (each_prod (λ y x, body x y)). Qed.

Lemma cells_spec s x y : (x, y) ∈ (λ p : Z * Z, (p.2, p.1)) <$> list_prod (seqZ 0 s) (seqZ 0 s) ↔ within s x y.
Proof.
  rewrite list_elem_of_fmap. unfold within. split.
  - intros ([y' x'] & [= -> ->] & H). apply elem_of_list_prod in H. rewrite !elem_of_seqZ in H. lia.
  - intros H. exists (y, x). split; [done|]. apply elem_of_list_prod. rewrite !elem_of_seqZ. lia.
Qed.
Lemma cells_NoDup s : NoDup ((λ p : Z * Z, (p.2, p.1)) <$> list_prod (seqZ 0 s) (seqZ 0 s)).
Proof.
  apply NoDup_fmap_2_strong; [by intros [? ?] [? ?] _ _ [= -> ->]|]. apply NoDup_list_prod; apply NoDup_seqZ.
Qed.

Lemma applyMask_spec v e f q msk : 0 <= msk <= 7 → drawn v e f q →
  ∃ m', applyMask msk q = Some (q <| modules := m' |>) ∧
    drawn v e (λ x y, xorb (f x y) (mask_at msk y x)) (q <| modules := m' |>).
Proof.
  intros Hmsk [Hver Hsize He Hmk Hsq Hfn Hfx Hdt]. unfold applyMask.
  destruct (Z.ltb_spec msk 0); [lia|]. destruct (Z.ltb_spec 7 msk); [lia|]. cbn [orb]. rewrite Hsize.
  rewrite for_in_each, Z.sub_0_r.
  set (h := λ (p : Z * Z) b, xorb b (mask_at msk p.2 p.1 && is_data (place v p.2 p.1))).
  set (body := λ x y m, b ← grid_at m x y; f0 ← grid_at (isFunction q) x y;
    grid_set x y (xorb b (invert msk x y && negb f0)) m).
  assert (E : each (λ y, for_in 0 (side v) (λ x, body x y)) (seqZ 0 (side v)) (modules q) =
    each (rewrite_at h) ((λ p, (p.2, p.1)) <$> list_prod (seqZ 0 (side v)) (seqZ 0 (side v))) (modules q)).
  { etrans; [apply each_ext; intros y m _; apply for_in_each|]. rewrite Z.sub_0_r, (each_swap body).
    apply each_ext. intros [x y] m Hp%cells_spec. unfold rewrite_at, body. cbn [fst snd].
    destruct (grid_at m x y); [|done]. cbn [mbind option_bind].
    rewrite Hfn by done. cbn [mbind option_bind]. by rewrite negb_involutive, invert_mask. }
  unfold body in E. rewrite E. destruct (each_rewrite (side v) h _ (cells_NoDup (side v))) with (m := modules q) as (m' & -> & Hm' & Hat); [|done|].
  { apply Forall_forall. intros [x y] Hp%cells_spec. done. }
  cbn [mbind option_bind]. exists m'. split; [done|].
  assert (Hat' : ∀ x y, within (side v) x y → grid_at m' x y = h (x, y) <$> grid_at (modules q) x y).
  { intros x y Hw. by rewrite Hat, bool_decide_true by (by apply cells_spec). }
  split; cbn; [done..| |].
  - intros x y c Hw Hp. rewrite Hat', (Hfx x y c) by done. cbn. subst h. cbn. by rewrite Hp, andb_false_r, xorb_false_r.
  - intros x y Hw Hp. rewrite Hat', Hdt by done. cbn. subst h. cbn. by rewrite Hp, andb_true_r.
Qed.

(** *** Codewords *)
Lemma data_places_spec v : 1 <= v <= 40 →
  NoDup (data_places v) ∧ ∀ p, p ∈ data_places v → within (side v) p.1 p.2 ∧ place v p.2 p.1 = Data.
Proof.
  intros Hv. pose proof (side_odd v ltac:(lia)) as Hodd. unfold data_places. split.
  - apply NoDup_ListNoDup, List.NoDup_filter, NoDup_ListNoDup. by apply zigzag_NoDup.
  - intros [x y]. rewrite list_elem_of_In, filter_In, <- list_elem_of_In. cbn [fst snd]. intros [H1 H2].
    apply zigzag_elem in H1 as [H1 _]; [|done]. split; [done|]. by destruct (place v y x).
Qed.

Lemma data_of_places v e f q : 1 <= v <= 40 → drawn v e f q → data_of (isFunction q) (zigzag_places (side v)) = data_places v.
Proof.
  intros Hv Hq. unfold data_of, data_places. apply List.filter_ext_in. intros [x y] Hp%list_elem_of_In.
  apply zigzag_elem in Hp as [Hw _]; [|apply side_odd; lia]. cbn [fst snd].
  rewrite (drawn_function _ _ _ _ Hq) by done. cbn. apply negb_involutive.
Qed.

Lemma drawCodewords_spec v e f q data raw : 1 <= v <= 40 → drawn v e f q →
  getNumRawDataModules v = Some raw → Z.of_nat (length data) = raw / 8 →
  ∃ f' m', drawCodewords data q = Some (q <| modules := m' |>) ∧ drawn v e f' (q <| modules := m' |>) ∧
    ∀ k p, data_places v !! k = Some p → (k < 8 * length data)%nat → f' p.1 p.2 = codeword_bit data k.
Proof.
  intros Hv Hq Hraw Hlen. pose proof (side_odd v ltac:(lia)) as Hodd. pose proof Hq as [Hver Hsize He Hmk Hsq Hfn Hfx Hdt].
  unfold drawCodewords. rewrite Hver, Hraw. cbn [mbind option_bind]. rewrite Hlen, Z.eqb_refl. cbn [negb].
  rewrite Hsize, drawCodewords_each by done.
  destruct (each_draw_bit (side v) data (isFunction q) (zigzag_places (side v)) (zigzag_NoDup _ Hodd)) with (i := 0%nat) (m := modules q)
    as (i' & m' & E & Hm' & Hk & Ho); [|done|lia|].
  { apply Forall_forall. intros [x y] [Hw _]%zigzag_elem; [|done]. split; [done|]. cbn [fst snd]. rewrite Hfn by done. by eexists. }
  change (Z.of_nat 0) with 0 in E. rewrite E. cbn [mbind option_bind].
  rewrite (data_of_places v e f q Hv Hq) in Hk, Ho. destruct (data_places_spec v Hv) as [Hnd Hdp].
  assert (Hout : ∀ x y, place v y x ≠ Data → (x, y) ∉ data_places v) by (intros x y Hn [_ Hp]%Hdp; by apply Hn).
  exists (λ x y, default false (grid_at m' x y)), m'. split; [done|]. split.
  - split; cbn; [done..| |].
    + intros x y c Hw Hp. rewrite Ho by (apply Hout; by rewrite Hp). by apply Hfx.
    + intros x y Hw Hp. destruct (grid_at_Some _ _ _ _ Hm' Hw) as [b ->]. done.
  - intros k p Hp Hlt. by rewrite (Hk k p Hp Hlt).
Qed.

(** ** The choice of the mask *)
Lemma for_from_bound {A} (body : Z → A → option A) (g : A → Z) c n : ∀ i a,
  (∀ j a, i <= j < i + Z.of_nat n → ∃ a', body j a = Some a' ∧ g a' <= g a + c) →
  ∃ r, for_from body i n a = Some r ∧ g r <= g a + c * Z.of_nat n.
Proof.
  induction n as [|n IH]; intros i a H; [exists a; split; [done|lia]|]. cbn [for_from].
  destruct (H i a ltac:(lia)) as (a1 & -> & H1). cbn [mbind option_bind].
  destruct (IH (i + 1) a1) as (r & -> & Hr); [intros j b Hj; apply H; lia|]. exists r. split; [done|]. lia.
Qed.
Lemma for_in_bound {A} (body : Z → A → option A) (g : A → Z) c lo hi a : lo <= hi →
  (∀ j a, lo <= j < hi → ∃ a', body j a = Some a' ∧ g a' <= g a + c) →
  ∃ r, for_in lo hi body a = Some r ∧ g r <= g a + c * (hi - lo).
Proof.
  intros Hle H. destruct (for_from_bound body g c (Z.to_nat (hi - lo)) lo a) as (r & E & Hr).
  { intros j b Hj. apply H. lia. }
  exists r. split; [done|]. rewrite Z2Nat.id in Hr by lia. done.
Qed.

Lemma count_patterns_bound hist : 0 <= finderPenaltyCountPatterns hist <= 2.
Proof. unfold finderPenaltyCountPatterns. repeat destr_if; lia. Qed.

Lemma line_penalty_bound s color result : 0 <= s → (∀ i, 0 <= i < s → is_Some (color i)) →
  ∃ r, line_penalty s color result = Some r ∧ r <= result + 80 * (s + 1).
Proof.
  intros Hs Hc. unfold line_penalty.
  destruct (for_in_bound (line_step s color) (λ st, st.1.1.1) 80 0 s (result, false, 0, replicate 7 0) Hs) as ([[[r c] n] h] & -> & Hr).
  { intros j [[[r c] n] h] Hj. destruct (Hc j Hj) as [b Hb]. unfold line_step. rewrite Hb. cbn [mbind option_bind].
    eexists. split; [done|]. pose proof (count_patterns_bound (finderPenaltyAddHistory s n h)).
    unfold PENALTY_N1, PENALTY_N3. repeat destr_if; cbn [fst snd]; lia. }
  cbn [mbind option_bind]. eexists. split; [done|]. cbn [fst snd] in Hr. unfold finderPenaltyTerminateAndCount.
  destruct (if c then _ else _) as [len hist]. pose proof (count_patterns_bound (finderPenaltyAddHistory s (len + s) hist)).
  unfold PENALTY_N3. lia.
Qed.

Lemma length_concat_square s m : square s m → Z.of_nat (length (concat m)) = s * s.
Proof.
  intros [Hl Hr]. assert (H : ∀ m, Forall (λ r : list bool, Z.of_nat (length r) = s) m → Z.of_nat (length (concat m)) = Z.of_nat (length m) * s).
  { intros m' Hm'. induction Hm' as [|r m' E _ IH]; cbn; [done|]. rewrite length_app. lia. }
  rewrite H by done. by rewrite Hl.
Qed.

(** The penalty is computed, and is below the sentinel it is compared with. *)
Lemma penalty_bound v e f q : 1 <= v <= 40 → drawn v e f q → ∃ p, getPenaltyScore q = Some p ∧ p < LONG_MAX.
Proof.
  intros Hv [Hver Hsize He Hmk Hsq Hfn Hfx Hdt]. unfold getPenaltyScore. rewrite Hsize. set (s := side v) in *.
  assert (Hs : 21 <= s <= 177) by (subst s; unfold side; lia).
  assert (Hat : ∀ x y, within s x y → is_Some (module x y q)).
  { intros x y Hw. destruct (grid_at_Some _ _ _ _ Hsq Hw) as [b Hb]. by exists b. }
  destruct (for_in_bound (λ y, line_penalty s (λ x, module x y q)) id (80 * (s + 1)) 0 s 0 ltac:(lia)) as (r1 & -> & H1).
  { intros y r Hy. apply line_penalty_bound; [lia|]. intros x Hx. by apply Hat. }
  cbn [mbind option_bind].
  destruct (for_in_bound (λ x, line_penalty s (λ y, module x y q)) id (80 * (s + 1)) 0 s r1 ltac:(lia)) as (r2 & -> & H2).
  { intros x r Hx. apply line_penalty_bound; [lia|]. intros y Hy. by apply Hat. }
  cbn [mbind option_bind].
  match goal with |- context [for_in 0 (s - 1) ?b r2] => destruct (for_in_bound b id (3 * (s - 1 - 0)) 0 (s - 1) r2 ltac:(lia)) as (r3 & -> & H3) end.
  { intros y r Hy. apply (for_in_bound _ id 3); [lia|]. intros x r' Hx. cbv beta.
    destruct (Hat x y ltac:(unfold within; lia)) as [? ->], (Hat (x + 1) y ltac:(unfold within; lia)) as [? ->],
      (Hat x (y + 1) ltac:(unfold within; lia)) as [? ->], (Hat (x + 1) (y + 1) ltac:(unfold within; lia)) as [? ->].
    cbn [mbind option_bind]. eexists. split; [done|]. unfold PENALTY_N2, id. destr_if; lia. }
  cbn [mbind option_bind]. eexists. split; [done|].
  pose proof (List.filter_length_le id (concat (modules q))) as Hd. set (dark := length (List.filter id _)) in *.
  assert (0 <= Z.of_nat dark <= s * s) as Hdark by (rewrite <- (length_concat_square _ _ Hsq); lia).
  clear Hd. unfold id, PENALTY_N4, LONG_MAX in *.
  set (k := Z.quot _ (s * s)).
  assert (k <= 10).
  { subst k. rewrite Z.quot_div_nonneg by nia. apply Z.lt_succ_r, Z.div_lt_upper_bound; nia. }
  nia.
Qed.
