(* ===== verification/QrBlocks.v ===== *)
(** * Blocks and their order

    [addEccAndInterleave]: every block of the data becomes a codeword, and the
    reader of [QrReader] finds the blocks again in the interleaved sequence. *)
From S2P Require Import Prelude QrSegments ReedSolomon QrCode QrReader QrDrawing.

(** ** The blocks *)

(** The data and the error correction of a block, and how it is stored. *)
Abbreviation part := (list Z * list Z)%type.
Definition stored (ns i : Z) (p : part) : list Z := p.1 ++ (if i <? ns then [0] else []) ++ p.2.
Fixpoint assemble (ns i : Z) (parts : list part) : list (list Z) :=
  match parts with [] => [] | p :: ps => stored ns i p :: assemble ns (i + 1) ps end.

(** The data length of block [i]. *)
Definition block_len (ns sd i : Z) : Z := sd + (if i <? ns then 0 else 1).

Record part_ok (ns sd : Z) (ecc : nat) (i : Z) (p : part) : Prop := mkPartOk {
  part_data : Z.of_nat (length p.1) = block_len ns sd i;
  part_ecc : length p.2 = ecc;
  part_bytes : bytes p.1; part_bytes' : bytes p.2;
  part_codeword : ∀ k, (k < ecc)%nat → eval (p.1 ++ p.2) (root k) = 0 }.

(** The data of the blocks from the [i]-th on, [n] of them. *)
Definition data_len (ns sd i : Z) (n : nat) : Z := Z.of_nat n * sd + Z.max 0 (i + Z.of_nat n - Z.max i ns).

Lemma blocks_from_spec ns sd degree D data : 0 <= sd → reedSolomonComputeDivisor degree = Some D → bytes data →
  ∀ n i k, 0 <= k → k + data_len ns sd i n = Z.of_nat (length data) →
  ∃ parts, blocks_from ns sd D data i k n = Some (assemble ns i parts) ∧ length parts = n ∧
    (∀ j p, parts !! j = Some p → part_ok ns sd (Z.to_nat degree) (i + Z.of_nat j) p) ∧
    concat parts.*1 = drop (Z.to_nat k) data.
Proof.
  intros Hsd HD Hdata. induction n as [|n IH]; intros i k Hk Hlen; cbn [blocks_from].
  - exists []. split_and!; [done..|]. unfold data_len in Hlen. rewrite drop_ge by lia. done.
  - fold (block_len ns sd i). set (len := block_len ns sd i).
    assert (Hl : 0 <= len ∧ len + data_len ns sd (i + 1) n = data_len ns sd i (S n)).
    { subst len. unfold block_len, data_len. destruct (Z.ltb_spec i ns); lia. }
    set (dat := take (Z.to_nat len) (drop (Z.to_nat k) data)).
    assert (Hd : bytes dat) by (by apply Forall_take, Forall_drop).
    assert (0 <= data_len ns sd (i + 1) n) by (unfold data_len; lia).
    destruct (remainder_spec degree D dat HD Hd) as (ecc & -> & Hecc & Hle & Hz). cbn [mbind option_bind].
    destruct (IH (i + 1) (k + len) ltac:(lia) ltac:(lia)) as (parts & -> & Hn & Hp & Hc). cbn [mbind option_bind].
    exists ((dat, ecc) :: parts). split; [done|]. split; [cbn; lia|]. split.
    + intros [|j] p Hj; [injection Hj as <-; rewrite Z.add_0_r|].
      * split; cbn [fst snd]; try done. subst dat. rewrite length_take, length_drop. fold len. lia.
      * replace (i + Z.of_nat (S j)) with (i + 1 + Z.of_nat j) by lia. by apply Hp.
    + cbn [fmap list_fmap concat fst]. unfold concat in Hc |- *. rewrite Hc. subst dat.
      rewrite Z2Nat.inj_add by lia. rewrite <- drop_drop. apply take_drop.
Qed.

(** ** Lookups in columns *)
Lemma vec_at_app_l {A} (l r : list A) i : i < Z.of_nat (length l) → vec_at (l ++ r) i = vec_at l i.
Proof. intros Hi. unfold vec_at. destruct (Z.ltb_spec i 0); [done|]. apply lookup_app_l. lia. Qed.
Lemma vec_at_app_r {A} (l r : list A) i : 0 <= i → vec_at (l ++ r) (Z.of_nat (length l) + i) = vec_at r i.
Proof.
  intros Hi. unfold vec_at. destruct (Z.ltb_spec (Z.of_nat (length l) + i) 0); [lia|]. destruct (Z.ltb_spec i 0); [lia|].
  rewrite lookup_app_r by lia. f_equal. lia.
Qed.

Definition columns (F : Z → Z → Z) (n a : Z) (m : nat) : list Z :=
  concat ((λ i, F i <$> seqZ 0 n) <$> seqZ a (Z.of_nat m)).

Lemma columns_S F n a m : columns F n a (S m) = (F a <$> seqZ 0 n) ++ columns F n (a + 1) m.
Proof.
  unfold columns. rewrite (seqZ_cons a) by lia. replace (Z.succ a) with (a + 1) by lia.
  by replace (Z.pred (Z.of_nat (S m))) with (Z.of_nat m) by lia.
Qed.
Lemma length_columns F n m : 0 <= n → ∀ a, Z.of_nat (length (columns F n a m)) = Z.of_nat m * n.
Proof.
  intros Hn. induction m as [|m IH]; intros a; [done|]. rewrite columns_S, length_app, length_fmap, length_seqZ, Nat2Z.inj_add, IH, Nat2Z.inj_succ, Z.mul_succ_l. lia.
Qed.
Lemma columns_at F n j : 0 <= j < n → ∀ m i a r, 0 <= i < Z.of_nat m →
  vec_at (columns F n a m ++ r) (i * n + j) = Some (F (a + i) j).
Proof.
  intros Hj. induction m as [|m IH]; intros i a r Hi; [lia|]. rewrite columns_S, <- app_assoc.
  assert (El : Z.of_nat (length (F a <$> seqZ 0 n)) = n) by (rewrite length_fmap, length_seqZ; lia).
  destruct (decide (i = 0)) as [->|Hne].
  - rewrite Z.mul_0_l, Z.add_0_l, vec_at_app_l by lia. rewrite Z.add_0_r. unfold vec_at.
    destruct (Z.ltb_spec j 0); [lia|]. rewrite list_lookup_fmap, lookup_seqZ_lt by lia. cbn. do 2 f_equal. lia.
  - replace (i * n + j) with (Z.of_nat (length (F a <$> seqZ 0 n)) + ((i - 1) * n + j)) by lia.
    rewrite vec_at_app_r by nia. rewrite IH by lia. do 2 f_equal. lia.
Qed.

(** ** Interleaving *)
Section Interleave.
Context (ns sd : Z) (ecc : nat) (parts : list part).
Let nb : Z := Z.of_nat (length parts).
Context (Hsd : 0 <= sd) (Hns : 0 <= ns <= nb) (Hparts : ∀ j p, parts !! j = Some p → part_ok ns sd ecc (Z.of_nat j) p).

Definition dat (j : Z) : list Z := (nth (Z.to_nat j) parts ([], [])).1.
Definition err (j : Z) : list Z := (nth (Z.to_nat j) parts ([], [])).2.

(** The sequence: the columns of the data, the last codewords of the longer blocks,
    the columns of the error correction. *)
Definition interleaved : list Z :=
  columns (λ i j, nth (Z.to_nat i) (dat j) 0) nb 0 (Z.to_nat sd) ++
  ((λ j, nth (Z.to_nat sd) (dat j) 0) <$> seqZ ns (nb - ns)) ++
  columns (λ i j, nth (Z.to_nat i) (err j) 0) nb 0 ecc.

Lemma part_at j : 0 <= j < nb → part_ok ns sd ecc j (dat j, err j).
Proof.
  intros Hj. destruct (lookup_lt_is_Some_2 parts (Z.to_nat j)) as [p Hp]; [unfold nb in Hj; lia|].
  pose proof (Hparts _ _ Hp) as H. rewrite Z2Nat.id in H by lia. unfold dat, err.
  rewrite (nth_lookup_Some _ _ _ _ Hp). by destruct p.
Qed.

Lemma assemble_at i : ∀ ps (j : nat) p, ps !! j = Some p → assemble ns i ps !! j = Some (stored ns (i + Z.of_nat j) p).
Proof.
  intros ps. revert i. induction ps as [|p ps IH]; intros i [|j] p' Hp; try done.
  - injection Hp as <-. by rewrite Z.add_0_r.
  - etrans; [exact (IH (i + 1) j p' Hp)|]. do 2 f_equal. lia.
Qed.
Lemma length_assemble i : ∀ ps, length (assemble ns i ps) = length ps.
Proof. intros ps. revert i. induction ps as [|p ps IH]; intros i; cbn; [done|]. by rewrite IH. Qed.

Abbreviation blocks := (assemble ns 0 parts).

Lemma block_at j : 0 <= j < nb → vec_at blocks j = Some (dat j ++ (if j <? ns then [0] else []) ++ err j).
Proof.
  intros Hj. destruct (lookup_lt_is_Some_2 parts (Z.to_nat j)) as [p Hp]; [unfold nb in Hj; lia|].
  rewrite <- (Z2Nat.id j) at 1 by lia. rewrite vec_at_nat, (assemble_at 0 _ _ _ Hp), Z2Nat.id, Z.add_0_l by lia.
  unfold stored, dat, err. by rewrite (nth_lookup_Some _ _ _ _ Hp).
Qed.

Lemma nth_vec (l : list Z) i : 0 <= i < Z.of_nat (length l) → vec_at l i = Some (nth (Z.to_nat i) l 0).
Proof.
  intros Hi. unfold vec_at. destruct (Z.ltb_spec i 0); [lia|]. destruct (lookup_lt_is_Some_2 l (Z.to_nat i)) as [x Hx]; [lia|].
  by rewrite Hx, (nth_lookup_Some _ _ _ _ Hx).
Qed.

(** Where a codeword is in its block. *)
Lemma cell_data i j : 0 <= j < nb → 0 <= i < block_len ns sd j →
  vec_at blocks j ≫= (λ b, vec_at b i) = Some (nth (Z.to_nat i) (dat j) 0).
Proof.
  intros Hj Hi. rewrite block_at by done. cbn [mbind option_bind]. pose proof (part_data _ _ _ _ _ (part_at j Hj)) as El. cbn in El.
  rewrite vec_at_app_l by lia. apply nth_vec. lia.
Qed.
Lemma cell_ecc i j : 0 <= j < nb → 0 <= i < Z.of_nat ecc →
  vec_at blocks j ≫= (λ b, vec_at b (sd + 1 + i)) = Some (nth (Z.to_nat i) (err j) 0).
Proof.
  intros Hj Hi. rewrite block_at by done. cbn [mbind option_bind]. rewrite app_assoc.
  pose proof (part_data _ _ _ _ _ (part_at j Hj)) as El. pose proof (part_ecc _ _ _ _ _ (part_at j Hj)) as Ee. cbn in El, Ee.
  set (l := dat j ++ _). assert (Hl : Z.of_nat (length l) = sd + 1).
  { subst l. rewrite length_app. unfold block_len in El. destruct (j <? ns); cbn [length]; lia. }
  rewrite <- Hl, vec_at_app_r by lia. apply nth_vec. lia.
Qed.

(** One column. *)
Lemma column_spec (cond : Z → bool) (g : Z → Z) i (js : list Z) :
  (∀ j, j ∈ js → cond j = true → vec_at blocks j ≫= (λ b, vec_at b i) = Some (g j)) → ∀ result,
  each (λ j result, if cond j then block ← vec_at blocks j; c ← vec_at block i; Some (result ++ [c]) else Some result) js result =
  Some (result ++ (g <$> List.filter cond js)).
Proof.
  induction js as [|j js IH]; intros Hg result; cbn [each List.filter]; [by rewrite app_nil_r|].
  specialize (IH (λ j' Hj', Hg j' (list_elem_of_further _ _ _ Hj'))). destruct (cond j) eqn:Ec.
  - specialize (Hg j ltac:(by left) Ec). destruct (vec_at blocks j) as [b|]; [|done]. cbn [mbind option_bind] in Hg |- *.
    rewrite Hg. cbn [mbind option_bind]. rewrite IH. cbn [fmap list_fmap]. by rewrite <- app_assoc.
  - cbn [mbind option_bind]. apply IH.
Qed.

Lemma filter_true {A} (f : A → bool) l : (∀ x, x ∈ l → f x = true) → List.filter f l = l.
Proof.
  induction l as [|x l IH]; intros H; [done|]. cbn. rewrite H by by left. f_equal. apply IH. intros y Hy. apply H. by right.
Qed.
Lemma filter_from : List.filter (λ j, ns <=? j) (seqZ 0 nb) = seqZ ns (nb - ns).
Proof.
  replace nb with (ns + (nb - ns)) at 1 by lia. rewrite seqZ_app by lia. rewrite List.filter_app.
  rewrite (filter_true _ (seqZ (0 + ns) (nb - ns))) by (intros x Hx%elem_of_seqZ; apply Z.leb_le; lia).
  assert (List.filter (λ j, ns <=? j) (seqZ 0 ns) = []) as ->; [|done].
  assert (H : ∀ l, (∀ x, x ∈ l → x < ns) → List.filter (λ j, ns <=? j) l = []).
  { induction l as [|x l IH]; intros Hl; [done|]. cbn. destruct (Z.leb_spec ns x); [specialize (Hl x ltac:(by left)); lia|].
    apply IH. intros y Hy. apply Hl. by right. }
  apply H. intros x Hx%elem_of_seqZ. lia.
Qed.

Lemma interleave_spec : 1 <= nb → interleave ns sd blocks = Some interleaved.
Proof.
  intros Hnb. unfold interleave.
  assert (Z.of_nat (length blocks) = nb) as Hlb by (by rewrite length_assemble).
  rewrite block_at by lia. cbn [mbind option_bind]. rewrite Hlb.
  pose proof (part_at 0 ltac:(lia)) as Hp. pose proof (part_data _ _ _ _ _ Hp) as El. pose proof (part_ecc _ _ _ _ _ Hp) as Ee. cbn in El, Ee.
  assert (E : Z.of_nat (length (dat 0 ++ (if 0 <? ns then [0] else []) ++ err 0)) = sd + (1 + Z.of_nat ecc)).
  { rewrite !length_app. unfold block_len in El. destruct (0 <? ns); cbn [length]; lia. }
  rewrite E, for_in_each, Z.sub_0_r, seqZ_app, each_app by lia.
  assert (Hcol : ∀ i result, for_in 0 nb (λ j result, if negb (i =? sd) || (ns <=? j)
      then block ← vec_at blocks j; c ← vec_at block i; Some (result ++ [c]) else Some result) result =
    each (λ j result, if negb (i =? sd) || (ns <=? j)
      then block ← vec_at blocks j; c ← vec_at block i; Some (result ++ [c]) else Some result) (seqZ 0 nb) result).
  { intros i result. by rewrite for_in_each, Z.sub_0_r. }
  (* the data columns *)
  assert (Hd : ∀ m a result, 0 <= a → a + Z.of_nat m <= sd →
    each (λ i, for_in 0 nb (λ j result, if negb (i =? sd) || (ns <=? j)
      then block ← vec_at blocks j; c ← vec_at block i; Some (result ++ [c]) else Some result)) (seqZ a (Z.of_nat m)) result =
    Some (result ++ columns (λ i j, nth (Z.to_nat i) (dat j) 0) nb a m)).
  { induction m as [|m IH]; intros a result Ha Hm; [unfold columns; cbn; by rewrite app_nil_r|].
    rewrite seqZ_cons by lia. cbn [each]. rewrite Hcol, (column_spec _ (λ j, nth (Z.to_nat a) (dat j) 0)).
    - cbn [mbind option_bind]. replace (Z.pred (Z.of_nat (S m))) with (Z.of_nat m) by lia.
      replace (Z.succ a) with (a + 1) by lia. rewrite IH by lia.
      rewrite filter_true by (intros x _; destruct (Z.eqb_spec a sd); [lia|done]). by rewrite columns_S, app_assoc.
    - intros j Hj%elem_of_seqZ _. apply cell_data; [lia|]. unfold block_len. destruct (j <? ns); lia. }
  replace (seqZ 0 sd) with (seqZ 0 (Z.of_nat (Z.to_nat sd))) by (by rewrite Z2Nat.id). rewrite Hd by lia. cbn [mbind option_bind app].
  (* the longer blocks *)
  rewrite seqZ_cons by lia. cbn [each]. rewrite Z.add_0_l, Hcol, (column_spec _ (λ j, nth (Z.to_nat sd) (dat j) 0)).
  2: { intros j Hj%elem_of_seqZ Hc. rewrite Z.eqb_refl in Hc. cbn in Hc. apply cell_data; [lia|]. unfold block_len.
       destruct (Z.ltb_spec j ns); lia. }
  cbn [mbind option_bind]. rewrite Z.eqb_refl. cbn [negb orb]. rewrite filter_from.
  (* the error correction *)
  assert (He : ∀ m a result, 0 <= a → a + Z.of_nat m <= Z.of_nat ecc →
    each (λ i, for_in 0 nb (λ j result, if negb (i =? sd) || (ns <=? j)
      then block ← vec_at blocks j; c ← vec_at block i; Some (result ++ [c]) else Some result)) (seqZ (sd + 1 + a) (Z.of_nat m)) result =
    Some (result ++ columns (λ i j, nth (Z.to_nat i) (err j) 0) nb a m)).
  { induction m as [|m IH]; intros a result Ha Hm; [unfold columns; cbn; by rewrite app_nil_r|].
    rewrite seqZ_cons by lia. cbn [each]. rewrite Hcol, (column_spec _ (λ j, nth (Z.to_nat a) (err j) 0)).
    - cbn [mbind option_bind]. replace (Z.pred (Z.of_nat (S m))) with (Z.of_nat m) by lia.
      replace (Z.succ (sd + 1 + a)) with (sd + 1 + (a + 1)) by lia. rewrite IH by lia.
      rewrite filter_true by (intros x _; destruct (Z.eqb_spec (sd + 1 + a) sd); [lia|done]). by rewrite columns_S, app_assoc.
    - intros j Hj%elem_of_seqZ _. apply cell_ecc; lia. }
  replace (Z.succ sd) with (sd + 1 + 0) by lia. replace (Z.pred (1 + Z.of_nat ecc)) with (Z.of_nat ecc) by lia.
  rewrite He by lia. unfold interleaved. by rewrite <- app_assoc.
Qed.

(** *** Reading the blocks back *)
Context (total : Z) (Hnb : 1 <= nb) (Hshort : total / nb - Z.of_nat ecc = sd) (Hlonger : total mod nb = nb - ns).

Lemma total_eq : total - nb * Z.of_nat ecc = nb * sd + (nb - ns).
Proof. pose proof (Z.div_mod total nb ltac:(lia)). nia. Qed.

Lemma length_interleaved : Z.of_nat (length interleaved) = total.
Proof.
  unfold interleaved. rewrite !length_app, !Nat2Z.inj_add, !length_columns, length_fmap, length_seqZ by lia.
  pose proof total_eq. rewrite !Z2Nat.id by lia. nia.
Qed.

Lemma at_data i j : 0 <= j < nb → 0 <= i < sd → vec_at interleaved (i * nb + j) = Some (nth (Z.to_nat i) (dat j) 0).
Proof. intros Hj Hi. unfold interleaved. rewrite columns_at by lia. done. Qed.
Lemma at_last j : ns <= j < nb → vec_at interleaved (sd * nb + (j - ns)) = Some (nth (Z.to_nat sd) (dat j) 0).
Proof.
  intros Hj. unfold interleaved.
  set (l := columns _ nb 0 (Z.to_nat sd)). assert (E : Z.of_nat (length l) = sd * nb) by (subst l; rewrite length_columns; lia).
  rewrite <- E, vec_at_app_r, vec_at_app_l by (rewrite ?length_fmap, ?length_seqZ; lia). unfold vec_at.
  destruct (Z.ltb_spec (j - ns) 0); [lia|]. rewrite list_lookup_fmap, lookup_seqZ_lt by lia. cbn. do 3 f_equal. lia.
Qed.
Lemma at_ecc i j : 0 <= j < nb → 0 <= i < Z.of_nat ecc →
  vec_at interleaved (total - nb * Z.of_nat ecc + i * nb + j) = Some (nth (Z.to_nat i) (err j) 0).
Proof.
  intros Hj Hi. unfold interleaved. rewrite app_assoc. set (l := columns _ nb 0 (Z.to_nat sd) ++ _).
  assert (E : Z.of_nat (length l) = total - nb * Z.of_nat ecc).
  { subst l. rewrite length_app, Nat2Z.inj_add, length_columns, length_fmap, length_seqZ, total_eq by lia. lia. }
  rewrite <- E, <- Z.add_assoc, vec_at_app_r by nia. rewrite <- (app_nil_r (columns _ nb 0 ecc)), columns_at by lia. done.
Qed.

Lemma pick_list (l d : list Z) (g : Z → Z) m : Z.of_nat (length d) = m →
  (∀ i, 0 <= i < m → vec_at l (g i) = Some (nth (Z.to_nat i) d 0)) → pick l (g <$> seqZ 0 m) = Some d.
Proof.
  intros Hm H. unfold pick. apply mapM_Some. apply Forall2_same_length_lookup. split.
  - rewrite length_fmap, length_seqZ. lia.
  - intros i x y Hx Hy. apply lookup_lt_Some in Hy as Hlt. rewrite list_lookup_fmap, lookup_seqZ_lt in Hx by lia.
    cbn in Hx. injection Hx as <-. rewrite Z.add_0_l, H by lia. by rewrite Nat2Z.id, (nth_lookup_Some _ _ _ _ Hy).
Qed.
Lemma pick_app (l : list Z) p1 p2 d1 d2 : pick l p1 = Some d1 → pick l p2 = Some d2 → pick l (p1 ++ p2) = Some (d1 ++ d2).
Proof. unfold pick. rewrite !mapM_Some. apply Forall2_app. Qed.

Lemma pick_data j : 0 <= j < nb → pick interleaved (block_data_places total nb (Z.of_nat ecc) j) = Some (dat j).
Proof.
  intros Hj. unfold block_data_places. rewrite Hshort, Hlonger. replace (nb - (nb - ns)) with ns by lia.
  pose proof (part_data _ _ _ _ _ (part_at j Hj)) as El. cbn in El. unfold block_len in El.
  destruct (Z.leb_spec ns j) as [H|H]; destruct (Z.ltb_spec j ns); try lia.
  - rewrite <- (take_drop (Z.to_nat sd) (dat j)). apply pick_app.
    + apply pick_list; [rewrite length_take; lia|]. intros i Hi. rewrite at_data by lia. f_equal.
      rewrite <- (take_drop (Z.to_nat sd) (dat j)) at 1. rewrite app_nth1 by (rewrite length_take; lia). done.
    + unfold pick. cbn [mapM]. rewrite at_last by lia. cbn [mbind option_bind]. f_equal.
      destruct (lookup_lt_is_Some_2 (dat j) (Z.to_nat sd)) as [x Hx]; [lia|].
      rewrite (nth_lookup_Some _ _ _ _ Hx), (drop_S _ _ _ Hx), drop_ge by lia. done.
  - rewrite app_nil_r. apply pick_list; [lia|]. intros i Hi. by apply at_data; [lia|].
Qed.
Lemma pick_ecc j : 0 <= j < nb → pick interleaved (block_ecc_places total nb (Z.of_nat ecc) j) = Some (err j).
Proof.
  intros Hj. pose proof (part_ecc _ _ _ _ _ (part_at j Hj)) as El. cbn in El.
  apply pick_list; [lia|]. intros i Hi. by apply at_ecc.
Qed.

Lemma read_blocks_from js : (∀ j, j ∈ js → 0 <= j < nb) →
  read_blocks interleaved total nb (Z.of_nat ecc) js = Some (concat (dat <$> js)).
Proof.
  induction js as [|j js IH]; intros Hjs; [done|]. cbn [read_blocks]. specialize (Hjs j ltac:(by left)) as Hj.
  rewrite pick_data, pick_ecc by done. cbn [mbind option_bind].
  assert (forallb (λ i, eval (dat j ++ err j) (root i) =? 0) (seq 0 (Z.to_nat (Z.of_nat ecc))) = true) as ->.
  { apply forallb_forall. intros k Hk%in_seq. apply Z.eqb_eq. pose proof (part_codeword _ _ _ _ _ (part_at j Hj)) as Hz.
    apply Hz. lia. }
  rewrite IH by (intros j' Hj'; apply Hjs; by right). done.
Qed.

Lemma dat_seq : dat <$> seqZ 0 nb = parts.*1.
Proof.
  apply list_eq_same_length with (length parts); [by rewrite length_fmap| |].
  { rewrite length_fmap, length_seqZ. unfold nb. lia. }
  intros i x y Hi Hx Hy. rewrite list_lookup_fmap, lookup_seqZ_lt in Hx by (unfold nb; lia). cbn in Hx. injection Hx as <-.
  destruct (lookup_lt_is_Some_2 parts i Hi) as [p Hp]. rewrite list_lookup_fmap, Hp in Hy. injection Hy as <-.
  unfold dat. rewrite Z.add_0_l, Nat2Z.id. by rewrite (nth_lookup_Some _ _ _ _ Hp).
Qed.

Lemma read_blocks_spec : read_blocks interleaved total nb (Z.of_nat ecc) (seqZ 0 nb) = Some (concat parts.*1).
Proof. rewrite read_blocks_from by (intros j Hj%elem_of_seqZ; lia). by rewrite dat_seq. Qed.

Lemma interleaved_bytes : bytes interleaved.
Proof.
  assert (Hnth : ∀ l i, bytes l → is_byte (nth i l 0)).
  { intros l i Hl. rewrite Forall_forall in Hl. destruct (nth_in_or_default i l 0) as [H|H]; [|by rewrite H].
    apply Hl. by apply list_elem_of_In. }
  assert (Hcols : ∀ F m a, (∀ i j, 0 <= j < nb → is_byte (F i j)) → bytes (columns F nb a m)).
  { intros F m a H. revert a. induction m as [|m IH]; intros a; [constructor|]. rewrite columns_S. apply Forall_app. split; [|apply IH].
    apply Forall_fmap, Forall_forall. intros j Hj%elem_of_seqZ. apply H. lia. }
  unfold interleaved. repeat apply Forall_app_2.
  - apply Hcols. intros i j Hj. apply Hnth. apply (part_at j Hj).
  - apply Forall_fmap, Forall_forall. intros j Hj%elem_of_seqZ. apply Hnth. apply (part_at j ltac:(lia)).
  - apply Hcols. intros i j Hj. apply Hnth. apply (part_at j Hj).
Qed.
End Interleave.

(** ** The tables *)
Definition tables_ok (v : Z) (e : Ecc) : bool :=
  match getNumRawDataModules v, getNumDataCodewords v e with
  | Some raw, Some n =>
    let nb := table NUM_ERROR_CORRECTION_BLOCKS e v in
    let ecc := table ECC_CODEWORDS_PER_BLOCK e v in
    let total := raw / 8 in
    (208 <=? raw) && (raw <=? 29648) && (1 <=? nb) && (1 <=? ecc) && (1 <=? total / nb - ecc) && (total / nb + 1 <=? 255) && (n =? total - ecc * nb)
  | _, _ => false
  end.
Lemma tables_computed : forallb (λ v, forallb (tables_ok v) [LOW; MEDIUM; QUARTILE; HIGH]) (seqZ 1 40) = true.
Proof. vm_compute. reflexivity. Qed.

Lemma tables_of v e : 1 <= v <= 40 → ∃ raw n,
  let nb := table NUM_ERROR_CORRECTION_BLOCKS e v in
  let ecc := table ECC_CODEWORDS_PER_BLOCK e v in
  getNumRawDataModules v = Some raw ∧ getNumDataCodewords v e = Some n ∧
  208 <= raw <= 29648 ∧ 1 <= nb ∧ 1 <= ecc ∧ 1 <= raw / 8 / nb - ecc ∧ raw / 8 / nb + 1 <= 255 ∧ n = raw / 8 - ecc * nb.
Proof.
  intros Hv. pose proof tables_computed as H. rewrite forallb_forall in H.
  specialize (H v ltac:(apply list_elem_of_In, elem_of_seqZ; lia)). rewrite forallb_forall in H.
  specialize (H e ltac:(destruct e; cbn; tauto)). unfold tables_ok in H.
  destruct (getNumRawDataModules v) as [raw|]; [|done]. destruct (getNumDataCodewords v e) as [n|]; [|done].
  exists raw, n. cbv zeta in *. split_and!; try done; lia.
Qed.

(** The data of a version and level comes back from its codewords. *)
Lemma addEcc_reads q data n : 1 <= qr_ver q <= 40 → getNumDataCodewords (qr_ver q) (qr_ecl q) = Some n →
  bytes data → Z.of_nat (length data) = n →
  ∃ raw all, getNumRawDataModules (qr_ver q) = Some raw ∧ addEccAndInterleave data q = Some all ∧
    Z.of_nat (length all) = raw / 8 ∧ bytes all ∧
    let nb := table NUM_ERROR_CORRECTION_BLOCKS (qr_ecl q) (qr_ver q) in
    read_blocks all (raw / 8) nb (table ECC_CODEWORDS_PER_BLOCK (qr_ecl q) (qr_ver q)) (seqZ 0 nb) = Some data.
Proof.
  intros Hv Hn Hd Hlen. destruct (tables_of (qr_ver q) (qr_ecl q) Hv) as (raw & n' & Hraw & Hn' & Hr & Hnb & Hecc & Hsd & H255 & E).
  rewrite Hn in Hn'. injection Hn' as <-. unfold addEccAndInterleave. rewrite Hn, Hraw. cbn [mbind option_bind].
  rewrite Hlen, Z.eqb_refl. cbn [negb].
  set (nb := table NUM_ERROR_CORRECTION_BLOCKS (qr_ecl q) (qr_ver q)) in *.
  set (ecc := table ECC_CODEWORDS_PER_BLOCK (qr_ecl q) (qr_ver q)) in *. set (total := raw / 8) in *. cbv zeta.
  set (ns := nb - total mod nb). set (sd := total / nb - ecc) in *.
  pose proof (Z.mod_pos_bound total nb ltac:(lia)) as Hmod. pose proof (Z.div_mod total nb ltac:(lia)) as Hdm.
  destruct (reedSolomonComputeDivisor ecc) as [D|] eqn:HD.
  2: { unfold reedSolomonComputeDivisor in HD. destruct (Z.ltb_spec ecc 1), (Z.ltb_spec 255 ecc); try lia; done. }
  cbn [mbind option_bind].
  destruct (blocks_from_spec ns sd ecc D data ltac:(lia) HD Hd (Z.to_nat nb) 0 0 ltac:(lia)) as (parts & -> & Hl & Hp & Hc).
  { unfold data_len. rewrite Z2Nat.id by lia. subst ns sd. nia. }
  cbn [mbind option_bind]. assert (Hnbp : Z.of_nat (length parts) = nb) by lia.
  assert (Hok : ∀ j p, parts !! j = Some p → part_ok ns sd (Z.to_nat ecc) (Z.of_nat j) p) by (intros j p Hj; by apply (Hp j p Hj)).
  assert (0 <= sd) as Hsd0 by lia. assert (0 <= ns <= Z.of_nat (length parts)) as Hns by lia.
  assert (1 <= Z.of_nat (length parts)) as H1 by lia.
  assert (total / Z.of_nat (length parts) - Z.of_nat (Z.to_nat ecc) = sd) as Hs by (rewrite Hnbp, Z2Nat.id by lia; done).
  assert (total mod Z.of_nat (length parts) = Z.of_nat (length parts) - ns) as Hlo by (rewrite Hnbp; lia).
  rewrite (interleave_spec ns sd (Z.to_nat ecc) parts) by done.
  exists raw, (interleaved ns sd (Z.to_nat ecc) parts). split; [done|]. split; [done|]. split; [by apply length_interleaved|].
  split; [by apply interleaved_bytes|].
  pose proof (read_blocks_spec ns sd (Z.to_nat ecc) parts Hsd0 Hns Hok total H1 Hs Hlo) as R.
  rewrite Hnbp, Z2Nat.id, Hc in R by lia. exact R.
Qed.
