(* ===== verification/QrTrials.v ===== *)
(** * The constructor of a QR code

    What the squares of two finished codes have in common, and what the trials of
    the eight masks choose. *)
From S2P Require Import Prelude QrSegments ReedSolomon QrCode QrReader QrDrawing QrLayout QrBlocks.

(** ** Finished codes *)
Lemma drawn_ext v e f g q : drawn v e f q → (∀ x y, f x y = g x y) → drawn v e g q.
Proof.
  intros [H1 H2 H3 H4 H5 H6 H7 H8] E. split; [done..|]. intros x y Hw Hp. rewrite <- E. by apply H8.
Qed.

(** The cells of the format information are all in its two lists. *)
Lemma place_format v x y : 1 <= v → within (side v) x y → place v y x = Format →
  (x, y) ∈ (format_places (side v)).1 ++ (format_places (side v)).2.
Proof.
  intros Hv [Hx Hy] Hp.
  assert (Hin : in_format (side v - 8) x y = true ∧ x ≠ 6 ∧ y ≠ 6 ∧ ¬ (x = 8 ∧ y = side v - 8)).
  { assert (Ha : ∀ c z, aligned (side v) c y z ≠ Format).
    { intros c z. unfold aligned. destruct (near c y); [|done]. destruct (near c z); [|done]. by destruct (in_corner _ _ _). }
    unfold place in Hp. cbv zeta in Hp.
    repeat match type of Hp with
    | (if ?b then _ else _) = _ => let E := fresh "E" in destruct b eqn:E
    | Fixed _ = _ => done
    | aligned _ _ _ _ = _ => by apply Ha in Hp
    end; rewrite ?andb_false_iff, ?orb_false_iff in *; split; try done; lia. }
  destruct Hin as (Hin & H6 & H6' & Hd). unfold in_format in Hin. set (s := side v) in *.
  assert (21 <= s) by (subst s; unfold side; lia).
  assert ((x = 8 ∧ (y <= 8 ∨ s - 8 <= y)) ∨ (y = 8 ∧ (x <= 8 ∨ s - 8 <= x))) as Hc by lia. clear Hin.
  clearbody s. unfold format_places. cbn [fst snd]. apply elem_of_app.
  assert ((x = 8 ∧ (y = 0 ∨ y = 1 ∨ y = 2 ∨ y = 3 ∨ y = 4 ∨ y = 5 ∨ y = 7 ∨ y = 8)) ∨
    (y = 8 ∧ (x = 8 ∨ x = 7 ∨ x = 5 ∨ x = 4 ∨ x = 3 ∨ x = 2 ∨ x = 1 ∨ x = 0)) ∨
    (y = 8 ∧ (x = s - 1 ∨ x = s - 2 ∨ x = s - 3 ∨ x = s - 4 ∨ x = s - 5 ∨ x = s - 6 ∨ x = s - 7 ∨ x = s - 8)) ∨
    (x = 8 ∧ (y = s - 7 ∨ y = s - 6 ∨ y = s - 5 ∨ y = s - 4 ∨ y = s - 3 ∨ y = s - 2 ∨ y = s - 1))) as Hcase.
  { clear Hp. destruct Hc as [[-> [?|?]]|[-> [?|?]]]; [left|right; right; right|right; left|right; right; left]; split; lia. }
  clear Hc H6 H6' Hd Hp Hx Hy.
  destruct Hcase as [[-> Hcase]|[[-> Hcase]|[[-> Hcase]|[-> Hcase]]]]; [left|left|right|right];
    repeat (destruct Hcase as [->|Hcase]; [repeat first [left; reflexivity|right]|]); subst; repeat first [left; reflexivity|right].
Qed.

(** A code of version [v], level [e] and mask [m] whose data modules show [f] under the mask. *)
Record finished (v : Z) (e : Ecc) (f : Z → Z → bool) (m : Z) (q : QrCode) : Prop := mkFinished {
  fin_ver : qr_ver q = v; fin_size : qr_size q = side v; fin_ecl : qr_ecl q = e; fin_mask : qr_mask q = m;
  fin_marks : isFunction q = [];
  fin_square : square (side v) (modules q);
  fin_fixed : ∀ x y c, within (side v) x y → place v y x = Fixed c → grid_at (modules q) x y = Some c;
  fin_data : ∀ x y, within (side v) x y → place v y x = Data →
    grid_at (modules q) x y = Some (xorb (f x y) (mask_at m y x));
  fin_format : ∀ p b, (p, b) ∈ format_writes (side v) (format_bits e m) → grid_at (modules q) p.1 p.2 = Some b }.

Lemma modules_unique v e f m q f' m' : 1 <= v → finished v e f m q →
  square (side v) m' →
  (∀ x y c, within (side v) x y → place v y x = Fixed c → grid_at m' x y = Some c) →
  (∀ x y, within (side v) x y → place v y x = Data → grid_at m' x y = Some (xorb (f' x y) (mask_at m y x))) →
  (∀ x y, f x y = f' x y) →
  (∀ p b, (p, b) ∈ format_writes (side v) (format_bits e m) → grid_at m' p.1 p.2 = Some b) →
  modules q = m'.
Proof.
  intros Hv [H1 H2 H3 H4 H5 Hs Hfx Hdt Hfm] Hs' Hfx' Hdt' Hf Hfm'. apply (grid_eq (side v)); [done..|]. intros x y Hw.
  destruct (place v y x) as [c| |] eqn:Hp.
  - by rewrite (Hfx x y c), (Hfx' x y c).
  - apply place_format in Hp; [|done..].
    assert (∃ b, ((x, y), b) ∈ format_writes (side v) (format_bits e m)) as [b Hb].
    { assert ((x, y) ∈ (format_writes (side v) (format_bits e m)).*1) as Hin.
      { rewrite format_writes_places. unfold format_cells. rewrite app_assoc. apply elem_of_app. by left. }
      apply list_elem_of_fmap in Hin as ([p b] & -> & Hin). by exists b. }
    pose proof (Hfm _ _ Hb) as E. pose proof (Hfm' _ _ Hb) as E'. cbn in E, E'. by rewrite E, E'.
  - rewrite Hdt, Hdt', Hf by done. done.
Qed.

Lemma finished_unique v e f m q q' : 1 <= v → finished v e f m q → finished v e f m q' → q = q'.
Proof.
  intros Hv H H'. assert (modules q = modules q') as E by (eapply modules_unique; [done|done|apply H'..|done|apply H']).
  destruct H as [H1 H2 H3 H4 H5 _ _ _ _], H' as [H1' H2' H3' H4' H5' _ _ _ _]. destruct q, q'. cbn in *. by subst.
Qed.

Definition finish (m : Z) (q : QrCode) : option QrCode :=
  q ← applyMask m (q <| qr_mask := m |>);
  q ← drawFormatBits m q;
  Some (q <| isFunction := [] |>).

Lemma drawn_masked v e f q m : drawn v e f q → drawn v e f (q <| qr_mask := m |>).
Proof. intros [H1 H2 H3 H4 H5 H6 H7 H8]. by split. Qed.

Lemma finish_spec v e f q m : 1 <= v <= 40 → 0 <= m <= 7 → drawn v e f q →
  ∃ q', finish m q = Some q' ∧ finished v e f m q'.
Proof.
  intros Hv Hm Hq. unfold finish. set (q0 := q <| qr_mask := m |>).
  destruct (applyMask_spec v e f q0 m Hm (drawn_masked _ _ _ _ _ Hq)) as (m1 & -> & Hq1). cbn [mbind option_bind].
  destruct (drawFormatBits_spec v e _ _ m Hv Hq1) as (m2 & -> & Hq2 & Hw). cbn [mbind option_bind].
  eexists. split; [done|]. destruct Hq2 as [H1 H2 H3 H4 H5 H6 H7 H8]. by split.
Qed.

Lemma penalty_eq q q' : qr_size q = qr_size q' → modules q = modules q' → getPenaltyScore q = getPenaltyScore q'.
Proof. intros E1 E2. unfold getPenaltyScore, module. by rewrite E1, E2. Qed.

(** ** The trials *)
Section Trials.
Context (v : Z) (e : Ecc) (f : Z → Z → bool) (q0 : QrCode) (Hv : 1 <= v <= 40) (Hq0 : drawn v e f q0).

(** The penalty of the code that mask [i] would give. *)
Definition penalty_of (i : Z) : option Z := finish i q0 ≫= getPenaltyScore.

Lemma try_mask_spec q msk p i : 0 <= i <= 7 → drawn v e f q →
  ∃ q' pi, penalty_of i = Some pi ∧ pi < LONG_MAX ∧ drawn v e f q' ∧
    try_mask i (q, msk, p) = Some (q', (if pi <? p then i else msk), (if pi <? p then pi else p)).
Proof.
  intros Hi Hq. unfold try_mask.
  destruct (applyMask_spec v e f q i Hi Hq) as (m1 & -> & Hq1). cbn [mbind option_bind].
  destruct (drawFormatBits_spec v e _ _ i Hv Hq1) as (m2 & -> & Hq2 & Hw). cbn [mbind option_bind].
  set (q1 := q <| modules := m1 |>) in *. set (q2 := q1 <| modules := m2 |>) in *.
  destruct (penalty_bound v e _ q2 Hv Hq2) as (pi & Hpi & Hlt). rewrite Hpi. cbn [mbind option_bind].
  destruct (applyMask_spec v e _ q2 i Hi Hq2) as (m3 & E3 & Hq3).
  exists (q2 <| modules := m3 |>), pi. split; [|split; [done|split]].
  - unfold penalty_of. destruct (finish_spec v e f q0 i Hv Hi Hq0) as (q' & -> & Hf). cbn [mbind option_bind].
    rewrite <- Hpi. apply penalty_eq; [by rewrite (fin_size _ _ _ _ _ Hf), (drawn_size _ _ _ _ Hq2)|].
    eapply (modules_unique v e f i q' f); [lia|done|apply Hq2|apply Hq2|apply Hq2|done|apply Hw].
  - eapply drawn_ext; [exact Hq3|]. intros x y. cbv beta. by destruct (f x y), (mask_at i y x).
  - destruct (pi <? p); rewrite E3; done.
Qed.

(** What is known before trial [i]. *)
Definition best_so_far (i : Z) (st : QrCode * Z * Z) : Prop :=
  let '(q, msk, p) := st in
  drawn v e f q ∧ (i = 0 → msk = -1 ∧ p = LONG_MAX) ∧
  (0 < i → 0 <= msk < i ∧ penalty_of msk = Some p ∧
    ∀ j, 0 <= j < i → ∃ pj, penalty_of j = Some pj ∧ p <= pj ∧ (j < msk → p < pj)).

Lemma trials_spec : ∃ q msk p, for_in 0 8 try_mask (q0, -1, LONG_MAX) = Some (q, msk, p) ∧ drawn v e f q ∧
  0 <= msk <= 7 ∧ penalty_of msk = Some p ∧
  ∀ j, 0 <= j <= 7 → ∃ pj, penalty_of j = Some pj ∧ p <= pj ∧ (j < msk → p < pj).
Proof.
  destruct (for_from_inv try_mask best_so_far 8 0 (q0, -1, LONG_MAX)) as ([[q msk] p] & E & Hq & _ & Hb).
  { split; [done|]. split; [done|lia]. }
  { intros i [[q msk] p] Hi (Hq & H0 & Hb). destruct (try_mask_spec q msk p i ltac:(lia) Hq) as (q' & pi & Hpi & Hlt & Hq' & ->).
    eexists. split; [done|]. split; [done|]. split; [lia|]. intros _. destruct (decide (i = 0)) as [->|Hne].
    - destruct (H0 eq_refl) as [-> ->]. destruct (Z.ltb_spec pi LONG_MAX); [|lia]. split; [lia|]. split; [done|].
      intros j Hj. assert (j = 0) as -> by lia. exists pi. split; [done|]. lia.
    - destruct (Hb ltac:(lia)) as (Hm & Hp & Hall). destruct (Z.ltb_spec pi p) as [Hless|Hge].
      + split; [lia|]. split; [done|]. intros j Hj. destruct (decide (j = i)) as [->|]; [exists pi; split; [done|lia]|].
        destruct (Hall j ltac:(lia)) as (pj & -> & ? & _). exists pj. split; [done|lia].
      + split; [lia|]. split; [done|]. intros j Hj. destruct (decide (j = i)) as [->|]; [exists pi; split; [done|lia]|].
        destruct (Hall j ltac:(lia)) as (pj & -> & ? & ?). exists pj. split; [done|]. split; [done|lia]. }
  exists q, msk, p. split; [exact E|]. destruct (Hb ltac:(lia)) as (Hm & Hp & Hall). split; [done|]. split; [lia|]. split; [done|].
  intros j Hj. apply Hall. lia.
Qed.
End Trials.

(** ** The constructor *)

(** The codewords of [data], and the code with them drawn. *)
Record filled (v : Z) (e : Ecc) (data all : list Z) (f : Z → Z → bool) : Prop := mkFilled {
  fill_raw : ∃ raw, getNumRawDataModules v = Some raw ∧ Z.of_nat (length all) = raw / 8;
  fill_bytes : bytes all;
  fill_blocks : let nb := table NUM_ERROR_CORRECTION_BLOCKS e v in
    read_blocks all (Z.of_nat (length all)) nb (table ECC_CODEWORDS_PER_BLOCK e v) (seqZ 0 nb) = Some data;
  fill_bits : ∀ k p, data_places v !! k = Some p → (k < 8 * length all)%nat → f p.1 p.2 = codeword_bit all k }.

Lemma new_qr_filled v e data n : 1 <= v <= 40 → getNumDataCodewords v e = Some n → bytes data →
  Z.of_nat (length data) = n → ∃ all f q0, filled v e data all f ∧ drawn v e f q0 ∧
  (∀ msk, 0 <= msk <= 7 → new_qr v e data msk = finish msk q0) ∧
  new_qr v e data (-1) = ('(q, msk, _) ← for_in 0 8 try_mask (q0, -1, LONG_MAX); finish msk q).
Proof.
  intros Hv Hn Hd Hlen. destruct (base_spec v e Hv) as (q1 & E1 & Hq1).
  pose proof (drawn_ver _ _ _ _ Hq1) as Hver. pose proof (drawn_ecl _ _ _ _ Hq1) as Hecl.
  destruct (addEcc_reads q1 data n) as (raw & all & Hraw & Eall & Hl & Hb & Hr); rewrite ?Hver, ?Hecl in *; [done..|].
  destruct (drawCodewords_spec v e _ q1 all raw Hv Hq1 Hraw Hl) as (f & m & Edraw & Hq0 & Hf).
  exists all, f, (q1 <| modules := m |>). split; [|split; [done|]].
  { split; [by exists raw|done| |done]. cbv zeta. rewrite Hl. exact Hr. }
  assert (E : ∀ msk, -1 <= msk <= 7 → new_qr v e data msk =
    ('(q, msk, _) ← (if msk =? -1 then for_in 0 8 try_mask (q1 <| modules := m |>, msk, LONG_MAX)
                     else Some (q1 <| modules := m |>, msk, LONG_MAX)); finish msk q)).
  { intros msk Hm. unfold new_qr, MIN_VERSION, MAX_VERSION.
    destruct (Z.ltb_spec v 1); [lia|]. destruct (Z.ltb_spec 40 v); [lia|].
    destruct (Z.ltb_spec msk (-1)); [lia|]. destruct (Z.ltb_spec 7 msk); [lia|]. cbn [orb].
    change (mkQrCode v (v * 4 + 17) e 0 _ _) with (blank_qr v e). rewrite E1. cbn [mbind option_bind].
    rewrite Eall. cbn [mbind option_bind]. rewrite Edraw. done. }
  split; [|apply (E (-1)); lia]. intros msk Hm. rewrite E by lia. by destruct (Z.eqb_spec msk (-1)); [lia|].
Qed.

(** C34: The mask is chosen as the standard asks: a code made without a mask ([msk] is
    -1) is, module by module, the code that the chosen mask forces, and no mask has a
    smaller penalty, nor has an earlier one the same. In particular the trials, which
    draw and undo every mask in one square, leave nothing behind. *)
Theorem new_qr_mask v e data n : 1 <= v <= 40 → getNumDataCodewords v e = Some n → bytes data →
  Z.of_nat (length data) = n →
  ∃ m q p, 0 <= m <= 7 ∧ new_qr v e data (-1) = Some q ∧ new_qr v e data m = Some q ∧
    getPenaltyScore q = Some p ∧
    ∀ i, 0 <= i <= 7 → ∃ qi pi, new_qr v e data i = Some qi ∧ getPenaltyScore qi = Some pi ∧ p <= pi ∧ (i < m → p < pi).
Proof.
  intros Hv Hn Hd Hlen. destruct (new_qr_filled v e data n Hv Hn Hd Hlen) as (all & f & q0 & _ & Hq0 & Hi & ->).
  destruct (trials_spec v e f q0 Hv Hq0) as (q1 & m & p & -> & Hq1 & Hm & Hp & Hall). cbn [mbind option_bind].
  destruct (finish_spec v e f q1 m Hv Hm Hq1) as (q & Eq & Hq). destruct (finish_spec v e f q0 m Hv Hm Hq0) as (q' & Eq' & Hq').
  assert (q' = q) as -> by (by apply (finished_unique v e f m); [lia|..]).
  exists m, q, p. split; [done|]. split; [done|]. split; [by rewrite Hi|]. split.
  { unfold penalty_of in Hp. by rewrite Eq' in Hp. }
  intros i Hi7. destruct (Hall i Hi7) as (pi & Hpi & H). unfold penalty_of in Hpi. rewrite <- Hi in Hpi by done.
  destruct (new_qr v e data i) as [qi|]; [|done]. exists qi, pi. done.
Qed.

(** Version 1 at level LOW, with the codewords of an empty text. *)
Lemma new_qr_mask_witness :
  let data := 0 :: concat (replicate 9 [0xEC; 0x11]) in
  ∃ m q p, 0 <= m <= 7 ∧ new_qr 1 LOW data (-1) = Some q ∧ new_qr 1 LOW data m = Some q ∧ getPenaltyScore q = Some p ∧
    ∀ i, 0 <= i <= 7 → ∃ qi pi, new_qr 1 LOW data i = Some qi ∧ getPenaltyScore qi = Some pi ∧ p <= pi ∧ (i < m → p < pi).
Proof.
  apply (new_qr_mask 1 LOW _ 19); [lia|reflexivity| |reflexivity]. apply (bool_decide_unpack _). vm_compute. reflexivity.
Defined.

Lemma new_qr_finished v e data n msk : 1 <= v <= 40 → getNumDataCodewords v e = Some n → bytes data →
  Z.of_nat (length data) = n → -1 <= msk <= 7 →
  ∃ all f m q, new_qr v e data msk = Some q ∧ 0 <= m <= 7 ∧ filled v e data all f ∧ finished v e f m q.
Proof.
  intros Hv Hn Hd Hlen Hmsk. destruct (new_qr_filled v e data n Hv Hn Hd Hlen) as (all & f & q0 & Hall & Hq0 & Hi & H1).
  exists all, f. destruct (decide (msk = -1)) as [->|].
  - destruct (trials_spec v e f q0 Hv Hq0) as (q1 & m & p & E & Hq1 & Hm & _). rewrite H1, E. cbn [mbind option_bind].
    destruct (finish_spec v e f q1 m Hv Hm Hq1) as (q & -> & Hq). by exists m, q.
  - rewrite Hi by lia. destruct (finish_spec v e f q0 msk Hv ltac:(lia) Hq0) as (q & -> & Hq).
    exists msk, q. split; [done|]. split; [lia|done].
Qed.
