(* ===== verification/QrEncoding.v ===== *)
(** * The bits of a text

    The data codewords that [encodeSegments] makes of a text: the version and level
    it takes, what the padding adds, and that the reader's segments are the text. *)
From S2P Require Import Prelude QrSegments ReedSolomon QrCode QrReader QrDrawing QrBlocks QrTrials.

(** ** Codewords and bits *)
Definition stream (l : list Z) : list bool := mjoin ((λ c, bits c 8) <$> l).

Lemma stream_cons c l : stream (c :: l) = bits c 8 ++ stream l.
Proof. done. Qed.
Lemma length_stream l : length (stream l) = (8 * length l)%nat.
Proof. induction l as [|c l IH]; [done|]. rewrite stream_cons, length_app, length_bits, IH. cbn. lia. Qed.

Lemma codewords_stream l : bytes l → ∀ rest, codewords (length l) (stream l ++ rest) = l.
Proof.
  induction 1 as [|c l Hc _ IH]; intros rest; [done|]. rewrite stream_cons, <- app_assoc. cbn [length codewords].
  rewrite take_app_length', drop_app_length', IH by (by rewrite length_bits).
  rewrite value_bits, Z.mod_small by (unfold is_byte in Hc; lia). done.
Qed.

Lemma stream_bits l : stream l = codeword_bit l <$> seq 0 (8 * length l).
Proof.
  induction l as [|c l IH]; [done|]. rewrite stream_cons, IH.
  replace (8 * length (c :: l))%nat with (8 + 8 * length l)%nat by (cbn; lia). rewrite seq_app, fmap_app. f_equal.
  rewrite (Nat.add_comm 0 8), <- fmap_add_seq, <- list_fmap_compose. apply list_fmap_ext. intros k i _. unfold compose, codeword_bit.
  replace ((8 + i) / 8)%nat with (S (i / 8)) by (replace (8 + i)%nat with (i + 1 * 8)%nat by lia; rewrite Nat.div_add by lia; lia).
  replace ((8 + i) mod 8)%nat with (i mod 8)%nat by (replace (8 + i)%nat with (i + 1 * 8)%nat by lia; by rewrite Nat.Div0.mod_add). done.
Qed.

Lemma stream_eq l bb : length bb = (8 * length l)%nat →
  (∀ k, (k < 8 * length l)%nat → bb !! k = Some (codeword_bit l k)) → stream l = bb.
Proof.
  intros Hl H. rewrite stream_bits. apply list_eq. intros k. rewrite list_lookup_fmap.
  destruct (decide (k < 8 * length l)%nat).
  - by rewrite lookup_seq_lt, H.
  - by rewrite lookup_seq_ge, lookup_ge_None_2 by lia.
Qed.

(** *** Packing *)
Lemma lor_byte a b : is_byte a → is_byte b → is_byte (Z.lor a b).
Proof.
  intros Ha Hb. assert (0 <= Z.lor a b) by (apply Z.lor_nonneg; unfold is_byte in *; lia).
  apply byte_log; [done|]. rewrite Z.shiftr_lor.
  apply byte_log in Ha; [|unfold is_byte in *; lia]. apply byte_log in Hb; [|unfold is_byte in *; lia].
  by rewrite Ha, Hb.
Qed.

Definition packed (n : nat) (bb : list bool) (i : Z) (cw : list Z) : Prop :=
  length cw = n ∧ bytes cw ∧
  ∀ k, (k < 8 * n)%nat → codeword_bit cw k = if Z.of_nat k <? i then nth k bb false else false.

Lemma pack_bits_spec n bb : length bb = (8 * n)%nat →
  ∃ data, pack_bits bb = Some data ∧ length data = n ∧ bytes data ∧ stream data = bb.
Proof.
  intros Hlen. unfold pack_bits, for_in. rewrite Hlen, Z.sub_0_r.
  replace (Z.to_nat (Z.of_nat (8 * n) / 8)) with n by (rewrite Nat2Z.inj_mul, Z.mul_comm, Z.div_mul by done; lia).
  match goal with |- context [for_from ?b 0 _ ?a] =>
    destruct (for_from_inv b (packed n bb) (Z.to_nat (Z.of_nat (8 * n))) 0 a) as (data & -> & Hl & Hb & Hk) end.
  - split; [apply length_replicate|]. split; [apply Forall_replicate; unfold is_byte; lia|]. intros k Hk.
    destruct (Z.ltb_spec (Z.of_nat k) 0); [lia|]. unfold codeword_bit.
    assert (∀ m i, nth i (replicate m 0) 0 = 0) as -> by (intros m; induction m; intros [|i]; cbn; auto).
    unfold getBit. by rewrite Z.shiftr_0_l.
  - intros i cw Hi (Hl & Hb & Hk). rewrite Nat2Z.id in Hi. destruct (Z_of_nat_complete i ltac:(lia)) as [j ->].
    destruct (lookup_lt_is_Some_2 bb j ltac:(lia)) as [b Eb]. rewrite vec_at_nat, Eb. cbn [mbind option_bind].
    assert (Z.shiftr (Z.of_nat j) 3 = Z.of_nat (j / 8)) as -> by (rewrite Z.shiftr_div_pow2 by done; by rewrite Nat2Z.inj_div).
    assert (Z.land (Z.of_nat j) 7 = Z.of_nat (j mod 8)) as -> by (rewrite Nat2Z.inj_mod; apply (Z.land_ones (Z.of_nat j) 3); lia).
    assert (j / 8 < n)%nat by (apply Nat.Div0.div_lt_upper_bound; lia). pose proof (Nat.mod_upper_bound j 8 ltac:(lia)).
    rewrite vec_at_nat. destruct (lookup_lt_is_Some_2 cw (j / 8)%nat ltac:(lia)) as [c Ec]. rewrite Ec. cbn [mbind option_bind].
    set (c' := Z.lor c _). unfold vec_set. rewrite vec_at_nat, Ec, Nat2Z.id. cbn [mbind option_bind].
    eexists. split; [done|]. assert (is_byte c) as Hc by (by rewrite Forall_lookup in Hb; apply (Hb _ _ Ec)).
    assert (Hsh : is_byte (Z.shiftl (if b then 1 else 0) (7 - Z.of_nat (j mod 8)))).
    { rewrite Z.shiftl_mul_pow2 by lia. unfold is_byte.
      pose proof (Z.pow_le_mono_r 2 (7 - Z.of_nat (j mod 8)) 7 ltac:(lia) ltac:(lia)). change (2 ^ 7) with 128 in *.
      pose proof (Z.pow_nonneg 2 (7 - Z.of_nat (j mod 8)) ltac:(lia)). destruct b; lia. }
    split; [by rewrite length_insert|]. split; [apply Forall_insert; [done|by apply lor_byte]|].
    intros k Hk8. specialize (Hk k Hk8). unfold codeword_bit in *.
    assert (k / 8 < n)%nat by (apply Nat.Div0.div_lt_upper_bound; lia). pose proof (Nat.mod_upper_bound k 8 ltac:(lia)).
    pose proof (Nat.div_mod_eq k 8). pose proof (Nat.div_mod_eq j 8).
    destruct (decide (k / 8 = j / 8)%nat) as [Eq|Hne].
    + rewrite Eq in *. rewrite (nth_lookup_Some _ _ 0 c') by (apply list_lookup_insert_eq; lia).
      rewrite (nth_lookup_Some _ _ 0 c Ec) in Hk. subst c'. rewrite getBit_testbit in Hk |- * by lia.
      rewrite Z.lor_spec, Hk, Z.shiftl_spec by lia.
      destruct (decide (k = j)) as [->|Hkj].
      * rewrite Z.sub_diag. destruct (Z.ltb_spec (Z.of_nat j) (Z.of_nat j)); [lia|].
        destruct (Z.ltb_spec (Z.of_nat j) (Z.of_nat j + 1)); [|lia]. rewrite (nth_lookup_Some _ _ _ _ Eb). by destruct b.
      * assert (Z.testbit (if b then 1 else 0) (7 - Z.of_nat (k mod 8) - (7 - Z.of_nat (j mod 8))) = false) as ->.
        { set (d := _ - _). assert (d ≠ 0) by (subst d; lia). destruct b; [|apply Z.bits_0].
          destruct (Z.ltb_spec d 0); [by apply Z.testbit_neg_r|]. rewrite <- (Z.pow_0_r 2). apply Z.pow2_bits_false. lia. }
        rewrite orb_false_r. destruct (Z.ltb_spec (Z.of_nat k) (Z.of_nat j)), (Z.ltb_spec (Z.of_nat k) (Z.of_nat j + 1)); done || lia.
    + assert (nth (k / 8) (<[(j / 8)%nat:=c']> cw) 0 = nth (k / 8) cw 0) as ->.
      { destruct (lookup_lt_is_Some_2 cw (k / 8)%nat ltac:(lia)) as [d Ed].
        rewrite (nth_lookup_Some _ _ _ _ Ed). apply nth_lookup_Some. by rewrite list_lookup_insert_ne. }
      rewrite Hk. destruct (Z.ltb_spec (Z.of_nat k) (Z.of_nat j)), (Z.ltb_spec (Z.of_nat k) (Z.of_nat j + 1)); try done; try lia.
  - exists data. split; [done|]. split; [done|]. split; [done|]. apply stream_eq; [lia|]. rewrite Hl. intros k Hk8.
    rewrite Hk by done. rewrite Nat2Z.id, Z.add_0_l. destruct (Z.ltb_spec (Z.of_nat k) (Z.of_nat (8 * n))); [|lia].
    destruct (lookup_lt_is_Some_2 bb k ltac:(lia)) as [b Eb]. by rewrite (nth_lookup_Some _ _ _ _ Eb).
Qed.

(** *** Padding *)
Lemma pad_bytes_spec n fuel : ∀ k pad bb, is_byte pad → length bb = (8 * k)%nat → (k <= n)%nat → (n - k < fuel)%nat →
  ∃ p, pad_bytes (Z.of_nat (8 * n)) pad bb fuel = Some (bb ++ p) ∧ length (bb ++ p) = (8 * n)%nat.
Proof.
  induction fuel as [|fuel IH]; intros k pad bb Hp Hl Hk Hf; [lia|]. cbn [pad_bytes].
  destruct (Z.ltb_spec (Z.of_nat (length bb)) (Z.of_nat (8 * n))) as [Hlt|Hge].
  - rewrite appendBits_ok by (unfold is_byte in Hp; lia). cbn [mbind option_bind].
    destruct (IH (S k) (u8 (Z.lxor pad (Z.lxor 236 17))) (bb ++ bits pad (Z.to_nat 8))) as (p & E & H);
      [|rewrite length_app, length_bits; lia|lia|lia|].
    { unfold is_byte, u8. apply Z.mod_pos_bound. lia. }
    rewrite E. exists (bits pad (Z.to_nat 8) ++ p). rewrite app_assoc. done.
  - exists []. rewrite app_nil_r. split; [done|lia].
Qed.

(** The terminator and what follows it: [n] codewords from a stream of at most as many bits. *)
Definition padded (n : nat) (bb bb' : list bool) : Prop :=
  length bb' = (8 * n)%nat ∧ ∃ t r, bb' = bb ++ replicate t false ++ r ∧ (t = 4%nat ∨ ((t < 4)%nat ∧ r = [])).

Lemma padding_spec n bb : (length bb <= 8 * n)%nat → ∃ bb1 bb2 bb3,
  appendBits 0 (Z.min 4 (Z.of_nat n * 8 - Z.of_nat (length bb))) bb = Some bb1 ∧
  appendBits 0 ((8 - Z.of_nat (length bb1) mod 8) mod 8) bb1 = Some bb2 ∧
  pad_bytes (Z.of_nat n * 8) 0xEC bb2 (S n) = Some bb3 ∧ padded n bb bb3.
Proof.
  intros Hl. set (t := Z.min 4 (Z.of_nat n * 8 - Z.of_nat (length bb))). assert (0 <= t <= 4) as Ht by lia.
  assert (0 < 2 ^ t) by (apply Z.pow_pos_nonneg; lia).
  set (bb1 := bb ++ bits 0 (Z.to_nat t)). set (a := (8 - Z.of_nat (length bb1) mod 8) mod 8).
  pose proof (Z.mod_pos_bound (8 - Z.of_nat (length bb1) mod 8) 8 ltac:(lia)) as Ha. fold a in Ha.
  assert (0 < 2 ^ a) by (apply Z.pow_pos_nonneg; lia).
  assert (Z.of_nat (length bb1) = Z.of_nat (length bb) + t) as L1 by (subst bb1; rewrite length_app, length_bits; lia).
  set (bb2 := bb1 ++ bits 0 (Z.to_nat a)).
  assert (Z.of_nat (length bb2) = Z.of_nat (length bb1) + a) as L2 by (subst bb2; rewrite length_app, length_bits; lia).
  assert (∃ k, Z.of_nat (length bb2) = 8 * Z.of_nat k ∧ (k <= n)%nat) as (k & Hk & Hkn).
  { exists (Z.to_nat (Z.of_nat (length bb2) / 8)). subst a. Z.to_euclidean_division_equations. lia. }
  destruct (pad_bytes_spec n (S n) k 0xEC bb2 ltac:(unfold is_byte; lia) ltac:(lia) Hkn ltac:(lia)) as (p & E & Hp).
  exists bb1, bb2, (bb2 ++ p). split; [by rewrite appendBits_ok by lia|]. split; [by rewrite appendBits_ok by lia|].
  replace (Z.of_nat n * 8) with (Z.of_nat (8 * n)) by lia. split; [done|]. split; [done|].
  exists (Z.to_nat t), (bits 0 (Z.to_nat a) ++ p). split; [subst bb2 bb1; by rewrite bits_zero, <- !app_assoc|].
  destruct (decide (t = 4)) as [->|]; [by left|right]. split; [lia|]. rewrite length_app in Hp.
  apply length_zero_iff_nil. rewrite length_app, length_bits. lia.
Qed.

Lemma read_padding fuel v t r : (t = 4%nat ∨ ((t < 4)%nat ∧ r = [])) →
  read_segments (S fuel) v (replicate t false ++ r) = Some [].
Proof.
  intros [->|[Ht ->]]; [done|]. cbn [read_segments]. rewrite length_app, length_replicate. cbn [length].
  by destruct (Nat.ltb_spec (t + 0) 4); [|lia].
Qed.

(** ** The segments of a text *)

(** The segments [segs] hold [text]: what they need in a version, and how the reader sees them. *)
Record holds (text : list Z) (segs : list QrSegment) : Prop := mkHolds {
  holds_bits : ∀ v, 1 <= v <= 40 → getTotalBits segs v ≠ -1 → ∃ d,
    (∀ bb, append_segments segs v bb = Some (bb ++ d)) ∧ Z.of_nat (length d) = getTotalBits segs v ∧
    ∀ rest, (∀ fuel, read_segments (S fuel) v rest = Some []) → ∀ fuel, read_segments (S (S fuel)) v (d ++ rest) = Some text;
  holds_size : ∀ v, 1 <= v <= 40 → Z.of_nat (length text) < 2 ^ Z.of_nat (count_width 8 11 13 v) →
    0 <= getTotalBits segs v <= 20 + 8 * Z.of_nat (length text) }.

Section OneSegment.
Context (m : Mode) (w1 w2 w3 : nat) (read : nat → list bool → option (list Z * list bool)) (text : list Z) (seg : QrSegment).
Hypothesis widths : numBitsCharCount m = [Z.of_nat w1; Z.of_nat w2; Z.of_nat w3].
Hypothesis small : (8 <= w1 <= 16)%nat ∧ (11 <= w2 <= 16)%nat ∧ (13 <= w3 <= 16)%nat.
Hypothesis tag : 1 <= modeBits m < 8.
Hypothesis reads : reads_as m read text seg.
Hypothesis reader : ∀ fuel v l, read_segments (S fuel) v (bits (modeBits m) 4 ++ l) =
  ('(n, l) ← read_bits (count_width w1 w2 w3 v) l; '(t, l) ← read (Z.to_nat n) l;
   rest ← read_segments fuel v l; Some (t ++ rest)).

Lemma width_of v : 1 <= v <= 40 → numCharCountBits m v = Z.of_nat (count_width w1 w2 w3 v) ∧ (8 <= count_width 8 11 13 v <= count_width w1 w2 w3 v)%nat ∧ (count_width w1 w2 w3 v <= 16)%nat.
Proof.
  intros Hv. assert ((8 <= count_width 8 11 13 v <= count_width w1 w2 w3 v)%nat ∧ (count_width w1 w2 w3 v <= 16)%nat) as Hw by (unfold count_width; repeat destr_if; lia). split; [|done].
  destruct m as [b n]. cbn in widths. subst n. pose proof (count_width_ok w1 w2 w3 b v Hv). lia.
Qed.

Lemma total_of v : 1 <= v <= 40 → getTotalBits [seg] v =
  if 2 ^ numCharCountBits m v <=? Z.of_nat (length text) then -1
  else 4 + numCharCountBits m v + Z.of_nat (length (seg_data seg)).
Proof.
  intros Hv. destruct reads as (Em & En & Hl & _). destruct (width_of v Hv) as [Ew Hw].
  pose proof (Z.pow_le_mono_r 2 (numCharCountBits m v) 16 ltac:(lia) ltac:(lia)) as H16. change (2 ^ 16) with 65536 in H16.
  destruct (Z.leb_spec (2 ^ numCharCountBits m v) (Z.of_nat (length text))) as [Hbig|Hfit].
  - unfold getTotalBits. cbn [total_bits]. rewrite Em, En, Z.shiftl_1_l. destruct (Z.leb_spec (2 ^ numCharCountBits m v) (Z.of_nat (length text))); [done|lia].
  - rewrite getTotalBits_one, Em, En by (rewrite ?Em; lia).
    destruct (Z.leb_spec (2 ^ numCharCountBits m v) (Z.of_nat (length text))); [lia|done].
Qed.

Lemma segment_holds : holds text [seg].
Proof.
  destruct reads as (Em & En & Hl & Hr). split.
  - intros v Hv. rewrite total_of by done. destruct (width_of v Hv) as [Ew Hw].
    destruct (Z.leb_spec (2 ^ numCharCountBits m v) (Z.of_nat (length text))) as [|Hfit]; [done|]. intros _.
    exists (bits (modeBits m) 4 ++ bits (Z.of_nat (length text)) (count_width w1 w2 w3 v) ++ seg_data seg). split; [|split].
    + intros bb. cbn [append_segments]. rewrite Em, En, Ew in *. rewrite appendBits_ok by lia. cbn [mbind option_bind].
      rewrite appendBits_ok by lia. cbn [mbind option_bind]. rewrite Nat2Z.id, !app_assoc. done.
    + rewrite !length_app, !length_bits. lia.
    + intros rest Hrest fuel. rewrite <- !app_assoc, reader, read_bits_app by (rewrite <- Ew; lia). cbn [mbind option_bind].
      rewrite Nat2Z.id, Hr. cbn [mbind option_bind]. rewrite Hrest. cbn [mbind option_bind]. by rewrite app_nil_r.
  - intros v Hv Ht. rewrite total_of by lia. destruct (width_of v Hv) as [Ew Hw].
    assert (2 ^ Z.of_nat (count_width 8 11 13 v) <= 2 ^ numCharCountBits m v) by (apply Z.pow_le_mono_r; lia).
    destruct (Z.leb_spec (2 ^ numCharCountBits m v) (Z.of_nat (length text))); lia.
Qed.
End OneSegment.

Lemma makeSegments_holds text : Forall is_byte text → Z.of_nat (length text) <= INT_MAX →
  ∃ segs, makeSegments text = Some segs ∧ holds text segs.
Proof.
  intros Hb Hl. destruct (decide (text = [])) as [->|Hne].
  { exists []. split; [done|]. split; [|done].
    intros v _ _. exists []. split; [intros bb; by rewrite app_nil_r|]. split; [done|]. intros rest H fuel. apply H. }
  destruct (makeSegments_reads text Hb Hne Hl) as (seg & -> & Hs). exists [seg]. split; [done|].
  assert (Hlen : ∀ n l, Nat.ltb (length (bits n 4 ++ l)) 4 = false) by
    (intros n l; rewrite length_app, length_bits; apply Nat.ltb_ge; lia).
  destruct Hs as [Hs|[Hs|Hs]].
  - apply (segment_holds NUMERIC 10 12 14 read_numeric); [done|lia|done|done|]. intros fuel v l. cbn [read_segments modeBits NUMERIC].
    rewrite Hlen, read_bits_app by lia. cbn [mbind option_bind Z.eqb Pos.eqb].
    destruct (read_bits _ l) as [[n l1]|]; [|done]. cbn [mbind option_bind]. by destruct (read_numeric (Z.to_nat n) l1) as [[? ?]|].
  - apply (segment_holds ALPHANUMERIC 9 11 13 read_alphanumeric); [done|lia|done|done|]. intros fuel v l. cbn [read_segments modeBits ALPHANUMERIC].
    rewrite Hlen, read_bits_app by lia. cbn [mbind option_bind Z.eqb Pos.eqb].
    destruct (read_bits _ l) as [[n l1]|]; [|done]. cbn [mbind option_bind]. by destruct (read_alphanumeric (Z.to_nat n) l1) as [[? ?]|].
  - apply (segment_holds BYTE 8 16 16 read_bytes); [done|lia|done|done|]. intros fuel v l. cbn [read_segments modeBits BYTE].
    rewrite Hlen, read_bits_app by lia. cbn [mbind option_bind Z.eqb Pos.eqb].
    destruct (read_bits _ l) as [[n l1]|]; [|done]. cbn [mbind option_bind]. by destruct (read_bytes (Z.to_nat n) l1) as [[? ?]|].
Qed.

(** ** Version and level *)

(** The segments fit the data codewords of a version and level. *)
Definition fits_version (segs : list QrSegment) (v : Z) (e : Ecc) : Prop :=
  getTotalBits segs v ≠ -1 ∧ ∃ n, getNumDataCodewords v e = Some n ∧ getTotalBits segs v <= n * 8.

Lemma data_codewords v e : 1 <= v <= 40 → ∃ n, getNumDataCodewords v e = Some (Z.of_nat n) ∧ (1 <= n)%nat.
Proof.
  intros Hv. destruct (tables_of v e Hv) as (raw & n & _ & Hn & Hr & Hnb & He & Hsd & _ & E).
  pose proof (Z.div_mod (raw / 8) (table NUM_ERROR_CORRECTION_BLOCKS e v) ltac:(lia)).
  pose proof (Z.mod_pos_bound (raw / 8) (table NUM_ERROR_CORRECTION_BLOCKS e v) ltac:(lia)).
  assert (1 <= n) by nia. exists (Z.to_nat n). rewrite Z2Nat.id by lia. split; [done|lia].
Qed.

Lemma fits_iff segs v e n : getNumDataCodewords v e = Some n →
  fits_version segs v e ↔ negb (getTotalBits segs v =? -1) && (getTotalBits segs v <=? n * 8) = true.
Proof.
  intros Hn. rewrite andb_true_iff, negb_true_iff, Z.eqb_neq, Z.leb_le. unfold fits_version. rewrite Hn.
  split; [intros [H (n' & [= <-] & H')]; done|]. intros [H H']. split; [done|]. by exists n.
Qed.

Lemma find_version_spec segs e hi fuel : hi <= 40 → ∀ v, 1 <= v <= hi → Z.of_nat fuel = hi - v + 1 →
  match find_version segs e hi v fuel with
  | Some (w, used) => v <= w <= hi ∧ fits_version segs w e ∧ used = getTotalBits segs w ∧ ∀ u, v <= u < w → ¬ fits_version segs u e
  | None => ∀ u, v <= u <= hi → ¬ fits_version segs u e
  end.
Proof.
  intros Hhi. induction fuel as [|fuel IH]; intros v Hv Hf; [lia|]. cbn [find_version].
  destruct (data_codewords v e ltac:(lia)) as (n & Hn & _). rewrite Hn. cbn [mbind option_bind].
  pose proof (fits_iff segs v e _ Hn) as Hfit. destruct (negb _ && _) eqn:E.
  { split; [lia|]. split; [by apply Hfit|]. split; [done|]. intros u Hu. lia. }
  assert (¬ fits_version segs v e) as Hno by (by rewrite Hfit).
  destruct (Z.leb_spec hi v) as [Hend|Hmore].
  { intros u Hu. assert (u = v) as -> by lia. done. }
  specialize (IH (v + 1) ltac:(lia) ltac:(lia)). destruct (find_version segs e hi (v + 1) fuel) as [[w used]|].
  - destruct IH as (Hw & Hfw & Hu & Hsm). split; [lia|]. split; [done|]. split; [done|]. intros u Hu'.
    destruct (decide (u = v)) as [->|]; [done|]. apply Hsm. lia.
  - intros u Hu. destruct (decide (u = v)) as [->|]; [done|]. apply IH. lia.
Qed.

Lemma boost_spec segs v e : 1 <= v <= 40 → fits_version segs v e →
  ∃ e', boost v (getTotalBits segs v) [MEDIUM; QUARTILE; HIGH] e = Some e' ∧ fits_version segs v e' ∧
    ∀ e2, fits_version segs v e2 → (ecc_index e2 <= ecc_index e')%nat.
Proof.
  intros Hv Hfit. pose proof Hfit as [H1 _]. cbn [boost].
  assert (Hle : ∀ e2, ∃ n, getNumDataCodewords v e2 = Some n ∧ (fits_version segs v e2 ↔ (getTotalBits segs v <=? n * 8) = true)).
  { intros e2. destruct (data_codewords v e2 Hv) as (n & Hn & _). exists (Z.of_nat n). split; [done|].
    rewrite (fits_iff segs v e2 _ Hn). destruct (Z.eqb_spec (getTotalBits segs v) (-1)); [done|]. by cbn. }
  destruct (Hle MEDIUM) as (nM & -> & HM). destruct (Hle QUARTILE) as (nQ & -> & HQ). destruct (Hle HIGH) as (nH & -> & HH).
  cbn [mbind option_bind]. eexists. split; [done|].
  destruct (getTotalBits segs v <=? nM * 8), (getTotalBits segs v <=? nQ * 8), (getTotalBits segs v <=? nH * 8);
    (split; [tauto|]); intros [] H2; cbn; try lia; exfalso; try (by apply HM in H2); try (by apply HQ in H2); try (by apply HH in H2).
  all: destruct e; cbn in *; try lia; naive_solver.
Qed.

(** A text that leaves three codewords free fits, whatever its mode. *)
Lemma capacity_computed : forallb (λ v, forallb (λ e,
    from_option (λ n, n - 3 <? 2 ^ Z.of_nat (count_width 8 11 13 v)) false (getNumDataCodewords v e)) [LOW; MEDIUM; QUARTILE; HIGH])
  (seqZ 1 40) = true.
Proof. vm_compute. reflexivity. Qed.

Lemma holds_fits text segs v e n : holds text segs → 1 <= v <= 40 → getNumDataCodewords v e = Some n →
  Z.of_nat (length text) <= n - 3 → fits_version segs v e.
Proof.
  intros Hh Hv Hn Hl. pose proof capacity_computed as H. rewrite forallb_forall in H.
  specialize (H v ltac:(apply list_elem_of_In, elem_of_seqZ; lia)). rewrite forallb_forall in H.
  specialize (H e ltac:(destruct e; cbn; tauto)). rewrite Hn in H. cbn in H. apply Z.ltb_lt in H.
  pose proof (holds_size _ _ Hh v Hv ltac:(lia)) as Hs. split; [lia|]. exists n. split; [done|lia].
Qed.
