(* ===== verification/QrRoundtrip.v ===== *)
(** * Encoded texts read back

    [encodeText] as a whole: the version, the level and the codewords it takes, and
    the reader of [QrReader], which gets the text back from the modules. *)
From S2P Require Import Prelude QrSegments ReedSolomon QrCode QrReader QrDrawing QrLayout QrBlocks QrTrials QrEncoding.

(** ** Encoding *)

(** The version is the least in which the segments fit at level [e]; the level is the
    highest that the version has room for, if it may be raised. *)
Definition chosen (segs : list QrSegment) (e : Ecc) (boostEcl : bool) (lo hi v : Z) (e' : Ecc) : Prop :=
  lo <= v <= hi ∧ fits_version segs v e ∧ (∀ u, lo <= u < v → ¬ fits_version segs u e) ∧ fits_version segs v e' ∧
  if boostEcl then ∀ e2, fits_version segs v e2 → (ecc_index e2 <= ecc_index e')%nat else e' = e.

(** The code [q] shows [text]: its codewords are those of a stream with the segments of the text. *)
Definition shows (text : list Z) (q : QrCode) : Prop :=
  1 <= qr_ver q <= 40 ∧ 0 <= qr_mask q <= 7 ∧ ∃ data all f,
  (∀ fuel, read_segments (S (S fuel)) (qr_ver q) (stream data) = Some text) ∧ (1 <= length data)%nat ∧
  filled (qr_ver q) (qr_ecl q) data all f ∧ finished (qr_ver q) (qr_ecl q) f (qr_mask q) q.

Lemma encodeSegments_spec text segs e lo hi mask b :
  1 <= lo <= hi → hi <= 40 → -1 <= mask <= 7 → holds text segs →
  match encodeSegments segs e lo hi mask b with
  | Some q => chosen segs e b lo hi (qr_ver q) (qr_ecl q) ∧ shows text q
  | None => ∀ v, lo <= v <= hi → ¬ fits_version segs v e
  end.
Proof.
  intros Hlo Hhi Hmask Hseg. unfold encodeSegments, MIN_VERSION, MAX_VERSION.
  destruct (Z.leb_spec 1 lo); [|lia]. destruct (Z.leb_spec lo hi); [|lia]. destruct (Z.leb_spec hi 40); [|lia].
  destruct (Z.ltb_spec mask (-1)); [lia|]. destruct (Z.ltb_spec 7 mask); [lia|]. cbn [negb andb orb].
  pose proof (find_version_spec segs e hi (Z.to_nat (hi - lo + 1)) Hhi lo ltac:(lia) ltac:(lia)) as Hf.
  destruct (find_version _ _ _ _ _) as [[v used]|]; [|exact Hf]. destruct Hf as (Hv & Hfit & -> & Hleast). cbn [mbind option_bind].
  assert (∃ e', (if b then boost v (getTotalBits segs v) [MEDIUM; QUARTILE; HIGH] e else Some e) = Some e' ∧
    chosen segs e b lo hi v e') as (e' & -> & Hch).
  { destruct b; [|by exists e]. destruct (boost_spec segs v e ltac:(lia) Hfit) as (e' & -> & ? & ?). by exists e'. }
  cbn [mbind option_bind]. pose proof Hch as (_ & _ & _ & [Hn1 (n' & Hn' & Hbits)] & _).
  destruct (data_codewords v e' ltac:(lia)) as (n & Hn & Hn0). rewrite Hn' in Hn. injection Hn as ->.
  destruct (holds_bits text segs Hseg v ltac:(lia) Hn1) as (d & -> & Hld & Hread). cbn [mbind option_bind app]. rewrite Hn'.
  cbn [mbind option_bind]. destruct (padding_spec n d ltac:(lia)) as (b1 & b2 & b3 & -> & E2 & E3 & Hlen & t & r & -> & Ht).
  cbn [mbind option_bind]. rewrite E2. cbn [mbind option_bind]. rewrite Nat2Z.id, E3. cbn [mbind option_bind].
  destruct (pack_bits_spec n _ Hlen) as (data & -> & Hl & Hb & Hst). cbn [mbind option_bind].
  destruct (new_qr_finished v e' data (Z.of_nat n) mask ltac:(lia) Hn' Hb ltac:(lia) Hmask) as (all & f & m & q & -> & Hm & Hall & Hq).
  pose proof (fin_ver _ _ _ _ _ Hq) as Ev. pose proof (fin_ecl _ _ _ _ _ Hq) as Ee. pose proof (fin_mask _ _ _ _ _ Hq) as Em.
  unfold shows. rewrite Ev, Ee, Em. split; [done|]. split; [lia|]. split; [done|]. exists data, all, f. split; [|split; [lia|done]].
  intros fuel. rewrite Hst. apply Hread. intros fuel'. by apply read_padding.
Qed.

(** ** Reading *)
Lemma zip_reads g (ps : list (Z * Z)) w : length ps = 15%nat →
  (∀ p b, (p, b) ∈ zip_with (λ p i, (p, getBit w i)) ps (seqZ 0 15) → grid_at g p.1 p.2 = Some b) →
  read_places g (reverse ps) = Some (reverse (getBit w <$> seqZ 0 15)).
Proof.
  intros Hl H. unfold read_places. apply mapM_Some, Forall2_reverse, Forall2_same_length_lookup. split; [by rewrite Hl|].
  intros i p b Hp Hb. apply H. apply list_elem_of_lookup. exists i. rewrite list_lookup_fmap in Hb.
  destruct (seqZ 0 15 !! i) as [k|] eqn:Ek; [|done]. injection Hb as <-. rewrite lookup_zip_with, Hp, Ek. done.
Qed.

Lemma format_computed : forallb (λ e, forallb (λ m, let w := format_bits e m in
    bool_decide (value (reverse (getBit w <$> seqZ 0 15)) = w) &&
    from_option (λ '(lv, m'), bool_decide (level_of lv = e) && (m' =? m)) false (find_format w)) (seqZ 0 8))
  [LOW; MEDIUM; QUARTILE; HIGH] = true.
Proof. vm_compute. reflexivity. Qed.

Lemma format_reads e m : 0 <= m <= 7 → value (reverse (getBit (format_bits e m) <$> seqZ 0 15)) = format_bits e m ∧
  ∃ lv, find_format (format_bits e m) = Some (lv, m) ∧ level_of lv = e.
Proof.
  intros Hm. pose proof format_computed as H. rewrite forallb_forall in H. specialize (H e ltac:(destruct e; cbn; tauto)).
  rewrite forallb_forall in H. specialize (H m ltac:(apply list_elem_of_In, elem_of_seqZ; lia)). cbv zeta in H.
  apply andb_true_iff in H as [H1%bool_decide_eq_true H2]. split; [done|].
  destruct (find_format _) as [[lv m']|]; [|done]. cbn in H2. apply andb_true_iff in H2 as [H2%bool_decide_eq_true H3%Z.eqb_eq].
  subst. by exists lv.
Qed.

Lemma read_places_fmap g h ps : (∀ p, p ∈ ps → grid_at g p.1 p.2 = Some (h p)) → read_places g ps = Some (h <$> ps).
Proof.
  intros H. unfold read_places. apply mapM_Some, Forall2_fmap_r, Forall_Forall2_diag, Forall_forall. exact H.
Qed.

Lemma pattern_ok_spec v g : square (side v) g →
  (∀ x y c, within (side v) x y → place v y x = Fixed c → grid_at g x y = Some c) → pattern_ok v g = true.
Proof.
  intros Hs H. pose proof Hs as [Hl Hr]. unfold pattern_ok. rewrite bool_decide_true by done. cbn [andb].
  apply andb_true_iff. split.
  - apply forallb_forall. intros r Hin%list_elem_of_In. rewrite Forall_forall in Hr. by apply bool_decide_true, Hr.
  - apply forallb_forall. intros y Hy%list_elem_of_In%elem_of_seqZ. apply forallb_forall. intros x Hx%list_elem_of_In%elem_of_seqZ.
    assert (within (side v) x y) as Hw by (unfold within; lia). destruct (grid_at_Some _ _ _ _ Hs Hw) as [b Hb]. rewrite Hb. cbn.
    destruct (place v y x) as [c| |] eqn:Hp; [|done..]. rewrite (H x y c Hw Hp) in Hb. injection Hb as ->. apply eqb_reflx.
Qed.

Lemma unmasked_bits (places : list (Z * Z)) f (mask : Z * Z → bool) :
  zip_with (λ p b, xorb b (mask p)) places ((λ p, xorb (f p) (mask p)) <$> places) = f <$> places.
Proof.
  induction places as [|p places IH]; [done|]. cbn. rewrite IH. f_equal. by destruct (f p), (mask p).
Qed.

Lemma shows_reads text q : shows text q → read_qr (modules q) = Some text.
Proof.
  intros (Hv & Hm & data & all & f & Hread & Hne & [(raw & Hraw & Hl) Hb Hbl Hf] & [_ Hsz _ _ _ Hs Hfx Hdt Hfm]).
  set (v := qr_ver q) in *. set (e := qr_ecl q) in *. set (m := qr_mask q) in *. set (g := modules q) in *. clearbody v e m g.
  unfold read_qr. pose proof Hs as [Hg _]. rewrite Hg. replace ((side v - 17) / 4) with v
    by (unfold side; apply (Z.div_unique_pos _ _ _ 0); lia). cbv zeta.
  destruct (Z.leb_spec 1 v); [|lia]. destruct (Z.leb_spec v 40); [|lia]. rewrite pattern_ok_spec by done. cbn [andb negb].
  rewrite (surjective_pairing (format_places (side v))). destruct (format_reads e m Hm) as (Hw & lv & Hff & Hlv).
  unfold read_format. rewrite !(zip_reads g _ (format_bits e m)).
  2: done. 2: { intros p b Hpb. apply Hfm. unfold format_writes. rewrite !elem_of_app. tauto. }
  2: done. 2: { intros p b Hpb. apply Hfm. unfold format_writes. rewrite !elem_of_app. tauto. }
  cbn [fmap option_fmap option_map mbind option_bind]. rewrite Hw, Z.eqb_refl, Hff. cbn [negb mbind option_bind]. rewrite Hlv.
  destruct (data_places_spec v Hv) as [_ Hpl].
  rewrite (read_places_fmap g (λ p, xorb (f p.1 p.2) (mask_at m p.2 p.1))) by (intros [x y] [Hp1 Hp2]%Hpl; by apply Hdt).
  cbn [mbind option_bind]. rewrite (unmasked_bits _ (λ p, f p.1 p.2) (λ p, mask_at m p.2 p.1)).
  rewrite length_fmap, (data_places_count v raw Hv Hraw), <- Hl, Nat2Z.id.
  assert (∃ rest, (λ p, f p.1 p.2) <$> data_places v = stream all ++ rest) as [rest ->].
  { exists (drop (length (stream all)) ((λ p, f p.1 p.2) <$> data_places v)).
    rewrite <- (take_drop (length (stream all)) (_ <$> _)) at 1. f_equal. symmetry. apply stream_eq.
    - rewrite length_take, length_fmap, length_stream. pose proof (data_places_count v raw Hv Hraw).
      pose proof (Z.mul_div_le raw 8 ltac:(lia)). lia.
    - intros k Hk. rewrite lookup_take_lt by (by rewrite length_stream). rewrite list_lookup_fmap.
      destruct (lookup_lt_is_Some_2 (data_places v) k) as [p Hp].
      { pose proof (data_places_count v raw Hv Hraw). pose proof (Z.mul_div_le raw 8 ltac:(lia)). lia. }
      rewrite Hp. cbn. f_equal. by apply Hf. }
  rewrite codewords_stream by done. cbv zeta in Hbl. rewrite Hbl. cbn [mbind option_bind].
  change (mjoin _) with (stream data). rewrite length_stream. destruct (length data) as [|k]; [lia|].
  replace (S (8 * S k)) with (S (S (8 * k + 7))) by lia. apply Hread.
Qed.

(** ** The theorems *)
Lemma encodeText_spec text e : Forall is_byte text → Z.of_nat (length text) <= INT_MAX →
  ∃ segs, makeSegments text = Some segs ∧ holds text segs ∧
  match encodeText text e with
  | Some q => chosen segs e true 1 40 (qr_ver q) (qr_ecl q) ∧ shows text q
  | None => ∀ v, 1 <= v <= 40 → ¬ fits_version segs v e
  end.
Proof.
  intros Hb Hl. destruct (makeSegments_holds text Hb Hl) as (segs & E & Hh). exists segs. split; [done|]. split; [done|].
  unfold encodeText. rewrite E. cbn [mbind option_bind]. by apply (encodeSegments_spec text); [lia|lia|lia|].
Qed.

Lemma encodeText_within text e v n : Forall is_byte text → 1 <= v <= 40 → getNumDataCodewords v e = Some n →
  Z.of_nat (length text) <= n - 3 → ∃ q, encodeText text e = Some q ∧ shows text q ∧ 1 <= qr_ver q <= v.
Proof.
  intros Hb Hv Hn Hl. destruct (tables_of v e Hv) as (raw & n' & _ & Hn' & Hr & Hnb & He & _ & _ & En). rewrite Hn in Hn'. injection Hn' as <-.
  assert (raw / 8 <= 3706) by (apply Z.div_le_upper_bound; lia).
  destruct (encodeText_spec text e Hb) as (segs & _ & Hh & Hspec); [unfold INT_MAX; nia|].
  pose proof (holds_fits text segs v e n Hh Hv Hn Hl) as Hfit. destruct (encodeText text e) as [q|]; [|by destruct (Hspec v Hv)].
  destruct Hspec as [(Hq & _ & Hmin & _) Hs]. exists q. split; [done|]. split; [done|].
  destruct (decide (qr_ver q <= v)); [lia|]. exfalso. by apply (Hmin v); [lia|].
Qed.

(** C21: A text comes back from its QR code. The reader is written from the standard,
    but for the tables of the blocks, the alphanumeric alphabet and the field's
    multiplication, which are the encoder's own: it finds the function modules and both copies of the format information as
    the standard draws them, undoes the mask, takes the codewords in the standard's
    order, finds every block to be a codeword, and reads the segments; it gets exactly
    the text, digits, capitals or any bytes. And there is a code for every text that
    leaves three codewords of some version free at the asked level, of that version
    at most. *)
Theorem encodeText_reads text e : Forall is_byte text → Z.of_nat (length text) <= INT_MAX →
  (∀ q, encodeText text e = Some q → read_qr (modules q) = Some text) ∧
  (∀ v n, 1 <= v <= 40 → getNumDataCodewords v e = Some n → Z.of_nat (length text) <= n - 3 →
     ∃ q, encodeText text e = Some q ∧ 1 <= qr_ver q <= v).
Proof.
  intros Hb Hl. split.
  - intros q Eq. destruct (encodeText_spec text e Hb Hl) as (segs & _ & _ & H). rewrite Eq in H. by apply shows_reads, H.
  - intros v n Hv Hn Hle. destruct (encodeText_within text e v n Hb Hv Hn Hle) as (q & Eq & _ & H). by exists q.
Qed.

Definition demo_link : str := B "https://id.example.com/a?h=0123456789abcdef".

Lemma encodeText_reads_witness :
  ∃ q, encodeText demo_link MEDIUM = Some q ∧ 1 <= qr_ver q <= 4 ∧ read_qr (modules q) = Some demo_link.
Proof.
  assert (Forall is_byte demo_link) as Hb by (apply (bool_decide_unpack _); vm_compute; reflexivity).
  destruct (encodeText_reads demo_link MEDIUM Hb ltac:(vm_compute; discriminate)) as [Hr Hv].
  destruct (Hv 4 64) as (q & Eq & H); [lia|reflexivity|vm_compute; discriminate|].
  exists q. split; [exact Eq|]. split; [exact H|]. by apply Hr.
Defined.

(** C35: [encodeText] takes the smallest code: no smaller version holds the segments of
    the text at the level asked for, the level it takes in that version is the highest
    that still holds them, never below the one asked for, and it refuses a text
    ("Data too long") only when no version holds it. *)
Theorem encodeText_smallest text e : Forall is_byte text → Z.of_nat (length text) <= INT_MAX →
  ∃ segs, makeSegments text = Some segs ∧
  match encodeText text e with
  | Some q =>
    1 <= qr_ver q <= 40 ∧ fits_version segs (qr_ver q) e ∧ (∀ u, 1 <= u < qr_ver q → ¬ fits_version segs u e) ∧
    fits_version segs (qr_ver q) (qr_ecl q) ∧ (ecc_index e <= ecc_index (qr_ecl q))%nat ∧
    ∀ e2, (ecc_index (qr_ecl q) < ecc_index e2)%nat → ¬ fits_version segs (qr_ver q) e2
  | None => ∀ v, 1 <= v <= 40 → ¬ fits_version segs v e
  end.
Proof.
  intros Hb Hl. destruct (encodeText_spec text e Hb Hl) as (segs & E & _ & H). exists segs. split; [done|].
  destruct (encodeText text e) as [q|]; [|done]. destruct H as [(H1 & H2 & H3 & H4 & H5) _]. split_and!; [lia..|done|done|done|by apply H5|].
  intros e2 He2 Hf. specialize (H5 e2 Hf). lia.
Qed.

Lemma encodeText_smallest_witness :
  ∃ q, encodeText demo_link MEDIUM = Some q ∧ qr_ver q = 4 ∧ qr_ecl q = QUARTILE.
Proof.
  destruct (encodeText_smallest demo_link MEDIUM) as (segs & E & H).
  { apply (bool_decide_unpack _). vm_compute. reflexivity. }
  { vm_compute. discriminate. }
  vm_compute in E. injection E as <-.
  match type of H with context [fits_version ?s _ _] => set (segs := s) in H end.
  assert (Hfit : ∀ v e, getTotalBits segs v ≠ -1 → from_option (λ n, getTotalBits segs v <=? n * 8) false (getNumDataCodewords v e) = true →
    fits_version segs v e).
  { intros v e Hne Hle. split; [exact Hne|]. destruct (getNumDataCodewords v e) as [n|]; [|discriminate]. exists n. split; [reflexivity|].
    apply Z.leb_le, Hle. }
  assert (Hno : ∀ v e, from_option (λ n, getTotalBits segs v <=? n * 8) true (getNumDataCodewords v e) = false → ¬ fits_version segs v e).
  { intros v e Hle (_ & n & Hn & Hn8). rewrite Hn in Hle. apply Z.leb_gt in Hle. lia. }
  destruct (encodeText demo_link MEDIUM) as [q|].
  - exists q. split; [reflexivity|]. destruct H as (Hv & Hf & Hmin & Hf2 & Hle & Hmax).
    assert (qr_ver q = 4) as E4.
    { destruct (Z.lt_trichotomy (qr_ver q) 4) as [Hlt|[->|Hgt]]; [|reflexivity|].
      - exfalso. assert (qr_ver q = 1 ∨ qr_ver q = 2 ∨ qr_ver q = 3) as Hc by lia.
        destruct Hc as [Hc|[Hc|Hc]]; rewrite Hc in Hf; revert Hf; apply Hno; vm_compute; reflexivity.
      - exfalso. apply (Hmin 4); [lia|]. apply Hfit; vm_compute; [discriminate|reflexivity]. }
    split; [exact E4|]. rewrite E4 in Hf2, Hmax. destruct (qr_ecl q); [exfalso..|reflexivity|exfalso].
    + apply (Hmax QUARTILE); [cbn; lia|]. apply Hfit; vm_compute; [discriminate|reflexivity].
    + apply (Hmax QUARTILE); [cbn; lia|]. apply Hfit; vm_compute; [discriminate|reflexivity].
    + revert Hf2. apply Hno. vm_compute. reflexivity.
  - exfalso. apply (H 4); [lia|]. apply Hfit; vm_compute; [discriminate|reflexivity].
Defined.
