(* ===== verification/TileImages.v ===== *)
(** * The pictures of the tile

    [windows/credential_provider/LigamentCredential.cpp]: the bitmaps of the logo
    and of the QR code, and the two ways in which LogonUI gets them. The encoder is
    [QrCode.encodeText]. Drawing is on the memory of a bitmap: an access out
    of it is [None], undefined. All values fit an [int] (the pictures are 256
    pixels wide). *)
From S2P Require Import Prelude CredentialImage QrSegments ReedSolomon QrCode QrReader QrBlocks QrTrials QrEncoding QrRoundtrip.

(** ** Memory and loops *)
Definition load (px : list Z) (i : Z) : option Z := if i <? 0 then None else px !! Z.to_nat i.
Definition store (i v : Z) (px : list Z) : option (list Z) :=
  if (0 <=? i) && (i <? Z.of_nat (length px)) then Some (<[Z.to_nat i := v]> px) else None.

(** A bitmap of 32 bits per pixel, as [GetObject] describes it. *)
Record Bitmap := mkBitmap { bm_width : Z; bm_height : Z; bm_bits : list Z }.

(** ** The QR code *)
Definition moduleScale (qrSize : Z) : Z := let s := Z.quot 160 qrSize in if s <? 1 then 1 else s.
Definition startX (qrSize targetSize : Z) : Z := Z.quot (targetSize - qrSize * moduleScale qrSize) 2.

Definition white : Z := 0xFFFFFFFF.
Definition dark : Z := 0xFF0A0F1D.
Definition slate : Z := 0xFFCBD5E1.

(** The square of one module. *)
Definition draw_module (targetSize topY leftX scale : Z) (px : list Z) : option (list Z) :=
  for_ scale (λ dy, for_ scale (λ dx px,
    let visualY := topY + dy in
    let visualX := leftX + dx in
    if (0 <=? visualY) && (visualY <? targetSize) && (0 <=? visualX) && (visualX <? targetSize)
    then store (visualY * targetSize + visualX) dark px else Some px)) px.

Definition draw_modules (qr : QrCode) (targetSize : Z) (px : list Z) : option (list Z) :=
  let scale := moduleScale (qr_size qr) in
  let start := startX (qr_size qr) targetSize in
  for_ (qr_size qr) (λ qy, for_ (qr_size qr) (λ qx px,
    if getModule qr qx qy
    then draw_module targetSize (start + qy * scale) (start + qx * scale) scale px else Some px)) px.

Definition in_ring (targetSize x y : Z) : bool :=
  let c := Z.quot targetSize 2 in
  let distSq := (x - c) * (x - c) + (y - c) * (y - c) in
  (distSq <=? 126 * 126) && (123 * 123 <=? distSq).

Definition draw_ring (targetSize : Z) (px : list Z) : option (list Z) :=
  for_ targetSize (λ visualY, for_ targetSize (λ visualX px,
    if in_ring targetSize visualX visualY
    then store (visualY * targetSize + visualX) slate px else Some px)) px.

(** [encodeText] throws when the text is too long, and the [catch] is the null
    handle, [Some None]; [bits] is the memory that [CreateDIBSection] gives. *)
Definition CreateQrBitmap (bits : option (list Z)) (text : str) (targetSize : Z) : option (option Bitmap) :=
  match encodeText (c_str text) MEDIUM with
  | None => Some None
  | Some qr =>
    if qr_size qr <=? 0 then Some None else
    match bits with
    | None => Some None
    | Some px =>
      px ← for_ (targetSize * targetSize) (λ i, store i white) px;
      px ← draw_modules qr targetSize px;
      px ← draw_ring targetSize px;
      Some (Some (mkBitmap targetSize targetSize px))
    end
  end.

(** ** The logo *)
Definition CreateLogoBitmap (c_AppLogoPixels : list Z) (bits : option (list Z)) (targetSize : Z)
    : option (option Bitmap) :=
  match bits with
  | None => Some None
  | Some px =>
    px ← for_ targetSize (λ y,
      let srcY := Z.quot (y * 256) targetSize in
      let srcY := if 256 <=? srcY then 255 else srcY in
      for_ targetSize (λ x px,
        let srcX := Z.quot (x * 256) targetSize in
        let srcX := if 256 <=? srcX then 255 else srcX in
        p ← load c_AppLogoPixels (srcY * 256 + srcX);
        store (y * targetSize + x) p px)) px;
    Some (Some (mkBitmap targetSize targetSize px))
  end.

(** ** What LogonUI gets *)

(** The first part of [CloneAlphaDIB]: [described] when [GetObject] tells a DIB
    section with its memory, [bits] what [CreateDIBSection] gives. Otherwise the
    copy is that of [CopyImage]. *)
Definition CloneAlphaDIB (described : bool) (bits : option (list Z)) (CopyImage : Bitmap → option Bitmap)
    (src : Bitmap) : option Bitmap :=
  match described, bits with
  | true, Some _ =>
    let numBytes := bm_width src * Z.abs (bm_height src) in
    Some (mkBitmap (bm_width src) (Z.abs (bm_height src)) (take (Z.to_nat numBytes) (bm_bits src)))
  | _, _ => CopyImage src
  end.

(** [GetBitmapValue] for the logo field. *)
Definition bitmap_value (described : bool) (bits : option (list Z)) (CopyImage : Bitmap → option Bitmap)
    (m_hQrBmp m_hDefaultLogoBmp : option Bitmap) : option Bitmap :=
  let src := match m_hQrBmp with Some b => Some b | None => m_hDefaultLogoBmp end in
  src ≫= CloneAlphaDIB described bits CopyImage.

(** [GetBitmapBufferValue] for the logo field: a failure, or the bytes. [alloc]
    is [CoTaskMemAlloc]. *)
Inductive BufferFailure := Fail | OutOfMemory.
Definition bitmap_buffer_value (kCredentialLogoPng : str) (described alloc : bool)
    (m_hQrBmp : option Bitmap) : BufferFailure + str :=
  let qrPng := match m_hQrBmp with
               | None => inr []
               | Some b =>
                 if negb described then inl Fail else
                 let png := EncodeOpaqueBgraPng (Some (bm_bits b)) (bm_width b) (bm_height b)
                              (Z.quot (bm_width b * 4) 4) in
                 if bool_decide (png = []) then inl Fail else inr png
               end in
  match qrPng with
  | inl e => inl e
  | inr png => if alloc then inr (if bool_decide (png = []) then kCredentialLogoPng else png)
               else inl OutOfMemory
  end.

Lemma moduleScale_pos size : 1 <= moduleScale size.
Proof. unfold moduleScale. destruct (Z.ltb_spec (Z.quot 160 size) 1); lia. Qed.

Lemma getModule_range qr x y : getModule qr x y = true → 0 <= x < qr_size qr ∧ 0 <= y < qr_size qr.
Proof. unfold getModule. rewrite !andb_true_iff, !Z.leb_le, !Z.ltb_lt. lia. Qed.

(** ** Painting *)
Section Painting.
Context (ts : Z).
Hypothesis ts_pos : 0 <= ts.

Definition fits (px : list Z) : Prop := Z.of_nat (length px) = ts * ts.
Definition at_ (px : list Z) (x y : Z) : Z := px !!! Z.to_nat (y * ts + x).
Definition inside (x y : Z) : Prop := 0 <= x < ts ∧ 0 <= y < ts.

(** [f] gives the pixels of [P] the colour [v] and leaves the others. *)
Definition paints (P : Z → Z → Prop) (v : Z → Z → Z) (f : list Z → option (list Z)) : Prop :=
  ∀ px, fits px → ∃ px', f px = Some px' ∧ fits px' ∧
    ∀ x y, inside x y → (P x y ∧ at_ px' x y = v x y) ∨ (¬ P x y ∧ at_ px' x y = at_ px x y).

Lemma paints_ext P Q v f :
  paints P v f → (∀ x y, inside x y → P x y ↔ Q x y) → paints Q v f.
Proof. intros Hf H px Hpx. destruct (Hf px Hpx) as (px' & E & Hl & Hp). exists px'. naive_solver. Qed.

Lemma paints_none v : paints (λ _ _, False) v Some.
Proof. intros px Hpx. exists px. naive_solver. Qed.

Lemma paints_if (b : bool) P v f :
  paints P v f → paints (λ x y, b = true ∧ P x y) v (λ px, if b then f px else Some px).
Proof.
  intros Hf. destruct b.
  - eapply paints_ext; [exact Hf|]. naive_solver.
  - eapply paints_ext; [apply paints_none|]. naive_solver.
Qed.

Lemma paints_for_from (P : Z → Z → Z → Prop) v body n : ∀ i,
  (∀ k, i <= k < i + Z.of_nat n → paints (P k) v (body k)) →
  paints (λ x y, ∃ k, i <= k < i + Z.of_nat n ∧ P k x y) v (for_from body i n).
Proof.
  induction n as [|n IH]; intros i Hb.
  - apply (paints_ext (λ _ _, False)); [apply paints_none|]. intros x y _. split; [done|]. intros (k & ? & _). lia.
  - intros px Hpx. destruct (Hb i ltac:(lia) px Hpx) as (p1 & E1 & Hl1 & H1).
    destruct (IH (i + 1) (λ k Hk, Hb k ltac:(lia)) p1 Hl1) as (p2 & E2 & Hl2 & H2).
    exists p2. cbn [for_from]. rewrite E1. split_and!; [done..|].
    intros x y Hxy. destruct (H2 x y Hxy) as [[(k & Hk & HP) ->]|[Hno ->]].
    { left. split; [|done]. exists k. split; [lia|done]. }
    destruct (H1 x y Hxy) as [[HP ->]|[Hno1 ->]].
    { left. split; [|done]. exists i. split; [lia|done]. }
    right. split; [|done]. intros (k & Hk & HP). destruct (decide (k = i)) as [->|]; [done|].
    apply Hno. exists k. split; [lia|done].
Qed.

Lemma paints_for hi P v body :
  (∀ k, 0 <= k < hi → paints (P k) v (body k)) →
  paints (λ x y, ∃ k, 0 <= k < hi ∧ P k x y) v (for_ hi body).
Proof.
  intros Hb. eapply paints_ext; [apply (paints_for_from P v body (Z.to_nat hi) 0)|].
  - intros k Hk. apply Hb. lia.
  - intros x y _. split; intros (k & Hk & HP); exists k; (split; [lia|done]).
Qed.

Lemma index_inj x y x' y' : inside x y → inside x' y' → y * ts + x = y' * ts + x' → x = x' ∧ y = y'.
Proof. unfold inside. intros. assert (y = y') by nia. subst. lia. Qed.

Lemma paints_store i c v :
  0 <= i < ts * ts → (∀ x y, inside x y → y * ts + x = i → v x y = c) →
  paints (λ x y, y * ts + x = i) v (store i c).
Proof.
  intros Hi Hv px Hpx. unfold store, fits in *.
  destruct (Z.leb_spec 0 i); [|lia]. destruct (Z.ltb_spec i (Z.of_nat (length px))); [|lia]. cbn [andb].
  eexists. split; [done|]. split; [by rewrite length_insert|]. intros x y Hxy. unfold at_, inside in *.
  destruct (decide (y * ts + x = i)) as [E|Hne].
  - left. split; [done|]. rewrite E, list_lookup_total_insert_eq by lia. symmetry. by apply Hv.
  - right. split; [done|]. rewrite list_lookup_total_insert_ne; [done|]. nia.
Qed.

(** The pixel at ([X], [Y]). *)
Lemma paints_pixel X Y c : inside X Y →
  paints (λ x y, x = X ∧ y = Y) (λ _ _, c) (store (Y * ts + X) c).
Proof.
  intros Hin. eapply paints_ext; [apply paints_store; [|done]|].
  - unfold inside in Hin. nia.
  - intros x y Hxy. split; [by apply index_inj|]. by intros [-> ->].
Qed.

Lemma paints_fill v0 :
  paints (λ _ _, True) (λ _ _, v0) (for_ (ts * ts) (λ i, store i v0)).
Proof.
  eapply paints_ext; [apply paints_for; intros k Hk; by apply paints_store|].
  intros x y Hxy. split; [done|]. intros _. exists (y * ts + x). unfold inside in Hxy. split; [nia|done].
Qed.

Lemma paints_guard (b : bool) X Y c : (b = true → inside X Y) →
  paints (λ x y, b = true ∧ x = X ∧ y = Y) (λ _ _, c) (λ px, if b then store (Y * ts + X) c px else Some px).
Proof.
  intros Hb. destruct b.
  - eapply paints_ext; [by apply paints_pixel, Hb|]. naive_solver.
  - eapply paints_ext; [apply paints_none|]. naive_solver.
Qed.

Lemma paints_module topY leftX scale :
  paints (λ x y, leftX <= x < leftX + scale ∧ topY <= y < topY + scale) (λ _ _, dark)
    (draw_module ts topY leftX scale).
Proof.
  eapply paints_ext.
  - unfold draw_module. apply paints_for. intros dy Hdy. apply paints_for. intros dx Hdx.
    apply paints_guard. rewrite !andb_true_iff, !Z.leb_le, !Z.ltb_lt. unfold inside. lia.
  - intros x y Hxy. cbv beta. split.
    + intros (dy & Hdy & dx & Hdx & _ & -> & ->). lia.
    + intros [Hx Hy]. exists (y - topY). split; [lia|]. exists (x - leftX). split; [lia|].
      unfold inside in Hxy. lia.
Qed.

Lemma paints_modules qr : 1 <= moduleScale (qr_size qr) →
  paints (λ x y, getModule qr ((x - startX (qr_size qr) ts) / moduleScale (qr_size qr)) ((y - startX (qr_size qr) ts) / moduleScale (qr_size qr)) = true)
    (λ _ _, dark) (draw_modules qr ts).
Proof.
  intros Hsc. set (sc := moduleScale (qr_size qr)) in *. set (st := startX (qr_size qr) ts).
  eapply paints_ext.
  - unfold draw_modules. apply paints_for. intros qy Hqy. apply paints_for. intros qx Hqx.
    apply paints_if, paints_module.
  - intros x y Hxy. cbv beta. split.
    + intros (qy & Hqy & qx & Hqx & Hm & Hx & Hy). fold sc st in Hx, Hy.
      replace ((x - st) / sc) with qx; [replace ((y - st) / sc) with qy; [done|]|].
      * apply Z.div_unique with (y - st - qy * sc); nia.
      * apply Z.div_unique with (x - st - qx * sc); nia.
    + intros Hm. pose proof (getModule_range _ _ _ Hm) as [Hx Hy].
      pose proof (Z.div_mod (x - st) sc ltac:(lia)). pose proof (Z.mod_pos_bound (x - st) sc ltac:(lia)).
      pose proof (Z.div_mod (y - st) sc ltac:(lia)). pose proof (Z.mod_pos_bound (y - st) sc ltac:(lia)).
      exists ((y - st) / sc). split; [done|]. exists ((x - st) / sc). split; [done|].
      fold sc st. split; [done|]. split; lia.
Qed.

Lemma paints_ring :
  paints (λ x y, in_ring ts x y = true) (λ _ _, slate) (draw_ring ts).
Proof.
  eapply paints_ext.
  - unfold draw_ring. apply paints_for. intros Y HY. apply paints_for. intros X HX.
    apply paints_guard. by split.
  - intros x y [Hx Hy]. cbv beta. split.
    + by intros (Y & _ & X & _ & Hr & -> & ->).
    + intros Hr. exists y. split; [done|]. exists x. done.
Qed.

(** What a pixel of the picture is. *)
Definition qr_pixel (qr : QrCode) (x y : Z) : Z :=
  if in_ring ts x y then slate else
  if getModule qr ((x - startX (qr_size qr) ts) / moduleScale (qr_size qr)) ((y - startX (qr_size qr) ts) / moduleScale (qr_size qr))
  then dark else white.

Lemma CreateQrBitmap_pixels text qr bits :
  encodeText (c_str text) MEDIUM = Some qr → 0 < qr_size qr → fits bits →
  ∃ px, CreateQrBitmap (Some bits) text ts = Some (Some (mkBitmap ts ts px)) ∧ fits px ∧
    ∀ x y, inside x y → at_ px x y = qr_pixel qr x y.
Proof.
  intros Henc Hsize Hbits. unfold CreateQrBitmap. rewrite Henc.
  destruct (Z.leb_spec (qr_size qr) 0); [lia|].
  destruct (paints_fill white bits Hbits) as (p1 & -> & F1 & H1). cbn [mbind option_bind].
  destruct (paints_modules qr (moduleScale_pos _) p1 F1) as (p2 & -> & F2 & H2). cbn [mbind option_bind].
  destruct (paints_ring p2 F2) as (p3 & -> & F3 & H3). cbn [mbind option_bind].
  exists p3. split_and!; [done..|]. intros x y Hxy. unfold qr_pixel.
  destruct (H3 x y Hxy) as [[-> ->]|[Hr%not_true_is_false ->]]; [done|]. rewrite Hr.
  destruct (H2 x y Hxy) as [[-> ->]|[Hm%not_true_is_false ->]]; [done|]. rewrite Hm.
  by destruct (H1 x y Hxy) as [[_ ->]|[[] _]].
Qed.
End Painting.

(** ** Reading the picture *)

(** The picture of a QR code, row by row. *)
Definition qr_picture (qr : QrCode) (ts : Z) : list (list Z) :=
  (λ y, (λ x, qr_pixel ts qr (Z.of_nat x) (Z.of_nat y)) <$> seq 0 (Z.to_nat ts)) <$> seq 0 (Z.to_nat ts).

(** A camera takes a pixel for dark by its red channel, and looks at one pixel of
    each module, [dx] and [dy] from the module's corner. *)
Definition looks_dark (p : Z) : bool := u8 (Z.shiftr p 16) <? 128.
Definition pixel_of (img : list (list Z)) (x y : Z) : Z :=
  default 0 (img !! Z.to_nat y ≫= (λ row, row !! Z.to_nat x)).
Definition scan (size ts dx dy : Z) (img : list (list Z)) : list (list bool) :=
  let at_module q d := startX size ts + Z.of_nat q * moduleScale size + d in
  (λ qy, (λ qx, looks_dark (pixel_of img (at_module qx dx) (at_module qy dy)))
           <$> seq 0 (Z.to_nat size)) <$> seq 0 (Z.to_nat size).

(** The invariant of [QrCode] (qrcodegen.hpp): a version, a square of modules. *)
Definition qr_version (v : Z) (qr : QrCode) : Prop :=
  1 <= v <= 40 ∧ qr_size qr = 17 + 4 * v ∧
  Z.of_nat (length (modules qr)) = qr_size qr ∧
  Forall (λ row, Z.of_nat (length row) = qr_size qr) (modules qr).

(** The light border of four modules that a scanner needs. *)
Definition quiet_zone (qr : QrCode) (ts x y : Z) : Prop :=
  let m := 4 * moduleScale (qr_size qr) in
  let st := startX (qr_size qr) ts in
  let en := st + qr_size qr * moduleScale (qr_size qr) in
  (st - m <= x < en + m ∧ st - m <= y < en + m) ∧ ¬ (st <= x < en ∧ st <= y < en).

(** *** The geometry of the forty versions *)
Definition geometry (v : Z) : Z * Z * Z :=
  let size := 17 + 4 * v in (moduleScale size, startX size 256, startX size 256 + size * moduleScale size).

Lemma geometry_of v qr : qr_version v qr → geometry v =
  (moduleScale (qr_size qr), startX (qr_size qr) 256, startX (qr_size qr) 256 + qr_size qr * moduleScale (qr_size qr)).
Proof. intros (_ & Hs & _). unfold geometry. by rewrite Hs. Qed.

Definition cut_versions : list Z := [1; 2; 3; 5; 9; 37; 38; 39; 40].
Definition cut_pixel (v : Z) : Z * Z := if v =? 39 then (40, 41) else if v =? 40 then (38, 42) else (41, 41).

Definition geometry_ok (v : Z) : bool :=
  let '(sc, st, en) := geometry v in
  let '(x, y) := cut_pixel v in
  (1 <=? sc) && (0 <=? st - 4 * sc) && (en + 4 * sc <=? 256) &&
  implb (v <=? 38) ((42 <=? st) && (en <=? 215)) &&
  (if bool_decide (v ∈ cut_versions)
   then in_ring 256 x y && (st - 4 * sc <=? x) && (x <? en + 4 * sc) && (st - 4 * sc <=? y) && (y <? en + 4 * sc)
        && ((x <? st) || (y <? st))
   else (42 <=? st - 4 * sc) && (en + 4 * sc <=? 215)).

Lemma geometry_checked v : 1 <= v <= 40 → geometry_ok v = true.
Proof.
  intros Hv. assert (H : Forall (λ v, geometry_ok v = true) (seqZ 1 40)).
  { apply (bool_decide_unpack _). vm_compute. reflexivity. }
  rewrite Forall_forall in H. apply H, elem_of_seqZ. lia.
Qed.

(** The ring stays away from the square of half width 86. *)
Lemma off_ring x y : 42 <= x < 215 → 42 <= y < 215 → in_ring 256 x y = false.
Proof.
  intros Hx Hy. unfold in_ring. change (Z.quot 256 2) with 128.
  destruct (Z.leb_spec (123 * 123) ((x - 128) * (x - 128) + (y - 128) * (y - 128))); [|by rewrite andb_false_r].
  assert ((x - 128) * (x - 128) <= 86 * 86) by nia. assert ((y - 128) * (y - 128) <= 86 * 86) by nia. lia.
Qed.

Lemma pixel_of_picture qr ts x y : 0 <= x < ts → 0 <= y < ts →
  pixel_of (qr_picture qr ts) x y = qr_pixel ts qr x y.
Proof.
  intros Hx Hy. unfold pixel_of, qr_picture.
  rewrite list_lookup_fmap, lookup_seq_lt by lia. cbn [fmap option_fmap option_map mbind option_bind].
  rewrite list_lookup_fmap, lookup_seq_lt by lia. cbn [fmap option_fmap option_map default].
  cbn [Nat.add]. by rewrite !Z2Nat.id by lia.
Qed.

Lemma getModule_lookup v qr i j row b : qr_version v qr →
  modules qr !! i = Some row → row !! j = Some b → getModule qr (Z.of_nat j) (Z.of_nat i) = b.
Proof.
  intros (_ & _ & Hl & Hrows) Hi Hj. unfold getModule.
  pose proof (proj1 (Forall_lookup _ _) Hrows i row Hi) as Hr. cbv beta in Hr.
  apply lookup_lt_Some in Hi as Hi2. apply lookup_lt_Some in Hj as Hj2.
  rewrite !Nat2Z.id, Hi. cbn [mbind option_bind]. rewrite Hj. cbn [default].
  destruct (Z.leb_spec 0 (Z.of_nat j)), (Z.ltb_spec (Z.of_nat j) (qr_size qr)),
    (Z.leb_spec 0 (Z.of_nat i)), (Z.ltb_spec (Z.of_nat i) (qr_size qr)); try lia. done.
Qed.

(** A pixel of a module shows it, wherever in the module it lies. *)
Lemma module_pixel v qr qx qy dx dy :
  qr_version v qr → v <= 38 →
  0 <= qx < qr_size qr → 0 <= qy < qr_size qr → 0 <= dx < moduleScale (qr_size qr) → 0 <= dy < moduleScale (qr_size qr) →
  let x := startX (qr_size qr) 256 + qx * moduleScale (qr_size qr) + dx in
  let y := startX (qr_size qr) 256 + qy * moduleScale (qr_size qr) + dy in
  0 <= x < 256 ∧ 0 <= y < 256 ∧ looks_dark (qr_pixel 256 qr x y) = getModule qr qx qy.
Proof.
  intros Hv H38 Hqx Hqy Hdx Hdy. cbv zeta. pose proof (geometry_checked v (proj1 Hv)) as Hg.
  unfold geometry_ok in Hg. rewrite (geometry_of v qr Hv) in Hg. destruct (cut_pixel v) as [cx cy].
  rewrite !andb_true_iff in Hg. destruct Hg as [[_ Hg] _]. apply Z.leb_le in H38. rewrite H38 in Hg. cbn [implb] in Hg.
  apply andb_true_iff in Hg as [H1%Z.leb_le H2%Z.leb_le].
  set (sc := moduleScale (qr_size qr)) in *. set (st := startX (qr_size qr) 256) in *.
  assert (0 <= qx * sc /\ qx * sc + dx < qr_size qr * sc) by nia.
  assert (0 <= qy * sc /\ qy * sc + dy < qr_size qr * sc) by nia.
  split; [lia|]. split; [lia|]. unfold qr_pixel. rewrite off_ring by lia. fold sc st.
  replace (st + qx * sc + dx - st) with (dx + qx * sc) by lia.
  replace (st + qy * sc + dy - st) with (dy + qy * sc) by lia.
  rewrite !Z.div_add by lia. rewrite !Z.div_small, !Z.add_0_l by lia.
  by destruct (getModule qr qx qy).
Qed.

Lemma scan_modules v qr dx dy :
  qr_version v qr → v <= 38 → 0 <= dx < moduleScale (qr_size qr) → 0 <= dy < moduleScale (qr_size qr) →
  scan (qr_size qr) 256 dx dy (qr_picture qr 256) = modules qr.
Proof.
  intros Hv H38 Hdx Hdy. pose proof Hv as (_ & _ & Hl & Hrows). unfold scan.
  apply list_eq. intros i. rewrite list_lookup_fmap.
  destruct (modules qr !! i) as [row|] eqn:Ei.
  - apply lookup_lt_Some in Ei as Hi. rewrite lookup_seq_lt by lia. cbn [fmap option_fmap option_map].
    f_equal. pose proof (proj1 (Forall_lookup _ _) Hrows i row Ei) as Hr. cbv beta in Hr.
    apply list_eq. intros j. rewrite list_lookup_fmap. destruct (row !! j) as [b|] eqn:Ej.
    + apply lookup_lt_Some in Ej as Hj. rewrite lookup_seq_lt by lia. cbn [fmap option_fmap option_map].
      cbn [Nat.add]. f_equal. pose proof (getModule_lookup v qr i j row b Hv Ei Ej) as Hb.
      destruct (module_pixel v qr (Z.of_nat j) (Z.of_nat i) dx dy Hv H38) as (Hx & Hy & Hp); [lia..|].
      rewrite pixel_of_picture by done. by rewrite Hp.
    + apply lookup_ge_None in Ej. rewrite lookup_seq_ge by lia. done.
  - apply lookup_ge_None in Ei. rewrite lookup_seq_ge by lia. done.
Qed.

(** The border is light unless the ring cuts into it. *)
Lemma quiet_zone_light v qr : qr_version v qr →
  (∀ x y, quiet_zone qr 256 x y → 0 <= x < 256 ∧ 0 <= y < 256) ∧
  ((∀ x y, quiet_zone qr 256 x y → qr_pixel 256 qr x y = white) ↔ v ∉ cut_versions).
Proof.
  intros Hv. pose proof (geometry_checked v (proj1 Hv)) as Hg. unfold geometry_ok in Hg.
  rewrite (geometry_of v qr Hv) in Hg. destruct (cut_pixel v) as [cx cy].
  rewrite !andb_true_iff in Hg. destruct Hg as [[[[H1%Z.leb_le H2%Z.leb_le] H3%Z.leb_le] _] Hg].
  unfold quiet_zone. set (sc := moduleScale (qr_size qr)) in *. set (st := startX (qr_size qr) 256) in *.
  set (en := st + qr_size qr * sc) in *. cbv zeta. split; [lia|]. split.
  - intros H Hin. rewrite bool_decide_eq_true_2 in Hg by done.
    rewrite !andb_true_iff, orb_true_iff, !Z.leb_le, !Z.ltb_lt in Hg. destruct Hg as [[[[[Hr ?] ?] ?] ?] Hout].
    specialize (H cx cy). unfold qr_pixel in H. rewrite Hr in H. assert (slate = white); [apply H; lia|done].
  - intros Hno x y [Hz Hout]. rewrite bool_decide_eq_false_2 in Hg by done.
    apply andb_true_iff in Hg as [H4%Z.leb_le H5%Z.leb_le]. unfold qr_pixel. rewrite off_ring by lia. fold sc st.
    destruct (getModule qr ((x - st) / sc) ((y - st) / sc)) eqn:Hm; [|done]. destruct Hout.
    apply getModule_range in Hm as [Hx Hy].
    pose proof (Z.div_mod (x - st) sc ltac:(lia)). pose proof (Z.mod_pos_bound (x - st) sc ltac:(lia)).
    pose proof (Z.div_mod (y - st) sc ltac:(lia)). pose proof (Z.mod_pos_bound (y - st) sc ltac:(lia)).
    unfold en. nia.
Qed.

(** ** The logo *)
Lemma load_lookup px i : 0 <= i < Z.of_nat (length px) → load px i = Some (px !!! Z.to_nat i).
Proof.
  intros Hi. unfold load. destruct (Z.ltb_spec i 0); [lia|].
  rewrite list_lookup_lookup_total_lt by lia. done.
Qed.

(** Every size reads inside the table; a pixel is the one above and left of it in
    proportion. *)
Lemma CreateLogoBitmap_pixels logo bits ts :
  0 < ts → Z.of_nat (length logo) = 256 * 256 → fits ts bits →
  ∃ px, CreateLogoBitmap logo (Some bits) ts = Some (Some (mkBitmap ts ts px)) ∧ fits ts px ∧
    ∀ x y, inside ts x y → at_ ts px x y = logo !!! Z.to_nat (y * 256 / ts * 256 + x * 256 / ts).
Proof.
  intros Hts Hlogo Hbits. unfold CreateLogoBitmap.
  set (v x y := logo !!! Z.to_nat (y * 256 / ts * 256 + x * 256 / ts)).
  assert (Hq : ∀ k, 0 <= k < ts → Z.quot (k * 256) ts = k * 256 / ts ∧ 0 <= k * 256 / ts < 256).
  { intros k Hk. rewrite Z.quot_div_nonneg by lia. split; [done|].
    split; [apply Z.div_pos; lia|apply Z.div_lt_upper_bound; lia]. }
  assert (Hp : paints ts (λ x y, ∃ Y, 0 <= Y < ts ∧ ∃ X, 0 <= X < ts ∧ y * ts + x = Y * ts + X) v
    (for_ ts (λ y, let srcY := Z.quot (y * 256) ts in let srcY := if 256 <=? srcY then 255 else srcY in
      for_ ts (λ x px, let srcX := Z.quot (x * 256) ts in let srcX := if 256 <=? srcX then 255 else srcX in
        p ← load logo (srcY * 256 + srcX); store (y * ts + x) p px)))).
  { apply paints_for. intros Y HY. cbv zeta. destruct (Hq Y HY) as [-> HYr].
    destruct (Z.leb_spec 256 (Y * 256 / ts)); [lia|]. apply paints_for. intros X HX.
    destruct (Hq X HX) as [-> HXr]. destruct (Z.leb_spec 256 (X * 256 / ts)); [lia|].
    rewrite load_lookup by lia. cbn [mbind option_bind]. apply paints_store; [lia|nia|].
    intros x y Hxy E. destruct (index_inj ts ltac:(lia) x y X Y) as [-> ->]; [done|by split|done|]. done. }
  destruct (Hp bits Hbits) as (px & E & F & H). cbv zeta in *. rewrite E. cbn [mbind option_bind].
  exists px. split_and!; [done..|]. intros x y Hxy. destruct (H x y Hxy) as [[_ ->]|[Hno _]]; [done|].
  destruct Hno. exists y. split; [apply Hxy|]. exists x. split; [apply Hxy|done].
Qed.

(** At its own size the logo is drawn as it is. *)
Lemma CreateLogoBitmap_256 logo bits :
  Z.of_nat (length logo) = 256 * 256 → fits 256 bits →
  CreateLogoBitmap logo (Some bits) 256 = Some (Some (mkBitmap 256 256 logo)).
Proof.
  intros Hlogo Hbits. destruct (CreateLogoBitmap_pixels logo bits 256) as (px & -> & F & H); [lia|done..|].
  do 3 f_equal. apply list_eq. intros i. unfold fits in F. destruct (decide (Z.of_nat i < 256 * 256)) as [Hi|Hi].
  2:{ rewrite !lookup_ge_None_2 by lia. done. }
  specialize (H (Z.of_nat i mod 256) (Z.of_nat i / 256)).
  assert (E : Z.of_nat i / 256 * 256 + Z.of_nat i mod 256 = Z.of_nat i)
    by (pose proof (Z.div_mod (Z.of_nat i) 256); lia).
  rewrite !Z.div_mul in H by lia. unfold at_ in H. rewrite E, Nat2Z.id in H.
  rewrite !list_lookup_lookup_total_lt by lia. f_equal. apply H. unfold inside.
  pose proof (Z.mod_pos_bound (Z.of_nat i) 256). split; [lia|].
  split; [apply Z.div_pos; lia|apply Z.div_lt_upper_bound; lia].
Qed.

(** ** From the text to the phone *)
Lemma qr_pixel_opaque ts qr x y : word32 (qr_pixel ts qr x y) ∧ opaque (qr_pixel ts qr x y).
Proof.
  unfold qr_pixel, word32, opaque. destruct (in_ring ts x y); [|destruct (getModule _ _ _)]; split; done.
Qed.

Lemma fits_coordinates ts px i : 0 < ts → fits ts px → (i < length px)%nat →
  inside ts (Z.of_nat i mod ts) (Z.of_nat i / ts) ∧
  px !!! i = at_ ts px (Z.of_nat i mod ts) (Z.of_nat i / ts).
Proof.
  intros Hts F Hi. unfold fits, inside, at_ in *. pose proof (Z.mod_pos_bound (Z.of_nat i) ts Hts).
  pose proof (Z.div_mod (Z.of_nat i) ts). split.
  - split; [lia|]. split; [apply Z.div_pos; lia|apply Z.div_lt_upper_bound; lia].
  - f_equal. lia.
Qed.

Lemma image_picture qr px : fits 256 px →
  (∀ x y, inside 256 x y → at_ 256 px x y = qr_pixel 256 qr x y) →
  Forall word32 px ∧ image px 256 256 256 = qr_picture qr 256 ∧ Forall (Forall opaque) (qr_picture qr 256).
Proof.
  intros F H. split_and!.
  - apply Forall_lookup. intros i p Hp. apply lookup_lt_Some in Hp as Hi.
    destruct (fits_coordinates 256 px i) as [Hin E]; [lia|done..|].
    rewrite list_lookup_lookup_total_lt in Hp by done. injection Hp as <-.
    rewrite E, H by done. apply qr_pixel_opaque.
  - unfold image, qr_picture. apply list_fmap_ext. intros i y Hy%lookup_seq.
    apply list_fmap_ext. intros j x Hx%lookup_seq. rewrite <- H by (unfold inside; lia).
    unfold at_. f_equal. lia.
  - unfold qr_picture. apply Forall_fmap, Forall_seq. intros y Hy. cbn.
    apply Forall_fmap, Forall_seq. intros x Hx. cbn. apply qr_pixel_opaque.
Qed.

Lemma encode_picture qr px :
  fits 256 px → Forall word32 px → image px 256 256 256 = qr_picture qr 256 →
  Forall (Forall opaque) (qr_picture qr 256) →
  let png := EncodeOpaqueBgraPng (Some px) 256 256 256 in
  read_png png = Some (256, 256, qr_picture qr 256) ∧ png ≠ [].
Proof.
  intros F Hw Himg Ho. unfold fits in F. rewrite <- Himg in *. clear Himg. cbv zeta.
  assert (Hs : png_sizes 256 256 256) by (unfold png_sizes; lia).
  assert (Hl : png_sizes 256 256 256 → (256 - 1) * 256 + 256 <= Z.of_nat (length px)) by (intros _; lia).
  pose proof (encode_cases px 256 256 256 Hw ltac:(lia) ltac:(lia) ltac:(lia) Hl) as H. cbv zeta in H.
  revert H. generalize (EncodeOpaqueBgraPng (Some px) 256 256 256). intros png H.
  destruct H as [(_ & _ & Hr)|[Hno _]]; [|destruct Hno; split; [exact Hs|exact Ho]].
  split; [exact Hr|]. intros ->. discriminate Hr.
Qed.

(** The codes of the encoder are squares of their version. *)
Lemma shows_version text qr : shows text qr → qr_version (qr_ver qr) qr.
Proof.
  intros (Hv & _ & data & all & f & _ & _ & _ & Hq). pose proof (fin_square _ _ _ _ _ Hq) as [Hl Hr].
  rewrite <- (fin_size _ _ _ _ _ Hq) in Hl, Hr. unfold qr_version. split; [done|]. split; [apply Hq|]. by split.
Qed.

(** C20: the link gets to the phone. Every text of at most 2099 bytes has a QR code at
    the level the tile asks for; drawing it never leaves the memory of the bitmap; both
    ways of handing the picture to LogonUI (PNG and bitmap) give the same picture of 256
    pixels; and a reader that looks at one pixel of each module of the PNG, any pixel of
    the module, and reads the modules as the standard says, gets exactly the text. The
    light border of four modules, which the regression test looks for, is complete in
    all versions but nine: in versions 1, 2, 3, 5, 9 and from 37 on the decorative ring
    cuts into it. *)
Theorem qr_tile_reads_back text bits bits2 logo png0 CopyImage :
  Forall is_byte (c_str text) → Z.of_nat (length (c_str text)) <= 2099 →
  Z.of_nat (length bits) = 256 * 256 →
  ∃ qr bitmap png,
    encodeText (c_str text) MEDIUM = Some qr ∧
    CreateQrBitmap (Some bits) text 256 = Some (Some bitmap) ∧
    bitmap_buffer_value png0 true true (Some bitmap) = inr png ∧
    read_png png = Some (256, 256, qr_picture qr 256) ∧
    bitmap_value true (Some bits2) CopyImage (Some bitmap) logo = Some bitmap ∧
    image (bm_bits bitmap) 256 256 256 = qr_picture qr 256 ∧
    (∀ dx dy, 0 <= dx < moduleScale (qr_size qr) → 0 <= dy < moduleScale (qr_size qr) →
      read_qr (scan (qr_size qr) 256 dx dy (qr_picture qr 256)) = Some (c_str text)) ∧
    ((∀ x y, quiet_zone qr 256 x y → pixel_of (qr_picture qr 256) x y = white) ↔ qr_ver qr ∉ cut_versions).
Proof.
  intros Hbytes Hlen Hbits.
  destruct (encodeText_within (c_str text) MEDIUM 38 2102 Hbytes) as (qr & Henc & Hshows & H38); [lia|reflexivity|lia|].
  pose proof (shows_version _ _ Hshows) as Hv. exists qr.
  destruct (CreateQrBitmap_pixels 256 ltac:(lia) text qr bits Henc) as (px & E & F & H);
    [destruct Hv; lia|done|].
  destruct (image_picture qr px F H) as (Hw & Himg & Ho).
  pose proof (encode_picture qr px F Hw Himg Ho) as [Hr Hne].
  eexists _, _. split; [exact Henc|]. split; [exact E|]. split.
  { unfold bitmap_buffer_value. cbn [bm_bits bm_width bm_height negb]. change (Z.quot (256 * 4) 4) with 256.
    rewrite bool_decide_eq_false_2 by done. by rewrite bool_decide_eq_false_2 by done. }
  split; [exact Hr|]. split.
  { unfold bitmap_value, CloneAlphaDIB. cbn [mbind option_bind bm_bits bm_width bm_height]. do 2 f_equal.
    apply take_ge. unfold fits in F. lia. }
  split; [exact Himg|]. split.
  { intros dx dy Hdx Hdy. rewrite (scan_modules _ qr dx dy Hv (proj2 H38) Hdx Hdy). by apply shows_reads. }
  destruct (quiet_zone_light (qr_ver qr) qr Hv) as [Hin <-]. split; intros Hq x y Hz.
  - rewrite <- pixel_of_picture by apply (Hin x y Hz). by apply Hq.
  - rewrite pixel_of_picture by apply (Hin x y Hz). by apply Hq.
Qed.

(** A link of 43 bytes. *)
Lemma qr_tile_reads_back_witness :
  ∃ qr png, read_png png = Some (256, 256, qr_picture qr 256) ∧
    read_qr (scan (qr_size qr) 256 0 0 (qr_picture qr 256)) = Some demo_link.
Proof.
  destruct (qr_tile_reads_back demo_link (replicate (Z.to_nat 65536) 0) [] None [] (λ _, None))
    as (qr & bitmap & png & _ & _ & _ & Hr & _ & _ & Hscan & _).
  - apply (bool_decide_unpack _). vm_compute. reflexivity.
  - vm_compute. discriminate.
  - rewrite length_replicate. lia.
  - exists qr, png. split; [exact Hr|].
    apply Hscan; (split; [lia|pose proof (moduleScale_pos (qr_size qr)); lia]).
Defined.
