(* ===== verification/TileResources.v ===== *)
(** * What the tile holds

    [windows/credential_provider/LigamentCredential.cpp]: the references that a
    tile keeps on LogonUI's event interfaces (its own and those of the global
    interface table, GIT) and its bitmaps, the copies made for LogonUI included, while
    LogonUI's thread and the worker notify LogonUI, some of it through the members
    themselves, and the interfaces are exchanged. A step is one critical section or
    the calls up to the next; the counts are those of the tile's own references. *)
From stdpp Require Import functions fin_maps.
From S2P Require Import Prelude.

(** ** State *)

(** [m_pEvents] with [m_dwEventsCookie], or [m_pProviderEvents] with
    [m_dwProviderEventsCookie] ([None] is the cookie 0). *)
Record Slot := mkSlot { s_ptr : option nat; s_cookie : option nat }.

(** Inside [NotifyFieldChanged] or [NotifyProviderChangedFromWorker], and inside
    [NotifyQrChanged], which uses the members themselves. *)
Inductive NotifyPc :=
  | Quiet
  | Looked (pRawEvents cookie : option nat)       (* both members read *)
  | Asked (pRawEvents pEvents : option nat)       (* the GIT asked *)
  | Chosen (pRawEvents pEvents : option nat)      (* the fallback taken *)
  | Calling (pEvents : nat)                       (* LogonUI is called *)
  | Copying (pEvents : nat)                       (* FID_LOGO: a copy is next *)
  | Copied (pEvents : nat) (copyBmp : option nat) (defaultLogo : bool)
  | Leaving (pEvents : nat)                       (* the reference is given back next *)
  | QrBegin                                       (* NotifyQrChanged *)
  | QrCopied (src : bool) (copyBmp : option nat) (defaultLogo : bool)
  | QrShown.

Record Res := mkRes {
  events : Slot; provider_events : Slot;
  git : gmap nat nat;                  (* cookie to interface *)
  refs : nat → Z;                      (* the references taken on an interface *)
  ui : NotifyPc; worker : NotifyPc;
  m_hQrBmp : option nat; m_hDefaultLogoBmp : option nat;
  newQrBmp : option nat;               (* of the worker *)
  bitmaps : gset nat;                  (* live GDI bitmaps *)
  misused : bool;                      (* a reference or handle given back, or an interface called,
                                          that was not held *)
  destroyed : bool }.

#[export] Instance eta_Res : Settable Res := λ s,
  mkRes (events s) (provider_events s) (git s) (refs s) (ui s) (worker s) (m_hQrBmp s)
    (m_hDefaultLogoBmp s) (newQrBmp s) (bitmaps s) (misused s) (destroyed s).

Definition add_ref (i : nat) (s : Res) : Res := s <| refs := <[i := refs s i + 1]> (refs s) |>.
Definition release (i : nat) (s : Res) : Res :=
  s <| refs := <[i := refs s i - 1]> (refs s) |> <| misused := misused s || (refs s i <=? 0) |>.
Definition on_some (f : nat → Res → Res) (o : option nat) (s : Res) : Res :=
  match o with Some i => f i s | None => s end.

Definition delete_object (h : nat) (s : Res) : Res :=
  s <| bitmaps := bitmaps s ∖ {[h]} |> <| misused := misused s || negb (bool_decide (h ∈ bitmaps s)) |>.
Definition create_bitmap (h : option nat) (s : Res) : Res :=
  match h with Some h => s <| bitmaps := {[h]} ∪ bitmaps s |> | None => s end.

(** LogonUI becomes the owner. *)
Definition hand_over (h : nat) (s : Res) : Res := delete_object h s.

(** A call on an interface. *)
Definition call (i : nat) (s : Res) : Res := s <| misused := misused s || (refs s i <=? 0) |>.

Definition slot_of (provider : bool) (s : Res) : Slot := if provider then provider_events s else events s.
Definition put_slot (provider : bool) (c : Slot) (s : Res) : Res :=
  if provider then s <| provider_events := c |> else s <| events := c |>.

Section Tile.
(** [GetGIT() != nullptr]; the pointer is fetched once. *)
Context (pGIT : bool).

(** *** The interface table: an entry holds a reference. *)
Definition RevokeInterfaceFromGlobal (cookie : nat) (s : Res) : Res :=
  match git s !! cookie with
  | Some i => release i (s <| git := delete cookie (git s) |>)
  | None => s <| misused := true |>
  end.

(** [None]: the call fails. *)
Definition RegisterInterfaceInGlobal (cookie : option nat) (i : nat) (s : Res) : Res :=
  match cookie with
  | Some c => add_ref i (s <| git := <[c := i]> (git s) |>)
  | None => s
  end.

(** ** The members *)

(** [if (m_dwEventsCookie != 0 && pGIT) { ... }] *)
Definition revoked (c : Slot) (s : Res) : Slot * Res :=
  match s_cookie c with
  | Some k => if pGIT then (mkSlot (s_ptr c) None, RevokeInterfaceFromGlobal k s) else (c, s)
  | None => (c, s)
  end.

(** The body shared by [Advise] and [SetProviderEvents]: the slot's new contents. *)
Definition exchange_slot (c : Slot) (p : option nat) (cookie : option nat) (s : Res) : Slot * Res :=
  let '(c, s) := revoked c s in
  let s := on_some release (s_ptr c) s in
  match p with
  | Some i =>
    let s := add_ref i s in
    if pGIT then (mkSlot p (match cookie with Some k => Some k | None => s_cookie c end),
                  RegisterInterfaceInGlobal cookie i s)
    else (mkSlot p (s_cookie c), s)
  | None => (mkSlot None (s_cookie c), s)
  end.

Definition Advise_events (pcpce cookie : option nat) (s : Res) : Res :=
  let '(c, s) := exchange_slot (events s) pcpce cookie s in s <| events := c |>.
Definition SetProviderEvents_events (pcpe cookie : option nat) (s : Res) : Res :=
  let '(c, s) := exchange_slot (provider_events s) pcpe cookie s in s <| provider_events := c |>.

(** The lines of [UnAdvise], which the destructor has once for each slot. *)
Definition revoke_slot (provider : bool) (s : Res) : Res :=
  let '(c, s') := revoked (slot_of provider s) s in put_slot provider c s'.
Definition release_slot (provider : bool) (s : Res) : Res :=
  put_slot provider (mkSlot None (s_cookie (slot_of provider s)))
    (on_some release (s_ptr (slot_of provider s)) s).
Definition UnAdvise_events (s : Res) : Res := release_slot false (revoke_slot false s).

(** ** Telling LogonUI *)

(** What decides a step: [GetInterfaceFromGlobal] succeeds for a cookie that is in the
    table; the field is the picture; the handle that [CopyImage] gives; LogonUI takes
    the picture with its alpha channel; there is an advise context. *)
Record Answers := mkAnswers {
  git_answers : bool; logo : bool; copied : option nat; transparent : bool; context : bool }.

(** What is shown, and a copy of it. *)
Definition source (s : Res) : option nat :=
  match m_hQrBmp s with Some h => Some h | None => m_hDefaultLogoBmp s end.
Definition is_default (s : Res) : bool :=
  bool_decide (is_Some (source s)) && bool_decide (source s = m_hDefaultLogoBmp s).
Definition copy_of (a : Answers) (s : Res) : option nat :=
  match source s with Some _ => copied a | None => None end.

(** [SetTransparentLogo] succeeds and the copy is deleted, or [SetFieldBitmap] has it. *)
Definition show (a : Answers) (copyBmp : option nat) (defaultLogo : bool) (s : Res) : Res :=
  if defaultLogo && transparent a then on_some delete_object copyBmp s else on_some hand_over copyBmp s.

Definition notify_step (a : Answers) (pc : NotifyPc) (s : Res) : NotifyPc * Res :=
  match pc with
  | Quiet => (Quiet, s)
  | Looked raw cookie =>
    match (if pGIT && git_answers a then cookie ≫= λ k, git s !! k else None) with
    | Some i => (Asked raw (Some i), add_ref i s)
    | None => (Asked raw None, s)
    end
  | Asked raw None => (Chosen raw raw, on_some add_ref raw s)
  | Asked raw p => (Chosen raw p, s)
  | Chosen raw p => (match p with Some i => Calling i | None => Quiet end, on_some release raw s)
  | Calling i => (if logo a then Copying i else Leaving i, call i s)
  | Copying i => (Copied i (copy_of a s) (is_default s), create_bitmap (copy_of a s) s)
  | Copied i copyBmp defaultLogo => (Leaving i, call i (show a copyBmp defaultLogo (call i s)))
  | Leaving i => (Quiet, release i s)
  | QrBegin => (QrCopied (bool_decide (is_Some (source s))) (copy_of a s) (is_default s), create_bitmap (copy_of a s) s)
  | QrCopied src copyBmp defaultLogo =>
    (QrShown, match s_ptr (events s), src with
              | Some i, true => call i (show a copyBmp defaultLogo (call i s))
              | _, _ => on_some delete_object copyBmp s
              end)
  | QrShown => (Quiet, if context a then on_some call (s_ptr (provider_events s)) s else s)
  end.

(** [NotifyFieldChanged] reads both members in any case,
    [NotifyProviderChangedFromWorker] nothing without an interface. *)
Definition notify_begin (provider : bool) (s : Res) : NotifyPc * Res :=
  if provider then
    match s_ptr (provider_events s) with
    | Some i => (Looked (Some i) (s_cookie (provider_events s)), add_ref i s)
    | None => (Looked None None, s)
    end
  else (Looked (s_ptr (events s)) (s_cookie (events s)), on_some add_ref (s_ptr (events s)) s).

(** ** Bitmaps *)
Definition Initialize_logo (h : option nat) (s : Res) : Res :=
  (create_bitmap h s) <| m_hDefaultLogoBmp := h |>.

(** The critical section of [ClearQrBitmap], which the worker has in line. *)
Definition clear_qr (s : Res) : Res :=
  match m_hQrBmp s with Some h => (delete_object h s) <| m_hQrBmp := None |> | None => s end.

(** With [NotifyQrChanged], when a code was shown. *)
Definition ClearQrBitmap (s : Res) : Res :=
  match m_hQrBmp s with Some _ => (clear_qr s) <| ui := QrBegin |> | None => s end.

(** [GetSerialization] draws the code itself. *)
Definition store_qr (h : option nat) (s : Res) : Res :=
  (on_some delete_object (m_hQrBmp s) (create_bitmap h s)) <| m_hQrBmp := h |>.

(** The critical section of the worker after [WebAuthnBegin], and the deletion
    that follows it. *)
Definition worker_store (stop ok : bool) (s : Res) : Res :=
  if stop then s else
  if ok then (on_some delete_object (m_hQrBmp s) s) <| m_hQrBmp := newQrBmp s |> <| newQrBmp := None |>
  else clear_qr s.
Definition worker_drop (s : Res) : Res := (on_some delete_object (newQrBmp s) s) <| newQrBmp := None |>.

Definition delete_logo (s : Res) : Res :=
  match m_hDefaultLogoBmp s with Some h => (delete_object h s) <| m_hDefaultLogoBmp := None |> | None => s end.

(** A step of LogonUI's thread. *)
Definition ui_step (a : Answers) (s : Res) : Res :=
  let '(pc, s) := notify_step a (ui s) s in s <| ui := pc |>.

(** The destructor after [StopPollThread]; [NotifyQrChanged] is three steps. *)
Definition destroy_tile (a : Answers) (s : Res) : Res :=
  let s := ui_step a (ui_step a (ui_step a (ClearQrBitmap s))) in
  let s := delete_logo s in
  let s := revoke_slot true (revoke_slot false s) in
  (release_slot true (release_slot false s)) <| destroyed := true |>.

(** ** Runs *)
Inductive TileEvent :=
  | EvAdvise (p cookie : option nat)
  | EvSetProviderEvents (p cookie : option nat)
  | EvUnAdvise
  | EvInitialize (h : option nat)
  | EvClearQr
  | EvWorkerClear
  | EvStoreQr (h : option nat)
  | EvNotify (by_worker provider : bool)
  | EvNotifyQr
  | EvNotifyStep (by_worker : bool) (a : Answers)
  | EvSetFieldString
  | EvWorkerDraw (h : option nat)
  | EvWorkerStore (stop ok : bool)
  | EvWorkerDrop
  | EvDestroy (a : Answers).

Definition run_event (s : Res) (e : TileEvent) : Res :=
  match e with
  | EvAdvise p k => Advise_events p k s
  | EvSetProviderEvents p k => SetProviderEvents_events p k s
  | EvUnAdvise => UnAdvise_events s
  | EvInitialize h => Initialize_logo h s
  | EvClearQr => ClearQrBitmap s
  | EvWorkerClear => clear_qr s
  | EvStoreQr h => store_qr h s
  | EvNotify by_worker provider =>
    let '(pc, s) := notify_begin provider s in
    if by_worker then s <| worker := pc |> else s <| ui := pc |>
  | EvNotifyQr => s <| ui := QrBegin |>
  | EvNotifyStep by_worker a =>
    let '(pc, s') := notify_step a (if by_worker then worker s else ui s) s in
    if by_worker then s' <| worker := pc |> else s' <| ui := pc |>
  | EvSetFieldString => on_some call (s_ptr (events s)) s    (* if (m_pEvents) m_pEvents->SetFieldString(...) *)
  | EvWorkerDraw h => (create_bitmap h s) <| newQrBmp := h |>
  | EvWorkerStore stop ok => worker_store stop ok s
  | EvWorkerDrop => worker_drop s
  | EvDestroy a => destroy_tile a s
  end.

Definition fresh_tile : Res :=
  mkRes (mkSlot None None) (mkSlot None None) ∅ (λ _, 0) Quiet Quiet None None None ∅ false false.
Definition run (es : list TileEvent) (s : Res) : Res := foldl run_event s es.
End Tile.

(** What may happen in a state: LogonUI's thread does one thing at a time, handles
    and cookies are new, the destructor has joined the worker. *)
Definition new_cookie (k : option nat) (s : Res) : Prop := ∀ c, k = Some c → git s !! c = None.
Definition new_handle (h : option nat) (s : Res) : Prop := ∀ b, h = Some b → b ∉ bitmaps s.
Definition possible (s : Res) (e : TileEvent) : Prop :=
  destroyed s = false ∧
  match e with
  | EvAdvise _ k | EvSetProviderEvents _ k => ui s = Quiet ∧ new_cookie k s
  | EvUnAdvise => ui s = Quiet
  | EvInitialize h | EvStoreQr h => ui s = Quiet ∧ new_handle h s
  | EvNotify false _ | EvNotifyQr | EvSetFieldString | EvClearQr => ui s = Quiet
  | EvNotify true _ => worker s = Quiet
  | EvNotifyStep _ a => new_handle (copied a) s
  | EvWorkerClear | EvWorkerStore _ _ | EvWorkerDrop => True
  | EvWorkerDraw h => newQrBmp s = None ∧ new_handle h s
  | EvDestroy a => ui s = Quiet ∧ worker s = Quiet ∧ newQrBmp s = None ∧ new_handle (copied a) s
  end.
Fixpoint feasible (pGIT : bool) (s : Res) (es : list TileEvent) : Prop :=
  match es with [] => True | e :: es => possible s e ∧ feasible pGIT (run_event pGIT s e) es end.

(** ** The ledger *)
Definition one (i j : nat) : Z := if decide (i = j) then 1 else 0.
Definition owns (o : option nat) (j : nat) : Z := match o with Some i => one i j | None => 0 end.
Definition git_refs (g : gmap nat nat) (j : nat) : Z := Z.of_nat (size (filter (λ kv, kv.2 = j) g)).
Definition pc_refs (pc : NotifyPc) (j : nat) : Z :=
  match pc with
  | Quiet | QrBegin | QrCopied _ _ _ | QrShown => 0
  | Looked raw _ => owns raw j
  | Asked raw p | Chosen raw p => owns raw j + owns p j
  | Calling p | Copying p | Copied p _ _ | Leaving p => one p j
  end.
(** The copy that a notification holds. *)
Definition pc_copy (pc : NotifyPc) : option nat :=
  match pc with Copied _ c _ | QrCopied _ c _ => c | _ => None end.

(** The references that the members, the table and the notifications stand for. *)
Definition owed (s : Res) (j : nat) : Z :=
  owns (s_ptr (events s)) j + owns (s_ptr (provider_events s)) j + git_refs (git s) j
  + pc_refs (ui s) j + pc_refs (worker s) j.

(** Every reference taken is owed, up to [x]; nothing was given back too often. *)
Definition ledger (x : nat → Z) (s : Res) : Prop :=
  (∀ j, refs s j = owed s j + x j) ∧ misused s = false.

Lemma one_bounds i j : 0 <= one i j <= 1.
Proof. unfold one. destruct (decide _); lia. Qed.
Lemma one_same i : one i i = 1.
Proof. unfold one. by rewrite decide_True. Qed.
Lemma owns_bounds o j : 0 <= owns o j <= 1.
Proof. destruct o; cbn; [apply one_bounds|lia]. Qed.
Lemma pc_refs_bounds pc j : 0 <= pc_refs pc j.
Proof.
  destruct pc; cbn; repeat match goal with
    | |- context [owns ?o j] => pose proof (owns_bounds o j); generalize dependent (owns o j)
    | |- context [one ?p j] => pose proof (one_bounds p j); generalize dependent (one p j)
    end; intros; lia.
Qed.
Lemma git_refs_bounds g j : 0 <= git_refs g j.
Proof. unfold git_refs. lia. Qed.
Lemma owed_parts s j :
  0 <= owns (s_ptr (events s)) j ∧ 0 <= owns (s_ptr (provider_events s)) j ∧ 0 <= git_refs (git s) j ∧
  0 <= pc_refs (ui s) j ∧ 0 <= pc_refs (worker s) j.
Proof. split_and!; first [apply owns_bounds|apply pc_refs_bounds|apply git_refs_bounds]. Qed.

Lemma git_refs_insert g k i j : g !! k = None → git_refs (<[k := i]> g) j = git_refs g j + one i j.
Proof.
  intros Hk. unfold git_refs, one. rewrite map_filter_insert. cbn. destruct (decide (i = j)) as [->|].
  - rewrite map_size_insert_None; [lia|]. apply map_lookup_filter_None. left. done.
  - rewrite map_filter_delete, delete_id; [lia|]. apply map_lookup_filter_None. by left.
Qed.

Lemma git_refs_delete g k i j : g !! k = Some i → git_refs g j = git_refs (delete k g) j + one i j.
Proof.
  intros Hk. rewrite <- (insert_delete_id g k i Hk) at 1. apply git_refs_insert, lookup_delete_eq.
Qed.

Lemma ledger_ext x y s : ledger x s → (∀ j, x j = y j) → ledger y s.
Proof. intros [H M] E. split; [|done]. intros j. by rewrite H, E. Qed.

Lemma ledger_add x i s : ledger x s → ledger (λ j, x j + one i j) (add_ref i s).
Proof.
  intros [H M]. split; [|done]. intros j. change (owed (add_ref i s) j) with (owed s j). cbn.
  unfold one. destruct (decide (i = j)) as [->|Hne].
  - rewrite fn_lookup_insert, H. lia.
  - rewrite fn_lookup_insert_ne, H by done. lia.
Qed.

Lemma ledger_release x i s : ledger x s → 1 <= owed s i + x i → ledger (λ j, x j - one i j) (release i s).
Proof.
  intros [H M] Hi. split.
  - intros j. change (owed (release i s) j) with (owed s j). cbn. unfold one. destruct (decide (i = j)) as [->|Hne].
    + rewrite fn_lookup_insert, H. lia.
    + rewrite fn_lookup_insert_ne, H by done. lia.
  - cbn. rewrite M, H. cbn [orb]. apply Z.leb_gt. lia.
Qed.

(** A call on what is held changes nothing. *)
Lemma call_held x i s : ledger x s → 1 <= owed s i + x i → call i s = s.
Proof.
  intros [H _] Hi. unfold call. rewrite H. destruct (Z.leb_spec (owed s i + x i) 0); [lia|].
  destruct s; cbn. by rewrite orb_false_r.
Qed.

(** Other parts of the state change: the difference is entered. *)
Lemma ledger_change x s s' : ledger x s → refs s' = refs s → misused s' = misused s →
  ledger (λ j, x j + owed s j - owed s' j) s'.
Proof. intros [H M] E1 E2. split; [|by rewrite E2]. intros j. rewrite E1, H. lia. Qed.

(** ** Slots *)

(** All that the table and the counts leave alone. *)
Definition frame (s s' : Res) : Prop :=
  events s' = events s ∧ provider_events s' = provider_events s ∧ ui s' = ui s ∧ worker s' = worker s ∧
  m_hQrBmp s' = m_hQrBmp s ∧ m_hDefaultLogoBmp s' = m_hDefaultLogoBmp s ∧ newQrBmp s' = newQrBmp s ∧
  bitmaps s' = bitmaps s ∧ destroyed s' = destroyed s.

Definition members (s : Res) (j : nat) : Z :=
  owns (s_ptr (events s)) j + owns (s_ptr (provider_events s)) j + pc_refs (ui s) j + pc_refs (worker s) j.

Lemma owed_members s j : owed s j = members s j + git_refs (git s) j.
Proof. unfold owed, members. lia. Qed.
Lemma members_frame s s' j : frame s s' → members s' j = members s j.
Proof. intros (E1 & E2 & E3 & E4 & _). unfold members. by rewrite E1, E2, E3, E4. Qed.
Lemma frame_refl s : frame s s.
Proof. by unfold frame. Qed.
Lemma frame_trans s1 s2 s3 : frame s1 s2 → frame s2 s3 → frame s1 s3.
Proof. unfold frame. intros (?&?&?&?&?&?&?&?&?) (?&?&?&?&?&?&?&?&?). split_and!; congruence. Qed.
Lemma frame_add i s : frame s (add_ref i s).
Proof. by unfold frame. Qed.
Lemma frame_release i s : frame s (release i s).
Proof. by unfold frame. Qed.

Lemma ledger_release_opt x o s :
  ledger x s → (∀ j, owns o j <= owed s j + x j) → ledger (λ j, x j - owns o j) (on_some release o s).
Proof.
  intros H Ho. destruct o as [i|]; cbn; [|eapply ledger_ext; [done|]; intros j; cbn; lia].
  apply ledger_release; [done|]. specialize (Ho i). cbn in Ho. rewrite one_same in Ho. lia.
Qed.
Lemma frame_release_opt o s : frame s (on_some release o s) ∧ git (on_some release o s) = git s.
Proof. by destruct o. Qed.
Lemma ledger_add_opt x o s : ledger x s → ledger (λ j, x j + owns o j) (on_some add_ref o s).
Proof.
  intros H. destruct o as [i|]; cbn; [by apply ledger_add|eapply ledger_ext; [done|]; intros j; cbn; lia].
Qed.
Lemma frame_add_opt o s : frame s (on_some add_ref o s) ∧ git (on_some add_ref o s) = git s.
Proof. by destruct o. Qed.

Section Slots.
Context (pGIT : bool).

(** A cookie is one of the table, and there are none without the table. *)
Definition slot_ok (g : gmap nat nat) (c : Slot) : Prop :=
  ∀ k, s_cookie c = Some k → pGIT = true ∧ is_Some (g !! k).

Definition without (g : gmap nat nat) (k : option nat) : gmap nat nat :=
  match k with Some k => delete k g | None => g end.

Lemma revoked_spec c s x : ledger x s → (∀ j, 0 <= members s j + x j) → slot_ok (git s) c →
  let '(c', s') := revoked pGIT c s in
  c' = mkSlot (s_ptr c) None ∧ ledger x s' ∧ frame s s' ∧ git s' = without (git s) (s_cookie c).
Proof.
  intros H Hx Hc. destruct c as [p [k|]]; unfold revoked; cbn [s_cookie s_ptr]; [|split_and!; try done].
  destruct (Hc k eq_refl) as [-> [i Hi]]. unfold RevokeInterfaceFromGlobal. rewrite Hi.
  split; [done|]. set (s1 := s <| git := delete k (git s) |>).
  assert (Hg : ∀ j, owed s j = owed s1 j + one i j).
  { intros j. rewrite !owed_members. change (members s1 j) with (members s j). cbn.
    rewrite (git_refs_delete (git s) k i j Hi). lia. }
  pose proof (ledger_change x s s1 H eq_refl eq_refl) as H1.
  assert (H2 : ledger (λ j, x j + one i j) s1) by (eapply ledger_ext; [exact H1|]; intros j; cbn; rewrite Hg; lia).
  split; [|by split].
  eapply ledger_ext; [apply (ledger_release _ i s1 H2)|intros j; cbn; lia].
  rewrite one_same. specialize (Hx i). rewrite owed_members. change (members s1 i) with (members s i).
  pose proof (git_refs_bounds (git s1) i). lia.
Qed.

(** The table after an exchange: the old cookie is gone, a new one may be there. *)
Lemma exchange_slot_spec c p k s x :
  ledger x s → (∀ j, owns (s_ptr c) j <= members s j + x j) → slot_ok (git s) c → new_cookie k s →
  let '(c', s') := exchange_slot pGIT c p k s in
  s_ptr c' = p ∧ ledger (λ j, x j + owns p j - owns (s_ptr c) j) s' ∧ frame s s' ∧
  ((s_cookie c' = None ∧ git s' = without (git s) (s_cookie c)) ∨
   ∃ k' i, s_cookie c' = Some k' ∧ pGIT = true ∧ git s !! k' = None ∧
     git s' = <[k' := i]> (without (git s) (s_cookie c))).
Proof.
  intros H Hx Hc Hk. unfold exchange_slot.
  pose proof (revoked_spec c s x H ltac:(intros j; specialize (Hx j); pose proof (owns_bounds (s_ptr c) j); lia) Hc) as Hr.
  destruct (revoked pGIT c s) as [c1 s1]. destruct Hr as (-> & H1 & F1 & G1). cbn [s_ptr s_cookie].
  assert (H2 : ledger (λ j, x j - owns (s_ptr c) j) (on_some release (s_ptr c) s1)).
  { apply ledger_release_opt; [done|]. intros j. rewrite owed_members, (members_frame _ _ _ F1).
    pose proof (git_refs_bounds (git s1) j). specialize (Hx j). lia. }
  destruct (frame_release_opt (s_ptr c) s1) as [F2 G2]. set (s2 := on_some release (s_ptr c) s1) in *.
  pose proof (frame_trans _ _ _ F1 F2) as F. rewrite G1 in G2.
  destruct p as [i|].
  2:{ split; [done|]. split; [eapply ledger_ext; [exact H2|]; intros j; cbn; lia|]. split; [done|]. by left. }
  pose proof (ledger_add _ i s2 H2) as H3. pose proof (frame_trans _ _ _ F (frame_add i s2)) as F3.
  set (s3 := add_ref i s2) in *.
  assert (H3' : ledger (λ j, x j + owns (Some i) j - owns (s_ptr c) j) s3)
    by (eapply ledger_ext; [exact H3|]; intros j; cbn; lia).
  destruct pGIT eqn:EG; [|split_and!; try done; by left].
  destruct k as [k|]; cbn [RegisterInterfaceInGlobal]; [|split_and!; try done; by left].
  split; [done|]. assert (Hkn : git s3 !! k = None).
  { change (git s3) with (git s2). rewrite G2. specialize (Hk k eq_refl). unfold without.
    destruct (s_cookie c) as [k0|]; [|done]. by apply lookup_delete_None; right. }
  set (s4 := s3 <| git := <[k := i]> (git s3) |>).
  pose proof (ledger_change _ s3 s4 H3' eq_refl eq_refl) as H4. split; [|split].
  - eapply ledger_ext; [apply (ledger_add _ i s4 H4)|]. intros j. cbn beta. rewrite !owed_members.
    change (members s4 j) with (members s3 j). change (git s4) with (<[k := i]> (git s3)).
    rewrite (git_refs_insert (git s3) k i j Hkn). lia.
  - apply (frame_trans _ s3); [done|]. by unfold frame.
  - right. exists k, i. cbn. split; [done|]. split; [done|]. split; [by apply Hk|]. by rewrite G2.
Qed.

(** The table holds exactly the cookies of the two slots. *)
Definition table_ok (g : gmap nat nat) (c o : Slot) : Prop :=
  slot_ok g c ∧ slot_ok g o ∧ (∀ k, s_cookie c = Some k → s_cookie o ≠ Some k) ∧
  (∀ k, is_Some (g !! k) → s_cookie c = Some k ∨ s_cookie o = Some k).

Lemma table_ok_sym g c o : table_ok g c o → table_ok g o c.
Proof. unfold table_ok. intros (?&?&H&H'). split_and!; [done..|naive_solver|naive_solver]. Qed.

Lemma table_ok_without g c o p : table_ok g c o → table_ok (without g (s_cookie c)) (mkSlot p None) o.
Proof.
  intros (Hc & Ho & Hne & Hall). split_and!; [done| |done|].
  - intros k Hk. destruct (Ho k Hk) as [? Hg]. split; [done|]. unfold without.
    destruct (s_cookie c) as [k0|] eqn:E; [|done]. rewrite lookup_delete_ne; [done|]. intros ->. by apply (Hne k).
  - intros k Hk. right. unfold without in Hk. destruct (s_cookie c) as [k0|] eqn:E.
    + destruct (decide (k0 = k)) as [->|]; [rewrite lookup_delete_eq in Hk; by destruct Hk|].
      rewrite lookup_delete_ne in Hk by done. destruct (Hall k Hk) as [H|H]; [congruence|done].
    + destruct (Hall k Hk) as [H|H]; [congruence|done].
Qed.

Lemma table_ok_with g o p k i : pGIT = true → g !! k = None →
  table_ok g (mkSlot p None) o → table_ok (<[k := i]> g) (mkSlot p (Some k)) o.
Proof.
  intros HG Hk (_ & Ho & _ & Hall). split_and!.
  - intros k' [= <-]. split; [done|]. by rewrite lookup_insert_eq.
  - intros k' Hk'. destruct (Ho k' Hk') as [? [i' Hi]]. split; [done|]. rewrite lookup_insert_ne; [by eexists|].
    intros ->. congruence.
  - intros k' [= <-] E. destruct (Ho k E) as [_ [? ?]]. congruence.
  - intros k' Hk'. destruct (decide (k = k')) as [->|]; [by left|]. rewrite lookup_insert_ne in Hk' by done.
    destruct (Hall k' Hk') as [H|H]; [done|by right].
Qed.

(** ** The invariant *)
Definition handles (s : Res) : list nat :=
  option_list (m_hQrBmp s) ++ option_list (m_hDefaultLogoBmp s) ++ option_list (newQrBmp s) ++
  option_list (pc_copy (ui s)) ++ option_list (pc_copy (worker s)).

(** The handles in [l] are live and distinct; [m] more bitmaps are live. *)
Definition owned (B : gset nat) (l : list nat) (m : nat) : Prop :=
  NoDup l ∧ Forall (λ h, h ∈ B) l ∧ size B = (m + length l)%nat.

Definition handles_ok (n : nat) (s : Res) : Prop :=
  ∃ m, owned (bitmaps s) (handles s) m ∧ n = (m + length (option_list (m_hDefaultLogoBmp s)))%nat.

(** [n] logos were created. *)
Record inv (n : nat) (s : Res) : Prop := mkInv {
  inv_ledger : ledger (λ _, 0) s;
  inv_table : table_ok (git s) (events s) (provider_events s);
  inv_handles : handles_ok n s;
  inv_alive : destroyed s = false }.

Lemma inv_frame n s s' : inv n s → frame s s' →
  ledger (λ _, 0) s' → table_ok (git s') (events s') (provider_events s') → inv n s'.
Proof.
  intros [_ _ Hh Ha] (_ & _ & Eu & Ew & E1 & E2 & E3 & E4 & E5) Hl Ht.
  split; [done|done|..]; unfold handles_ok, handles in *; by rewrite ?E1, ?E2, ?E3, ?E4, ?E5, ?Eu, ?Ew.
Qed.

(** A slot gets new contents, which the ledger and the table are ready for. *)
Lemma put_slot_inv b n s s' c' : inv n s → frame s s' →
  ledger (λ j, owns (s_ptr c') j - owns (s_ptr (slot_of b s)) j) s' →
  table_ok (git s') c' (slot_of (negb b) s) → inv n (put_slot b c' s').
Proof.
  intros [_ _ Hh Ha] (E1 & E2 & E3 & E4 & E5 & E6 & E7 & E8 & E9) Hl Ht. split.
  - eapply ledger_ext; [eapply (ledger_change _ s'); [exact Hl|by destruct b..]|].
    intros j. unfold owed. destruct b; cbn; rewrite ?E1, ?E2; lia.
  - destruct b; cbn in *; [rewrite E1; by apply table_ok_sym|by rewrite E2].
  - unfold handles_ok, handles in *. destruct b; cbn; by rewrite E3, E4, E5, E6, E7, E8.
  - destruct b; cbn; by rewrite E9.
Qed.

Lemma slot_table b n s : inv n s → table_ok (git s) (slot_of b s) (slot_of (negb b) s).
Proof. intros H. pose proof (inv_table _ _ H). destruct b; cbn; [by apply table_ok_sym|done]. Qed.

Lemma slot_member b s j : owns (s_ptr (slot_of b s)) j <= members s j + 0.
Proof. destruct (owed_parts s j) as (?&?&?&?&?). unfold members. destruct b; cbn; lia. Qed.

Lemma exchange_inv b n s p k : inv n s → new_cookie k s →
  inv n (let '(c, s) := exchange_slot pGIT (slot_of b s) p k s in put_slot b c s).
Proof.
  intros H Hk. pose proof (slot_table b n s H) as Ht.
  pose proof (exchange_slot_spec (slot_of b s) p k s (λ _, 0) (inv_ledger _ _ H) (slot_member b s) (proj1 Ht) Hk) as Hx.
  destruct (exchange_slot pGIT (slot_of b s) p k s) as [c' s']. destruct Hx as (Hp & Hl & F & Hg).
  apply (put_slot_inv b n s); [done..| |].
  - rewrite Hp. eapply ledger_ext; [exact Hl|]. intros j. cbn. lia.
  - destruct c' as [p' k']. cbn in Hp. subst p'. cbn [s_cookie] in Hg.
    destruct Hg as [[-> ->]|(k2 & i & -> & HG & Hk2 & ->)]; [by apply table_ok_without|].
    apply table_ok_with; [done| |by apply table_ok_without]. unfold without.
    destruct (s_cookie (slot_of b s)); [|done]. apply lookup_delete_None. by right.
Qed.

(** ** Notifications *)
Definition set_pc (b : bool) (pc : NotifyPc) (s : Res) : Res := if b then s <| worker := pc |> else s <| ui := pc |>.
Definition pc_of (b : bool) (s : Res) : NotifyPc := if b then worker s else ui s.

Lemma set_pc_inv b n s s' pc : inv n s → frame s s' → git s' = git s → pc_copy pc = pc_copy (pc_of b s) →
  ledger (λ j, pc_refs pc j - pc_refs (pc_of b s) j) s' → inv n (set_pc b pc s').
Proof.
  intros [_ Ht Hh Ha] (E1 & E2 & E3 & E4 & E5 & E6 & E7 & E8 & E9) G Hc Hl. split.
  - eapply ledger_ext; [eapply (ledger_change _ s'); [exact Hl|by destruct b..]|].
    intros j. unfold owed. destruct b; cbn; rewrite ?E3, ?E4; lia.
  - destruct b; cbn; by rewrite E1, E2, G.
  - unfold handles_ok, handles in *. destruct b; cbn in *; by rewrite Hc, ?E3, ?E4, E5, E6, E7, E8.
  - destruct b; cbn; by rewrite E9.
Qed.

Lemma pc_member b s j : pc_refs (pc_of b s) j <= owed s j + 0.
Proof. destruct (owed_parts s j) as (?&?&?&?&?). unfold owed. destruct b; cbn; lia. Qed.

(** ** Handles *)

(** A step on the bitmaps leaves the references alone. *)
Definition same_refs (s s' : Res) : Prop :=
  events s' = events s ∧ provider_events s' = provider_events s ∧ git s' = git s ∧ refs s' = refs s ∧
  ui s' = ui s ∧ worker s' = worker s ∧ destroyed s' = destroyed s.

Lemma handles_inv n n' s s' : inv n s → same_refs s s' → misused s' = false → handles_ok n' s' → inv n' s'.
Proof.
  intros [[Hl _] Ht _ Ha] (E1 & E2 & E3 & E4 & E5 & E6 & E7) M Hh. split.
  - split; [|done]. intros j. rewrite E4, Hl. unfold owed. by rewrite E1, E2, E3, E5, E6.
  - by rewrite E1, E2, E3.
  - done.
  - by rewrite E7.
Qed.

Lemma owned_perm B l l' m : l ≡ₚ l' → owned B l m → owned B l' m.
Proof. intros E. unfold owned. by rewrite E. Qed.
Lemma owned_create B l m h : h ∉ B → owned B l m → owned ({[h]} ∪ B) (h :: l) m.
Proof.
  intros Hh (Hn & Hf & Hs). rewrite Forall_forall in Hf. split_and!.
  - apply NoDup_cons. split; [|done]. intros H. by apply Hh, Hf.
  - apply Forall_cons. split; [set_solver|]. apply Forall_forall. set_solver.
  - rewrite size_union by set_solver. rewrite size_singleton. cbn. lia.
Qed.
Lemma owned_drop B l m h : owned B (h :: l) m → h ∈ B ∧ owned (B ∖ {[h]}) l m.
Proof.
  intros ([Hh Hn]%NoDup_cons & [Hin Hf]%Forall_cons & Hs). split; [done|]. split_and!; [done| |].
  - rewrite Forall_forall in Hf |- *. set_solver.
  - rewrite size_difference, size_singleton by set_solver. cbn in Hs. lia.
Qed.
Lemma owned_forget B l m h : owned B (h :: l) m → owned B l (S m).
Proof. intros ([_ Hn]%NoDup_cons & [_ Hf]%Forall_cons & Hs). split_and!; [done..|]. cbn in Hs. lia. Qed.

(** Deleting the handle that comes first, if there is one. *)
Lemma delete_owned o l m s : owned (bitmaps s) (option_list o ++ l) m → misused s = false →
  owned (bitmaps (on_some delete_object o s)) l m ∧ misused (on_some delete_object o s) = false.
Proof.
  intros H M. destruct o as [h|]; [|done]. cbn in H. apply owned_drop in H as [Hin H].
  split; [done|]. cbn. by rewrite M, bool_decide_eq_true_2.
Qed.
Lemma create_owned o l m s : owned (bitmaps s) l m → new_handle o s →
  owned (bitmaps (create_bitmap o s)) (option_list o ++ l) m.
Proof. intros H Ho. destruct o as [h|]; [|done]. cbn. apply owned_create; [by apply Ho|done]. Qed.

Lemma same_refs_delete o s : same_refs s (on_some delete_object o s) ∧
  m_hQrBmp (on_some delete_object o s) = m_hQrBmp s ∧
  m_hDefaultLogoBmp (on_some delete_object o s) = m_hDefaultLogoBmp s ∧
  newQrBmp (on_some delete_object o s) = newQrBmp s.
Proof. by destruct o. Qed.
Lemma same_refs_create o s : same_refs s (create_bitmap o s) ∧ misused (create_bitmap o s) = misused s ∧
  m_hQrBmp (create_bitmap o s) = m_hQrBmp s ∧
  m_hDefaultLogoBmp (create_bitmap o s) = m_hDefaultLogoBmp s ∧ newQrBmp (create_bitmap o s) = newQrBmp s.
Proof. by destruct o. Qed.

Lemma owned_forget_opt B o l m : owned B (option_list o ++ l) m → owned B l (m + length (option_list o))%nat.
Proof.
  destruct o as [h|]; cbn; [intros H%owned_forget; by rewrite Nat.add_1_r|by rewrite Nat.add_0_r].
Qed.

(** Deleting any of the handles; what is left in [l]. *)
Lemma delete_handle o l m s : owned (bitmaps s) (handles s) m → handles s ≡ₚ option_list o ++ l → misused s = false →
  owned (bitmaps (on_some delete_object o s)) l m ∧ misused (on_some delete_object o s) = false.
Proof. intros H E M. apply delete_owned; [|done]. by eapply owned_perm. Qed.
Lemma create_handle o l m s : owned (bitmaps s) (handles s) m → new_handle o s → option_list o ++ handles s ≡ₚ l →
  owned (bitmaps (create_bitmap o s)) l m.
Proof. intros H Ho E. eapply owned_perm; [exact E|]. by apply create_owned. Qed.

Lemma Initialize_inv n s h : inv n s → new_handle h s →
  inv (n + length (option_list h)) (Initialize_logo h s).
Proof.
  intros H Hh. pose proof H as [[_ M] _ (m & Ho & En) _].
  destruct (same_refs_create h s) as (S & M1 & E1 & E2 & E3).
  apply (handles_inv n _ s); [done|unfold same_refs in *; exact S|cbn; congruence|].
  exists (m + length (option_list (m_hDefaultLogoBmp s)))%nat. split; [|cbn; lia].
  unfold handles. cbn. destruct S as (_ & _ & _ & _ & Eu & Ew & _). rewrite E1, E3, Eu, Ew.
  apply owned_forget_opt. apply (create_handle h _ m s Ho Hh). unfold handles. solve_Permutation.
Qed.

Lemma clear_qr_eq s : clear_qr s = (on_some delete_object (m_hQrBmp s) s) <| m_hQrBmp := None |>.
Proof. unfold clear_qr. destruct (m_hQrBmp s) eqn:Eq; [done|]. destruct s; cbn in *. by subst. Qed.

Lemma clear_qr_inv n s : inv n s → inv n (clear_qr s).
Proof.
  intros H. pose proof H as [[_ M] _ (m & Ho & En) _]. rewrite clear_qr_eq.
  destruct (same_refs_delete (m_hQrBmp s) s) as (S & _ & E2 & E3).
  destruct (delete_handle (m_hQrBmp s) _ m s Ho ltac:(unfold handles; reflexivity) M) as [Ho' M'].
  apply (handles_inv n _ s); [done|unfold same_refs in *; exact S|exact M'|]. exists m. split; [|cbn; by rewrite E2].
  unfold handles. cbn. destruct S as (_ & _ & _ & _ & Eu & Ew & _). by rewrite E2, E3, Eu, Ew.
Qed.

Lemma store_qr_inv n s h : inv n s → new_handle h s → inv n (store_qr h s).
Proof.
  intros H Hh. pose proof H as [[_ M] _ (m & Ho & En) _]. unfold store_qr.
  destruct (same_refs_create h s) as (S1 & M1 & E1 & E2 & E3). rewrite <- E1.
  destruct (same_refs_delete (m_hQrBmp (create_bitmap h s)) (create_bitmap h s)) as (S2 & F1 & F2 & F3).
  destruct (delete_owned (m_hQrBmp (create_bitmap h s))
    (option_list h ++ option_list (m_hDefaultLogoBmp s) ++ option_list (newQrBmp s) ++
     option_list (pc_copy (ui s)) ++ option_list (pc_copy (worker s))) m (create_bitmap h s)) as [Ho' M'].
  { rewrite E1. apply (create_handle h _ m s Ho Hh). unfold handles. solve_Permutation. }
  { congruence. }
  apply (handles_inv n _ s); [done| |exact M'|].
  - unfold same_refs in *. cbn. naive_solver congruence.
  - exists m. cbn. rewrite F2, E2. split; [|done]. unfold handles. cbn.
    destruct S1 as (_ & _ & _ & _ & Eu & Ew & _), S2 as (_ & _ & _ & _ & Eu' & Ew' & _).
    by rewrite F2, F3, E2, E3, Eu', Ew', Eu, Ew.
Qed.

Lemma worker_draw_inv n s h : inv n s → newQrBmp s = None → new_handle h s →
  inv n ((create_bitmap h s) <| newQrBmp := h |>).
Proof.
  intros H Hn Hh. pose proof H as [[_ M] _ (m & Ho & En) _].
  destruct (same_refs_create h s) as (S & M1 & E1 & E2 & E3).
  apply (handles_inv n _ s); [done|unfold same_refs in *; exact S|cbn; congruence|]. exists m. split; [|cbn; by rewrite E2].
  unfold handles. cbn. destruct S as (_ & _ & _ & _ & Eu & Ew & _). rewrite E1, E2, Eu, Ew.
  apply (create_handle h _ m s Ho Hh). unfold handles. rewrite Hn. cbn. solve_Permutation.
Qed.

Lemma worker_store_inv n s stop ok : inv n s → inv n (worker_store stop ok s).
Proof.
  intros H. unfold worker_store. destruct stop; [done|]. destruct ok; [|by apply clear_qr_inv].
  pose proof H as [[_ M] _ (m & Ho & En) _].
  destruct (same_refs_delete (m_hQrBmp s) s) as (S & _ & E2 & E3).
  destruct (delete_handle (m_hQrBmp s) _ m s Ho ltac:(unfold handles; reflexivity) M) as [Ho' M'].
  apply (handles_inv n _ s); [done|unfold same_refs in *; exact S|exact M'|]. exists m. cbn. rewrite E2. split; [|done].
  unfold handles. cbn. destruct S as (_ & _ & _ & _ & Eu & Ew & _). rewrite E2, Eu, Ew. cbn.
  eapply owned_perm; [|exact Ho']. solve_Permutation.
Qed.

Lemma worker_drop_inv n s : inv n s → inv n (worker_drop s).
Proof.
  intros H. pose proof H as [[_ M] _ (m & Ho & En) _]. unfold worker_drop.
  destruct (same_refs_delete (newQrBmp s) s) as (S & E1 & E2 & _).
  destruct (delete_handle (newQrBmp s) (option_list (m_hQrBmp s) ++ option_list (m_hDefaultLogoBmp s) ++
    option_list (pc_copy (ui s)) ++ option_list (pc_copy (worker s))) m s Ho ltac:(unfold handles; solve_Permutation) M) as [Ho' M'].
  apply (handles_inv n _ s); [done|unfold same_refs in *; exact S|exact M'|]. exists m. cbn. rewrite E2. split; [|done].
  unfold handles. cbn. destruct S as (_ & _ & _ & _ & Eu & Ew & _). by rewrite E1, E2, Eu, Ew.
Qed.

(** ** Notifications and their copies *)
Lemma notify_begin_inv b provider n s : inv n s → pc_of b s = Quiet →
  let '(pc, s') := notify_begin provider s in inv n (set_pc b pc s').
Proof.
  intros H Hq. pose proof (inv_ledger _ _ H) as Hl. unfold notify_begin.
  assert (G : ∀ o k, inv n (set_pc b (Looked o k) (on_some add_ref o s))).
  { intros o k. destruct (frame_add_opt o s) as [F G]. apply (set_pc_inv b n s); [done..|by rewrite Hq|]. rewrite Hq.
    eapply ledger_ext; [by apply ledger_add_opt|]. intros j. cbn. lia. }
  destruct provider; [|apply G].
  destruct (s_ptr (provider_events s)) as [i|]; [apply (G (Some i))|apply (G None)].
Qed.

(** Another place in the code with the same references. *)
Lemma move_pc b n s s' pc : inv n s → same_refs s s' → misused s' = false →
  (∀ j, pc_refs pc j = pc_refs (pc_of b s) j) → handles_ok n (set_pc b pc s') → inv n (set_pc b pc s').
Proof.
  intros [[Hl _] Ht _ Ha] (E1 & E2 & E3 & E4 & E5 & E6 & E7) M Hpc Hh. split; [|destruct b; cbn; by rewrite E1, E2, E3|done|destruct b; cbn; by rewrite E7].
  split; [|by destruct b]. intros j. specialize (Hpc j). specialize (Hl j). unfold owed in *. destruct b; cbn in *; rewrite E1, E2, E3, E4, ?E5, ?E6, Hl; lia.
Qed.

(** The copy is made in a critical section ... *)
Lemma copy_made b n s pc c : inv n s → new_handle c s → pc_copy (pc_of b s) = None → pc_copy pc = c →
  (∀ j, pc_refs pc j = pc_refs (pc_of b s) j) → inv n (set_pc b pc (create_bitmap c s)).
Proof.
  intros H Hc Hno Hpc Hr. pose proof H as [[_ M] _ (m & Ho & En) _].
  destruct (same_refs_create c s) as (S & M1 & E1 & E2 & E3). apply (move_pc b n s); [done..|congruence|done|].
  exists m. split; [|destruct b; cbn; by rewrite E2]. destruct S as (_ & _ & _ & _ & Eu & Ew & _).
  assert (Hp : option_list c ++ handles s ≡ₚ handles (set_pc b pc (create_bitmap c s))).
  { unfold handles. destruct b; cbn in *; rewrite E1, E2, E3, ?Eu, ?Ew, Hno, Hpc; cbn; solve_Permutation. }
  pose proof (create_handle c _ m s Ho Hc Hp) as Ho'. by destruct b.
Qed.

(** ... and deleted or handed over. *)
Lemma copy_gone b n s pc : inv n s → pc_copy pc = None → (∀ j, pc_refs pc j = pc_refs (pc_of b s) j) →
  inv n (set_pc b pc (on_some delete_object (pc_copy (pc_of b s)) s)).
Proof.
  intros H Hpc Hr. pose proof H as [[_ M] _ (m & Ho & En) _].
  destruct (same_refs_delete (pc_copy (pc_of b s)) s) as (S & E1 & E2 & E3). pose proof S as (_ & _ & _ & _ & Eu & Ew & _).
  destruct (delete_handle (pc_copy (pc_of b s)) (handles (set_pc b pc s)) m s Ho) as [Ho' M']; [|done|].
  { unfold handles. destruct b; cbn; rewrite Hpc; cbn; solve_Permutation. }
  apply (move_pc b n s); [done..|]. exists m. split; [|destruct b; cbn in E2 |- *; by rewrite E2].
  assert (Hh : handles (set_pc b pc (on_some delete_object (pc_copy (pc_of b s)) s)) = handles (set_pc b pc s)).
  { unfold handles. destruct b; cbn in *; by rewrite E1, E2, E3, ?Eu, ?Ew. }
  rewrite Hh. destruct b; exact Ho'.
Qed.

(** What is called is held. *)
Lemma slot_call b n s i : inv n s → s_ptr (slot_of b s) = Some i → call i s = s.
Proof.
  intros H E. apply (call_held (λ _, 0)); [apply (inv_ledger _ _ H)|]. pose proof (slot_member b s i) as Hm. rewrite E in Hm.
  cbn in Hm. rewrite one_same in Hm. rewrite owed_members. pose proof (git_refs_bounds (git s) i). lia.
Qed.
Lemma pc_call b n s i : inv n s → 1 <= pc_refs (pc_of b s) i → call i s = s.
Proof.
  intros H E. apply (call_held (λ _, 0)); [apply (inv_ledger _ _ H)|]. pose proof (pc_member b s i). lia.
Qed.
Lemma show_eq a c d s : show a c d s = on_some delete_object c s.
Proof. unfold show, hand_over. by destruct (d && transparent a). Qed.

(** The pointer of a slot and that of a notification after the copy has gone. *)
Lemma call_after i s c : call i s = s → misused s = false → misused (on_some delete_object c s) = false →
  call i (on_some delete_object c s) = on_some delete_object c s.
Proof.
  intros E M M'. assert (R : (refs s i <=? 0) = false) by (apply (f_equal misused) in E; cbn in E; by rewrite M in E).
  assert (Er : refs (on_some delete_object c s) = refs s) by by destruct c.
  set (t := on_some delete_object c s) in *. unfold call. rewrite Er, R, M'. destruct t; cbn in *. by subst.
Qed.

Lemma pc_misused b n pc s' : inv n (set_pc b pc s') → misused s' = false.
Proof. intros [[_ M] _ _ _]. by destruct b. Qed.

Lemma show_called b n s pc i a d : inv n s → call i s = s → pc_copy pc = None →
  (∀ j, pc_refs pc j = pc_refs (pc_of b s) j) →
  inv n (set_pc b pc (call i (show a (pc_copy (pc_of b s)) d (call i s)))).
Proof.
  intros H Hc Hpc Hr. rewrite Hc, show_eq. pose proof (copy_gone b n s pc H Hpc Hr) as H'.
  rewrite call_after; [done|done|by destruct (inv_ledger _ _ H)|by eapply pc_misused].
Qed.

(** A step that uses [CopyImage]. *)
Definition copies (pc : NotifyPc) : Prop := match pc with Copying _ | QrBegin => True | _ => False end.

Lemma notify_step_inv b a n s : inv n s → (copies (pc_of b s) → new_handle (copied a) s) →
  let '(pc, s') := notify_step pGIT a (pc_of b s) s in inv n (set_pc b pc s').
Proof.
  intros H Hnew. pose proof (inv_ledger _ _ H) as Hl. pose proof (pc_member b s) as Hm.
  assert (Hadd : ∀ o pc, pc_copy pc = pc_copy (pc_of b s) → (∀ j, pc_refs pc j = pc_refs (pc_of b s) j + owns o j) →
    inv n (set_pc b pc (on_some add_ref o s))).
  { intros o pc Ec E. destruct (frame_add_opt o s) as [F G]. apply (set_pc_inv b n s); [done..|].
    eapply ledger_ext; [by apply ledger_add_opt|]. intros j. cbn. rewrite E. lia. }
  assert (Hrel : ∀ o pc, pc_copy pc = pc_copy (pc_of b s) → (∀ j, pc_refs (pc_of b s) j = pc_refs pc j + owns o j) →
    inv n (set_pc b pc (on_some release o s))).
  { intros o pc Ec E. destruct (frame_release_opt o s) as [F G]. apply (set_pc_inv b n s); [done..|].
    eapply ledger_ext; [apply ledger_release_opt; [exact Hl|]|intros j; cbn; rewrite E; lia].
    intros j. specialize (Hm j). rewrite E in Hm. pose proof (pc_refs_bounds pc j). cbn beta. lia. }
  assert (Hsame : ∀ pc, pc_copy pc = pc_copy (pc_of b s) → (∀ j, pc_refs pc j = pc_refs (pc_of b s) j) → inv n (set_pc b pc s)).
  { intros pc Ec E. apply (Hadd None); [done|]. intros j. cbn. rewrite E. lia. }
  assert (Hcopy : copies (pc_of b s) → new_handle (copy_of a s) s).
  { intros Hcs. unfold copy_of. destruct (source s); [by apply Hnew|done]. }
  pose proof (pc_call b n s) as Hcall. pose proof (copy_gone b n s) as Hgone. pose proof (copy_made b n s) as Hmade.
  pose proof (show_called b n s) as Hshow.
  destruct (pc_of b s) as [|raw cookie|raw p|raw p|i|i|i c d|i| |src c d|] eqn:Epc; cbn [notify_step copies pc_copy] in *.
  - by apply Hsame.
  - destruct (if pGIT && _ then _ else _) as [i|].
    + apply (Hadd (Some i)); [done|]. intros j. destruct raw; cbn; lia.
    + apply Hsame; [done|]. intros j. destruct raw; cbn; lia.
  - destruct p as [i|]; [by apply Hsame|]. apply Hadd; [done|]. intros j. destruct raw; cbn; lia.
  - apply Hrel; [by destruct p|]. intros j. destruct raw, p; cbn; lia.
  - rewrite (Hcall i H) by (cbn; rewrite one_same; lia). by destruct (logo a); apply Hsame.
  - by apply Hmade; [done|apply Hcopy|..].
  - apply Hshow; [done| |done..]. apply (Hcall i H). cbn. rewrite one_same. lia.
  - apply (Hrel (Some i)); [done|]. intros j. cbn. lia.
  - by apply Hmade; [done|apply Hcopy|..].
  - destruct (s_ptr (events s)) as [i|] eqn:Ei; [|by apply Hgone]. destruct src; [|by apply Hgone].
    apply Hshow; [done| |done..]. by apply (slot_call false n).
  - destruct (context a); [|by apply Hsame]. destruct (s_ptr (provider_events s)) as [i|] eqn:Ei; cbn; [|by apply Hsame].
    rewrite (slot_call true n) by done. by apply Hsame.
Qed.

(** The start of [NotifyQrChanged]. *)
Lemma notify_qr_inv n s : inv n s → ui s = Quiet → inv n (s <| ui := QrBegin |>).
Proof.
  intros H Hq. apply (set_pc_inv false n s s QrBegin); [done|apply frame_refl|done|by cbn; rewrite Hq|].
  eapply ledger_ext; [exact (inv_ledger _ _ H)|]. intros j. cbn. rewrite Hq. done.
Qed.

Lemma ClearQr_inv n s : inv n s → ui s = Quiet → inv n (ClearQrBitmap s).
Proof.
  intros H Hq. unfold ClearQrBitmap. destruct (m_hQrBmp s) eqn:E; [|done]. apply notify_qr_inv; [by apply clear_qr_inv|].
  unfold clear_qr. by rewrite E.
Qed.

(** ** The destructor *)

(** No handle and no notification. *)
Definition bare (s : Res) : Prop :=
  m_hQrBmp s = None ∧ m_hDefaultLogoBmp s = None ∧ newQrBmp s = None ∧ ui s = Quiet ∧ worker s = Quiet.

Lemma put_slot_other b c s : slot_of b (put_slot b c s) = c ∧ slot_of (negb b) (put_slot b c s) = slot_of (negb b) s.
Proof. by destruct b. Qed.
Lemma put_slot_bare b c s : bare (put_slot b c s) ↔ bare s.
Proof. by destruct b. Qed.
Lemma frame_bare s s' : frame s s' → bare s → bare s' ∧ ∀ b, slot_of b s' = slot_of b s.
Proof.
  intros (E1 & E2 & E3 & E4 & E5 & E6 & E7 & _) H. unfold bare in *. rewrite E3, E4, E5, E6, E7.
  split; [done|]. by intros [].
Qed.

Lemma revoke_slot_inv b n s : inv n s →
  inv n (revoke_slot pGIT b s) ∧ (bare s → bare (revoke_slot pGIT b s)) ∧
  s_cookie (slot_of b (revoke_slot pGIT b s)) = None ∧
  (bare s → slot_of (negb b) (revoke_slot pGIT b s) = slot_of (negb b) s).
Proof.
  intros H. pose proof (slot_table b n s H) as Ht. unfold revoke_slot.
  pose proof (revoked_spec (slot_of b s) s (λ _, 0) (inv_ledger _ _ H)) as Hr.
  specialize (Hr ltac:(intros j; pose proof (slot_member b s j); pose proof (owns_bounds (s_ptr (slot_of b s)) j); lia)
    (proj1 Ht)).
  destruct (revoked pGIT (slot_of b s) s) as [c1 s1]. destruct Hr as (-> & H1 & F1 & G1).
  destruct (put_slot_other b (mkSlot (s_ptr (slot_of b s)) None) s1) as [P1 P2].
  split_and!; [|by intros [Hb _]%(frame_bare s s1 F1); apply put_slot_bare|by rewrite P1|].
  - apply (put_slot_inv b n s); [done..| |rewrite G1; by apply table_ok_without].
    eapply ledger_ext; [exact H1|]. intros j. cbn. lia.
  - intros [_ Hs]%(frame_bare s s1 F1). by rewrite P2, Hs.
Qed.

Lemma release_slot_inv b n s : inv n s → s_cookie (slot_of b s) = None →
  inv n (release_slot b s) ∧ (bare s → bare (release_slot b s)) ∧
  slot_of b (release_slot b s) = mkSlot None None ∧
  (bare s → slot_of (negb b) (release_slot b s) = slot_of (negb b) s).
Proof.
  intros H Hc. pose proof (slot_table b n s H) as Ht. unfold release_slot. rewrite Hc.
  destruct (frame_release_opt (s_ptr (slot_of b s)) s) as [F G].
  set (s1 := on_some release (s_ptr (slot_of b s)) s) in *.
  destruct (put_slot_other b (mkSlot None None) s1) as [P1 P2].
  split_and!; [|by intros [Hb _]%(frame_bare s s1 F); apply put_slot_bare|by rewrite P1|].
  - apply (put_slot_inv b n s); [done..| |].
    + eapply ledger_ext; [apply (ledger_release_opt _ (s_ptr (slot_of b s)) s (inv_ledger _ _ H))|intros j; cbn; lia].
      intros j. rewrite owed_members. pose proof (git_refs_bounds (git s) j). pose proof (slot_member b s j).
      cbn beta. lia.
    + rewrite G. pose proof (table_ok_without (git s) _ _ None Ht) as Hw. by rewrite Hc in Hw.
  - intros [_ Hs]%(frame_bare s s1 F). by rewrite P2, Hs.
Qed.

Lemma UnAdvise_inv n s : inv n s → inv n (UnAdvise_events pGIT s).
Proof.
  intros H. destruct (revoke_slot_inv false n s H) as (H1 & _ & Hc & _).
  by destruct (release_slot_inv false n _ H1 Hc).
Qed.

Lemma delete_logo_inv n s : inv n s →
  ∃ m, n = (m + length (option_list (m_hDefaultLogoBmp s)))%nat ∧ inv m (delete_logo s).
Proof.
  intros H. pose proof H as [[_ M] _ (m & Ho & En) _]. exists m. split; [done|].
  assert (E : delete_logo s = (on_some delete_object (m_hDefaultLogoBmp s) s) <| m_hDefaultLogoBmp := None |>).
  { unfold delete_logo. destruct (m_hDefaultLogoBmp s) eqn:E; [done|]. destruct s; cbn in *. by subst. }
  rewrite E. destruct (same_refs_delete (m_hDefaultLogoBmp s) s) as (S & E1 & E2 & E3).
  destruct (delete_handle (m_hDefaultLogoBmp s)
    (option_list (m_hQrBmp s) ++ option_list (newQrBmp s) ++ option_list (pc_copy (ui s)) ++ option_list (pc_copy (worker s)))
    m s Ho ltac:(unfold handles; solve_Permutation) M) as [Ho' M'].
  apply (handles_inv n _ s); [done|unfold same_refs in *; exact S|exact M'|]. exists m.
  split; [|cbn; lia]. unfold handles. cbn. destruct S as (_ & _ & _ & _ & Eu & Ew & _). by rewrite E1, E3, Eu, Ew.
Qed.

(** What is left when nothing is held any more. *)
Lemma inv_empty m s : inv m s → (∀ b, slot_of b s = mkSlot None None) → bare s →
  (∀ i, refs s i = 0) ∧ git s = ∅ ∧ misused s = false ∧ size (bitmaps s) = m.
Proof.
  intros [[Hl M] (_ & _ & _ & Hall) (m' & (_ & _ & Hs) & ->) _] E (Eq & El & En & E3 & E4).
  pose proof (E false) as E1. pose proof (E true) as E2. cbn in E1, E2. rewrite E1, E2 in Hall.
  assert (G : git s = ∅).
  { apply map_eq. intros k. rewrite lookup_empty. apply eq_None_not_Some. intros Hk. by destruct (Hall k Hk). }
  split_and!; [|done..|].
  - intros i. rewrite Hl. unfold owed. rewrite E1, E2, E3, E4, G. cbn. unfold git_refs. by rewrite map_filter_empty.
  - rewrite Hs. unfold handles. rewrite Eq, El, En, E3, E4. cbn. lia.
Qed.

(** The destructor's [ClearQrBitmap], with all of [NotifyQrChanged]. *)
Lemma destroy_clear n s a : inv n s → possible s (EvDestroy a) →
  let s' := ui_step pGIT a (ui_step pGIT a (ui_step pGIT a (ClearQrBitmap s))) in
  inv n s' ∧ m_hQrBmp s' = None ∧ newQrBmp s' = None ∧ ui s' = Quiet ∧ worker s' = Quiet ∧
  m_hDefaultLogoBmp s' = m_hDefaultLogoBmp s.
Proof.
  intros H (_ & Hu & Hw & Hn & Hnew). cbv zeta. pose proof (ClearQr_inv n s H Hu) as H0.
  assert (Hstep : ∀ s, inv n s → (copies (ui s) → new_handle (copied a) s) → inv n (ui_step pGIT a s)).
  { intros s1 H1 Hc. pose proof (notify_step_inv false a n s1 H1 Hc) as H2. cbn [pc_of] in H2.
    unfold ui_step. by destruct (notify_step _ _ _ _). }
  destruct (m_hQrBmp s) as [h|] eqn:Eh; cycle 1.
  { unfold ClearQrBitmap. rewrite Eh. unfold ui_step. rewrite Hu. cbn [notify_step]. cbn.
    assert (E : s <| ui := Quiet |> = s) by (destruct s; cbn in *; by subst). by rewrite !E. }
  unfold ClearQrBitmap in *. rewrite Eh in *. unfold clear_qr in *. rewrite Eh in *.
  set (s1 := (delete_object h s <| m_hQrBmp := None |>) <| ui := QrBegin |>) in *.
  assert (H1 : inv n (ui_step pGIT a s1)).
  { apply Hstep; [done|]. intros _ b Hb Hin. apply (Hnew b Hb). cbn in Hin. set_solver. }
  assert (Hc : ∀ o t, ui (on_some delete_object o t) = ui t ∧ m_hQrBmp (on_some delete_object o t) = m_hQrBmp t ∧
    newQrBmp (on_some delete_object o t) = newQrBmp t ∧ worker (on_some delete_object o t) = worker t ∧
    m_hDefaultLogoBmp (on_some delete_object o t) = m_hDefaultLogoBmp t) by (by intros [] t).
  assert (Hb : ∀ o t, ui (create_bitmap o t) = ui t ∧ m_hQrBmp (create_bitmap o t) = m_hQrBmp t ∧
    newQrBmp (create_bitmap o t) = newQrBmp t ∧ worker (create_bitmap o t) = worker t ∧
    m_hDefaultLogoBmp (create_bitmap o t) = m_hDefaultLogoBmp t) by (by intros [] t).
  set (s2 := ui_step pGIT a s1) in *.
  assert (E2 : ∃ src c d, ui s2 = QrCopied src c d ∧ m_hQrBmp s2 = None ∧ newQrBmp s2 = None ∧ worker s2 = Quiet ∧
    m_hDefaultLogoBmp s2 = m_hDefaultLogoBmp s).
  { unfold s2, ui_step. cbn [notify_step]. cbn. do 3 eexists. destruct (Hb (copy_of a s1) s1) as (_ & B1 & B2 & B3 & B4).
    split; [reflexivity|]. cbn. by rewrite B1, B2, B3, B4. }
  destruct E2 as (src & c & d & E2 & Q2 & N2 & W2 & L2).
  assert (H3 : inv n (ui_step pGIT a s2)) by (apply Hstep; [done|]; by rewrite E2).
  set (s3 := ui_step pGIT a s2) in *.
  assert (E3 : ui s3 = QrShown ∧ m_hQrBmp s3 = None ∧ newQrBmp s3 = None ∧ worker s3 = Quiet ∧
    m_hDefaultLogoBmp s3 = m_hDefaultLogoBmp s).
  { unfold s3, ui_step. rewrite E2. cbn [notify_step].
    destruct (s_ptr (events s2)) as [i|]; [destruct src|]; cbn; rewrite ?show_eq;
      match goal with |- context [on_some delete_object c ?t] => destruct (Hc c t) as (_ & B1 & B2 & B3 & B4) end;
      rewrite B1, B2, B3, B4; done. }
  destruct E3 as (E3 & Q3 & N3 & W3 & L3).
  assert (H4 : inv n (ui_step pGIT a s3)) by (apply Hstep; [done|]; by rewrite E3).
  change (let s4 := ui_step pGIT a s3 in inv n s4 ∧ m_hQrBmp s4 = None ∧ newQrBmp s4 = None ∧ ui s4 = Quiet ∧
    worker s4 = Quiet ∧ m_hDefaultLogoBmp s4 = m_hDefaultLogoBmp s). cbv zeta.
  split; [done|]. unfold ui_step. rewrite E3. cbn [notify_step].
  destruct (context a); [|done]. by destruct (s_ptr (provider_events s3)).
Qed.

Lemma slot_destroyed b s : slot_of b (s <| destroyed := true |>) = slot_of b s.
Proof. by destruct b. Qed.

Lemma destroy_rest n t : inv n t → m_hQrBmp t = None → newQrBmp t = None → ui t = Quiet → worker t = Quiet →
  let d := (release_slot true (release_slot false (revoke_slot pGIT true (revoke_slot pGIT false (delete_logo t)))))
             <| destroyed := true |> in
  (∀ i, refs d i = 0) ∧ git d = ∅ ∧ misused d = false ∧ ui d = Quiet ∧ worker d = Quiet ∧
  (∀ b, slot_of b d = mkSlot None None) ∧
  n = (size (bitmaps d) + length (option_list (m_hDefaultLogoBmp t)))%nat.
Proof.
  intros H1 Q1 N1 U1 W1.
  assert (B2 : bare (delete_logo t)).
  { unfold delete_logo, bare. destruct (m_hDefaultLogoBmp t) eqn:E'; cbn; rewrite ?E'; by split_and!. }
  destruct (delete_logo_inv n _ H1) as (m & En & H2). 
  destruct (revoke_slot_inv false m _ H2) as (H3 & B3 & C3 & _). specialize (B3 B2).
  destruct (revoke_slot_inv true m _ H3) as (H4 & B4 & C4 & O4). specialize (B4 B3). specialize (O4 B3). cbn [negb] in O4.
  destruct (release_slot_inv false m _ H4) as (H5 & B5 & C5 & O5); [by rewrite O4|]. specialize (O5 B4). specialize (B5 B4).
  cbn [negb] in O5. destruct (release_slot_inv true m _ H5) as (H6 & B6 & C6 & O6); [by rewrite O5|].
  specialize (O6 B5). specialize (B6 B5). cbn [negb] in O6.
  destruct (inv_empty m _ H6) as (R & G & M & S); [intros []; congruence|done|].
  destruct B6 as (_ & _ & _ & U6 & W6).
  split_and!; [exact R|exact G|exact M|exact U6|exact W6| |].
  - intros b. rewrite slot_destroyed. destruct b; [exact C6|]. by rewrite O6.
  - rewrite En. f_equal. symmetry. exact S.
Qed.

Lemma destroy_spec n s a : inv n s → possible s (EvDestroy a) →
  let d := destroy_tile pGIT a s in
  (∀ i, refs d i = 0) ∧ git d = ∅ ∧ misused d = false ∧ ui d = Quiet ∧ worker d = Quiet ∧
  (∀ b, slot_of b d = mkSlot None None) ∧
  n = (size (bitmaps d) + length (option_list (m_hDefaultLogoBmp s)))%nat.
Proof.
  intros H Hp. destruct (destroy_clear n s a H Hp) as (H1 & Q1 & N1 & U1 & W1 & L1).
  rewrite <- L1. exact (destroy_rest _ _ H1 Q1 N1 U1 W1).
Qed.

(** ** Runs *)
Definition created (e : TileEvent) : nat := match e with EvInitialize (Some _) => 1 | _ => 0 end.
Definition logos (es : list TileEvent) : nat := sum_list_with created es.

Lemma run_event_inv_tile n s e : inv n s → possible s e → (∀ a, e ≠ EvDestroy a) →
  inv (n + created e) (run_event pGIT s e).
Proof.
  intros H [_ Hp] Hne. destruct e; cbn [run_event created]; rewrite ?Nat.add_0_r.
  - apply (exchange_inv false); [done|apply Hp].
  - apply (exchange_inv true); [done|apply Hp].
  - by apply UnAdvise_inv.
  - pose proof (Initialize_inv n s h H (proj2 Hp)) as H'. by destruct h.
  - by apply ClearQr_inv.
  - by apply clear_qr_inv.
  - apply store_qr_inv; [done|apply Hp].
  - pose proof (notify_begin_inv by_worker provider n s H) as H'.
    destruct (notify_begin provider s) as [pc s']. apply H'. by destruct by_worker.
  - by apply notify_qr_inv.
  - pose proof (notify_step_inv by_worker a n s H (λ _, Hp)) as H'. unfold pc_of in H'.
    destruct (notify_step _ _ _ _) as [pc s']. exact H'.
  - destruct (s_ptr (events s)) as [i|] eqn:E; [|done]. cbn. by rewrite (slot_call false n).
  - apply worker_draw_inv; [done|apply Hp..].
  - by apply worker_store_inv.
  - by apply worker_drop_inv.
  - by destruct (Hne a).
Qed.

Lemma run_inv_tile es : ∀ n s, inv n s → feasible pGIT s es →
  let s' := run pGIT es s in
  inv (n + logos es) s' ∨
  (destroyed s' = true ∧ misused s' = false ∧ ui s' = Quiet ∧ worker s' = Quiet ∧ ∀ b, slot_of b s' = mkSlot None None).
Proof.
  induction es as [|e es IH]; intros n s H Hf; cbn.
  { left. by rewrite Nat.add_0_r. }
  destruct Hf as [Hp Hf]. assert ((∃ a, e = EvDestroy a) ∨ ∀ a, e ≠ EvDestroy a) as [[a ->]|Hne]
    by (destruct e; first [by right|left; by eexists]).
  - right. destruct (destroy_spec n s a H Hp) as (_ & _ & M & U & W & S & _).
    destruct es as [|e es]; [done|]. destruct Hf as [[Hd _] _]. done.
  - pose proof (IH _ _ (run_event_inv_tile n s e H Hp Hne) Hf) as H'.
    unfold logos in *. cbn. by rewrite Nat.add_assoc.
Qed.

Lemma fresh_inv : inv 0 fresh_tile.
Proof.
  split; [|split_and!; try done|exists 0%nat|done].
  - split; [|done]. intros j. unfold owed, git_refs. cbn. by rewrite map_filter_empty.
  - intros k Hk. cbn in Hk. rewrite lookup_empty in Hk. by destruct Hk.
  - split; [|done]. split_and!; [apply NoDup_nil_2|done|done].
Qed.

(** C39: whatever the order in which LogonUI's thread and the worker notify LogonUI,
    exchange its interfaces, draw and copy, no reference and no bitmap handle is given
    back twice, or after LogonUI has it, and no interface is called on which the tile
    holds no reference, be it through a reference taken for the notification or through
    a member: what a member or a notification points to is held. When the tile is
    destroyed it has given back every reference, its own and those of the interface
    table, and every bitmap and copy but the logos of all initialisations but the last.
    LogonUI's thread is taken to do one thing at a time: no call from the tile leads it
    back into the tile. *)
Theorem tile_resources es :
  feasible pGIT fresh_tile es →
  let s := run pGIT es fresh_tile in
  misused s = false ∧
  (∀ by_worker i, 1 <= pc_refs (pc_of by_worker s) i → 1 <= refs s i) ∧
  (∀ provider i, s_ptr (slot_of provider s) = Some i → 1 <= refs s i) ∧
  (∀ a, possible s (EvDestroy a) →
    let d := run_event pGIT s (EvDestroy a) in
    misused d = false ∧ (∀ i, refs d i = 0) ∧ git d = ∅ ∧
    size (bitmaps d) = (logos es - length (option_list (m_hDefaultLogoBmp s)))%nat).
Proof.
  intros Hf. cbv zeta. destruct (run_inv_tile es 0 fresh_tile fresh_inv Hf) as [H|(Hd & M & U & W & S)].
  - cbn [Nat.add] in H. pose proof (proj1 (inv_ledger _ _ H)) as Hl. split; [apply (inv_ledger _ _ H)|]. split; [|split].
    + intros b i E. rewrite Hl. pose proof (pc_member b (run pGIT es fresh_tile) i). cbn beta. lia.
    + intros b i E. rewrite Hl. pose proof (slot_member b (run pGIT es fresh_tile) i) as Hm. rewrite E in Hm. cbn in Hm.
      rewrite one_same in Hm. rewrite owed_members. pose proof (git_refs_bounds (git (run pGIT es fresh_tile)) i). cbn beta. lia.
    + intros a Hp. destruct (destroy_spec _ _ a H Hp) as (R & G & M & _ & _ & _ & En). split_and!; [done..|]. cbn [run_event]. lia.
  - split; [done|]. split; [|split; [|intros a [Hno _]; congruence]].
    + intros [] i E; cbn in E; rewrite ?U, ?W in E; cbn in E; lia.
    + intros b i E. by rewrite S in E.
Qed.
End Slots.

(** The worker is about to tell interface 7 when LogonUI takes it away; the tile
    was initialised twice, and its code is cleared while LogonUI is still there: the
    copy for the picture is handed over. *)
Definition yes (copy : option nat) : Answers := mkAnswers true true copy false true.
Definition demo_tile : list TileEvent :=
  [EvInitialize (Some 1%nat); EvAdvise (Some 7%nat) (Some 100%nat); EvInitialize (Some 2%nat);
   EvWorkerDraw (Some 3%nat); EvWorkerStore false true; EvWorkerDrop;
   EvClearQr; EvNotifyStep false (yes (Some 4%nat)); EvNotifyStep false (yes None); EvNotifyStep false (yes None);
   EvNotify true false; EvNotifyStep true (yes None); EvNotifyStep true (yes None); EvUnAdvise; EvNotifyStep true (yes None)].
Definition demo_rest : list TileEvent :=
  [EvNotifyStep true (yes None); EvNotifyStep true (yes (Some 5%nat)); EvNotifyStep true (yes None); EvNotifyStep true (yes None)].

Ltac feasible :=
  cbn [feasible app]; repeat (split; [split; [reflexivity|]|]); try exact I; try reflexivity;
  repeat split; try reflexivity; unfold new_cookie, new_handle; intros ? [= <-];
  apply (bool_decide_unpack _); vm_compute; reflexivity.

Lemma tile_resources_witness :
  let s := run true demo_tile fresh_tile in
  worker s = Calling 7 ∧ 1 <= refs s 7 ∧
  let s := run true (demo_tile ++ demo_rest) fresh_tile in
  let d := run_event true s (EvDestroy (yes None)) in
  misused s = false ∧ (∀ i, refs d i = 0) ∧ size (bitmaps d) = 1%nat.
Proof.
  cbv zeta. assert (F1 : feasible true fresh_tile demo_tile) by (unfold demo_tile; feasible).
  assert (F2 : feasible true fresh_tile (demo_tile ++ demo_rest)) by (unfold demo_tile, demo_rest; feasible).
  destruct (tile_resources true _ F1) as (_ & H1 & _). destruct (tile_resources true _ F2) as (M & _ & _ & H2).
  split; [reflexivity|]. split; [apply (H1 true 7%nat); vm_compute; discriminate|].
  destruct (H2 (yes None)) as (_ & R & _ & S); [split; [reflexivity|]; repeat split; try reflexivity; intros ? [=]|].
  split; [exact M|]. split; [exact R|]. rewrite S. reflexivity.
Defined.
