(* ===== verification/Secrets.v ===== *)
(** * What is left of the passwords in memory

    The strings of [LigamentCredential.cpp] that hold the password and the one-time
    code, with the memory behind them: the members, the copies for the worker, the
    worker's own and those that are made from them: by [GetStringValue], by the packing
    and by [HttpApiClient]. [Credential] knows their values only; here is what
    [SecureWipe] and its repetitions overwrite, and what they do not. The strings that
    Windows and LogonUI get are theirs; the buffer of [CredUiPackAuthentication], in a
    form of Windows' own, is not followed. *)
From S2P Require Import Prelude Text Pack.

(** ** A [std::wstring] and its buffer *)

(** All cells of the buffer, the terminator and the spare ones included; the first
    [len] hold the value. A new string has eight cells of its own. *)
Record WStr := mkW { cells : list Z; len : nat }.
Definition new_string : WStr := mkW (replicate 8 0) 0.
Definition value (s : WStr) : wstr := take (len s) (cells s).

(** The new buffer of an assignment that does not fit holds nothing of this program's
    behind the terminator; the old one goes back to the allocator as it is. *)
Section Strings.
Context (grow : nat → nat → nat) (env : PackEnv) (WideToUtf8 : wstr → str).

Definition assign (v : wstr) (s : WStr) : WStr * list (list Z) :=
  if (length v <? length (cells s))%nat then (mkW (v ++ [0] ++ drop (S (length v)) (cells s)) (length v), [])
  else (mkW (v ++ [0] ++ replicate (grow (length (cells s)) (length v)) 0) (length v), [cells s]).

(** [SecureZeroMemory] over the value, then [clear]; nothing for an empty string. *)
Definition SecureWipe (s : WStr) : WStr :=
  if (len s =? 0)%nat then s else mkW (replicate (len s) 0 ++ drop (len s) (cells s)) 0.

(** ** The tile's secrets *)

(** The members, the locals [pass] and [otp] of a running worker, the buffers that
    the strings have given back, and the copies given back without a wipe. *)
Record Memory := mkMemory {
  m_password : WStr; m_otpCode : WStr; m_jobPass : WStr; m_jobOtp : WStr;
  locals : option (WStr * WStr); released : list (list Z); strays : list (list Z) }.
#[export] Instance eta_Memory : Settable Memory := λ m,
  mkMemory (m_password m) (m_otpCode m) (m_jobPass m) (m_jobOtp m) (locals m) (released m) (strays m).

Definition new_tile : Memory := mkMemory new_string new_string new_string new_string None [] [].
Definition set_password (v : wstr) (m : Memory) : Memory :=
  let '(s, r) := assign v (m_password m) in m <| m_password := s |> <| released := r ++ released m |>.
Definition set_otp (v : wstr) (m : Memory) : Memory :=
  let '(s, r) := assign v (m_otpCode m) in m <| m_otpCode := s |> <| released := r ++ released m |>.

(** [JoinPollThread], after the wait. *)
Definition join_wipe (m : Memory) : Memory :=
  m <| m_jobPass := SecureWipe (m_jobPass m) |> <| m_jobOtp := SecureWipe (m_jobOtp m) |>.
Definition ResetAuthState_wipe (m : Memory) : Memory := join_wipe (m <| m_otpCode := SecureWipe (m_otpCode m) |>).

(** [SetStringValue]: a changed password resets first. *)
Definition SetPassword (v : wstr) (m : Memory) : Memory :=
  set_password v (if bool_decide (value (m_password m) = v) then m else ResetAuthState_wipe m).

(** [StartWorkerJob]; [otp]: the job is [JobVerifyOtp]; [started]: [CreateThread]. *)
Definition StartWorkerJob_copies (otp started : bool) (m : Memory) : Memory :=
  let m := join_wipe m in
  let '(s, r) := assign (value (m_password m)) (m_jobPass m) in
  let m := m <| m_jobPass := s |> <| released := r ++ released m |> in
  let m :=
    if otp then let '(s, r) := assign (value (m_otpCode m)) (m_jobOtp m) in m <| m_jobOtp := s |> <| released := r ++ released m |>
    else m in
  if started then m else join_wipe m.

(** The worker takes its input, and wipes it before it returns, on every path. *)
Definition take_secrets (m : Memory) : Memory :=
  let '(pass, r1) := assign (value (m_jobPass m)) new_string in
  let '(otp, r2) := assign (value (m_jobOtp m)) new_string in
  join_wipe (m <| locals := Some (pass, otp) |> <| released := r1 ++ r2 ++ released m |>).
Definition worker_done (m : Memory) : Memory :=
  match locals m with
  | Some (pass, otp) =>
    m <| locals := None |> <| released := cells (SecureWipe pass) :: cells (SecureWipe otp) :: released m |>
  | None => m
  end.

(** The end of [ReportResult]. *)
Definition ReportResult_wipe (m : Memory) : Memory :=
  m <| m_password := SecureWipe (m_password m) |> <| m_otpCode := SecureWipe (m_otpCode m) |>.

(** The destructor: [StopPollThread], then the secrets. *)
Definition destroy_secrets (m : Memory) : Memory := ReportResult_wipe (join_wipe m).

(** *** Copies *)

(** [GetStringValue] for one of the two fields: [val] goes as it is. *)
Definition secret_of (otp : bool) (m : Memory) : WStr := if otp then m_otpCode m else m_password m.
Definition GetStringValue_copy (otp : bool) (m : Memory) : Memory :=
  let '(val, r) := assign (value (secret_of otp m)) new_string in
  m <| released := r ++ released m |> <| strays := cells val :: strays m |>.

(** [KerbInteractiveLogonPack]: [plainPassword] is wiped on every way out; the buffer
    with its copy is not there, or LogonUI's, or, without the package, freed as it is:
    [Some before] are the cells in front of the password. *)
Definition pack_copy (freed : option wstr) (m : Memory) : Memory :=
  let plain := GetPlainPassword env (value (m_password m)) in
  let '(plainPassword, r) := assign plain new_string in
  m <| released := cells (SecureWipe plainPassword) :: r ++ released m |>
    <| strays := match freed with Some before => [before ++ plain] | None => [] end ++ strays m |>.

(** [StartPush], [WebAuthnBegin] and [VerifyCombined] in the worker: the password, and
    the code to verify, in UTF-8 and escaped, and the bodies, cell by cell. *)
Definition request_copies (pass otp : wstr) (bodies : list (str * str * str)) : list (list Z) :=
  let u8Pass := EscapeJson (WideToUtf8 pass) in
  let u8Code := EscapeJson (WideToUtf8 otp) in
  [WideToUtf8 pass ++ [0]; u8Pass ++ [0]; WideToUtf8 otp ++ [0]; u8Code ++ [0]] ++
  map (λ '(before, between, after), before ++ u8Pass ++ between ++ u8Code ++ after ++ [0]) bodies.
Definition client_copy (bodies : list (str * str * str)) (m : Memory) : Memory :=
  match locals m with
  | Some (pass, otp) => m <| strays := request_copies (value pass) (value otp) bodies ++ strays m |>
  | None => m
  end.

Inductive SecretEvent :=
| EvPassword (v : wstr) | EvOtp (v : wstr) | EvReset | EvStart (otp started : bool) | EvTake | EvDone | EvReport
| EvRead (otp : bool) | EvPack (freed : option wstr) | EvRequest (bodies : list (str * str * str)).

(** What waits for the worker happens when there is none. *)
Definition secret_event (e : SecretEvent) (m : Memory) : option Memory :=
  match e, locals m with
  | EvPassword v, None => Some (SetPassword v m)
  | EvPassword v, Some _ => if bool_decide (value (m_password m) = v) then Some (SetPassword v m) else None
  | EvOtp v, _ => Some (set_otp v m)
  | EvReset, None => Some (ResetAuthState_wipe m)
  | EvStart otp started, None => Some (StartWorkerJob_copies otp started m)
  | EvTake, None => Some (take_secrets m)
  | EvDone, Some _ => Some (worker_done m)
  | EvReport, _ => Some (ReportResult_wipe m)
  | EvRead otp, _ => Some (GetStringValue_copy otp m)
  | EvPack freed, _ => Some (pack_copy freed m)
  | EvRequest bodies, Some _ => Some (client_copy bodies m)
  | _, _ => None
  end.
Fixpoint secret_events (es : list SecretEvent) (m : Memory) : option Memory :=
  match es with [] => Some m | e :: es => m ← secret_event e m; secret_events es m end.

(** Every cell of the tile's own strings, then and now, those of the packing included. *)
Definition memory (m : Memory) : list (list Z) :=
  [cells (m_password m); cells (m_otpCode m); cells (m_jobPass m); cells (m_jobOtp m)] ++
  (match locals m with Some (p, o) => [cells p; cells o] | None => [] end) ++ released m.
(** An event that makes no copy which is not wiped. *)
Definition keeps_to_itself (e : SecretEvent) : Prop :=
  match e with EvRead _ | EvRequest _ | EvPack (Some _) => False | _ => True end.
Definition blank (c : list Z) : Prop := Forall (.= 0) c.

(** A field is typed forwards: nothing is taken away, and the buffer is outgrown only
    from empty, as when the whole text is set at once. *)
Definition forwards (v : wstr) (s : WStr) : Prop :=
  len s = 0%nat ∨ (len s <= length v < length (cells s))%nat.
Definition typed_forwards (e : SecretEvent) (m : Memory) : Prop :=
  match e with EvPassword v => forwards v (m_password m) | EvOtp v => forwards v (m_otpCode m) | _ => True end.
Fixpoint all_forwards (es : list SecretEvent) (m : Memory) : Prop :=
  match es with
  | [] => True
  | e :: es => typed_forwards e m ∧ match secret_event e m with Some m => all_forwards es m | None => True end
  end.

(** ** Lemmas *)
Definition tight (s : WStr) : Prop := (len s <= length (cells s))%nat ∧ blank (drop (len s) (cells s)).

Lemma blank_replicate n : blank (replicate n 0).
Proof. by apply Forall_replicate. Qed.
Lemma blank_drop n c : blank c → blank (drop n c).
Proof. by apply Forall_drop. Qed.
Lemma blank_deeper i j c : (i <= j)%nat → blank (drop i c) → blank (drop j c).
Proof. intros Hij H. replace j with (i + (j - i))%nat by lia. rewrite <- drop_drop. by apply blank_drop. Qed.

Lemma tight_new : tight new_string.
Proof. split; [cbn; lia|]. apply blank_drop, blank_replicate. Qed.
Lemma wipe_empty s : len (SecureWipe s) = 0%nat.
Proof. unfold SecureWipe. by destruct (Nat.eqb_spec (len s) 0). Qed.
Lemma wipe_blank s : tight s → blank (cells (SecureWipe s)).
Proof.
  intros [_ H]. unfold SecureWipe. destruct (Nat.eqb_spec (len s) 0) as [E|]; [by rewrite E in H|].
  apply Forall_app. split; [apply blank_replicate|done].
Qed.
Lemma wipe_tight s : tight s → tight (SecureWipe s).
Proof. intros H. split; rewrite wipe_empty; [lia|]. by apply blank_drop, wipe_blank. Qed.

Lemma assign_value v s : value (assign v s).1 = v.
Proof. unfold assign, value. destruct (_ <? _)%nat; cbn; by rewrite take_app_length. Qed.
Lemma assign_tight v s : tight s → forwards v s → tight (assign v s).1 ∧ Forall blank (assign v s).2.
Proof.
  intros [Hl Hb] Hf. unfold assign.
  assert (∀ t, blank t → tight (mkW (v ++ [0] ++ t) (length v))) as Ht.
  { intros t Hb'. split; cbn; [rewrite length_app; lia|]. rewrite drop_app_length. by constructor. }
  destruct (Nat.ltb_spec (length v) (length (cells s))); cbn [fst snd].
  - split; [|done]. apply Ht, (blank_deeper (len s)); [destruct Hf; lia|done].
  - split; [apply Ht, blank_replicate|]. destruct Hf as [E|?]; [|lia]. rewrite E in Hb. by constructor.
Qed.

(** Nothing is behind the end of any string, nor in what was given back. *)
Record clean (m : Memory) : Prop := mkClean {
  cl_password : tight (m_password m); cl_otp : tight (m_otpCode m); cl_jobPass : tight (m_jobPass m); cl_jobOtp : tight (m_jobOtp m);
  cl_locals : ∀ p o, locals m = Some (p, o) → tight p ∧ tight o; cl_released : Forall blank (released m) }.

Lemma clean_join m : clean m → clean (join_wipe m).
Proof. intros []. split; cbn; try done; by apply wipe_tight. Qed.
Lemma clean_reset m : clean m → clean (ResetAuthState_wipe m).
Proof. intros H. apply clean_join. destruct H. split; cbn; try done. by apply wipe_tight. Qed.
Lemma clean_report m : clean m → clean (ReportResult_wipe m).
Proof. intros []. split; cbn; try done; by apply wipe_tight. Qed.
Lemma clean_password v m : clean m → forwards v (m_password m) → clean (set_password v m).
Proof.
  intros [H1 H2 H3 H4 H5 H6] Hf. unfold set_password. destruct (assign_tight v _ H1 Hf). destruct (assign v (m_password m)).
  split; cbn; try done. by apply Forall_app.
Qed.
Lemma clean_otp v m : clean m → forwards v (m_otpCode m) → clean (set_otp v m).
Proof.
  intros [H1 H2 H3 H4 H5 H6] Hf. unfold set_otp. destruct (assign_tight v _ H2 Hf). destruct (assign v (m_otpCode m)).
  split; cbn; try done. by apply Forall_app.
Qed.

Lemma clean_start otp started m : clean m → clean (StartWorkerJob_copies otp started m).
Proof.
  intros H. unfold StartWorkerJob_copies. apply clean_join in H. cbv zeta. set (m1 := join_wipe m) in *.
  assert (len (m_jobPass m1) = 0%nat ∧ len (m_jobOtp m1) = 0%nat) as [L1 L2] by (split; apply wipe_empty). clearbody m1.
  pose proof H as [H1 H2 H3 H4 H5 H6].
  destruct (assign_tight (value (m_password m1)) (m_jobPass m1) H3 (or_introl L1)) as [T1 R1].
  destruct (assign (value (m_password m1)) (m_jobPass m1)) as [s r].
  set (m2 := m1 <| m_jobPass := s |> <| released := r ++ released m1 |>).
  assert (clean m2 ∧ len (m_jobOtp m2) = 0%nat) as [H' L2'] by (split; [split; cbn; try done; by apply Forall_app|done]). clearbody m2.
  pose proof H' as [G1 G2 G3 G4 G5 G6].
  set (m3 := if otp then _ else m2). assert (clean m3) as H3'.
  { subst m3. destruct otp; [|done]. destruct (assign_tight (value (m_otpCode m2)) (m_jobOtp m2) G4 (or_introl L2')) as [T2 R2].
    destruct (assign (value (m_otpCode m2)) (m_jobOtp m2)). split; cbn; try done. by apply Forall_app. }
  clearbody m3. destruct started; [done|by apply clean_join].
Qed.

Lemma clean_take m : clean m → clean (take_secrets m).
Proof.
  intros [H1 H2 H3 H4 H5 H6]. unfold take_secrets.
  destruct (assign_tight (value (m_jobPass m)) new_string tight_new (or_introl eq_refl)) as [T1 R1].
  destruct (assign_tight (value (m_jobOtp m)) new_string tight_new (or_introl eq_refl)) as [T2 R2].
  destruct (assign (value (m_jobPass m)) new_string), (assign (value (m_jobOtp m)) new_string). apply clean_join. split; cbn; try done.
  - intros p o E. by simplify_eq.
  - by repeat apply Forall_app_2.
Qed.
Lemma clean_done m : clean m → clean (worker_done m).
Proof.
  intros H. pose proof H as [_ _ _ _ H5 H6]. unfold worker_done. destruct (locals m) as [[p o]|] eqn:E; [|exact H].
  destruct (H5 p o eq_refl) as [Hp Ho]. destruct H. split; cbn; try done. constructor; [by apply wipe_blank|]. constructor; [by apply wipe_blank|done].
Qed.

Lemma clean_read otp m : clean m → clean (GetStringValue_copy otp m).
Proof.
  intros [H1 H2 H3 H4 H5 H6]. unfold GetStringValue_copy.
  destruct (assign_tight (value (secret_of otp m)) new_string tight_new (or_introl eq_refl)) as [T1 R1].
  destruct (assign _ new_string). split; cbn; try done. by apply Forall_app.
Qed.
Lemma clean_pack freed m : clean m → clean (pack_copy freed m).
Proof.
  intros [H1 H2 H3 H4 H5 H6]. unfold pack_copy.
  destruct (assign_tight (GetPlainPassword env (value (m_password m))) new_string tight_new (or_introl eq_refl)) as [T1 R1].
  destruct (assign _ new_string). split; cbn; try done. constructor; [by apply wipe_blank|]. by apply Forall_app.
Qed.
Lemma clean_request bodies m : clean m → clean (client_copy bodies m).
Proof. intros H. unfold client_copy. destruct (locals m) as [[p o]|] eqn:E; [|done]. by destruct H. Qed.

Lemma event_clean e m m' : clean m → typed_forwards e m → secret_event e m = Some m' → clean m'.
Proof.
  intros H Hf E. destruct e; cbn in E, Hf; destruct (locals m) as [[p o]|] eqn:El; try discriminate; try case_match; simplify_eq.
  - unfold SetPassword. rewrite H0. by apply clean_password.
  - unfold SetPassword. destruct (bool_decide _); [by apply clean_password|]. apply clean_password; [by apply clean_reset|done].
  - by apply clean_otp.
  - by apply clean_otp.
  - by apply clean_reset.
  - by apply clean_start.
  - by apply clean_take.
  - by apply clean_done.
  - by apply clean_report.
  - by apply clean_report.
  - by apply clean_read.
  - by apply clean_read.
  - by apply clean_pack.
  - by apply clean_pack.
  - by apply clean_request.
Qed.
Lemma events_clean es : ∀ m m', clean m → all_forwards es m → secret_events es m = Some m' → clean m'.
Proof.
  induction es as [|e es IH]; intros m m' H Hf E; [by injection E as <-|]. cbn in Hf, E. destruct Hf as [Hf Hfs].
  destruct (secret_event e m) as [m1|] eqn:E1; [|discriminate]. apply (IH m1); [by eapply event_clean|done..].
Qed.

(** *** Where the values are, and the copies *)

(** The worker's input exists once: it has left the members when the worker has it. *)
Definition moved (m : Memory) : Prop := locals m ≠ None → len (m_jobPass m) = 0%nat ∧ len (m_jobOtp m) = 0%nat.

Lemma event_moved e m m' : moved m → secret_event e m = Some m' → moved m'.
Proof.
  intros H E. unfold moved in *. destruct e; cbn in E; destruct (locals m) as [[p o]|] eqn:El; try discriminate; try case_match; simplify_eq.
  all: try (unfold SetPassword, set_password; rewrite ?H0; try destruct (bool_decide _); destruct (assign _ _); cbn in *; rewrite ?El; naive_solver).
  all: try (unfold set_otp, GetStringValue_copy, pack_copy; destruct (assign _ _); cbn in *; rewrite ?El; naive_solver).
  - cbn. rewrite El. done.
  - intros Hn. exfalso. apply Hn. clear Hn. unfold StartWorkerJob_copies. cbv zeta. destruct (assign _ _) as [s r].
    destruct otp; [destruct (assign _ _)|]; destruct started; done.
  - intros _. unfold take_secrets. destruct (assign _ _), (assign _ _). split; apply wipe_empty.
  - unfold worker_done. by rewrite El.
  - cbn. rewrite El. naive_solver.
  - cbn. by rewrite El.
  - unfold client_copy. rewrite El. cbn. naive_solver.
Qed.

Lemma events_moved es : ∀ m m', moved m → secret_events es m = Some m' → moved m'.
Proof.
  induction es as [|e es IH]; intros m m' H E; [by injection E as <-|]. cbn in E.
  destruct (secret_event e m) as [m1|] eqn:E1; [|discriminate]. apply (IH m1); [by eapply event_moved|done].
Qed.

Lemma strays_password v m : strays (SetPassword v m) = strays m.
Proof. unfold SetPassword, set_password. destruct (bool_decide _), (assign _ _); done. Qed.
Lemma strays_otp v m : strays (set_otp v m) = strays m.
Proof. unfold set_otp. by destruct (assign _ _). Qed.
Lemma strays_start otp started m : strays (StartWorkerJob_copies otp started m) = strays m.
Proof. unfold StartWorkerJob_copies. cbv zeta. destruct (assign _ _), otp, started; try destruct (assign _ _); done. Qed.
Lemma strays_take m : strays (take_secrets m) = strays m.
Proof. unfold take_secrets. by destruct (assign _ _), (assign _ _). Qed.
Lemma strays_done m : strays (worker_done m) = strays m.
Proof. unfold worker_done. by destruct (locals m) as [[]|]. Qed.

Lemma event_strays e m m' : secret_event e m = Some m' →
  (∃ l, strays m' = l ++ strays m) ∧ (keeps_to_itself e → strays m' = strays m).
Proof.
  intros E. assert (Hsame : strays m' = strays m → (∃ l, strays m' = l ++ strays m) ∧ (keeps_to_itself e → strays m' = strays m)).
  { intros ->. split; [by exists []|done]. }
  destruct e as [| | | | | | |otp|[before|]|bodies]; cbn in E; destruct (locals m) as [[p o]|] eqn:El; try discriminate;
    try case_match; simplify_eq;
    try (apply Hsame; first [apply strays_password|apply strays_otp|apply strays_start|apply strays_take|apply strays_done|done]);
    unfold GetStringValue_copy, pack_copy, client_copy; rewrite ?El; try destruct (assign _ _); cbn.
  all: first [split; [by exists []|done]|split; [by eexists [_]|done]|idtac].
  split; [by exists (request_copies (value p) (value o) bodies)|done].
Qed.
Lemma events_strays es : ∀ m m', secret_events es m = Some m' →
  (∀ c, c ∈ strays m → c ∈ strays m') ∧ (Forall keeps_to_itself es → strays m' = strays m).
Proof.
  induction es as [|e es IH]; intros m m' E; [by injection E as <-|]. cbn in E.
  destruct (secret_event e m) as [m1|] eqn:E1; [|discriminate]. destruct (event_strays e m m1 E1) as [(l & Hl) Hk].
  destruct (IH m1 m' E) as [H1 H2]. split.
  - intros c Hc. apply H1. rewrite Hl. apply elem_of_app. by right.
  - intros [He Hes]%Forall_cons. by rewrite H2, Hk.
Qed.
Lemma events_split es1 es2 m m' : secret_events (es1 ++ es2) m = Some m' ↔
  ∃ m1, secret_events es1 m = Some m1 ∧ secret_events es2 m1 = Some m'.
Proof.
  revert m. induction es1 as [|e es1 IH]; intros m; cbn; [naive_solver|]. destruct (secret_event e m); cbn; [apply IH|naive_solver].
Qed.

(** What an event leaves behind when it happens in [m]. *)
Definition left_by (e : SecretEvent) (m : Memory) (left : list (list Z)) : Prop :=
  match e with
  | EvRead otp => ∃ c, c ∈ left ∧ take (length (value (secret_of otp m))) c = value (secret_of otp m)
  | EvPack (Some before) => before ++ GetPlainPassword env (value (m_password m)) ∈ left
  | EvRequest bodies => ∀ pass otp, locals m = Some (pass, otp) →
      ∀ c, c ∈ request_copies (value pass) (value otp) bodies → c ∈ left
  | _ => True
  end.

Lemma event_left e m m' : secret_event e m = Some m' → left_by e m (strays m').
Proof.
  destruct e as [| | | | | | |otp|[before|]|bodies]; try done; cbn [left_by].
  - intros E. assert (m' = GetStringValue_copy otp m) as -> by (cbn in E; by destruct (locals m) as [[]|]; simplify_eq).
    pose proof (assign_value (value (secret_of otp m)) new_string) as Hv. unfold GetStringValue_copy. 
    unfold assign in *. destruct (_ <? _)%nat; cbn; (eexists; split; [left|]); by rewrite take_app_length.
  - intros E. assert (m' = pack_copy (Some before) m) as -> by (cbn in E; by destruct (locals m) as [[]|]; simplify_eq).
    unfold pack_copy. destruct (assign _ _). cbn. left.
  - intros E pass otp El c Hc. cbn in E. rewrite El in E. injection E as <-. unfold client_copy. rewrite El. cbn [strays].
    apply elem_of_app. by left.
Qed.


(** What [SecureWipe] leaves: characters that were deleted from a password before, up
    to the terminator of what replaced it; and the whole of what a longer text
    outgrew. *)
Theorem deleted_characters_stay v1 v2 : (length v1 < 8)%nat →
  let m := SetPassword v2 (SetPassword v1 new_tile) in
  (∀ i, (length v2 < i < length v1)%nat → cells (m_password (destroy_secrets m)) !! i = v1 !! i) ∧
  ((8 <= length v2)%nat → ∃ c, c ∈ memory (destroy_secrets m) ∧ take (length v1) c = v1).
Proof.
  intros Hl m. subst m. unfold SetPassword.
  set (m1 := set_password v1 _). assert (m_password m1 = mkW (v1 ++ [0] ++ replicate (8 - S (length v1)) 0) (length v1)) as E1.
  { subst m1. unfold set_password. assert (∀ b : bool, m_password (if b then new_tile else ResetAuthState_wipe new_tile) = new_string) as -> by (by intros []).
    unfold assign. rewrite (proj2 (Nat.ltb_lt _ _)) by (cbn; lia). cbn [m_password]. unfold new_string. cbn [cells]. by rewrite drop_replicate. }
  assert (∀ b : bool, m_password (if b then m1 else ResetAuthState_wipe m1) = m_password m1) as E2 by (clear E1; clearbody m1; by intros []).
  set (m2 := if bool_decide _ then m1 else _). specialize (E2 (bool_decide (value (m_password m1) = v2))). fold m2 in E2.
  clearbody m2. unfold set_password. rewrite E2, E1. unfold assign. cbn [cells]. rewrite !length_app, length_replicate. cbn [length]. split.
  - intros i Hi. rewrite (proj2 (Nat.ltb_lt _ _)) by lia. cbn. unfold SecureWipe. cbn [len cells].
    assert (drop (length v2) (v2 ++ 0 :: drop (S (length v2)) (v1 ++ 0 :: replicate (8 - S (length v1)) 0)) !! (i - length v2)%nat = v1 !! i) as Hd.
    { rewrite lookup_drop. rewrite lookup_app_r by lia. replace (length v2 + (i - length v2) - length v2)%nat with (S (i - S (length v2))) by lia.
      rewrite lookup_cons_ne_0 by lia. rewrite lookup_drop. replace (S (length v2) + Nat.pred (S (i - S (length v2))))%nat with i by lia. by rewrite lookup_app_l by lia. }
    destruct (Nat.eqb_spec (length v2) 0) as [E0|]; cbn [cells].
    + rewrite E0, Nat.sub_0_r, drop_0 in Hd. by rewrite E0.
    + rewrite lookup_app_r by (rewrite length_replicate; lia). by rewrite length_replicate.
  - intros H8. rewrite (proj2 (Nat.ltb_ge _ _)) by lia. exists (v1 ++ [0] ++ replicate (8 - S (length v1)) 0).
    split; [|by rewrite take_app_length]. unfold memory. apply elem_of_app. right. apply elem_of_app. right. cbn. left.
Qed.
End Strings.

(** A password typed letter by letter, a job with its request, and the end of the tile. *)
Definition demo_pack : PackEnv :=
  mkPackEnv None None None (λ _, false) (λ _, false) (λ _, mkUnprotect false 0 false None) true true (λ _, None)
    (λ _ _ _, mkCredPack false false 0 None).


Lemma deleted_characters_stay_witness :
  let m := SetPassword (λ _ n, n) [] (SetPassword (λ _ n, n) (W "secret") new_tile) in
  drop 1 (cells (m_password (destroy_secrets m))) = W "ecret" ++ [0; 0] ∧
  cells (m_password (destroy_secrets m)) !! 3%nat = W "secret" !! 3%nat.
Proof.
  split; [vm_compute; reflexivity|]. assert (length (W "secret") = 6%nat) as E by reflexivity.
  apply (deleted_characters_stay (λ _ n, n) (W "secret") []); rewrite E; cbn [length]; lia.
Defined.
