(* ===== verification/TileObject.v ===== *)
(** * The tile as a COM object

    The parts of [LigamentCredential.cpp] around the logic of [Credential]: the global
    interface table and the computer name, each asked for once per process; the thread
    procedure of the worker; the logo as PNG; the methods that are not implemented.
    [AddRef], [Release] and [QueryInterface] are those of [ComModule]. *)
From S2P Require Import Prelude Pack.

(** ** The interface table *)

(** The function's statics, the tables made so far (each answer of
    [CoCreateInstance], the first first), and the two threads inside [GetGIT]. *)
Inductive GitPc := GitEntered | GitFlagged | GitCreated (table : option nat) | GitDone | GitReturned (table : option nat).
Record GitState := mkGit { s_pGIT : option nat; s_gitInit : bool; git_made : list (option nat) }.
Definition git_start : GitState := mkGit None false [].

(** One step of a thread; [answer] is what [CoCreateInstance] yields. *)
Definition GetGIT_step (answer : option nat) (pc : GitPc) (g : GitState) : GitPc * GitState :=
  match pc with
  | GitEntered => if s_gitInit g then (GitDone, g) else (GitFlagged, mkGit (s_pGIT g) true (git_made g))
  | GitFlagged => (GitCreated answer, mkGit (s_pGIT g) (s_gitInit g) (git_made g ++ [answer]))
  | GitCreated table => (GitDone, mkGit table (s_gitInit g) (git_made g))
  | GitDone => (GitReturned (s_pGIT g), g)
  | GitReturned t => (GitReturned t, g)
  end.
Definition GetGIT (answer : option nat) (g : GitState) : option nat * GitState :=
  let run := λ st : GitPc * GitState, GetGIT_step answer st.1 st.2 in
  let '(pc, g) := run (run (run (run (GitEntered, g)))) in (match pc with GitReturned t => t | _ => None end, g).

(** Calls that overlap: a schedule of two threads, [true] for the first. *)
Fixpoint git_race (answer : option nat) (steps : list bool) (st : GitPc * GitPc * GitState) : GitPc * GitPc * GitState :=
  match steps with
  | [] => st
  | b :: steps =>
    let '(p, q, g) := st in
    git_race answer steps
      (if b then let '(p, g) := GetGIT_step answer p g in (p, q, g) else let '(q, g) := GetGIT_step answer q g in (p, q, g))
  end.

(** ** Names of the computer *)

(** A static that is computed by the first call; C++ makes other threads wait. *)
Definition ComputerNameSuffix (GetComputerName : option wstr) (cached : option wstr) : wstr * option wstr :=
  match cached with
  | Some s => (s, cached)
  | None => let s := default [] GetComputerName in (s, Some s)
  end.
(** Each name stays as it was when its question fails. *)
Definition GetMachineNames (GetComputerName dnsDomain : option wstr) (names : wstr * wstr) : wstr * wstr :=
  (default names.1 GetComputerName, default names.2 dnsDomain).

(** ** The worker's thread and the logo *)
Inductive ComCall :=
| CoInitializeEx (ok : bool) | RunJob | CoUninitialize
| QueryEvents3 (ok : bool) | SetFieldBitmapBuffer (size : Z) | ReleaseEvents3.

Definition WorkerThreadProc (com_ok : bool) : list ComCall :=
  [CoInitializeEx com_ok; RunJob] ++ (if com_ok then [CoUninitialize] else []).

(** [events]: none, one without the third interface (with that error), or one whose
    [SetFieldBitmapBuffer] gives the result. *)
Definition SetTransparentLogo (png : str) (events : option (HRESULT + HRESULT)) : HRESULT * list ComCall :=
  match events with
  | None => (E_POINTER, [])
  | Some (inl hr) => (hr, [QueryEvents3 false])
  | Some (inr hr) => (hr, [QueryEvents3 true; SetFieldBitmapBuffer (Z.of_nat (length png)); ReleaseEvents3])
  end.

(** ** What the tile does not offer *)
Definition GetUserSid (sid : bool) : HRESULT * option (option wstr) :=
  if sid then (E_NOTIMPL, Some None) else (E_POINTER, None).
Definition GetCheckboxValue : HRESULT := E_NOTIMPL.
Definition GetComboBoxValueCount : HRESULT := E_NOTIMPL.
Definition GetComboBoxValueAt : HRESULT := E_NOTIMPL.
Definition SetCheckboxValue : HRESULT := E_NOTIMPL.
Definition SetComboBoxSelectedValue : HRESULT := E_NOTIMPL.

(** ** Lemmas *)

(** What holds once the flag is set and nobody is between setting it and storing. *)
Definition git_settled (g : GitState) : Prop :=
  if s_gitInit g then git_made g = [s_pGIT g] else s_pGIT g = None ∧ git_made g = [].

Lemma GetGIT_settled answer g : git_settled g →
  git_settled (GetGIT answer g).2 ∧ s_gitInit (GetGIT answer g).2 = true ∧
  (GetGIT answer g).1 = (if s_gitInit g then s_pGIT g else answer) ∧ s_pGIT (GetGIT answer g).2 = (GetGIT answer g).1.
Proof.
  destruct g as [p [] made]; unfold git_settled, GetGIT; cbn; [intros ->; by split_and!|]. intros [-> ->]. by split_and!.
Qed.

(** The table is made once: calls one after another all get what the first one got,
    also when that was nothing. *)
Theorem GetGIT_once answers answer :
  let '(results, g) := foldl (λ st a, let '(t, g) := GetGIT a st.2 in (st.1 ++ [t], g)) ([], git_start) (answer :: answers) in
  git_made g = [answer] ∧ length results = S (length answers) ∧ Forall (.= answer) results.
Proof.
  cbn [foldl]. change (GetGIT answer git_start) with (answer, mkGit answer true [answer]). cbn [fst snd app].
  assert (∀ rs, Forall (.= answer) rs →
    let '(results, g) := foldl (λ (st : list (option nat) * GitState) a, let '(t, g) := GetGIT a st.2 in (st.1 ++ [t], g)) (rs, mkGit answer true [answer]) answers in
    git_made g = [answer] ∧ length results = (length rs + length answers)%nat ∧ Forall (.= answer) results) as H.
  { induction answers as [|a answers IH]; intros rs Hrs; cbn [foldl]; [split_and!; [done|cbn; lia|done]|].
    change (GetGIT a (mkGit answer true [answer])) with (answer, mkGit answer true [answer]). cbn [fst snd].
    specialize (IH (rs ++ [answer])). destruct (foldl _ _ answers) as [results g].
    destruct IH as (H1 & H2 & H3); [apply Forall_app; split; [done|by repeat constructor]|]. split_and!; [done|rewrite H2, length_app; cbn; lia|done]. }
  specialize (H [answer]). destruct (foldl _ _ answers) as [results g]. destruct H as (H1 & H2 & H3); [by repeat constructor|].
  by split_and!.
Qed.

(** The flag is set before the table is there: of two first calls that overlap, one can
    be told that there is no table although it is being made. *)
Theorem GetGIT_race : ∃ steps g,
  git_race (Some 7%nat) steps (GitEntered, GitEntered, git_start) = (GitReturned (Some 7%nat), GitReturned None, g) ∧
  git_made g = [Some 7%nat].
Proof. exists [true; false; false; true; true; true]. eexists. split; reflexivity. Qed.

(** The worker's apartment and the third interface are given back exactly when they
    were got, and after their last use. *)
Theorem com_calls_balanced com_ok png events :
  (CoUninitialize ∈ WorkerThreadProc com_ok ↔ com_ok = true) ∧ RunJob ∈ WorkerThreadProc com_ok ∧
  let '(hr, calls) := SetTransparentLogo png events in
  (QueryEvents3 true ∈ calls ↔ last calls = Some ReleaseEvents3) ∧
  (∀ n, SetFieldBitmapBuffer n ∈ calls → n = Z.of_nat (length png) ∧ events = Some (inr hr)).
Proof.
  split; [destruct com_ok; cbn; set_solver|]. split; [cbn; set_solver|].
  destruct events as [[hr|hr]|]; cbn; (split; [split; [set_solver|done || set_solver]|]); set_solver.
Qed.
