(* ===== verification/WebAuthn.v ===== *)
(** * The passkey client

    [windows/credential_provider/WebAuthnClient.cpp] and [.h]: [webauthn.dll] and
    the assertion it gives, as JSON for the server. The tile makes a client on every
    initialisation; its [Authenticate] is not called by the tile at present. *)
From S2P Require Import Prelude Text.

(** ** The library *)

(** [GetSystemDirectoryW] (its result and the buffer), [LoadLibraryW], [GetProcAddress]. *)
Record Loader := mkLoader {
  ld_system : Z * wstr; ld_load : wstr → option nat; ld_proc : nat → str → option nat }.

Record WebAuthnClient := mkWebAuthnClient {
  m_hWebAuthn : option nat; m_pfnGetAssertion : option nat; m_pfnFreeAssertion : option nat; m_pfnIsUVPAA : option nat }.

Definition getProc (ld : Loader) (h : nat) (name1 name2 : str) : option nat :=
  match ld_proc ld h name1 with Some p => Some p | None => ld_proc ld h name2 end.

Definition new_client (ld : Loader) : WebAuthnClient :=
  let first := if 0 <? (ld_system ld).1 then ld_load ld (c_str (ld_system ld).2 ++ W "\webauthn.dll") else None in
  let h := match first with Some h => Some h | None => ld_load ld (W "webauthn.dll") end in
  match h with
  | Some m =>
    mkWebAuthnClient (Some m)
      (getProc ld m (B "WebAuthNAuthenticatorGetAssertion") (B "WebAuthnAuthenticatorGetAssertion"))
      (getProc ld m (B "WebAuthNFreeAssertion") (B "WebAuthnFreeAssertion"))
      (getProc ld m (B "WebAuthNIsUserVerifyingPlatformAuthenticatorAvailable")
                    (B "WebAuthnIsUserVerifyingPlatformAuthenticatorAvailable"))
  | None => mkWebAuthnClient None None None None
  end.

(** The destructor: the module it frees. *)
Definition destroy_client (c : WebAuthnClient) : option nat := m_hWebAuthn c.

Definition IsAvailable (c : WebAuthnClient) : bool :=
  bool_decide (m_pfnGetAssertion c ≠ None) && bool_decide (m_pfnFreeAssertion c ≠ None).

(** ** The assertion *)

(** [WEBAUTHN_ASSERTION]; a null pointer is [None]. *)
Record Assertion := mkAssertion {
  as_credential : option str; as_authenticator_data : str; as_signature : str; as_user : option str }.

Definition ERROR_CANCELLED : Z := 1223.
Definition ERROR_TIMEOUT : Z := 1460.
(** [HRESULT_FROM_WIN32] of a positive error, as the [long] it is. *)
Definition from_win32 (e : Z) : Z := i32 (Z.lor (Z.land e 0xFFFF) 0x80070000).

Definition client_data (challengeBase64 origin : str) : str :=
  J "{'type':'webauthn.get','challenge':'" ++ challengeBase64 ++ J "','origin':'https://" ++ origin ++ J "'}".

(** The fields that may be missing or empty. *)
Definition encode_optional (o : option str) : str :=
  match o with Some b => if (0 <? length b)%nat then Base64UrlEncode b else [] | None => [] end.

Definition assertion_json (a : Assertion) (clientDataStr : str) : str :=
  let credId := encode_optional (as_credential a) in
  let userHandle := encode_optional (as_user a) in
  J "{" ++ J "'id':'" ++ credId ++ J "'," ++ J "'rawId':'" ++ credId ++ J "'," ++ J "'type':'public-key'," ++
  J "'response':{" ++ J "'authenticatorData':'" ++ Base64UrlEncode (as_authenticator_data a) ++ J "'," ++
  J "'clientDataJSON':'" ++ Base64UrlEncode clientDataStr ++ J "'," ++
  J "'signature':'" ++ Base64UrlEncode (as_signature a) ++ J "'" ++
  (if bool_decide (userHandle = []) then [] else J ",'userHandle':'" ++ userHandle ++ J "'") ++ J "}}".

(** What [Authenticate] does: its result, the two output strings when they are
    written, the client data the authenticator was asked to sign, and the
    assertions given back. *)
Record Outcome := mkOutcome {
  oc_result : bool; oc_json : option str; oc_error : option str; oc_asked : option str; oc_freed : list Assertion }.

(** [GetAssertion rpId clientData] is the call into the library. *)
Definition Authenticate (WideToUtf8 : wstr → str) (GetAssertion : wstr → str → Z * option Assertion)
    (c : WebAuthnClient) (rpId : wstr) (challengeBase64 : str) : Outcome :=
  if negb (IsAvailable c) then mkOutcome false None (Some (B "webauthn_dll_not_available")) None [] else
  let clientDataStr := client_data challengeBase64 (WideToUtf8 rpId) in
  let '(hr, pAssertion) := GetAssertion (c_str rpId) clientDataStr in
  let failed := mkOutcome false None
    (Some (if hr =? from_win32 ERROR_CANCELLED then B "cancelled_by_user" else
           if hr =? from_win32 ERROR_TIMEOUT then B "timeout" else
           B "assertion_failed_hr_" ++ to_string hr)) (Some clientDataStr) [] in
  match pAssertion with
  | None => failed
  | Some a =>
    if hr <? 0 then failed
    else mkOutcome true (Some (assertion_json a clientDataStr)) None (Some clientDataStr) [a]
  end.

(** ** A reader of JSON strings and objects *)
Set Warnings "-register-all".
Inductive Json := JStr (s : str) | JObj (members : list (str * Json)).

(** Members up to the closing brace; [value] reads one value. *)
Fixpoint members (value : str → option (Json * str)) (n : nat) (s : str) : option (list (str * Json) * str) :=
  match n, s with
  | S n, 34 :: s =>
    '(key, s) ← json_read s;
    match s with
    | 58 :: s =>
      '(v, s) ← value s;
      match s with
      | 44 :: s => '(rest, s) ← members value n s; Some ((key, v) :: rest, s)
      | 125 :: s => Some ([(key, v)], s)
      | _ => None
      end
    | _ => None
    end
  | _, _ => None
  end.
Fixpoint read_value (fuel : nat) (s : str) : option (Json * str) :=
  match fuel, s with
  | S fuel, 34 :: s => '(v, s) ← json_read s; Some (JStr v, s)
  | S fuel, 123 :: s => '(ms, s) ← members (read_value fuel) (length s) s; Some (JObj ms, s)
  | _, _ => None
  end.
Definition read_json (s : str) : option Json :=
  match read_value 8 s with Some (v, []) => Some v | _ => None end.

(** ** Plain strings *)

(** Characters that need no escape in JSON. *)
Definition plain (c : Z) : Prop := 32 <= c ∧ c ≠ 34 ∧ c ≠ 92.
#[export] Instance plain_dec c : Decision (plain c).
Proof. unfold plain. apply _. Defined.

Lemma json_read_plain s r : Forall plain s → json_read (s ++ dq :: r) = Some (s, r).
Proof.
  induction 1 as [|c s (H1 & H2 & H3) _ IH]; [done|]. cbn [app json_read].
  destruct (Z.eqb_spec c 34); [done|]. destruct (Z.ltb_spec c 32); [lia|]. destruct (Z.eqb_spec c 92); [done|]. by rewrite IH.
Qed.

Lemma sextets_bounded l : Forall is_byte l → Forall is_sextet (b64_sextets l).
Proof.
  induction l as [|a|a b|a b c r IH] using group3_ind; intros Hl; rewrite ?Forall_cons in Hl; cbn [b64_sextets]; unfold is_byte in *.
  - constructor.
  - repeat constructor; Z.to_euclidean_division_equations; lia.
  - repeat constructor; Z.to_euclidean_division_equations; lia.
  - destruct Hl as (Ha & Hb & Hc & Hr). apply Forall_app. split; [|by apply IH]. repeat constructor; Z.to_euclidean_division_equations; lia.
Qed.

Lemma b64_char_plain x : is_sextet x → plain (b64_char x).
Proof.
  intros H. assert (Forall (λ x, plain (b64_char x)) (seqZ 0 64)) as Hall.
  { apply (bool_decide_unpack _). vm_compute. reflexivity. }
  rewrite Forall_forall in Hall. apply Hall, elem_of_seqZ. unfold is_sextet in H. lia.
Qed.

Lemma encode_plain data : Forall is_byte data → Forall plain (Base64UrlEncode data).
Proof.
  intros H. assert (Base64UrlEncode data = b64_char <$> b64_sextets data) as -> by apply (b64_encode_loop_sextets data H 0 []).
  apply Forall_fmap. eapply Forall_impl; [by apply sextets_bounded|]. apply b64_char_plain.
Qed.
Lemma decode_encode data : Forall is_byte data → Base64UrlDecode (Base64UrlEncode data) = data.
Proof.
  intros H. assert (Base64UrlEncode data = b64_char <$> b64_sextets data) as -> by apply (b64_encode_loop_sextets data H 0 []).
  apply (b64_decode_loop_sextets data H 0 []).
Qed.
Lemma encode_nonempty data : (0 < length data)%nat → Forall is_byte data → Base64UrlEncode data ≠ [].
Proof. intros Hl H E. pose proof (decode_encode data H) as D. rewrite E in D. destruct data; [cbn in Hl; lia|done]. Qed.

(** Bytes that a missing or empty field stands for. *)
Definition optional_bytes (o : option str) : str := default [] o.
Definition assertion_bytes (a : Assertion) : Prop :=
  Forall is_byte (optional_bytes (as_credential a)) ∧ Forall is_byte (as_authenticator_data a) ∧
  Forall is_byte (as_signature a) ∧ Forall is_byte (optional_bytes (as_user a)).

Lemma encode_optional_plain o : Forall is_byte (optional_bytes o) → Forall plain (encode_optional o).
Proof. intros H. unfold encode_optional. destruct o as [b|]; [|constructor]. destr_if; [by apply encode_plain|constructor]. Qed.
Lemma encode_optional_decodes o : Forall is_byte (optional_bytes o) → Base64UrlDecode (encode_optional o) = optional_bytes o.
Proof.
  intros H. unfold encode_optional. destruct o as [b|]; [|done]. cbn in *. destruct b as [|x b]; [done|]. by apply (decode_encode (x :: b)).
Qed.
Lemma encode_optional_empty o : Forall is_byte (optional_bytes o) → encode_optional o = [] ↔ optional_bytes o = [].
Proof.
  intros H. unfold encode_optional. destruct o as [b|]; [|done]. cbn in *. destruct b as [|x b]; [done|].
  split; [|done]. intros E. by apply encode_nonempty in E; [|cbn; lia|].
Qed.

(** *** Reading what is written *)

(** A string member, and what follows it. *)
Definition text_member (key value : str) : str := dq :: key ++ dq :: 58 :: dq :: value ++ [dq].

Lemma read_text fuel v r : Forall plain v → read_value (S fuel) (dq :: v ++ dq :: r) = Some (JStr v, r).
Proof. intros H. cbn [read_value]. by rewrite json_read_plain. Qed.
Lemma read_obj fuel s : read_value (S fuel) (123 :: s) = '(ms, s) ← members (read_value fuel) (length s) s; Some (JObj ms, s).
Proof. done. Qed.
Lemma text_member_app key value rest : text_member key value ++ rest = dq :: key ++ dq :: 58 :: dq :: value ++ dq :: rest.
Proof. unfold text_member. cbn [app]. rewrite <- app_assoc. cbn [app]. by rewrite <- app_assoc. Qed.

Lemma members_text fuel n key value rest : Forall plain key → Forall plain value →
  members (read_value (S fuel)) (S n) (text_member key value ++ 44 :: rest) =
  ('(ms, s) ← members (read_value (S fuel)) n rest; Some ((key, JStr value) :: ms, s)).
Proof.
  intros Hk Hv. rewrite text_member_app. cbn [members]. rewrite json_read_plain by done. cbn [mbind option_bind].
  by rewrite read_text by done.
Qed.
Lemma members_last fuel n key value rest : Forall plain key → Forall plain value →
  members (read_value (S fuel)) (S n) (text_member key value ++ 125 :: rest) = Some ([(key, JStr value)], rest).
Proof.
  intros Hk Hv. rewrite text_member_app. cbn [members]. rewrite json_read_plain by done. cbn [mbind option_bind].
  by rewrite read_text by done.
Qed.

Ltac plain_literal := solve [apply (bool_decide_unpack _); vm_compute; reflexivity].

Definition response_members (a : Assertion) (cd : str) : list (str * Json) :=
  [(B "authenticatorData", JStr (Base64UrlEncode (as_authenticator_data a)));
   (B "clientDataJSON", JStr (Base64UrlEncode cd)); (B "signature", JStr (Base64UrlEncode (as_signature a)))] ++
  (if bool_decide (encode_optional (as_user a) = []) then [] else [(B "userHandle", JStr (encode_optional (as_user a)))]).

Lemma response_reads a cd fuel n rest : assertion_bytes a → Forall is_byte cd → (4 <= n)%nat →
  members (read_value (S fuel)) n
    (text_member (B "authenticatorData") (Base64UrlEncode (as_authenticator_data a)) ++ 44 ::
     text_member (B "clientDataJSON") (Base64UrlEncode cd) ++ 44 ::
     text_member (B "signature") (Base64UrlEncode (as_signature a)) ++
     (if bool_decide (encode_optional (as_user a) = []) then [] else 44 :: text_member (B "userHandle") (encode_optional (as_user a))) ++ 125 :: rest) =
  Some (response_members a cd, rest).
Proof.
  intros (H1 & H2 & H3 & H4) Hcd Hn. do 4 (destruct n as [|n]; [lia|]). unfold response_members.
  rewrite members_text; [|plain_literal|by apply encode_plain]. rewrite members_text; [|plain_literal|by apply encode_plain].
  case_bool_decide; cbn [app].
  - rewrite members_last; [done|plain_literal|by apply encode_plain].
  - rewrite members_text; [|plain_literal|by apply encode_plain].
    rewrite members_last; [done|plain_literal|by apply encode_optional_plain].
Qed.

Lemma assertion_reads a cd : assertion_bytes a → Forall is_byte cd →
  read_json (assertion_json a cd) =
    Some (JObj [(B "id", JStr (encode_optional (as_credential a))); (B "rawId", JStr (encode_optional (as_credential a)));
                (B "type", JStr (B "public-key")); (B "response", JObj (response_members a cd))]).
Proof.
  intros Ha Hcd. pose proof Ha as (H1 & _).
  set (resp rest := text_member (B "authenticatorData") (Base64UrlEncode (as_authenticator_data a)) ++ 44 ::
     text_member (B "clientDataJSON") (Base64UrlEncode cd) ++ 44 ::
     text_member (B "signature") (Base64UrlEncode (as_signature a)) ++
     (if bool_decide (encode_optional (as_user a) = []) then [] else 44 :: text_member (B "userHandle") (encode_optional (as_user a))) ++ 125 :: rest).
  assert (assertion_json a cd = 123 :: text_member (B "id") (encode_optional (as_credential a)) ++ 44 ::
    text_member (B "rawId") (encode_optional (as_credential a)) ++ 44 :: text_member (B "type") (B "public-key") ++ 44 ::
    dq :: B "response" ++ dq :: 58 :: 123 :: resp [125]) as ->.
  { unfold assertion_json, resp. case_bool_decide; rewrite !text_member_app; [reflexivity|]. cbn [app].
    rewrite text_member_app, <- (app_assoc (J ",'userHandle':'")), <- (app_assoc (encode_optional (as_user a))). reflexivity. }
  unfold read_json. rewrite read_obj.
  match goal with |- context [members _ (length ?s) _] => set (n := length s); assert (4 <= n)%nat as Hn by (subst n; rewrite text_member_app; cbn [length]; rewrite length_app; cbn [length]; lia) end.
  clearbody n. do 4 (destruct n as [|n]; [lia|]).
  rewrite members_text; [|plain_literal|by apply encode_optional_plain]. rewrite members_text; [|plain_literal|by apply encode_optional_plain].
  rewrite members_text; [|plain_literal|plain_literal]. cbn [members]. rewrite (json_read_plain (B "response")) by plain_literal. cbn [mbind option_bind].
  rewrite read_obj.
  assert (4 <= length (resp [125%Z]))%nat as Hk by (unfold resp; rewrite text_member_app; cbn [length]; rewrite length_app; cbn [length]; lia).
  revert Hk. generalize (length (resp [125])) as k. intros k Hk. unfold resp. by rewrite (response_reads a cd 5 k [125]) by done.
Qed.

Lemma client_data_reads challenge origin : Forall plain challenge → Forall plain origin →
  read_json (client_data challenge origin) =
    Some (JObj [(B "type", JStr (B "webauthn.get")); (B "challenge", JStr challenge); (B "origin", JStr (B "https://" ++ origin))]).
Proof.
  intros Hc Ho. assert (client_data challenge origin = 123 :: text_member (B "type") (B "webauthn.get") ++ 44 ::
    text_member (B "challenge") challenge ++ 44 :: text_member (B "origin") (B "https://" ++ origin) ++ [125]) as ->.
  { rewrite !text_member_app. reflexivity. }
  unfold read_json. rewrite read_obj.
  match goal with |- context [members _ (length ?s) _] => set (n := length s); assert (3 <= n)%nat as Hn
    by (subst n; rewrite text_member_app; cbn [length]; rewrite length_app; cbn [length]; lia) end.
  clearbody n. do 3 (destruct n as [|n]; [lia|]).
  rewrite members_text; [|plain_literal|plain_literal]. rewrite members_text; [|plain_literal|done].
  rewrite (members_last 6 n (B "origin") (B "https://" ++ origin) []); [done|plain_literal|].
  apply Forall_app. split; [plain_literal|done].
Qed.

Lemma client_data_bytes challenge origin : Forall is_byte challenge → Forall is_byte origin → Forall is_byte (client_data challenge origin).
Proof.
  intros Hc Ho. unfold client_data. repeat (apply Forall_app; split); try done; plain_literal.
Qed.

(** The client asks the authenticator once, for a client data object with the challenge
    and the origin [https://rpId], and only when the library has all it needs. A
    failure writes an error and no assertion. After a success the server can read the
    assertion back: the JSON has the identifier of the credential twice, the type, and
    the response, whose fields decode to exactly the bytes that the authenticator gave
    and to the client data it was asked to sign; the user handle is there exactly when
    the authenticator gave one; and the assertion is given back to the library once. *)
Theorem Authenticate_assertion WideToUtf8 GetAssertion c rpId challenge :
  Forall is_byte challenge → Forall plain challenge →
  Forall is_byte (WideToUtf8 rpId) → Forall plain (WideToUtf8 rpId) →
  (∀ rp cd hr a, GetAssertion rp cd = (hr, Some a) → assertion_bytes a) →
  let oc := Authenticate WideToUtf8 GetAssertion c rpId challenge in
  match oc_asked oc with
  | None => IsAvailable c = false ∧ oc = mkOutcome false None (Some (B "webauthn_dll_not_available")) None []
  | Some cd =>
    IsAvailable c = true ∧
    read_json cd = Some (JObj [(B "type", JStr (B "webauthn.get")); (B "challenge", JStr challenge);
                               (B "origin", JStr (B "https://" ++ WideToUtf8 rpId))]) ∧
    let '(hr, pa) := GetAssertion (c_str rpId) cd in
    if oc_result oc then
      ∃ a json id ad cdj sg extra, pa = Some a ∧ 0 <= hr ∧ oc_freed oc = [a] ∧ oc_error oc = None ∧ oc_json oc = Some json ∧
        read_json json = Some (JObj [(B "id", JStr id); (B "rawId", JStr id); (B "type", JStr (B "public-key"));
          (B "response", JObj ([(B "authenticatorData", JStr ad); (B "clientDataJSON", JStr cdj); (B "signature", JStr sg)] ++ extra))]) ∧
        Base64UrlDecode id = optional_bytes (as_credential a) ∧ Base64UrlDecode ad = as_authenticator_data a ∧
        Base64UrlDecode cdj = cd ∧ Base64UrlDecode sg = as_signature a ∧
        (extra = [] ∧ optional_bytes (as_user a) = [] ∨
         ∃ uh, extra = [(B "userHandle", JStr uh)] ∧ Base64UrlDecode uh = optional_bytes (as_user a) ∧ optional_bytes (as_user a) ≠ [])
    else oc_json oc = None ∧ oc_freed oc = [] ∧ is_Some (oc_error oc) ∧ (pa = None ∨ hr < 0)
  end.
Proof.
  intros Hc Hcp Ho Hop Hga. cbv zeta. unfold Authenticate. destruct (IsAvailable c) eqn:Ea; cbn [negb]; [|done].
  set (cd := client_data challenge (WideToUtf8 rpId)).
  assert (Forall is_byte cd) as Hcd by (by apply client_data_bytes).
  destruct (GetAssertion (c_str rpId) cd) as [hr [a|]] eqn:Eg; cycle 1.
  { cbn [oc_asked oc_result]. rewrite Eg. split; [done|]. split; [by apply client_data_reads|]. split_and!; [done..|by eexists|by left]. }
  destruct (Z.ltb_spec hr 0); cbn [oc_asked oc_result oc_json oc_error oc_freed]; rewrite Eg.
  { split; [done|]. split; [by apply client_data_reads|]. split_and!; [done..|by eexists|by right]. }
  split; [done|]. split; [by apply client_data_reads|]. pose proof (Hga _ _ _ _ Eg) as Ha. pose proof Ha as (H1 & H2 & H3 & H4).
  eexists a, _, _, _, _, _, _. split; [done|]. split; [done|]. split; [done|]. split; [done|]. split; [done|].
  split; [by apply assertion_reads|]. split; [by apply encode_optional_decodes|]. split; [by apply decode_encode|].
  split; [by apply decode_encode|]. split; [by apply decode_encode|].
  case_bool_decide as He; [left|right]; (split || eexists); [done|by apply encode_optional_empty|split; [done|]].
  split; [by apply encode_optional_decodes|]. by rewrite <- encode_optional_empty.
Qed.

Lemma Authenticate_assertion_witness :
  let c := mkWebAuthnClient (Some 1%nat) (Some 2%nat) (Some 3%nat) None in
  let a := mkAssertion (Some [1; 2; 3]) [4; 5] [6] (Some [7]) in
  let oc := Authenticate id (λ _ _, (0, Some a)) c (W "example.com") (B "Y2hhbGxlbmdl") in
  oc_result oc = true ∧ oc_freed oc = [a].
Proof.
  intros c a oc.
  pose proof (Authenticate_assertion id (λ _ _, (0, Some a)) c (W "example.com") (B "Y2hhbGxlbmdl")) as H. cbv zeta in H.
  split; [vm_compute; reflexivity|].
  destruct H as (_ & _ & a' & j & i & ad & cdj & sg & e & [= <-] & _ & Hf & _).
  1-4: apply (bool_decide_unpack _); vm_compute; reflexivity.
  - intros rp cd hr a' [= _ <-]. repeat split; apply (bool_decide_unpack _); vm_compute; reflexivity.
  - exact Hf.
Defined.
