(* ===== verification/LogFile.v ===== *)
(** * The log files of the service

    [windows/service/log_utils.h]: time stamps, and [AppendUtf8LogLine] with its
    byte order mark, its rotation at 2 MB and its treatment of files from before
    the mark. [AppendUtf8LogLine] is written over an interface, [FileSystem]; here it
    is used on a finite map from paths to contents, and in [ProviderFiles] on a
    volume with links. A file is opened, used and closed within one call, and what may
    fail is told by the fields of [LogIO]. Paths fit in [MAX_PATH]. *)
From S2P Require Import Prelude.

(** ** Time stamps *)
Record SystemTime := mkSystemTime {
  wYear : Z; wMonth : Z; wDay : Z; wHour : Z; wMinute : Z; wSecond : Z; wMilliseconds : Z }.

(** [GetTimeZoneInformation]: whether it returned [TIME_ZONE_ID_DAYLIGHT]. *)
Record TimeZone := mkTimeZone { tz_daylight : bool; tz_Bias : Z; tz_DaylightBias : Z }.

(** [%0wu] of a number, [%0wd] of one that is not negative. *)
Definition padded (w : nat) (z : Z) : str :=
  let d := to_string z in replicate (w - length d) 48 ++ d.

Definition FormatLogTimestamp (st : SystemTime) (tzi : TimeZone) : wstr :=
  let bias := if tz_daylight tzi then i32 (tz_Bias tzi + tz_DaylightBias tzi) else tz_Bias tzi in
  let offset := i32 (- bias) in
  let absolute := if 0 <=? offset then offset else i32 (- offset) in
  padded 4 (wYear st) ++ [45] ++ padded 2 (wMonth st) ++ [45] ++ padded 2 (wDay st) ++ [84] ++
  padded 2 (wHour st) ++ [58] ++ padded 2 (wMinute st) ++ [58] ++ padded 2 (wSecond st) ++ [46] ++
  padded 3 (wMilliseconds st) ++ [if 0 <=? offset then 43 else 45] ++
  padded 2 (Z.quot absolute 60) ++ [58] ++ padded 2 (Z.rem absolute 60).

(** ** The file system *)
Abbreviation FS := (gmap wstr str).

(** The outcome of a [WriteFile]: [None] is failure, [Some n] that [n] bytes
    (all of them, if [n] is larger) were written. *)
Record LogIO := mkLogIO {
  io_open : nat → bool;           (* CreateFileW, the first, second and third *)
  io_size : bool;                 (* GetFileSizeEx *)
  io_delete : bool;               (* DeleteFileW of the backup *)
  io_rotate : bool;               (* MoveFileExW to the backup *)
  io_bom : nat → option nat;      (* WriteFile of the mark, after the n-th open *)
  io_read : bool;                 (* ReadFile *)
  io_legacy : bool;               (* MoveFileExW to the legacy name *)
  io_write : option nat;          (* WriteFile of the line *)
  io_pid : Z; io_tick : Z;        (* GetCurrentProcessId, GetTickCount *)
}.

(** [CreateFileW(..., OPEN_ALWAYS, ...)] *)
Definition CreateFile (ok : bool) (path : wstr) (fs : FS) : option FS :=
  if ok then Some (match fs !! path with Some _ => fs | None => <[path := []]> fs end) else None.

(** An appending [WriteFile]: the bytes written and the file system after. *)
Definition WriteFile (r : option nat) (path : wstr) (data : str) (fs : FS) : option nat * FS :=
  match r with
  | None => (None, fs)
  | Some n => let d := take n data in (Some (length d), <[path := default [] (fs !! path) ++ d]> fs)
  end.

Definition DeleteFile (ok : bool) (path : wstr) (fs : FS) : FS :=
  if ok then delete path fs else fs.

(** [MoveFileExW]: with [MOVEFILE_REPLACE_EXISTING] when [replace], otherwise
    it fails when the target is there. *)
Definition MoveFileEx (ok replace : bool) (src dst : wstr) (fs : FS) : option FS :=
  match fs !! src with
  | Some c => if ok && (replace || bool_decide (fs !! dst = None))
              then Some (<[dst := c]> (delete src fs)) else None
  | None => None
  end.

(** What the log needs of a file system. *)
Class FileSystem (F : Type) := {
  fs_create : bool → wstr → F → option F;
  fs_write : option nat → wstr → str → F → option nat * F;
  fs_delete : bool → wstr → F → F;
  fs_move : bool → bool → wstr → wstr → F → option F;
  fs_contents : wstr → F → option str }.

#[export] Instance plain_files : FileSystem FS := {|
  fs_create := CreateFile; fs_write := WriteFile; fs_delete := DeleteFile; fs_move := MoveFileEx;
  fs_contents := λ path fs, fs !! path |}.

Definition bom : str := [239; 187; 191].
Definition kMaxLogBytes : Z := 2 * 1024 * 1024.
Definition backup_of (path : wstr) : wstr := path ++ W ".1".
Definition legacy_of (path : wstr) (pid tick : Z) : wstr :=
  path ++ [46] ++ to_string (u32 pid) ++ [46] ++ to_string (u32 tick) ++ W ".legacy".

Definition has_bom (c : str) : bool := bool_decide (take 3 c = bom).

Section Append.
Context {F : Type} `{FileSystem F} (WideToUtf8 : wstr → str).

Definition WriteLogBom (r : option nat) (path : wstr) (fs : F) : bool * F :=
  let '(written, fs) := fs_write r path bom fs in
  (bool_decide (written = Some 3%nat), fs).

(** The rotation: the size the code goes on with and the file system, or
    [inr] when the code returns. *)
Definition rotate (io : LogIO) (path : wstr) (size : Z) (fs : F) : (Z * F) + F :=
  let fs := fs_delete (io_delete io) (backup_of path) fs in
  match fs_move (io_rotate io) true path (backup_of path) fs with
  | Some fs =>
    match fs_create (io_open io 1) path fs with
    | None => inr fs
    | Some fs =>
      let '(ok, fs) := WriteLogBom (io_bom io 1) path fs in
      if ok then inl (3, fs) else inr fs
    end
  | None =>
    match fs_create (io_open io 1) path fs with
    | None => inr fs
    | Some fs => inl (size, fs)
    end
  end.

(** The mark at the head of the file. *)
Definition ensure_bom (io : LogIO) (path : wstr) (size : Z) (fs : F) : F + F :=
  if size =? 0 then
    let '(ok, fs) := WriteLogBom (io_bom io 0) path fs in if ok then inl fs else inr fs
  else
    if negb (io_read io) then inr fs else
    if has_bom (default [] (fs_contents path fs)) then inl fs else
    match fs_move (io_legacy io) false path (legacy_of path (io_pid io) (io_tick io)) fs with
    | None => inr fs
    | Some fs =>
      match fs_create (io_open io 2) path fs with
      | None => inr fs
      | Some fs =>
        let '(ok, fs) := WriteLogBom (io_bom io 2) path fs in if ok then inl fs else inr fs
      end
    end.

(** [required <= 0] is an empty conversion. *)
Definition AppendUtf8LogLine (io : LogIO) (path line : wstr) (fs : F) : F :=
  match fs_create (io_open io 0) path fs with
  | None => fs
  | Some fs =>
    if negb (io_size io) then fs else
    let size := Z.of_nat (length (default [] (fs_contents path fs))) in
    let utf8 := WideToUtf8 (c_str line) in
    let required := Z.of_nat (length utf8) in
    if required <=? 0 then fs else
    match (if kMaxLogBytes <? size + required then rotate io path size fs else inl (size, fs)) with
    | inr fs => fs
    | inl (size, fs) =>
      match ensure_bom io path size fs with
      | inr fs => fs
      | inl fs => (fs_write (io_write io) path utf8 fs).2
      end
    end
  end.

End Append.

(** ** Specification vocabulary *)

(** Every call succeeds. *)
Definition io_ok (io : LogIO) : Prop :=
  (∀ n, io_open io n = true) ∧ io_size io = true ∧ io_rotate io = true ∧
  (∀ n, ∃ k, io_bom io n = Some k ∧ (3 <= k)%nat) ∧ io_read io = true ∧
  (∃ k, io_write io = Some k ∧ kMaxLogBytes <= Z.of_nat k).

Section Lines.
Context (WideToUtf8 : wstr → str).

(** A log: the byte order mark and whole lines, within the limit. *)
Definition log_of (lines : list wstr) : str := bom ++ mbind (λ l, WideToUtf8 (c_str l)) lines.
Definition small_log (c : str) : Prop := Z.of_nat (length c) <= kMaxLogBytes.

(** The line does not fit behind [c]. *)
Definition full (c : str) (line : wstr) : Prop :=
  kMaxLogBytes < Z.of_nat (length c) + Z.of_nat (length (WideToUtf8 (c_str line))).

(** Lines one after the other. *)
Definition run_lines (path : wstr) (calls : list (LogIO * wstr)) (fs : FS) : FS :=
  foldl (λ fs '(io, line), AppendUtf8LogLine WideToUtf8 io path line fs) fs calls.
End Lines.

(** [c] was not overwritten: it is at the head of the log, or in the backup or
    the legacy file. *)
Definition kept (io : LogIO) (path : wstr) (c : str) (fs : FS) : Prop :=
  (∃ r, fs !! path = Some (c ++ r)) ∨ fs !! backup_of path = Some c ∨
  fs !! legacy_of path (io_pid io) (io_tick io) = Some c.

(** ** Lemmas *)

(** The operations on a map of paths. *)
Ltac plain := cbn [fs_create fs_write fs_delete fs_move fs_contents plain_files].

Lemma app_ne_self (p r : list Z) : r ≠ [] → p ++ r ≠ p.
Proof. intros Hr H. rewrite <- (app_nil_r p) in H at 2. by apply app_inv_head in H. Qed.

Lemma backup_ne path : backup_of path ≠ path.
Proof. by apply app_ne_self. Qed.

Lemma legacy_ne path pid tick : legacy_of path pid tick ≠ path.
Proof. by apply app_ne_self. Qed.

Lemma legacy_ne_backup path pid tick : legacy_of path pid tick ≠ backup_of path.
Proof.
  unfold legacy_of, backup_of. intros H%app_inv_head%(f_equal length).
  rewrite !length_app in H. change (length (W ".1")) with 2%nat in H.
  change (length (W ".legacy")) with 7%nat in H. cbn [length] in H. lia.
Qed.

Create HintDb logfile.
#[export] Hint Resolve backup_ne legacy_ne legacy_ne_backup not_eq_sym : logfile.

(** What each call does to a file [q]. *)
Lemma CreateFile_lookup ok p fs fs' q :
  CreateFile ok p fs = Some fs' →
  fs' !! q = if decide (q = p) then Some (default [] (fs !! p)) else fs !! q.
Proof.
  unfold CreateFile. destruct ok; [|done]. intros [= <-].
  destruct (decide (q = p)) as [->|]; destruct (fs !! p) eqn:E; simpl;
    by rewrite ?lookup_insert_eq, ?lookup_insert_ne.
Qed.

Lemma WriteFile_lookup_ne r p d fs q : q ≠ p → (WriteFile r p d fs).2 !! q = fs !! q.
Proof. intros. destruct r; simpl; by rewrite ?lookup_insert_ne. Qed.

Lemma WriteFile_lookup r p d fs c :
  fs !! p = Some c → ∃ d', (WriteFile r p d fs).2 !! p = Some (c ++ d').
Proof.
  intros E. destruct r as [n|]; simpl; [|exists []; by rewrite app_nil_r].
  exists (take n d). by rewrite lookup_insert_eq, E.
Qed.

Lemma WriteFile_all k p d fs c :
  fs !! p = Some c → (length d <= k)%nat →
  WriteFile (Some k) p d fs = (Some (length d), <[p := c ++ d]> fs).
Proof. intros E Hk. unfold WriteFile. by rewrite E, take_ge. Qed.

Lemma WriteLogBom_snd r p fs : (WriteLogBom r p fs).2 = (WriteFile r p bom fs).2.
Proof. unfold WriteLogBom. plain. by destruct (WriteFile r p bom fs). Qed.

Lemma WriteLogBom_all r k p fs c :
  r = Some k → (3 <= k)%nat → fs !! p = Some c →
  WriteLogBom r p fs = (true, <[p := c ++ bom]> fs).
Proof. intros -> Hk E. unfold WriteLogBom. plain. by rewrite (WriteFile_all _ _ _ _ c) by done. Qed.

Lemma MoveFileEx_lookup ok rep src dst fs fs' c :
  MoveFileEx ok rep src dst fs = Some fs' → fs !! src = Some c →
  fs' = <[dst := c]> (delete src fs).
Proof. unfold MoveFileEx. intros H E. rewrite E in H. by destruct (_ && _); simplify_eq. Qed.

(** ** What every call keeps *)
Section Preserves.
Context {F : Type} `{FileSystem F} (I : F → Prop) (io : LogIO) (path : wstr).
Context (Hcreate : ∀ ok fs fs', I fs → fs_create ok path fs = Some fs' → I fs').
Context (Hwrite : ∀ r d fs, I fs → I (fs_write r path d fs).2).
Context (Hdelete : ∀ ok fs, I fs → I (fs_delete ok (backup_of path) fs)).
Context (Hmove : ∀ ok rep dst fs fs', dst = backup_of path ∨ dst = legacy_of path (io_pid io) (io_tick io) →
  I fs → fs_move ok rep path dst fs = Some fs' → I fs').

Lemma WriteLogBom_preserves r fs : I fs → I (WriteLogBom r path fs).2.
Proof using Hwrite. intros HI. pose proof (Hwrite r bom fs HI) as H'. unfold WriteLogBom. by destruct (fs_write _ _ _ _). Qed.

Lemma rotate_preserves size fs : I fs → match rotate io path size fs with inl (_, fs') | inr fs' => I fs' end.
Proof using Hcreate Hwrite Hdelete Hmove.
  intros HI. unfold rotate. cbv zeta. specialize (Hdelete (io_delete io) fs HI).
  destruct (fs_move _ _ _ _ _) as [fs1|] eqn:Em.
  - assert (I1 : I fs1) by eauto. destruct (fs_create _ _ fs1) as [fs2|] eqn:Ec; [|done].
    pose proof (WriteLogBom_preserves (io_bom io 1) fs2 ltac:(eauto)) as I2. by destruct (WriteLogBom _ _ _) as [[] fs3].
  - destruct (fs_create _ _ _) as [fs2|] eqn:Ec; [|done]. eauto.
Qed.

Lemma ensure_bom_preserves size fs : I fs → match ensure_bom io path size fs with inl fs' | inr fs' => I fs' end.
Proof using Hcreate Hwrite Hmove.
  intros HI. unfold ensure_bom. destruct (size =? 0).
  { pose proof (WriteLogBom_preserves (io_bom io 0) fs HI) as I2. by destruct (WriteLogBom _ _ _) as [[] fs3]. }
  destruct (io_read io); [|done]. cbn [negb]. destruct (has_bom _); [done|].
  destruct (fs_move _ _ _ _ _) as [fs1|] eqn:Em; [|done]. assert (I1 : I fs1) by eauto.
  destruct (fs_create _ _ fs1) as [fs2|] eqn:Ec; [|done].
  pose proof (WriteLogBom_preserves (io_bom io 2) fs2 ltac:(eauto)) as I2. by destruct (WriteLogBom _ _ _) as [[] fs3].
Qed.

(** What opening, appending, deleting the backup and renaming the log keep, a line keeps. *)
Lemma AppendUtf8LogLine_preserves conv line fs : I fs → I (AppendUtf8LogLine conv io path line fs).
Proof using Hcreate Hwrite Hdelete Hmove.
  intros HI. unfold AppendUtf8LogLine. destruct (fs_create _ _ fs) as [fs1|] eqn:Ec; [|done].
  assert (I1 : I fs1) by eauto. destruct (io_size io); [|done]. cbn [negb]. cbv zeta. destruct (_ <=? 0); [done|].
  set (size := Z.of_nat (length (default [] _))).
  assert (I2 : match (if kMaxLogBytes <? size + Z.of_nat (length (conv (c_str line))) then rotate io path size fs1 else inl (size, fs1))
    with inl (_, fs') | inr fs' => I fs' end).
  { destruct (_ <? _); [by apply rotate_preserves|done]. }
  destruct (if kMaxLogBytes <? _ then _ else _) as [[sz fs2]|fs2]; [|done].
  pose proof (ensure_bom_preserves sz fs2 I2) as I3. destruct (ensure_bom _ _ _ _); auto.
Qed.
End Preserves.

(** ** Nothing is overwritten *)
Section Kept.
Context (io : LogIO) (path : wstr) (c : str).

(** [kept] before the line itself is written. *)
Let at_rest (fs : FS) : Prop :=
  fs !! path = Some c ∨ fs !! backup_of path = Some c ∨
  fs !! legacy_of path (io_pid io) (io_tick io) = Some c.

Lemma kept_write r d fs : kept io path c fs → kept io path c (WriteFile r path d fs).2.
Proof.
  intros [[e E]|[E|E]].
  - left. destruct (WriteFile_lookup r path d fs _ E) as [d' E']. exists (e ++ d').
    by rewrite E', app_assoc.
  - right; left. rewrite WriteFile_lookup_ne; auto with logfile.
  - right; right. rewrite WriteFile_lookup_ne; auto with logfile.
Qed.

Lemma at_rest_kept fs : at_rest fs → kept io path c fs.
Proof. intros [E|E]; [left; exists []; by rewrite app_nil_r|by right]. Qed.

Lemma kept_create ok fs fs' : CreateFile ok path fs = Some fs' → kept io path c fs → kept io path c fs'.
Proof.
  intros H. unfold kept. rewrite !(CreateFile_lookup _ _ _ _ _ H).
  rewrite (decide_True (P := path = path)), !decide_False by auto with logfile.
  intros [[e E]|?]; [left; exists e; by rewrite E|by right].
Qed.

Lemma rotate_kept size fs :
  fs !! path = Some c →
  match rotate io path size fs with inl (_, fs') => at_rest fs' | inr fs' => kept io path c fs' end.
Proof.
  intros E. unfold rotate. plain.
  assert (Ed : DeleteFile (io_delete io) (backup_of path) fs !! path = Some c).
  { unfold DeleteFile. destruct (io_delete io); [|done].
    rewrite lookup_delete_ne; auto with logfile. }
  destruct (MoveFileEx _ _ _ _ _) as [fs1|] eqn:Em.
  - pose proof (MoveFileEx_lookup _ _ _ _ _ _ _ Em Ed) as ->.
    destruct (CreateFile _ _ _) as [fs2|] eqn:Ec.
    + assert (E2 : fs2 !! backup_of path = Some c).
      { rewrite (CreateFile_lookup _ _ _ _ _ Ec), decide_False by auto with logfile.
        by rewrite lookup_insert_eq. }
      destruct (WriteLogBom _ _ _) as [b fs3] eqn:Eb.
      assert (E3 : fs3 !! backup_of path = Some c).
      { apply (f_equal snd) in Eb. rewrite WriteLogBom_snd in Eb. simpl in Eb. subst fs3.
        rewrite WriteFile_lookup_ne; auto with logfile. }
      destruct b; unfold at_rest, kept; auto.
    + unfold kept. rewrite lookup_insert_eq. auto.
  - destruct (CreateFile _ _ _) as [fs2|] eqn:Ec.
    + left. by rewrite (CreateFile_lookup _ _ _ _ _ Ec), decide_True, Ed by done.
    + left. exists []. by rewrite app_nil_r.
Qed.

Lemma ensure_bom_kept size fs :
  at_rest fs →
  match ensure_bom io path size fs with inl fs' => kept io path c fs' | inr fs' => kept io path c fs' end.
Proof.
  intros H. pose proof (at_rest_kept _ H) as Hk. unfold ensure_bom. plain.
  assert (Hb : ∀ n fs, kept io path c fs →
    match (let '(ok, fs) := WriteLogBom (io_bom io n) path fs in if ok then inl fs else inr fs)
    with inl fs' => kept io path c fs' | inr fs' => kept io path c fs' end).
  { intros n fs1 Hk1. pose proof (kept_write (io_bom io n) bom fs1 Hk1) as Hw.
    rewrite <- WriteLogBom_snd in Hw. by destruct (WriteLogBom _ _ _) as [[] ?]. }
  destruct (size =? 0); [by apply Hb|].
  destruct (io_read io); [|done]. destruct (has_bom _); [done|].
  destruct (MoveFileEx _ _ _ _ _) as [fs1|] eqn:Em; [|done].
  assert (Hk1 : kept io path c fs1).
  { unfold MoveFileEx in Em. destruct (fs !! path) as [d|] eqn:Ep; [|done].
    destruct (io_legacy io); simplify_eq/=. case_bool_decide; simplify_eq/=.
    destruct H as [E|[E|E]]; [| |congruence].
    - right; right. rewrite Ep in E. injection E as ->. by rewrite lookup_insert_eq.
    - right; left. rewrite lookup_insert_ne, lookup_delete_ne; auto with logfile. }
  destruct (CreateFile _ _ _) as [fs2|] eqn:Ec; [|done]. apply Hb. by eapply kept_create.
Qed.

Lemma AppendUtf8LogLine_kept conv line fs :
  fs !! path = Some c → kept io path c (AppendUtf8LogLine conv io path line fs).
Proof.
  intros E. unfold AppendUtf8LogLine. plain. cbv zeta.
  destruct (CreateFile _ _ _) as [fs1|] eqn:Ec; [|apply at_rest_kept; by left].
  assert (E1 : fs1 !! path = Some c) by
    by rewrite (CreateFile_lookup _ _ _ _ _ Ec), decide_True, E.
  destruct (io_size io); [|apply at_rest_kept; by left].
  destruct (_ <=? 0); [apply at_rest_kept; by left|]. cbn [negb].
  set (size := Z.of_nat _).
  set (next := if kMaxLogBytes <? _ then _ else _).
  assert (Hn : match next with inl (_, fs') => at_rest fs' | inr fs' => kept io path c fs' end).
  { unfold next. destruct (_ <? _); [by apply rotate_kept|by left]. }
  destruct next as [[n fs2]|fs2]; [|done].
  pose proof (ensure_bom_kept n fs2 Hn) as Hb.
  destruct (ensure_bom _ _ _ _); [by apply kept_write|done].
Qed.
End Kept.

(** ** When every call succeeds *)
Lemma log_of_snoc conv lines line :
  log_of conv (lines ++ [line]) = log_of conv lines ++ conv (c_str line).
Proof. unfold log_of. rewrite bind_app, app_assoc. f_equal. apply app_nil_r. Qed.

Lemma has_bom_log conv lines : has_bom (log_of conv lines) = true.
Proof. apply bool_decide_eq_true. unfold log_of. by rewrite take_app_length'. Qed.

Lemma CreateFile_there p fs c : fs !! p = Some c → CreateFile true p fs = Some fs.
Proof. intros E. unfold CreateFile. by rewrite E. Qed.

Lemma rotate_ok io path size fs c :
  io_ok io → fs !! path = Some c →
  ∃ fs', rotate io path size fs = inl (3, fs') ∧ fs' !! path = Some bom ∧
    fs' !! backup_of path = Some c.
Proof.
  intros (Ho & _ & Hr & Hb & _) E. unfold rotate. plain.
  assert (Ed : DeleteFile (io_delete io) (backup_of path) fs !! path = Some c).
  { unfold DeleteFile. destruct (io_delete io); [|done]. rewrite lookup_delete_ne; auto with logfile. }
  unfold MoveFileEx. rewrite Ed, Hr. cbn [andb orb]. unfold CreateFile. rewrite Ho.
  rewrite lookup_insert_ne, lookup_delete_eq by auto with logfile.
  destruct (Hb 1%nat) as (k & Hk & Hk3).
  rewrite (WriteLogBom_all _ k _ _ [] Hk Hk3) by apply lookup_insert_eq. cbn [app].
  eexists. split; [done|]. rewrite lookup_insert_eq. split; [done|].
  rewrite lookup_insert_ne by auto with logfile.
  rewrite lookup_insert_ne by auto with logfile. by rewrite lookup_insert_eq.
Qed.

Lemma ensure_bom_ok io path size fs c :
  io_ok io → fs !! path = Some c → has_bom c = true → size ≠ 0 →
  ensure_bom io path size fs = inl fs.
Proof.
  intros (_ & _ & _ & _ & Hrd & _) E Hb Hs. unfold ensure_bom. plain.
  destruct (Z.eqb_spec size 0); [done|]. rewrite Hrd, E. change (default [] (Some c)) with c. by rewrite Hb.
Qed.

Lemma ensure_bom_new io path fs :
  io_ok io → fs !! path = Some [] → ensure_bom io path 0 fs = inl (<[path := bom]> fs).
Proof.
  intros (_ & _ & _ & Hb & _) E. unfold ensure_bom. plain. cbn [Z.eqb].
  destruct (Hb 0%nat) as (k & Hk & Hk3). by rewrite (WriteLogBom_all _ k _ _ [] Hk Hk3).
Qed.

Lemma write_line_ok io path fs c d :
  io_ok io → fs !! path = Some c → Z.of_nat (length d) <= kMaxLogBytes →
  (WriteFile (io_write io) path d fs).2 = <[path := c ++ d]> fs.
Proof.
  intros (_ & _ & _ & _ & _ & k & -> & Hk) E Hd. rewrite (WriteFile_all _ _ _ _ c); [done..|lia].
Qed.

Section Ok.
Context (conv : wstr → str) (io : LogIO) (path line : wstr).
Let utf8 := conv (c_str line).
Context (Hio : io_ok io) (Hne : utf8 ≠ []) (Hsmall : Z.of_nat (length utf8) + 3 <= kMaxLogBytes).

Lemma append_eq fs fs1 c :
  CreateFile true path fs = Some fs1 → fs1 !! path = Some c →
  AppendUtf8LogLine conv io path line fs =
  match (if kMaxLogBytes <? Z.of_nat (length c) + Z.of_nat (length utf8)
         then rotate io path (Z.of_nat (length c)) fs1 else inl (Z.of_nat (length c), fs1)) with
  | inr fs => fs
  | inl (size, fs) =>
    match ensure_bom io path size fs with
    | inr fs => fs
    | inl fs => (WriteFile (io_write io) path utf8 fs).2
    end
  end.
Proof using Hio Hne Hsmall.
  intros Ec E. pose proof Hio as (Ho & Hs & _). unfold AppendUtf8LogLine. plain.
  rewrite Ho, Ec, Hs, E. change (default [] (Some c)) with c. cbn [negb]. cbv zeta. fold utf8.
  assert (0 < length utf8)%nat by (destruct utf8; simpl; [done|lia]).
  destruct (Z.leb_spec (Z.of_nat (length utf8)) 0); [lia|done].
Qed.

Lemma append_absent fs :
  fs !! path = None →
  AppendUtf8LogLine conv io path line fs !! path = Some (bom ++ utf8).
Proof using Hio Hne Hsmall.
  intros E. rewrite (append_eq fs (<[path := []]> fs) []); cycle 1.
  { unfold CreateFile. by rewrite E. }
  { apply lookup_insert_eq. }
  destruct (Z.ltb_spec kMaxLogBytes (Z.of_nat (length (@nil Z)) + Z.of_nat (length utf8))).
  { change (Z.of_nat (length (@nil Z))) with 0 in *. lia. }
  change (Z.of_nat (length (@nil Z))) with 0.
  rewrite ensure_bom_new by (done || apply lookup_insert_eq).
  rewrite (write_line_ok _ _ _ bom) by (done || apply lookup_insert_eq || lia).
  apply lookup_insert_eq.
Qed.

Lemma append_fits fs c :
  fs !! path = Some c → has_bom c = true →
  Z.of_nat (length c) + Z.of_nat (length utf8) <= kMaxLogBytes →
  AppendUtf8LogLine conv io path line fs = <[path := c ++ utf8]> fs.
Proof using Hio Hne Hsmall.
  intros E Hb Hl. rewrite (append_eq fs fs c) by (done || by apply CreateFile_there with c).
  destruct (Z.ltb_spec kMaxLogBytes (Z.of_nat (length c) + Z.of_nat (length utf8))); [lia|].
  rewrite (ensure_bom_ok _ _ _ _ c) by (done || by destruct c).
  by rewrite (write_line_ok _ _ _ c) by (done || lia).
Qed.

Lemma append_rotates fs c :
  fs !! path = Some c → 
  kMaxLogBytes < Z.of_nat (length c) + Z.of_nat (length utf8) →
  AppendUtf8LogLine conv io path line fs !! path = Some (bom ++ utf8) ∧
  AppendUtf8LogLine conv io path line fs !! backup_of path = Some c.
Proof using Hio Hne Hsmall.
  intros E Hl. rewrite (append_eq fs fs c) by (done || by apply CreateFile_there with c).
  destruct (Z.ltb_spec kMaxLogBytes (Z.of_nat (length c) + Z.of_nat (length utf8))); [|lia].
  destruct (rotate_ok io path (Z.of_nat (length c)) fs c Hio E) as (fs2 & -> & E2 & Eb).
  rewrite (ensure_bom_ok _ _ _ _ bom) by done.
  rewrite (write_line_ok _ _ _ bom) by (done || lia).
  rewrite lookup_insert_eq, lookup_insert_ne; auto with logfile.
Qed.
End Ok.

(** ** What becomes of the backup *)
Section Backup.
Context (io : LogIO) (path : wstr).

Lemma rotate_backup size fs c :
  fs !! path = Some c →
  match rotate io path size fs with inl (_, fs') | inr fs' =>
    fs' !! backup_of path = fs !! backup_of path ∨ fs' !! backup_of path = Some c ∨ fs' !! backup_of path = None end.
Proof.
  intros E. unfold rotate. plain.
  assert (Ed : DeleteFile (io_delete io) (backup_of path) fs !! path = Some c).
  { unfold DeleteFile. destruct (io_delete io); [|done]. rewrite lookup_delete_ne; auto with logfile. }
  assert (Eb : DeleteFile (io_delete io) (backup_of path) fs !! backup_of path = fs !! backup_of path ∨
    DeleteFile (io_delete io) (backup_of path) fs !! backup_of path = None).
  { unfold DeleteFile. destruct (io_delete io); [right; apply lookup_delete_eq|by left]. }
  destruct (MoveFileEx _ _ _ _ _) as [fs1|] eqn:Em.
  - pose proof (MoveFileEx_lookup _ _ _ _ _ _ _ Em Ed) as ->.
    destruct (CreateFile _ _ _) as [fs2|] eqn:Ec; [|right; left; apply lookup_insert_eq].
    assert (E2 : fs2 !! backup_of path = Some c).
    { rewrite (CreateFile_lookup _ _ _ _ _ Ec), decide_False by auto with logfile. apply lookup_insert_eq. }
    pose proof (WriteLogBom_snd (io_bom io 1) path fs2) as Hw. destruct (WriteLogBom _ _ _) as [b fs3]. cbn [snd] in Hw.
    subst fs3. destruct b; right; left; rewrite WriteFile_lookup_ne; auto with logfile.
  - destruct (CreateFile _ _ _) as [fs2|] eqn:Ec; [|tauto].
    rewrite (CreateFile_lookup _ _ _ _ _ Ec), decide_False by auto with logfile. tauto.
Qed.

Lemma ensure_bom_backup size fs :
  match ensure_bom io path size fs with inl fs' | inr fs' => fs' !! backup_of path = fs !! backup_of path end.
Proof.
  assert (Hb : ∀ n fs, match (let '(ok, fs) := WriteLogBom (io_bom io n) path fs in if ok then inl fs else inr fs) : FS + FS
    with inl fs' | inr fs' => fs' !! backup_of path = fs !! backup_of path end).
  { intros n fs1. pose proof (WriteLogBom_snd (io_bom io n) path fs1) as Hw. destruct (WriteLogBom _ _ _) as [[] fs2];
      cbn [snd] in Hw; subst fs2; apply WriteFile_lookup_ne; auto with logfile. }
  unfold ensure_bom. plain. destruct (size =? 0); [apply Hb|]. destruct (io_read io); [|done]. cbn [negb].
  destruct (has_bom _); [done|]. destruct (MoveFileEx _ _ _ _ _) as [fs1|] eqn:Em; [|done].
  assert (E1 : fs1 !! backup_of path = fs !! backup_of path).
  { unfold MoveFileEx in Em. destruct (fs !! path); [|done]. destruct (_ && _); simplify_eq.
    rewrite lookup_insert_ne, lookup_delete_ne; auto with logfile. }
  destruct (CreateFile _ _ _) as [fs2|] eqn:Ec; [|done].
  assert (E2 : fs2 !! backup_of path = fs !! backup_of path).
  { rewrite (CreateFile_lookup _ _ _ _ _ Ec), decide_False by auto with logfile. done. }
  pose proof (Hb 2%nat fs2) as H. destruct (let '(ok, fs) := _ in _) as [fs3|fs3] in H |- *; congruence.
Qed.

(** The backup goes only when the log is full: the log takes its place, or, if it
    cannot be renamed, nothing does. *)
Lemma AppendUtf8LogLine_backup conv line fs :
  let fs' := AppendUtf8LogLine conv io path line fs in
  let c := default [] (fs !! path) in
  fs' !! backup_of path = fs !! backup_of path ∨
  full conv c line ∧ (fs' !! backup_of path = Some c ∨ fs' !! backup_of path = None).
Proof.
  cbv zeta. unfold AppendUtf8LogLine. plain. cbv zeta.
  destruct (CreateFile _ _ _) as [fs1|] eqn:Ec; [|by left].
  assert (E1 : fs1 !! path = Some (default [] (fs !! path))) by by rewrite (CreateFile_lookup _ _ _ _ _ Ec), decide_True.
  assert (E2 : fs1 !! backup_of path = fs !! backup_of path)
    by (rewrite (CreateFile_lookup _ _ _ _ _ Ec), decide_False by auto with logfile; done).
  destruct (io_size io); [|by left]. cbn [negb]. destruct (_ <=? 0); [by left|].
  rewrite E1. set (c := default [] (fs !! path)). change (default [] (Some c)) with c.
  set (next := if kMaxLogBytes <? _ then _ else _).
  assert (Hn : match next with inl (_, fs') | inr fs' =>
    fs' !! backup_of path = fs !! backup_of path ∨
    full conv c line ∧ (fs' !! backup_of path = Some c ∨ fs' !! backup_of path = None) end).
  { unfold next. destruct (Z.ltb_spec kMaxLogBytes (Z.of_nat (length c) + Z.of_nat (length (conv (c_str line)))));
      [|by left].
    pose proof (rotate_backup (Z.of_nat (length c)) fs1 c E1) as Hr. rewrite E2 in Hr.
    destruct (rotate _ _ _ _) as [[n fs2]|fs2]; (destruct Hr as [?|[?|?]]; [by left|right; by auto..]). }
  destruct next as [[n fs2]|fs2]; [|exact Hn].
  pose proof (ensure_bom_backup n fs2) as Hb. destruct (ensure_bom _ _ _ _) as [fs3|fs3].
  - rewrite WriteFile_lookup_ne by auto with logfile. by rewrite Hb.
  - by rewrite Hb.
Qed.

(** The rename fails after the backup has been deleted. *)
Lemma AppendUtf8LogLine_unrotated conv line fs c :
  fs !! path = Some c → full conv c line → conv (c_str line) ≠ [] →
  io_open io 0 = true → io_size io = true → io_delete io = true → io_rotate io = false →
  AppendUtf8LogLine conv io path line fs !! backup_of path = None.
Proof.
  intros E Hf Hne Ho Hs Hd Hr. unfold AppendUtf8LogLine. plain. rewrite Ho, (CreateFile_there _ _ _ E), Hs. cbn [negb]. cbv zeta.
  rewrite E. change (default [] (Some c)) with c. unfold full in Hf.
  destruct (Z.leb_spec (Z.of_nat (length (conv (c_str line)))) 0); [by destruct (conv (c_str line))|].
  destruct (Z.ltb_spec kMaxLogBytes (Z.of_nat (length c) + Z.of_nat (length (conv (c_str line))))); [|lia].
  unfold rotate. plain. rewrite Hd, Hr. cbn [DeleteFile]. unfold MoveFileEx.
  rewrite lookup_delete_ne, E by auto with logfile. cbn [andb].
  destruct (CreateFile _ _ _) as [fs1|] eqn:Ec; [|apply lookup_delete_eq].
  assert (E1 : fs1 !! backup_of path = None).
  { rewrite (CreateFile_lookup _ _ _ _ _ Ec), decide_False by auto with logfile. apply lookup_delete_eq. }
  pose proof (ensure_bom_backup (Z.of_nat (length c)) fs1) as Hb. destruct (ensure_bom _ _ _ _) as [fs3|fs3]; [|by rewrite Hb].
  rewrite WriteFile_lookup_ne by auto with logfile. by rewrite Hb.
Qed.
End Backup.

(** ** The theorem *)

(** A line that can be logged. *)
Definition loggable (conv : wstr → str) (line : wstr) : Prop :=
  conv (c_str line) ≠ [] ∧ Z.of_nat (length (conv (c_str line))) + 3 <= kMaxLogBytes.

(** The log holds the lines [new], and the backup [old], or nothing has been rotated
    yet and the backup [was] what it is. *)
Definition holds (conv : wstr → str) (path : wstr) (was : option str) (lines : list wstr) (fs : FS) : Prop :=
  ∃ lost old new, lines = lost ++ old ++ new ∧
    (fs !! path = Some (log_of conv new) ∨ fs !! path = None ∧ new = []) ∧
    (lost = [] ∧ old = [] ∧ fs !! backup_of path = was ∨
     new ≠ [] ∧ fs !! backup_of path = Some (log_of conv old) ∧ ¬ small_log (log_of conv (old ++ take 1 new))).

Lemma holds_step conv path was io line lines fs :
  io_ok io → loggable conv line → holds conv path was lines fs →
  let fs' := AppendUtf8LogLine conv io path line fs in
  holds conv path was (lines ++ [line]) fs' ∧ ∃ c, fs' !! path = Some c ∧ small_log c.
Proof.
  intros Hio [Hne Hsmall] (lost & old & new & -> & Hp & Hb). cbv zeta.
  assert (Hfresh : small_log (log_of conv ([] ++ [line]))).
  { unfold small_log. rewrite log_of_snoc, length_app. change (length (log_of conv [])) with 3%nat. lia. }
  assert (Hgrow : new ≠ [] → take 1 (new ++ [line]) = take 1 new) by by destruct new.
  destruct Hp as [E|[E ->]].
  - destruct (decide (small_log (log_of conv (new ++ [line])))) as [Hs|Hs]; cycle 1.
    + pose proof Hs as Hl. unfold small_log in Hl. rewrite log_of_snoc, length_app in Hl.
      destruct (append_rotates conv io path line Hio Hne Hsmall fs _ E) as [E1 E2]; [lia|]. split.
      * exists (lost ++ old), new, [line]. split; [by rewrite <- !app_assoc|]. split; [left; rewrite E1; symmetry; f_equal; apply (log_of_snoc conv [])|].
        by right.
      * eexists. split; [exact E1|]. change (small_log (log_of conv [] ++ conv (c_str line))). by rewrite <- log_of_snoc.
    + pose proof Hs as Hl. unfold small_log in Hl. rewrite log_of_snoc, length_app in Hl.
      assert (Ef : AppendUtf8LogLine conv io path line fs = <[path := log_of conv new ++ conv (c_str line)]> fs)
        by (apply append_fits; [done..|apply has_bom_log|lia]).
      rewrite Ef, <- log_of_snoc. split; [|eexists; split; [apply lookup_insert_eq|done]].
      exists lost, old, (new ++ [line]). split; [by rewrite <- !app_assoc|]. split; [left; apply lookup_insert_eq|].
      rewrite lookup_insert_ne by auto with logfile.
      destruct Hb as [Hb|(Hn & Hb1 & Hb2)]; [by left|right]. split; [by destruct new|]. by rewrite Hgrow.
  - assert (E1 : AppendUtf8LogLine conv io path line fs !! path = Some (log_of conv ([] ++ [line]))) by (rewrite log_of_snoc; by apply append_absent).
    split; [|by eexists]. exists lost, old, [line]. split; [by rewrite app_nil_r, <- app_assoc|]. split; [by left|].
    destruct Hb as [(-> & -> & Hb)|(? & _)]; [left|done]. split; [done|]. split; [done|]. rewrite <- Hb.
    destruct (AppendUtf8LogLine_backup io path conv line fs) as [->|(Hf & _)]; [done|]. exfalso.
    rewrite E in Hf. unfold full in Hf. change (length (default [] (@None str))) with 0%nat in Hf. lia.
Qed.

(** C36: Over any number of lines on a log of whole lines, as long as nothing fails, log and
    backup together end with the newest lines, in their order and whole, the log within
    2 MB; what is lost are only lines older than a full backup (the backup could not
    have taken one more line), because every rotation drops the backup before. And
    whatever fails, one call does no more harm than this: what was in the log is
    at the head of the log, in the backup or in the legacy file; and the backup is what
    it was, unless the line no longer fitted the log: then it is the log, or, where
    the rename fails after the backup has been deleted (as it then always does),
    nothing. *)
Theorem AppendUtf8LogLine_log conv path :
  (∀ calls lines fs,
    Forall (λ call, io_ok call.1 ∧ loggable conv call.2) calls → calls ≠ [] →
    (fs !! path = None ∧ lines = [] ∨ fs !! path = Some (log_of conv lines)) →
    let fs' := run_lines conv path calls fs in
    holds conv path (fs !! backup_of path) (lines ++ map snd calls) fs' ∧ ∃ c, fs' !! path = Some c ∧ small_log c) ∧
  (∀ io line fs,
    let fs' := AppendUtf8LogLine conv io path line fs in
    (∀ c, fs !! path = Some c → kept io path c fs') ∧
    (fs' !! backup_of path = fs !! backup_of path ∨
     ∃ c, full conv c line ∧ c = default [] (fs !! path) ∧ (fs' !! backup_of path = Some c ∨ fs' !! backup_of path = None)) ∧
    (∀ c, fs !! path = Some c → full conv c line → conv (c_str line) ≠ [] →
      io_open io 0 = true → io_size io = true → io_delete io = true → io_rotate io = false →
      fs' !! backup_of path = None)).
Proof.
  split.
  - intros calls lines fs Hcalls Hne Hold. cbv zeta.
    assert (Hstart : holds conv path (fs !! backup_of path) lines fs).
    { exists [], [], lines. split; [done|]. split; [tauto|by left]. }
    induction calls as [|[io line] calls IH] using rev_ind; [done|].
    apply Forall_app in Hcalls as [Hcalls [[Hio Hl] _]%Forall_cons]. unfold run_lines. rewrite foldl_snoc, map_app, app_assoc.
    apply holds_step; [done..|]. destruct calls as [|call calls]; [by rewrite app_nil_r|]. by apply IH.
  - intros io line fs. split; [intros; by apply AppendUtf8LogLine_kept|]. split.
    + destruct (AppendUtf8LogLine_backup io path conv line fs) as [?|[? ?]]; [by left|right; by eexists].
    + intros c. apply AppendUtf8LogLine_unrotated.
Qed.

(** A machine on which nothing fails. *)
Definition io_fine : LogIO :=
  let all := Some (Z.to_nat kMaxLogBytes) in
  mkLogIO (λ _, true) true true true (λ _, all) true true all 7 9.

Lemma io_fine_ok : io_ok io_fine.
Proof.
  assert (kMaxLogBytes = 2097152) as E by done.
  split_and!; try done; [intros n|]; exists (Z.to_nat kMaxLogBytes); split; try done; lia.
Qed.

Lemma io_fine_loggable calls :
  Forall (λ line, loggable id line) calls → Forall (λ call, io_ok call.1 ∧ loggable id call.2) (map (λ l, (io_fine, l)) calls).
Proof. rewrite Forall_map. intros H. apply (Forall_impl _ _ _ H). intros line Hl. split; [apply io_fine_ok|exact Hl]. Qed.

(** Two short lines; and a line that a full log whose rename fails does not take. *)
Definition io_stuck : LogIO := mkLogIO (λ _, true) true true false (λ _, Some 3%nat) true true None 7 9.
Definition stuck_line : wstr := replicate (Z.to_nat kMaxLogBytes) 120.
Definition stuck_fs : FS := {[ W "service.log" := bom; backup_of (W "service.log") := B "old" ]}.

Lemma AppendUtf8LogLine_log_witness :
  holds id (W "service.log") None [W "one"; W "two"]
    (run_lines id (W "service.log") [(io_fine, W "one"); (io_fine, W "two")] ∅) ∧
  AppendUtf8LogLine id io_stuck (W "service.log") stuck_line stuck_fs !! backup_of (W "service.log") = None.
Proof.
  assert (Hs : Z.of_nat (length stuck_line) = kMaxLogBytes).
  { unfold stuck_line. rewrite length_replicate. apply Z2Nat.id. by vm_compute. }
  assert (Hc : c_str stuck_line = stuck_line).
  { unfold stuck_line. generalize (Z.to_nat kMaxLogBytes). intros n. induction n as [|n IH]; [done|]. cbn. by rewrite IH. }
  split.
  - refine (proj1 (proj1 (AppendUtf8LogLine_log id (W "service.log"))
      [(io_fine, W "one"); (io_fine, W "two")] [] ∅ _ _ (or_introl (conj eq_refl eq_refl)))); [|done].
    apply (io_fine_loggable [W "one"; W "two"]). repeat constructor; by vm_compute.
  - apply (proj2 (AppendUtf8LogLine_log id (W "service.log")) io_stuck stuck_line stuck_fs) with bom;
      [by vm_compute|unfold full; rewrite Hc; unfold id; rewrite Hs; change (length bom) with 3%nat; lia| |done..].
    rewrite Hc. unfold id. intros H. rewrite H in Hs. by vm_compute in Hs.
Defined.

(** ** Length of a time stamp *)

(** What [GetLocalTime] and [GetTimeZoneInformation] give. *)
Definition valid_time (st : SystemTime) (tz : TimeZone) : Prop :=
  0 <= wYear st < 100000 ∧ 0 <= wMonth st < 100 ∧ 0 <= wDay st < 100 ∧ 0 <= wHour st < 100 ∧
  0 <= wMinute st < 100 ∧ 0 <= wSecond st < 100 ∧ 0 <= wMilliseconds st < 1000 ∧
  - 5000 < tz_Bias tz < 5000 ∧ - 900 < tz_DaylightBias tz < 900.

Lemma padded_length (w v : nat) z :
  0 <= z < 10 ^ Z.of_nat v → (1 <= w <= v)%nat → (length (padded w z) <= v)%nat.
Proof.
  intros Hz Hw. pose proof (to_string_length v z Hz ltac:(lia)). unfold padded.
  rewrite length_app, length_replicate. lia.
Qed.

(** The time stamp and its terminator fit in 32 code units. *)
Lemma FormatLogTimestamp_fits st tz :
  valid_time st tz → (length (FormatLogTimestamp st tz) < 32)%nat.
Proof.
  intros (Hy & Hmo & Hd & Hh & Hmi & Hs & Hms & Hb & Hdb).
  unfold FormatLogTimestamp. cbv zeta.
  set (bias := if tz_daylight tz then _ else _).
  assert (Hbias : - 6000 < bias < 6000).
  { unfold bias. destruct (tz_daylight tz); [|lia]. rewrite i32_small by lia. lia. }
  rewrite (i32_small (- bias)) by lia. set (offset := - bias).
  set (absolute := if 0 <=? offset then offset else _).
  assert (Ha : 0 <= absolute < 6000).
  { unfold absolute. destruct (Z.leb_spec 0 offset); [lia|]. rewrite i32_small by lia. lia. }
  assert (H1 : 0 <= Z.quot absolute 60 < 100).
  { rewrite Z.quot_div_nonneg by lia. split; [apply Z.div_pos; lia|apply Z.div_lt_upper_bound; lia]. }
  assert (H2 : 0 <= Z.rem absolute 60 < 100).
  { rewrite Z.rem_mod_nonneg by lia. pose proof (Z.mod_pos_bound absolute 60). lia. }
  pose proof (padded_length 4 5 (wYear st) Hy ltac:(lia)). pose proof (padded_length 2 2 (wMonth st) Hmo ltac:(lia)).
  pose proof (padded_length 2 2 (wDay st) Hd ltac:(lia)). pose proof (padded_length 2 2 (wHour st) Hh ltac:(lia)).
  pose proof (padded_length 2 2 (wMinute st) Hmi ltac:(lia)). pose proof (padded_length 2 2 (wSecond st) Hs ltac:(lia)).
  pose proof (padded_length 3 3 (wMilliseconds st) Hms ltac:(lia)).
  pose proof (padded_length 2 2 _ H1 ltac:(lia)). pose proof (padded_length 2 2 _ H2 ltac:(lia)).
  rewrite !length_app. cbn [length]. lia.
Qed.
