(* ===== verification/ProviderFiles.v ===== *)
(** * The provider's files

    [windows/credential_provider/common.h]: the log [cp.log], which SYSTEM writes
    only to a directory it has made SYSTEM's, and the ticket file of the single sign-on, which
    replaces the old one in one step. What Windows answers is an argument; paths
    fit in [MAX_PATH]. The log is kept on a volume with hard links and junctions,
    which the theorem follows. The end of [Credential] has the ticket as an event; here is
    the file. *)
From S2P Require Import Prelude Text LogFile.

(** ** The volume *)

(** The names of files, several for one file where there are hard links; the files
    with their descriptors and bytes; directories with their descriptors, and the
    names of directories that are junctions, with what they stand for. *)
Record Volume := mkVolume {
  names : gmap wstr nat; nodes : gmap nat (wstr * str);
  folders : gmap wstr wstr; junctions : gmap wstr wstr }.

#[export] Instance eta_Volume : Settable Volume := λ v, mkVolume (names v) (nodes v) (folders v) (junctions v).

Definition parent_of (path : wstr) : wstr :=
  match find_last_of path [92] with Some i => take i path | None => [] end.

(** [CreateFileW] with [OPEN_ALWAYS]; a new file gets [sd], or what its directory hands down. *)
Definition open_always (sd : option wstr) (ok : bool) (path : wstr) (v : Volume) : option Volume :=
  if negb ok then None else
  match names v !! path with
  | Some _ => Some v
  | None =>
    let i := fresh (dom (nodes v)) in
    let sd := default (default [] (folders v !! parent_of path)) sd in
    Some (v <| names := <[path := i]> (names v) |> <| nodes := <[i := (sd, [])]> (nodes v) |>)
  end.

(** An append changes the file, under all its names. *)
Definition append (r : option nat) (path : wstr) (data : str) (v : Volume) : option nat * Volume :=
  match r, names v !! path with
  | Some n, Some i =>
    let d := take n data in (Some (length d), v <| nodes := alter (λ f, (f.1, f.2 ++ d)) i (nodes v) |>)
  | _, _ => (None, v)
  end.

Definition rename (ok replace : bool) (src dst : wstr) (v : Volume) : option Volume :=
  match names v !! src with
  | Some i => if ok && (replace || bool_decide (names v !! dst = None))
              then Some (v <| names := <[dst := i]> (delete src (names v)) |>) else None
  | None => None
  end.

(** A path, with its descriptor and bytes. *)
Definition file_at (v : Volume) (path : wstr) : option (wstr * str) := i ← names v !! path; nodes v !! i.

#[export] Instance volume_files : FileSystem Volume := {|
  fs_create := open_always None; fs_write := append;
  fs_delete := λ ok path v, if ok then v <| names := delete path (names v) |> else v;
  fs_move := rename; fs_contents := λ path v, snd <$> file_at v path |}.

(** Where a directory is. *)
Definition real (v : Volume) (dir : wstr) : wstr := default dir (junctions v !! dir).
Definition located (v : Volume) (path : wstr) : wstr :=
  real v (parent_of path) ++ drop (length (parent_of path)) path.

(** [CreateDirectoryW] *)
Definition create_folder (ok : bool) (sd : option wstr) (dir : wstr) (v : Volume) : Volume :=
  if ok && bool_decide (folders v !! dir = None) && bool_decide (junctions v !! dir = None)
  then v <| folders := <[dir := default (default [] (folders v !! parent_of dir)) sd]> (folders v) |> else v.

(** ** The log *)

(** One call of [enforceSystemAcl]: [GetSecurityDescriptorDacl],
    [AllocateAndInitializeSid] and the status of [SetNamedSecurityInfoW]. *)
Record AclReply := mkAclReply { ar_dacl : bool; ar_sid : bool; ar_status : Z }.

Record CpIO := mkCpIO {
  ci_sd : bool;                        (* ConvertStringSecurityDescriptor... *)
  ci_folder : option wstr;             (* CSIDL_COMMON_APPDATA *)
  ci_mkdir : bool;                     (* CreateDirectoryW, when there is none *)
  ci_dir_acl : AclReply;               (* of the directory *)
  ci_reparse : bool;                   (* cp.log is a reparse point *)
  ci_open : bool;                      (* CreateFileW *)
  ci_file_acl : AclReply;              (* of the file *)
  ci_log : LogIO }.

(** The statics of [LogCPFileLine]; [s_sa] is the descriptor, once converted. *)
Record CpLog := mkCpLog { s_path : wstr; s_disabled : bool; s_sa : option bool }.

#[export] Instance eta_CpLog : Settable CpLog := λ s, mkCpLog (s_path s) (s_disabled s) (s_sa s).

Definition enforceSystemAcl (descriptor : bool) (a : AclReply) : bool :=
  if negb descriptor then false else
  if negb (ar_dacl a) then false else
  if negb (ar_sid a) then false else
  ar_status a =? 0.

Definition system_sddl : wstr := W "D:P(A;OICI;FA;;;SY)(A;OICI;FA;;;BA)".

(** What it does to a directory, which must be there, and to a file. *)
Definition enforce_folder (descriptor : bool) (a : AclReply) (dir : wstr) (v : Volume) : bool * Volume :=
  if enforceSystemAcl descriptor a && bool_decide (is_Some (folders v !! dir))
  then (true, v <| folders := <[dir := system_sddl]> (folders v) |>) else (false, v).

Definition enforce_file (descriptor : bool) (a : AclReply) (path : wstr) (v : Volume) : Volume :=
  match names v !! path with
  | Some i => if enforceSystemAcl descriptor a
              then v <| nodes := alter (λ f, (system_sddl, f.2)) i (nodes v) |> else v
  | None => v
  end.

Section Log.
Context (WideToUtf8 : wstr → str).

Definition cp_dir (folder : wstr) : wstr := folder ++ W "\Ligament".
Definition cp_log (folder : wstr) : wstr := cp_dir folder ++ W "\cp.log".

(** The second half of [LogCPFileLine], when the path is known. *)
Definition cp_write (io : CpIO) (descriptor : bool) (line : wstr) (c : CpLog) (v : Volume) : CpLog * Volume :=
  if ci_reparse io then (c <| s_disabled := true |>, v) else
  let path := located v (s_path c) in
  match open_always (if descriptor then Some system_sddl else None) (ci_open io) path v with
  | None => (c, v)
  | Some v =>
    let v := enforce_file descriptor (ci_file_acl io) path v in
    (c, AppendUtf8LogLine WideToUtf8 (ci_log io) path line v)
  end.

Definition LogCPFileLine (io : CpIO) (line : wstr) (c : CpLog) (v : Volume) : CpLog * Volume :=
  if s_disabled c then (c, v) else
  let descriptor := default (ci_sd io) (s_sa c) in
  let c := c <| s_sa := Some descriptor |> in
  if bool_decide (s_path c = []) then
    match ci_folder io with
    | None => (c <| s_disabled := true |>, v)
    | Some folder =>
      let v := create_folder (ci_mkdir io) (if descriptor then Some system_sddl else None) (cp_dir folder) v in
      let '(ours, v) := enforce_folder descriptor (ci_dir_acl io) (real v (cp_dir folder)) v in
      if negb ours then (c <| s_disabled := true |>, v)
      else cp_write io descriptor line (c <| s_path := cp_log folder |>) v
    end
  else cp_write io descriptor line c v.

Definition level_text (l : LogLevel) : wstr :=
  match l with INFO => W "INFO" | WARN => W "WARN" | ERROR => W "ERROR" end.

(** [line], a buffer of 1200. *)
Definition debug_line (stamp : wstr) (tid : Z) (body : wstr) : wstr :=
  [91] ++ stamp ++ W " tid=" ++ to_string (u32 tid) ++ W "] level=" ++ level_text (InferCPLogLevel (Some body)) ++
  W " comp=cp " ++ body ++ [13; 10].

(** [_vsnwprintf_s] into 1024 code units, truncating. *)
Definition truncated (text : wstr) : wstr := take 1023 text.

Definition LogDebug (io : CpIO) (st : SystemTime) (tz : TimeZone) (tid : Z) (text : wstr) (c : CpLog) (v : Volume)
    : CpLog * Volume :=
  LogCPFileLine io (debug_line (FormatLogTimestamp st tz) tid (truncated text)) c v.

Definition CPLog (io : CpIO) (st : SystemTime) (tz : TimeZone) (tid : Z) (text : wstr) (c : CpLog) (v : Volume)
    : CpLog * Volume :=
  LogDebug io st tz tid (truncated text) c v.

(** A process writes lines one after the other. *)
Definition run_log (calls : list (CpIO * wstr)) (st : CpLog * Volume) : CpLog * Volume :=
  foldl (λ st '(io, line), LogCPFileLine io line st.1 st.2) st calls.

Definition fresh_log : CpLog := mkCpLog [] false None.
End Log.

(** ** The ticket *)

(** Directories with their security descriptors, files with theirs. *)
Record Disk := mkDisk { dirs : gmap wstr wstr; disk_files : gmap wstr (wstr * str) }.

#[export] Instance eta_Disk : Settable Disk := λ d, mkDisk (dirs d) (disk_files d).

Record SsoEnv := mkSsoEnv {
  se_sid : wstr → option wstr;         (* LookupAccountNameW, ConvertSidToStringSidW *)
  se_folder : option wstr;             (* CSIDL_COMMON_APPDATA *)
  se_sddl : bool;                      (* ConvertStringSecurityDescriptor... *)
  se_mkdir : bool; se_create : bool;   (* CreateDirectoryW, CreateFileW *)
  se_write : bool * nat;               (* WriteFile: result and bytes written *)
  se_delete : bool; se_move : bool }.  (* DeleteFileW, MoveFileExW *)

Definition account_of (domain user : wstr) : wstr :=
  if bool_decide (domain = []) || bool_decide (domain = W ".") then user else domain ++ [92] ++ user.

Definition sso_dir (folder sid : wstr) : wstr := folder ++ W "\Ligament\sso\" ++ sid.
Definition sso_sddl (sid : wstr) : wstr := W "D:P(A;OICI;FA;;;SY)(A;OICI;FA;;;BA)(A;;FR;;;" ++ sid ++ W ")".

(** [CreateDirectoryW]: the parent must be there and the directory not. *)
Definition CreateDirectory (ok : bool) (path sddl : wstr) (d : Disk) : Disk :=
  if ok && bool_decide (is_Some (dirs d !! parent_of path)) && bool_decide (dirs d !! path = None)
  then d <| dirs := <[path := sddl]> (dirs d) |> else d.

(** [CreateFileW] with [CREATE_ALWAYS]: a file that is there keeps its descriptor. *)
Definition CreateAlways (ok : bool) (path sddl : wstr) (d : Disk) : option Disk :=
  if ok && bool_decide (is_Some (dirs d !! parent_of path))
  then Some (d <| disk_files :=
    <[path := (match disk_files d !! path with Some (acl, _) => acl | None => sddl end, [])]> (disk_files d) |>)
  else None.

Definition write_file (path : wstr) (data : str) (d : Disk) : Disk :=
  d <| disk_files := alter (λ f, (f.1, f.2 ++ data)) path (disk_files d) |>.

Definition delete_file (ok : bool) (path : wstr) (d : Disk) : Disk :=
  if ok then d <| disk_files := delete path (disk_files d) |> else d.

(** [MoveFileExW] with [MOVEFILE_REPLACE_EXISTING]. *)
Definition move_file (ok : bool) (src dst : wstr) (d : Disk) : option Disk :=
  match disk_files d !! src with
  | Some f => if ok then Some (d <| disk_files := <[dst := f]> (delete src (disk_files d)) |>) else None
  | None => None
  end.

(** The third part, from [WriteFile] on: the result, and the states of the disk,
    the first one first. *)
Definition write_and_move (e : SsoEnv) (tmp dst : wstr) (ticketUtf8 : str) (d : Disk) : bool * list Disk :=
  let '(ok, n) := se_write e in
  let written := take n ticketUtf8 in
  let d' := write_file tmp written d in
  if negb ok || negb (length written =? length ticketUtf8)%nat
  then (false, [d; d'; delete_file (se_delete e) tmp d'])
  else match move_file (se_move e) tmp dst d' with
       | None => (false, [d; d'; delete_file (se_delete e) tmp d'])
       | Some d'' => (true, [d; d'; d''])
       end.

Definition WriteSsoTicketFile (e : SsoEnv) (domain user : wstr) (ticketUtf8 : str) (d : Disk) : bool * list Disk :=
  if bool_decide (user = []) || bool_decide (ticketUtf8 = []) then (false, [d]) else
  match se_sid e (account_of domain user), se_folder e with
  | Some sid, Some folder =>
    if bool_decide (sid = []) || negb (se_sddl e) then (false, [d]) else
    let dir := sso_dir folder sid in
    let tmp := dir ++ W "\sso.bin.tmp" in
    let dst := dir ++ W "\sso.bin" in
    let d1 := CreateDirectory (se_mkdir e) dir (sso_sddl sid) d in
    match CreateAlways (se_create e) tmp (sso_sddl sid) d1 with
    | None => (false, [d; d1])
    | Some d2 => let '(ok, steps) := write_and_move e tmp dst ticketUtf8 d2 in (ok, d :: d1 :: steps)
    end
  | _, _ => (false, [d])
  end.

Lemma find_last_ch (l r : wstr) : 92 ∉ r → find_last_of (l ++ 92 :: r) [92] = Some (length l).
Proof.
  intros Hr. unfold find_last_of. apply find_last_if_app; [|done].
  apply Forall_forall. intros c Hc. unfold one_of. apply bool_decide_eq_false_2. set_solver.
Qed.

Lemma parent_of_leaf dir leaf : 92 ∉ leaf → parent_of (dir ++ 92 :: leaf) = dir.
Proof. intros H. unfold parent_of. by rewrite find_last_ch, take_app_length. Qed.

(** ** What a log line touches *)

(** The log with its backup and the names its legacy files get. *)
Definition log_files (path q : wstr) : Prop :=
  q = path ∨ q = backup_of path ∨ ∃ pid tick, q = legacy_of path pid tick.

(** Every name has its file. *)
Definition sound (v : Volume) : Prop := ∀ q i, names v !! q = Some i → is_Some (nodes v !! i).

(** Since [v0], the log at [path] has changed only its own names and its own files:
    those that are new, which are SYSTEM's, and the one that was there. *)
Record Confined (v0 : Volume) (home path : wstr) (v : Volume) : Prop := mkConfined {
  cf_names : ∀ q, ¬ log_files path q → names v !! q = names v0 !! q;
  cf_log : ∀ i, names v !! path = Some i → names v0 !! path = Some i ∨ nodes v0 !! i = None;
  cf_old : ∀ i, is_Some (nodes v0 !! i) → names v0 !! path ≠ Some i → nodes v !! i = nodes v0 !! i;
  cf_there : ∀ i, is_Some (nodes v0 !! i) → is_Some (nodes v !! i);
  cf_new : ∀ i f, nodes v0 !! i = None → nodes v !! i = Some f → f.1 = system_sddl;
  cf_home : folders v !! home = Some system_sddl;
  cf_folders : ∀ f, f ≠ home → folders v !! f = folders v0 !! f;
  cf_junctions : junctions v = junctions v0 }.

Section Confined.
Context (v0 : Volume) (home path : wstr).
Hypothesis Hparent : parent_of path = home.

Lemma open_confined sd ok v v' :
  sd = Some system_sddl ∨ sd = None → Confined v0 home path v → open_always sd ok path v = Some v' → Confined v0 home path v'.
Proof using Hparent.
  intros Hsd H. unfold open_always. destruct ok; [|done]. cbn [negb]. destruct (names v !! path) eqn:En; [by intros [= <-]|].
  intros [= <-]. set (i := fresh (dom (nodes v))).
  assert (Hi : nodes v !! i = None) by (apply not_elem_of_dom, is_fresh).
  assert (Hi0 : nodes v0 !! i = None).
  { destruct (nodes v0 !! i) eqn:E; [|done]. destruct (cf_there _ _ _ _ H i) as [? ?]; [by rewrite E|congruence]. }
  destruct H as [H1 H2 H3 H4 H5 H6 H7 H8]. split; cbn; [| | | | |done..].
  - intros q Hq. rewrite lookup_insert_ne; [by apply H1|]. intros <-. apply Hq. by left.
  - intros j. rewrite lookup_insert_eq. intros [= <-]. by right.
  - intros j Hj Hn. rewrite lookup_insert_ne; [by apply H3|]. intros <-. by destruct Hj; congruence.
  - intros j Hj. destruct (decide (i = j)) as [<-|]; [by rewrite lookup_insert_eq|]. rewrite lookup_insert_ne by done. by apply H4.
  - intros j f Hj. destruct (decide (i = j)) as [<-|]; [|rewrite lookup_insert_ne by done; by apply H5].
    rewrite lookup_insert_eq. intros [= <-]. cbn. rewrite Hparent, H6. by destruct Hsd as [->| ->].
Qed.

(** A change to the file of the log. *)
Lemma alter_confined v i g :
  names v !! path = Some i → (∀ f, nodes v0 !! i = None → f.1 = system_sddl → (g f).1 = system_sddl) →
  Confined v0 home path v → Confined v0 home path (v <| nodes := alter g i (nodes v) |>).
Proof.
  intros Hi Hg [H1 H2 H3 H4 H5 H6 H7 H8]. split; cbn; [done|done| | | |done..].
  - intros j Hj Hn. rewrite lookup_alter_ne; [by apply H3|]. intros <-.
    destruct (H2 i Hi) as [?|E]; [done|]. by destruct Hj; congruence.
  - intros j Hj. apply H4 in Hj as [f E]. destruct (decide (i = j)) as [<-|]; [by rewrite lookup_alter_eq, E|].
    by rewrite lookup_alter_ne, E.
  - intros j f Hj. destruct (decide (i = j)) as [<-|]; [|rewrite lookup_alter_ne by done; by apply H5].
    rewrite lookup_alter_eq. destruct (nodes v !! i) as [f0|] eqn:E; [|done]. intros [= <-]. apply Hg; [done|]. by eapply H5.
Qed.

Lemma enforce_confined d a v : Confined v0 home path v → Confined v0 home path (enforce_file d a path v).
Proof.
  intros H. unfold enforce_file. destruct (names v !! path) as [i|] eqn:Ei; [|done]. destruct (enforceSystemAcl d a); [|done].
  by apply alter_confined.
Qed.

Lemma append_confined r d v : Confined v0 home path v → Confined v0 home path (append r path d v).2.
Proof.
  intros H. unfold append. destruct r as [n|]; [|done]. destruct (names v !! path) as [i|] eqn:Ei; [|done].
  by apply alter_confined.
Qed.

Lemma delete_confined ok v :
  Confined v0 home path v → Confined v0 home path (if ok : bool then v <| names := delete (backup_of path) (names v) |> else v).
Proof.
  intros H. destruct ok; [|done]. destruct H as [H1 H2 H3 H4 H5 H6 H7 H8]. split; cbn; [| |done..].
  - intros q Hq. rewrite lookup_delete_ne; [by apply H1|]. intros <-. apply Hq. right; by left.
  - intros i. rewrite lookup_delete_ne by auto with logfile. apply H2.
Qed.

Lemma rename_confined ok rep dst v v' :
  (dst = backup_of path ∨ ∃ pid tick, dst = legacy_of path pid tick) →
  Confined v0 home path v → rename ok rep path dst v = Some v' → Confined v0 home path v'.
Proof.
  intros Hd H. unfold rename. destruct (names v !! path) as [i|] eqn:Ei; [|done]. destruct (_ && _); [|done]. intros [= <-].
  assert (Hne : dst ≠ path) by (destruct Hd as [->|(? & ? & ->)]; auto with logfile).
  destruct H as [H1 H2 H3 H4 H5 H6 H7 H8]. split; cbn; [| |done..].
  - intros q Hq. rewrite lookup_insert_ne, lookup_delete_ne; [by apply H1|..]; intros <-; apply Hq; [by left|].
    right. by destruct Hd; [left|right].
  - intros j. by rewrite lookup_insert_ne, lookup_delete_eq.
Qed.

Lemma append_line_confined conv io line v :
  Confined v0 home path v → Confined v0 home path (AppendUtf8LogLine conv io path line v).
Proof using Hparent.
  apply AppendUtf8LogLine_preserves.
  - intros ok v1 v2 H E. exact (open_confined None ok v1 v2 (or_intror eq_refl) H E).
  - intros r d v1. apply append_confined.
  - intros ok v1. apply (delete_confined ok).
  - intros ok rep dst v1 v2 Hd H E. apply (rename_confined ok rep dst v1 v2); [naive_solver|done..].
Qed.
End Confined.

(** *** The first line and the next ones *)
Lemma located_log v folder : located v (cp_log folder) = real v (cp_dir folder) ++ W "\cp.log".
Proof.
  unfold located, cp_log. change (W "\cp.log") with (92 :: W "cp.log").
  rewrite parent_of_leaf by (apply (bool_decide_unpack _); vm_compute; reflexivity). by rewrite drop_app_length.
Qed.

Lemma home_parent (home : wstr) : parent_of (home ++ W "\cp.log") = home.
Proof. change (W "\cp.log") with (92 :: W "cp.log"). apply parent_of_leaf, (bool_decide_unpack _). vm_compute. reflexivity. Qed.

Lemma cp_log_ne folder : cp_log folder ≠ [].
Proof. unfold cp_log. intros H%(f_equal length). rewrite !length_app in H. change (length (W "\cp.log")) with 7%nat in H. cbn in H. lia. Qed.

Section Run.
Context (conv : wstr → str) (v0 : Volume) (folder : wstr).
Let home := real v0 (cp_dir folder).
Let path := home ++ W "\cp.log".

Lemma cp_write_confined io d line c v :
  s_path c = cp_log folder → Confined v0 home path v →
  s_path (cp_write conv io d line c v).1 = cp_log folder ∧ Confined v0 home path (cp_write conv io d line c v).2.
Proof.
  intros Hp H. unfold cp_write. destruct (ci_reparse io); [done|]. rewrite Hp, located_log.
  unfold real. rewrite (cf_junctions _ _ _ _ H). fold (real v0 (cp_dir folder)). fold home. fold path.
  destruct (open_always _ _ _ _) as [v1|] eqn:Eo; [|done]. split; [done|]. cbn [snd].
  apply append_line_confined, enforce_confined; [apply home_parent|].
  eapply open_confined; [apply home_parent| |done|exact Eo]. destruct d; auto.
Qed.

Lemma next_line io line c v :
  s_path c = cp_log folder → Confined v0 home path v →
  s_path (LogCPFileLine conv io line c v).1 = cp_log folder ∧ Confined v0 home path (LogCPFileLine conv io line c v).2.
Proof.
  intros Hp H. unfold LogCPFileLine. destruct (s_disabled c); [done|]. cbv zeta.
  rewrite bool_decide_eq_false_2; [by apply cp_write_confined|]. cbn. rewrite Hp. apply cp_log_ne.
Qed.

(** The state after any line: the log is off and its directory no more than made, or
    the directory is SYSTEM's and the rest confined. *)
Definition owned (io : CpIO) (st : CpLog * Volume) : Prop :=
  s_disabled st.1 = true ∧ (st.2 = v0 ∨ ∃ sd, st.2 = v0 <| folders := <[cp_dir folder := sd]> (folders v0) |> ∧ folders v0 !! cp_dir folder = None) ∨
  enforceSystemAcl (ci_sd io) (ci_dir_acl io) = true ∧ s_path st.1 = cp_log folder ∧ Confined v0 home path st.2.

Lemma create_folder_same ok sd v : create_folder ok sd (cp_dir folder) v = v ∨
  folders v !! cp_dir folder = None ∧ junctions v !! cp_dir folder = None ∧
  ∃ s, create_folder ok sd (cp_dir folder) v = v <| folders := <[cp_dir folder := s]> (folders v) |>.
Proof.
  unfold create_folder. destruct ok; [|by left]. case_bool_decide as E1; [|by left]. case_bool_decide as E2; [|by left].
  right. split; [done|]. split; [done|]. by eexists.
Qed.

Lemma first_line io line : ci_folder io = Some folder → owned io (LogCPFileLine conv io line fresh_log v0).
Proof.
  intros Hf. unfold LogCPFileLine. cbn [fresh_log s_disabled s_sa s_path]. rewrite bool_decide_eq_true_2 by done.
  rewrite Hf. cbv zeta. cbn [default from_option]. change (default (ci_sd io) None) with (ci_sd io).
  set (v1 := create_folder _ _ _ v0).
  assert (Hv1 : names v1 = names v0 ∧ nodes v1 = nodes v0 ∧ junctions v1 = junctions v0 ∧ ∀ f, f ≠ home → folders v1 !! f = folders v0 !! f).
  { unfold v1. destruct (create_folder_same (ci_mkdir io) (if ci_sd io then Some system_sddl else None) v0) as [->|(Hn & Hj & s & ->)]; [done|].
    cbn. split_and!; [done..|]. intros f Hne. apply lookup_insert_ne. intros <-. apply Hne. unfold home, real. by rewrite Hj. }
  destruct Hv1 as (E1 & E2 & E3 & E4). assert (Eh : real v1 (cp_dir folder) = home) by (unfold real; by rewrite E3).
  unfold enforce_folder. rewrite Eh. destruct (enforceSystemAcl (ci_sd io) (ci_dir_acl io)) eqn:Ea; cycle 1.
  { left. split; [done|]. unfold v1. destruct (create_folder_same (ci_mkdir io) (if ci_sd io then Some system_sddl else None) v0)
      as [->|(Hn & _ & s & ->)]; [by left|right; by eexists]. }
  case_bool_decide; cbn [andb negb]; cycle 1.
  { left. split; [done|]. unfold v1. destruct (create_folder_same (ci_mkdir io) (if ci_sd io then Some system_sddl else None) v0)
      as [->|(Hn & _ & s & ->)]; [by left|right; by eexists]. }
  right. split; [done|]. apply cp_write_confined; [done|]. split; cbn.
  - intros. by rewrite E1.
  - intros i. rewrite E1. by left.
  - intros. by rewrite E2.
  - intros. by rewrite E2.
  - intros i f. rewrite E2. intros ->. done.
  - apply lookup_insert_eq.
  - intros f Hne. rewrite lookup_insert_ne by done. by apply E4.
  - done.
Qed.

Lemma run_disabled calls c v : s_disabled c = true → run_log conv calls (c, v) = (c, v).
Proof.
  intros Hd. induction calls as [|[io line] calls IH]; [done|]. cbn [run_log foldl fst snd].
  unfold LogCPFileLine. by rewrite Hd.
Qed.

Lemma run_owned io line calls :
  ci_folder io = Some folder → owned io (run_log conv ((io, line) :: calls) (fresh_log, v0)).
Proof.
  intros Hf. cbn [run_log foldl fst snd]. pose proof (first_line io line Hf) as H.
  destruct (LogCPFileLine conv io line fresh_log v0) as [c v]. fold (run_log conv calls (c, v)).
  destruct H as [[Hd H]|H]; [rewrite run_disabled by done; by left|]. right. revert c v H.
  induction calls as [|[io' line'] calls IH]; intros c v H; [done|]. cbn [run_log foldl fst snd].
  destruct H as (Ha & Hp & H). pose proof (next_line io' line' c v Hp H) as Hn.
  destruct (LogCPFileLine conv io' line' c v) as [c' v']. by apply IH.
Qed.
End Run.

Lemma run_log_app conv calls calls' st : run_log conv (calls ++ calls') st = run_log conv calls' (run_log conv calls st).
Proof. apply foldl_app. Qed.

(** A reparse point in the log's place switches the log off; no file changes. *)
Lemma line_reparse conv io line c v :
  ci_reparse io = true →
  let '(c', v') := LogCPFileLine conv io line c v in
  s_disabled c' = true ∧ names v' = names v ∧ nodes v' = nodes v.
Proof.
  intros Hr. unfold LogCPFileLine. destruct (s_disabled c) eqn:Hd; [done|]. cbv zeta.
  assert (Hw : ∀ d c v, cp_write conv io d line c v = (c <| s_disabled := true |>, v)) by (intros; unfold cp_write; by rewrite Hr).
  case_bool_decide; [|by rewrite Hw]. destruct (ci_folder io) as [folder|]; [|done].
  set (v1 := create_folder _ _ _ v).
  assert (E : names v1 = names v ∧ nodes v1 = nodes v) by (unfold v1, create_folder; by destruct (_ && _)).
  unfold enforce_folder. destruct (_ && _); cbn [negb]; [by rewrite Hw|done].
Qed.

(** C23: Over any run of a process, the log changes files only if its very first line found
    the directory and made it SYSTEM's; the directory then has SYSTEM's descriptor. All
    that changes is: the names of [cp.log], its backup and its legacy files in that
    directory; files that are new, which are SYSTEM's; the file that was at [cp.log];
    and the directory's descriptor. So every other path reads as before with the
    descriptor it had, unless it is another name of the file that was at [cp.log]: a
    hard link is written through. And the directory is wherever a junction of its
    name points to. A reparse point in the place of [cp.log] itself changes no file,
    and ends the log of the process. *)
Theorem cp_log_safe conv calls v :
  sound v →
  let '(c, v') := run_log conv calls (fresh_log, v) in
  (names v' ≠ names v ∨ nodes v' ≠ nodes v → ∃ io line rest folder,
    calls = (io, line) :: rest ∧ ci_folder io = Some folder ∧
    enforceSystemAcl (ci_sd io) (ci_dir_acl io) = true ∧ s_path c = cp_log folder ∧
    folders v' !! real v (cp_dir folder) = Some system_sddl) ∧
  (∀ io line rest folder, calls = (io, line) :: rest → ci_folder io = Some folder →
    let home := real v (cp_dir folder) in
    let path := home ++ W "\cp.log" in
    (∀ q, ¬ log_files path q → names v !! q = None ∨ names v !! q ≠ names v !! path → file_at v' q = file_at v q) ∧
    (∀ q f, file_at v' q = Some f → (∀ i, names v' !! q = Some i → nodes v !! i = None) → f.1 = system_sddl) ∧
    (∀ f, f ≠ home → f ≠ cp_dir folder → folders v' !! f = folders v !! f)) ∧
  (∀ pre io line post, calls = pre ++ (io, line) :: post → ci_reparse io = true →
    let before := (run_log conv pre (fresh_log, v)).2 in
    s_disabled c = true ∧ names v' = names before ∧ nodes v' = nodes before).
Proof.
  intros Hs. destruct (run_log conv calls (fresh_log, v)) as [c v'] eqn:E. split; [|split].
  - intros Hch. destruct calls as [|[io line] rest]; [injection E as <- <-; naive_solver|].
    destruct (ci_folder io) as [folder|] eqn:Hf; cycle 1.
    { exfalso. cbn [run_log foldl fst snd] in E. unfold LogCPFileLine in E. cbn [fresh_log s_disabled s_path] in E. cbv zeta in E.
      rewrite bool_decide_eq_true_2, Hf in E by done. fold (run_log conv rest) in E. 
      change (run_log conv rest (fresh_log <| s_sa := Some (ci_sd io) |> <| s_disabled := true |>, v) = (c, v')) in E.
      rewrite run_disabled in E by done. injection E as <- <-. naive_solver. }
    pose proof (run_owned conv v folder io line rest Hf) as H. rewrite E in H. unfold owned in H. cbn [fst snd] in H.
    destruct H as [(_ & [->|(sd & -> & _)])|(Ha & Hp & H)]; [naive_solver..|].
    exists io, line, rest, folder. split_and!; [done..|]. apply (cf_home _ _ _ _ H).
  - intros io line rest folder -> Hf home path. pose proof (run_owned conv v folder io line rest Hf) as H.
    rewrite E in H. unfold owned in H. cbn [fst snd] in H.
    destruct H as [(_ & [->|(sd & -> & _)])|(Ha & Hp & H)].
    + split; [done|]. split; [|done]. intros q f Hq Hn. unfold file_at in Hq. destruct (names v !! q) as [i|]; [|done].
      cbn in Hq. rewrite (Hn i) in Hq; done.
    + split; [done|]. split; [|intros f _ Hne; cbn; by apply lookup_insert_ne]. intros q f Hq Hn. unfold file_at in Hq. cbn in Hq, Hn.
      destruct (names v !! q) as [i|]; [|done]. cbn in Hq. rewrite (Hn i) in Hq; done.
    + fold home in H. fold path in H. split; [|split].
      * intros q Hq Hlink. unfold file_at. rewrite (cf_names _ _ _ _ H q Hq). destruct (names v !! q) as [i|] eqn:Ei; [|done]. cbn.
        apply (cf_old _ _ _ _ H); [by eapply Hs|]. intros Ep. rewrite Ep in Hlink. by destruct Hlink.
      * intros q f Hq Hn. unfold file_at in Hq. destruct (names v' !! q) as [i|] eqn:Ei; [|done]. cbn in Hq.
        apply (cf_new _ _ _ _ H i); [by apply Hn|done].
      * intros f Hne _. by apply (cf_folders _ _ _ _ H).
  - intros pre io line post -> Hr before. rewrite run_log_app in E. subst before.
    destruct (run_log conv pre (fresh_log, v)) as [c0 w]. cbn [run_log foldl fst snd] in E |- *.
    pose proof (line_reparse conv io line c0 w Hr) as H. destruct (LogCPFileLine conv io line c0 w) as [c1 w1].
    destruct H as (Hd & H). change (run_log conv post (c1, w1) = (c, v')) in E. rewrite run_disabled in E by done.
    by injection E as <- <-.
Qed.

(** ** The ticket *)
Definition final (steps : list Disk) (d : Disk) : Disk := default d (last steps).

(** The names of a ticket. *)
Definition sso_file (folder sid : wstr) : wstr := sso_dir folder sid ++ W "\sso.bin".
Definition sso_tmp (folder sid : wstr) : wstr := sso_dir folder sid ++ W "\sso.bin.tmp".

Lemma sso_names folder sid : sso_tmp folder sid ≠ sso_file folder sid.
Proof. unfold sso_tmp, sso_file. intros H%app_inv_head%(f_equal length). vm_compute in H. lia. Qed.

Lemma tmp_parent folder sid : parent_of (sso_tmp folder sid) = sso_dir folder sid.
Proof.
  unfold sso_tmp. change (W "\sso.bin.tmp") with (92 :: W "sso.bin.tmp"). apply parent_of_leaf.
  apply (bool_decide_unpack _). vm_compute. reflexivity.
Qed.

Lemma dir_parent folder sid : 92 ∉ sid → parent_of (sso_dir folder sid) = folder ++ W "\Ligament\sso".
Proof.
  intros H. unfold sso_dir. change (W "\Ligament\sso\" ++ sid) with (W "\Ligament\sso" ++ 92 :: sid).
  rewrite app_assoc. by apply parent_of_leaf.
Qed.

Lemma CreateDirectory_files ok path sddl d : disk_files (CreateDirectory ok path sddl d) = disk_files d.
Proof. unfold CreateDirectory. by destruct (_ && _). Qed.

(** A disk that differs from [d] in the temporary file only. *)
Definition only_tmp (tmp : wstr) (d x : Disk) : Prop :=
  ∀ q, q ≠ tmp → disk_files x !! q = disk_files d !! q.

Lemma CreateAlways_spec ok path sddl d x :
  CreateAlways ok path sddl d = Some x →
  only_tmp path d x ∧ ∃ acl, disk_files x !! path = Some (acl, []) ∧ (disk_files d !! path = None → acl = sddl) ∧
  is_Some (dirs d !! parent_of path).
Proof.
  unfold CreateAlways. destruct (ok && _) eqn:E; [|done]. intros [= <-].
  apply andb_true_iff in E as [_ E%bool_decide_eq_true]. split.
  - intros q Hq. cbn. by rewrite lookup_insert_ne.
  - cbn. rewrite lookup_insert_eq. destruct (disk_files d !! path) as [[acl c]|]; by eexists.
Qed.

Lemma write_file_spec path data d acl c :
  disk_files d !! path = Some (acl, c) →
  only_tmp path d (write_file path data d) ∧ disk_files (write_file path data d) !! path = Some (acl, c ++ data).
Proof.
  intros E. unfold write_file. split.
  - intros q Hq. cbn. by rewrite lookup_alter_ne.
  - cbn. by rewrite lookup_alter_eq, E.
Qed.

Lemma delete_file_spec ok path d :
  only_tmp path d (delete_file ok path d) ∧ (ok = true → disk_files (delete_file ok path d) !! path = None).
Proof.
  unfold delete_file, only_tmp. destruct ok; [|done]. split; cbn.
  - intros q Hq. by rewrite lookup_delete_ne.
  - intros _. by rewrite lookup_delete_eq.
Qed.

(** The ticket is the old one or the new one, and nothing else changed but the
    temporary file. *)
Definition ticket_kept (file tmp : wstr) (ticket : str) (d x : Disk) : Prop :=
  (disk_files x !! file = disk_files d !! file ∨ ∃ acl, disk_files x !! file = Some (acl, ticket)) ∧
  (∀ q, q ≠ file → q ≠ tmp → disk_files x !! q = disk_files d !! q).

Lemma only_tmp_kept file tmp ticket d x : tmp ≠ file → only_tmp tmp d x → ticket_kept file tmp ticket d x.
Proof. intros Hne H. split; [left; by apply H|]. intros q _ Hq. by apply H. Qed.

Lemma only_tmp_trans tmp d x y : only_tmp tmp d x → only_tmp tmp x y → only_tmp tmp d y.
Proof. intros H1 H2 q Hq. by rewrite H2, H1. Qed.

Lemma move_file_spec ok src dst d f x :
  disk_files d !! src = Some f → move_file ok src dst d = Some x →
  disk_files x = <[dst := f]> (delete src (disk_files d)).
Proof. unfold move_file. intros ->. destruct ok; [|done]. by intros [= <-]. Qed.

Ltac steps Hk :=
  repeat (apply Forall_cons; split; [try by apply Hk|]); try apply Forall_nil; try done.

(** From an empty temporary file on. *)
Lemma write_and_move_spec e tmp file ticket d d2 acl :
  tmp ≠ file → only_tmp tmp d d2 → disk_files d2 !! tmp = Some (acl, []) →
  let '(ok, steps) := write_and_move e tmp file ticket d2 in
  ∃ d', last steps = Some d' ∧ Forall (ticket_kept file tmp ticket d) steps ∧
  if ok then disk_files d' !! file = Some (acl, ticket) ∧ disk_files d' !! tmp = None
  else disk_files d' !! file = disk_files d !! file ∧ (se_delete e = true → disk_files d' !! tmp = None).
Proof.
  intros Hne H2 Htmp. unfold write_and_move. destruct (se_write e) as [ok n].
  destruct (write_file_spec tmp (take n ticket) d2 acl [] Htmp) as [H3 Hw].
  apply (only_tmp_trans tmp d d2) in H3; [|done]. set (d3 := write_file _ _ _) in *.
  pose proof (only_tmp_kept file tmp ticket d) as Hk.
  destruct (delete_file_spec (se_delete e) tmp d3) as [H4 Hdel]. apply (only_tmp_trans tmp d d3 _ H3) in H4.
  set (d4 := delete_file _ _ _) in *.
  assert (Hfail : ∃ d', last [d2; d3; d4] = Some d' ∧ Forall (ticket_kept file tmp ticket d) [d2; d3; d4] ∧
    disk_files d' !! file = disk_files d !! file ∧ (se_delete e = true → disk_files d' !! tmp = None)).
  { exists d4. split_and!; [done|steps Hk|by apply H4|done]. }
  destruct (negb ok || negb (length (take n ticket) =? length ticket)%nat) eqn:Ew; [exact Hfail|].
  destruct (move_file (se_move e) tmp file d3) as [d5|] eqn:E5; [|exact Hfail]. clear Hfail.
  apply orb_false_iff in Ew as [_ Ew%negb_false_iff%Nat.eqb_eq].
  rewrite length_take in Ew. rewrite take_ge in Hw by lia. cbn [app] in Hw.
  pose proof (move_file_spec _ _ _ _ _ _ Hw E5) as H5. exists d5. split; [done|]. split.
  - steps Hk. split; rewrite H5.
    + right. exists acl. by rewrite lookup_insert_eq.
    + intros q Hq1 Hq2. rewrite lookup_insert_ne, lookup_delete_ne by done. by apply H3.
  - rewrite H5, lookup_insert_eq, lookup_insert_ne, lookup_delete_eq; done.
Qed.

(** C22: whatever fails, the ticket file holds at every moment either what it held
    before or the whole new ticket, and no other file but the temporary one
    changes. Success means that the new ticket is in place and the temporary file
    is gone, with the descriptor for SYSTEM, the administrators and the user if
    there was no temporary file before; failure, that the old ticket is in place
    and, if it can be deleted, no temporary file is left behind. Without the
    directory [Ligament\sso] a user without a directory of his own gets no ticket. *)
Theorem WriteSsoTicketFile_atomic e domain user ticket d sid folder :
  se_sid e (account_of domain user) = Some sid → se_folder e = Some folder → 92 ∉ sid →
  let '(ok, steps) := WriteSsoTicketFile e domain user ticket d in
  let d' := final steps d in
  let file := sso_file folder sid in
  let tmp := sso_tmp folder sid in
  Forall (ticket_kept file tmp ticket d) steps ∧
  (ok = true →
    (∃ acl, disk_files d' !! file = Some (acl, ticket) ∧ (disk_files d !! tmp = None → acl = sso_sddl sid)) ∧
    disk_files d' !! tmp = None) ∧
  (ok = false →
    disk_files d' !! file = disk_files d !! file ∧
    (se_delete e = true → disk_files d' !! tmp = None ∨ disk_files d' !! tmp = disk_files d !! tmp)) ∧
  (dirs d !! (folder ++ W "\Ligament\sso") = None → dirs d !! sso_dir folder sid = None → ok = false).
Proof.
  intros Hsid Hfolder Hslash. unfold WriteSsoTicketFile. rewrite Hsid, Hfolder. cbv zeta.
  fold (sso_tmp folder sid) (sso_file folder sid).
  pose proof (tmp_parent folder sid) as Hpt. pose proof (dir_parent folder sid Hslash) as Hpd.
  pose proof (sso_names folder sid) as Hne.
  set (tmp := sso_tmp folder sid) in *. set (file := sso_file folder sid) in *.
  set (dir := sso_dir folder sid) in *.
  assert (Hd : only_tmp tmp d d) by done. pose proof (only_tmp_kept file tmp ticket d) as Hk.
  assert (Hkd : Forall (ticket_kept file tmp ticket d) [d]) by steps Hk.
  destruct (bool_decide (user = []) || bool_decide (ticket = [])); [split_and!; try done; auto|].
  destruct (bool_decide (sid = []) || negb (se_sddl e)); [split_and!; try done; auto|].
  set (d1 := CreateDirectory (se_mkdir e) dir (sso_sddl sid) d).
  assert (Hsame : disk_files d1 = disk_files d) by apply CreateDirectory_files.
  assert (H1 : only_tmp tmp d d1) by (intros q _; by rewrite Hsame).
  assert (Hdir : dirs d !! (folder ++ W "\Ligament\sso") = None → dirs d !! dir = None → dirs d1 !! dir = None).
  { intros Hp Hn. unfold d1, CreateDirectory. rewrite Hpd, Hp, andb_false_r. done. }
  destruct (CreateAlways (se_create e) tmp (sso_sddl sid) d1) as [d2|] eqn:E2; cycle 1.
  { split_and!; [steps Hk|done| |done]. intros _. cbn. rewrite Hsame. auto. }
  destruct (CreateAlways_spec _ _ _ _ _ E2) as (H2 & acl & Htmp & Hacl & Hparent). rewrite Hsame in Hacl.
  apply (only_tmp_trans tmp d d1 d2 H1) in H2.
  assert (Hnodir : dirs d !! (folder ++ W "\Ligament\sso") = None → dirs d !! dir = None → False).
  { intros Ha Hb. rewrite Hpt, (Hdir Ha Hb) in Hparent. by destruct Hparent. }
  pose proof (write_and_move_spec e tmp file ticket d d2 acl Hne H2 Htmp) as Hw.
  destruct (write_and_move e tmp file ticket d2) as [ok steps]. destruct Hw as (d' & Hlast & Hall & Hres).
  assert (Hfin : final (d :: d1 :: steps) d = d').
  { unfold final. destruct steps; [done|]. by rewrite !last_cons_cons, Hlast. }
  rewrite Hfin. split; [apply Forall_cons; split; [by apply Hk|]; apply Forall_cons; split; [by apply Hk|done]|].
  destruct ok; split_and!; intros; first [done|naive_solver].
Qed.

Definition demo_sid : wstr := W "S-1-5-21-7".
Definition demo_sso : SsoEnv :=
  mkSsoEnv (λ _, Some demo_sid) (Some (W "C:\ProgramData")) true true true (true, 100%nat) true true.
Definition demo_disk : Disk :=
  mkDisk {[ W "C:\ProgramData\Ligament\sso" := W "D:" ]} {[ W "C:\other" := (W "D:", B "x") ]}.

Lemma WriteSsoTicketFile_atomic_witness :
  let '(ok, steps) := WriteSsoTicketFile demo_sso (W "CORP") (W "ann") (B "ticket") demo_disk in
  ok = true ∧
  disk_files (final steps demo_disk) !! sso_file (W "C:\ProgramData") demo_sid =
    Some (sso_sddl demo_sid, B "ticket") ∧
  disk_files (final steps demo_disk) !! sso_tmp (W "C:\ProgramData") demo_sid = None ∧
  (WriteSsoTicketFile demo_sso (W "CORP") (W "ann") (B "ticket") (mkDisk ∅ ∅)).1 = false.
Proof.
  pose proof (WriteSsoTicketFile_atomic demo_sso (W "CORP") (W "ann") (B "ticket") demo_disk demo_sid
    (W "C:\ProgramData") eq_refl eq_refl ltac:(apply (bool_decide_unpack _); vm_compute; reflexivity)) as H.
  assert (Hok : (WriteSsoTicketFile demo_sso (W "CORP") (W "ann") (B "ticket") demo_disk).1 = true)
    by (vm_compute; reflexivity).
  assert (Hnone : (WriteSsoTicketFile demo_sso (W "CORP") (W "ann") (B "ticket") (mkDisk ∅ ∅)).1 = false)
    by (vm_compute; reflexivity).
  destruct (WriteSsoTicketFile demo_sso (W "CORP") (W "ann") (B "ticket") demo_disk) as [ok steps].
  cbn [fst] in Hok. subst ok. destruct H as (_ & H & _). destruct (H eq_refl) as [(acl & Hf & Ha) Ht].
  assert (Hacl : acl = sso_sddl demo_sid) by (apply Ha; vm_compute; reflexivity). subst acl.
  split; [reflexivity|]. split; [exact Hf|]. split; [exact Ht|exact Hnone].
Defined.

(** ** Buffers *)

(** The lines of [LogDebug] and [CPLog] never overrun: with the time a machine
    can have, the stamp fits its 32 code units and the line its 1200 (the [_s]
    functions would end LogonUI otherwise), however long the message is. *)
Theorem LogDebug_fits st tz tid text :
  valid_time st tz →
  (length (FormatLogTimestamp st tz) < 32)%nat ∧
  (length (debug_line (FormatLogTimestamp st tz) tid (truncated text)) < 1200)%nat ∧
  (∀ conv io c v, CPLog conv io st tz tid text c v = LogDebug conv io st tz tid text c v).
Proof.
  intros Ht. pose proof (FormatLogTimestamp_fits st tz Ht) as Hs. split; [done|]. split.
  - unfold debug_line. rewrite !length_app. cbn [length].
    assert (length (to_string (u32 tid)) <= 10)%nat.
    { apply to_string_length; [|lia]. unfold u32. pose proof (Z.mod_pos_bound tid (2 ^ 32)). lia. }
    assert (length (level_text (InferCPLogLevel (Some (truncated text)))) <= 5)%nat
      by (destruct (InferCPLogLevel _); vm_compute; lia).
    assert (length (truncated text) <= 1023)%nat by (unfold truncated; rewrite length_take; lia).
    change (length (W " tid=")) with 5%nat. change (length (W "] level=")) with 8%nat.
    change (length (W " comp=cp ")) with 9%nat. lia.
  - intros. unfold CPLog, LogDebug, truncated. by rewrite take_take, Nat.min_id.
Qed.

Lemma LogDebug_fits_witness :
  (length (debug_line (FormatLogTimestamp (mkSystemTime 2026 12 31 23 59 59 999) (mkTimeZone true (-180) (-60))) 4242
    (truncated (replicate 5000 (120 : Z)))) < 1200)%nat.
Proof.
  apply (LogDebug_fits (mkSystemTime 2026 12 31 23 59 59 999) (mkTimeZone true (-180) (-60)) 4242 (replicate 5000 (120 : Z))).
  unfold valid_time. cbn. lia.
Defined.

(** A machine whose user has made the directory a junction and [cp.log] in it a hard
    link: the line is written to his file's other name, and the directory behind the
    junction is given to SYSTEM. *)
Definition demo_io_cp (acl : Z) : CpIO :=
  mkCpIO true (Some (W "C:\PD")) true (mkAclReply true true acl) false true (mkAclReply true true 0) io_fine.
Definition demo_volume : Volume :=
  mkVolume {[ W "D:\x\cp.log" := 1%nat; W "C:\target" := 1%nat; W "C:\other" := 2%nat ]}
    {[ 1%nat := (W "D:user", bom); 2%nat := (W "D:", B "x") ]} {[ W "D:\x" := W "D:user"; W "C:\PD" := [] ]}
    {[ W "C:\PD\Ligament" := W "D:\x" ]}.

Lemma demo_volume_sound : sound demo_volume.
Proof.
  unfold sound. assert (H : map_Forall (λ _ i, is_Some (nodes demo_volume !! i)) (names demo_volume))
    by (apply (bool_decide_unpack _); vm_compute; reflexivity).
  intros q i Hq. exact (H q i Hq).
Qed.

(** What [cp_log_safe] leaves open does happen. *)
Theorem cp_log_follows_links :
  let v := (run_log (λ w, w) [(demo_io_cp 0, W "x")] (fresh_log, demo_volume)).2 in
  file_at v (W "C:\target") = Some (system_sddl, bom ++ W "x") ∧ folders v !! W "D:\x" = Some system_sddl.
Proof. split; vm_compute; reflexivity. Qed.

(** The directory cannot be given to SYSTEM, then it could: the log stays off. *)
Lemma cp_log_safe_witness :
  let line := W "x" in
  let v0 := mkVolume ∅ ∅ ∅ ∅ in
  let good := run_log (λ w, w) [(demo_io_cp 0, line)] (fresh_log, v0) in
  let bad := run_log (λ w, w) [(demo_io_cp 5, line); (demo_io_cp 0, line)] (fresh_log, v0) in
  let linked := run_log (λ w, w) [(demo_io_cp 0, line)] (fresh_log, demo_volume) in
  file_at good.2 (cp_log (W "C:\PD")) = Some (system_sddl, bom ++ line) ∧ names bad.2 = ∅ ∧
  file_at linked.2 (W "C:\other") = Some (W "D:", B "x").
Proof.
  cbv zeta. split; [vm_compute; reflexivity|]. split; [vm_compute; reflexivity|].
  pose proof (cp_log_safe (λ w, w) [(demo_io_cp 0, W "x")] demo_volume demo_volume_sound) as H.
  destruct (run_log (λ w, w) [(demo_io_cp 0, W "x")] (fresh_log, demo_volume)) as [c v']. cbn [fst snd] in *.
  destruct H as (_ & H & _). destruct (H _ _ _ _ eq_refl eq_refl) as (H1 & _). rewrite H1; [vm_compute; reflexivity| |].
  - intros [Hq|[Hq|(pid & tick & Hq)]]; [by vm_compute in Hq..|].
    unfold legacy_of in Hq. apply (f_equal (take 1)) in Hq. rewrite take_app_le in Hq by (vm_compute; lia). by vm_compute in Hq.
  - right. intros Hq. by vm_compute in Hq.
Defined.
