(* ===== verification/Service.v ===== *)
(** * The endpoint service

    [windows/service/service.cpp]: the watchdog that keeps the Ligament client
    running in every active session of a machine whose policy forbids leaving
    it. One round of [WorkerLoop] is a function of the state and of what Windows
    answers in that round ([Tick]); [GetTickCount64] and [FILETIME]s are 64-bit.
    Paths fit in [MAX_PATH] (the [_s] functions end the process otherwise). *)
From Stdlib Require Import Sorted.
From S2P Require Import Prelude Config LogFile.

(** ** The machine *)

(** A [PROCESSENTRY32W] and what is found out about the process:
    [ProcessIdToSessionId], then [OpenProcess] and [QueryFullProcessImageNameW]. *)
Record ProcEntry := mkProc {
  szExeFile : wstr; pe_session : option Z; pe_open : bool; pe_image : option wstr }.

(** A session of [WTSEnumerateSessionsW] and the answers while it is served:
    the process snapshot, [GetTickCount64], [WTSQueryUserToken] and
    [CreateProcessAsUserW] (a process id, or the error). *)
Record Session := mkSession {
  SessionId : Z; State : Z; se_procs : option (list ProcEntry); se_now : Z;
  se_token : option Z; se_create : Z + Z }.
Definition WTSActive : Z := 0.

Record Tick := mkTick {
  tk_policy : option RegKey;           (* SOFTWARE\Policies\Ligament\2FA *)
  tk_local : option RegKey;            (* SOFTWARE\Ligament\2FA *)
  tk_appdata : bool;                   (* SHGetFolderPathW *)
  tk_lock : option Z;                  (* the lock file's last write time *)
  tk_now : Z;                          (* GetSystemTimeAsFileTime *)
  tk_sessions : option (list Session);
}.

(** What does not change while the service runs, and what befalls the [n]-th
    line of the log. *)
Record SvcEnv := mkSvcEnv {
  sv_module : option wstr;             (* GetModuleFileNameW, when it fits *)
  sv_appdata : option wstr;            (* CSIDL_COMMON_APPDATA *)
  sv_utf8 : wstr → str;                (* WideCharToMultiByte *)
  sv_clock : nat → SystemTime * TimeZone;
  sv_io : nat → LogIO;
}.

Record Svc := mkSvc {
  lastLaunch : gmap Z Z;
  relaunches : list (Z * Z);           (* calls of LaunchAppInSession: session, time *)
  spawned : list (Z * wstr * wstr);    (* CreateProcessAsUserW: session, image, command line *)
  locks_removed : nat;
  s_path : wstr; s_disabled : bool;    (* statics of LogLine *)
  lines : nat;                         (* lines given to LogLine *)
  files : FS;
}.

#[export] Instance eta_Svc : Settable Svc := λ s,
  mkSvc (lastLaunch s) (relaunches s) (spawned s) (locks_removed s) (s_path s) (s_disabled s)
    (lines s) (files s).

Section Service.
Context (env : SvcEnv).

(** ** The log *)
Definition InferServiceLogLevel (text : wstr) : wstr :=
  if containsb text (W "failed") || containsb text (W "FAIL") || containsb text (W "ошибка") ||
     containsb text (W "error") || containsb text (W "Error") || containsb text (W "CRITICAL")
  then W "ERROR" else
  if containsb text (W "WARN") || containsb text (W "warn") || containsb text (W "Warning") ||
     containsb text (W "timeout")
  then W "WARN" else W "INFO".

Definition append_line (line : wstr) (s : Svc) : Svc :=
  s <| files := AppendUtf8LogLine (sv_utf8 env) (sv_io env (lines s)) (s_path s) line (files s) |>
    <| lines := S (lines s) |>.

Definition LogLine (line : wstr) (s : Svc) : Svc :=
  if s_disabled s then s else
  if bool_decide (s_path s = []) then
    match sv_appdata env with
    | None => s <| s_disabled := true |>
    | Some progData =>
      append_line line (s <| s_path := progData ++ W "\Ligament" ++ W "\service.log" |>)
    end
  else append_line line s.

(** [line], a buffer of 600. *)
Definition log_line (stamp body : wstr) : wstr :=
  [91] ++ stamp ++ W "] level=" ++ InferServiceLogLevel body ++ W " comp=service " ++ body ++ [13; 10].

(** [_vsnwprintf_s] into 512 code units, truncating. *)
Definition Log (text : wstr) (s : Svc) : Svc :=
  let body := take 511 text in
  let '(st, tz) := sv_clock env (lines s) in
  LogLine (log_line (FormatLogTimestamp st tz) body) s.

(** [%lu] *)
Definition lu (z : Z) : wstr := to_string (u32 z).

(** ** Policy and paths *)

(** One round of the loop over the keys: [None] goes on to the next key. *)
Definition allow_exit_key (k : option RegKey) : option bool :=
  match k with
  | None => None
  | Some key =>
    let r := RegQueryValueExW key (W "AllowExit") 0 4 [0; 0; 0; 0] in
    if rr_ok r && (rr_type r =? REG_DWORD) then Some (negb (dword_of (rr_buf r) =? 0)) else None
  end.

Definition PolicyAllowExit (policy loc : option RegKey) : bool :=
  match allow_exit_key policy with
  | Some b => b
  | None => match allow_exit_key loc with Some b => b | None => true end
  end.

Definition kAppExe : wstr := W "ligament_authenticator.exe".

Definition InstalledAppPath : wstr :=
  match sv_module env with
  | None => []
  | Some exePath =>
    match find_last_of exePath [92] with
    | None => []
    | Some slash => take (slash + 1) exePath ++ kAppExe
    end
  end.

(** ** Processes *)

(** One round of the loop of [AppRunningInSession]. *)
Definition is_client (sessionId : Z) (installedPath : wstr) (pe : ProcEntry) : bool :=
  bool_decide (ieq (szExeFile pe) kAppExe) &&
  match pe_session pe with Some sid => sid =? sessionId | None => false end &&
  pe_open pe &&
  match pe_image pe with Some image => bool_decide (ieq image installedPath) | None => false end.

Definition AppRunningInSession (v : Session) : bool :=
  if bool_decide (InstalledAppPath = []) then true else
  match se_procs v with
  | None => true
  | Some procs => existsb (is_client (SessionId v) InstalledAppPath) procs
  end.

Definition command_line (appPath : wstr) : wstr := [34] ++ appPath ++ [34] ++ W " --minimized".

(** The token error is [se_token = Some e]. *)
Definition LaunchAppInSession (v : Session) (s : Svc) : Svc :=
  let sid := SessionId v in
  match se_token v with
  | Some e => Log (W "запуск в сессии " ++ lu sid ++ W ": WTSQueryUserToken failed " ++ lu e) s
  | None =>
    if bool_decide (InstalledAppPath = []) then s else
    let s := s <| spawned := spawned s ++ [(sid, InstalledAppPath, command_line InstalledAppPath)] |> in
    match se_create v with
    | inl pid => Log (W "клиент перезапущен в сессии " ++ lu sid ++ W " (pid " ++ lu pid ++ W ")") s
    | inr e => Log (W "запуск в сессии " ++ lu sid ++ W ": CreateProcessAsUserW failed " ++ lu e) s
    end
  end.

(** ** The loop *)
Definition kRelaunchCooldownMs : Z := 60000.
Definition kMaxLockAge100ns : Z := 9000000000.

(** The round's session loop; [lastLaunch[sid]] inserts a zero. *)
Definition serve_session (s : Svc) (v : Session) : Svc :=
  if negb (State v =? WTSActive) then s else
  let sid := SessionId v in
  if sid =? 0 then s else
  if AppRunningInSession v then s else
  let now := se_now v in
  let last := default 0 (lastLaunch s !! sid) in
  let s := s <| lastLaunch := <[sid := last]> (lastLaunch s) |> in
  if negb (last =? 0) && (u64 (now - last) <? kRelaunchCooldownMs) then s else
  let s := s <| lastLaunch := <[sid := now]> (lastLaunch s) |>
             <| relaunches := relaunches s ++ [(sid, now)] |> in
  LaunchAppInSession v (Log (W "клиент отсутствует в активной сессии " ++ lu sid ++ W " — перезапуск") s).

(** The upgrade lock: whether the round goes on, and the state. *)
Definition upgrade_gate (tk : Tick) (s : Svc) : bool * Svc :=
  if tk_appdata tk then
    match tk_lock tk with
    | None => (true, s)
    | Some written =>
      if (written <? tk_now tk) && (kMaxLockAge100ns <? tk_now tk - written)
      then
        let s := Log (W "upgrading.lock устарел (>15 мин), снят сторожем") s in
        (true, s <| locks_removed := S (locks_removed s) |>)
      else (false, s)
    end
  else (true, s).

Definition worker_tick (s : Svc) (tk : Tick) : Svc :=
  if PolicyAllowExit (tk_policy tk) (tk_local tk) then s else
  let '(go, s) := upgrade_gate tk s in
  if negb go then s else
  match tk_sessions tk with
  | None => s
  | Some sessions => foldl serve_session s sessions
  end.

(** Every [WAIT_TIMEOUT] of the wait is a round; any other result ends the loop. *)
Definition WorkerLoop (ticks : list Tick) (s : Svc) : Svc := foldl worker_tick s ticks.
End Service.

(** ** Specification vocabulary *)
Section Spec.
Context (env : SvcEnv).

(** No process of the installed client runs in the session, for all one can see. *)
Definition absent (v : Session) : Prop :=
  InstalledAppPath env ≠ [] ∧
  match se_procs v with
  | Some procs => Forall (λ p, is_client (SessionId v) (InstalledAppPath env) p = false) procs
  | None => False
  end.

#[export] Instance absent_dec v : Decision (absent v).
Proof. unfold absent. destruct (se_procs v); apply _. Defined.

(** A user's session without its client. *)
Definition missing (v : Session) : Prop := State v = WTSActive ∧ SessionId v ≠ 0 ∧ absent v.

Definition cooled (last : gmap Z Z) (v : Session) : Prop :=
  default 0 (last !! SessionId v) = 0 ∨
  kRelaunchCooldownMs <= u64 (se_now v - default 0 (last !! SessionId v)).

Definition due (last : gmap Z Z) (v : Session) : Prop := missing v ∧ cooled last v.

#[export] Instance missing_dec v : Decision (missing v).
Proof. unfold missing. apply _. Defined.
#[export] Instance due_dec last v : Decision (due last v).
Proof. unfold due, cooled. apply _. Defined.

(** An upgrade is under way: the lock is there and not older than 15 minutes. *)
Definition upgrading (tk : Tick) : Prop :=
  tk_appdata tk = true ∧
  match tk_lock tk with Some written => tk_now tk <= written + 15 * 60 * 10000000 | None => False end.

#[export] Instance upgrading_dec tk : Decision (upgrading tk).
Proof. unfold upgrading. destruct (tk_lock tk); apply _. Defined.

(** The sessions a round looks after. *)
Definition guarded (tk : Tick) : list Session :=
  if PolicyAllowExit (tk_policy tk) (tk_local tk) then [] else
  if decide (upgrading tk) then [] else default [] (tk_sessions tk).

Definition attempt (v : Session) : Z * Z := (SessionId v, se_now v).

(** The process an attempt creates, when the user's token is available. *)
Definition process_of (v : Session) : option (Z * wstr * wstr) :=
  match se_token v with
  | None => Some (SessionId v, InstalledAppPath env,
                  [34] ++ InstalledAppPath env ++ [34] ++ W " --minimized")
  | Some _ => None
  end.
End Spec.

(** ** Lemmas *)

(** The log is apart from the rest of the state. *)
Lemma Log_same env t s :
  lastLaunch (Log env t s) = lastLaunch s ∧ relaunches (Log env t s) = relaunches s ∧
  spawned (Log env t s) = spawned s ∧ locks_removed (Log env t s) = locks_removed s.
Proof.
  unfold Log, LogLine. destruct (sv_clock env (lines s)) as [st tz].
  destruct (s_disabled s); [done|]. case_bool_decide; [destruct (sv_appdata env)|]; done.
Qed.

Ltac log_same :=
  repeat match goal with |- context [Log ?e ?t ?s] =>
    let H1 := fresh "E1" in let H2 := fresh "E2" in let H3 := fresh "E3" in let H4 := fresh "E4" in
    destruct (Log_same e t s) as (H1 & H2 & H3 & H4);
    rewrite ?H1, ?H2, ?H3, ?H4; clear H1 H2 H3 H4 end.

Lemma AppRunning_absent env v : AppRunningInSession env v = false ↔ absent env v.
Proof.
  unfold AppRunningInSession, absent. case_bool_decide; [naive_solver|].
  destruct (se_procs v) as [ps|]; [|naive_solver].
  rewrite <- not_true_iff_false, existsb_exists, Forall_forall. split.
  - intros Hn. split; [done|]. intros p Hp. apply not_true_is_false. intros Ht. apply Hn.
    exists p. split; [by apply list_elem_of_In|done].
  - intros [_ Hn] (p & Hp & Ht). rewrite Hn in Ht; [done|by apply list_elem_of_In].
Qed.

Lemma Launch_same env v s :
  lastLaunch (LaunchAppInSession env v s) = lastLaunch s ∧
  relaunches (LaunchAppInSession env v s) = relaunches s.
Proof.
  unfold LaunchAppInSession. destruct (se_token v); [split; by log_same|].
  case_bool_decide; [done|]. destruct (se_create v); split; by log_same.
Qed.

Lemma Launch_spawned env v s :
  InstalledAppPath env ≠ [] →
  spawned (LaunchAppInSession env v s) = spawned s ++ option_list (process_of env v).
Proof.
  intros Hp. unfold LaunchAppInSession, process_of.
  destruct (se_token v); [log_same; by rewrite app_nil_r|].
  rewrite bool_decide_eq_false_2 by done. destruct (se_create v); by log_same.
Qed.

Lemma serve_idle env s v : ¬ missing env v → serve_session env s v = s.
Proof.
  intros H. unfold serve_session.
  destruct (Z.eqb_spec (State v) WTSActive); [|done]. cbn [negb].
  destruct (Z.eqb_spec (SessionId v) 0); [done|].
  destruct (AppRunningInSession env v) eqn:E; [done|].
  apply AppRunning_absent in E. by destruct H.
Qed.

(** The table after [lastLaunch[sid]] inserted its zero. *)
Lemma last_touch (m : gmap Z Z) sid x :
  default 0 (<[sid := default 0 (m !! sid)]> m !! x) = default 0 (m !! x).
Proof. destruct (decide (sid = x)) as [->|]; by rewrite ?lookup_insert_eq, ?lookup_insert_ne. Qed.

Definition served (env : SvcEnv) (s : Svc) (v : Session) : Svc :=
  s <| lastLaunch := <[SessionId v := se_now v]>
        (<[SessionId v := default 0 (lastLaunch s !! SessionId v)]> (lastLaunch s)) |>
    <| relaunches := relaunches s ++ [attempt v] |>.

Lemma serve_missing env s v :
  missing env v →
  serve_session env s v =
  if decide (cooled (lastLaunch s) v)
  then LaunchAppInSession env v (Log env
    (W "клиент отсутствует в активной сессии " ++ lu (SessionId v) ++ W " — перезапуск") (served env s v))
  else s <| lastLaunch := <[SessionId v := default 0 (lastLaunch s !! SessionId v)]> (lastLaunch s) |>.
Proof.
  intros (Ha & H0 & Hm). unfold serve_session. apply AppRunning_absent in Hm.
  rewrite Ha, Hm. cbn [Z.eqb negb WTSActive Z.compare Pos.eqb].
  destruct (Z.eqb_spec (SessionId v) 0); [done|]. cbv zeta. unfold cooled.
  destruct (Z.eqb_spec (default 0 (lastLaunch s !! SessionId v)) 0); cbn [negb andb].
  { by rewrite decide_True by auto. }
  destruct (Z.ltb_spec (u64 (se_now v - default 0 (lastLaunch s !! SessionId v))) kRelaunchCooldownMs).
  - rewrite decide_False by lia. done.
  - by rewrite decide_True by auto.
Qed.

(** What one session adds. *)
Lemma serve_spec env s v :
  relaunches (serve_session env s v) =
    relaunches s ++ (if decide (due env (lastLaunch s) v) then [attempt v] else []) ∧
  spawned (serve_session env s v) =
    spawned s ++ (if decide (due env (lastLaunch s) v) then option_list (process_of env v) else []) ∧
  (∀ x, default 0 (lastLaunch (serve_session env s v) !! x) =
    if decide (due env (lastLaunch s) v ∧ x = SessionId v) then se_now v
    else default 0 (lastLaunch s !! x)).
Proof.
  destruct (decide (missing env v)) as [Hm|Hm]; cycle 1.
  { rewrite serve_idle by done. rewrite !decide_False by (unfold due; naive_solver).
    rewrite !app_nil_r. split_and!; [done..|]. intros x.
    rewrite decide_False by (unfold due; naive_solver). done. }
  rewrite serve_missing by done. destruct (decide (cooled _ _)) as [Hc|Hc].
  - assert (due env (lastLaunch s) v) by done. rewrite !(decide_True (P := due _ _ _)) by done.
    destruct (Launch_same env v (Log env (W "клиент отсутствует в активной сессии " ++
      lu (SessionId v) ++ W " — перезапуск") (served env s v))) as [-> ->].
    rewrite Launch_spawned by apply Hm. log_same. split_and!; [done..|]. intros x. cbn.
    destruct (decide (x = SessionId v)) as [->|].
    + by rewrite lookup_insert_eq, decide_True by done.
    + rewrite lookup_insert_ne, last_touch, decide_False by naive_solver. done.
  - rewrite !decide_False by (unfold due; naive_solver). rewrite !app_nil_r. split_and!; [done..|].
    intros x. rewrite decide_False by (unfold due; naive_solver). apply last_touch.
Qed.

(** A whole round, when no session is listed twice. *)
Lemma due_frame env m m' v :
  default 0 (m !! SessionId v) = default 0 (m' !! SessionId v) → due env m v ↔ due env m' v.
Proof. unfold due, cooled. by intros ->. Qed.

Lemma filter_due_frame env m m' vs :
  Forall (λ v, default 0 (m !! SessionId v) = default 0 (m' !! SessionId v)) vs →
  filter (due env m) vs = filter (due env m') vs.
Proof.
  induction 1 as [|v vs Hv _ IH]; [done|]. pose proof (due_frame env m m' v Hv).
  rewrite !filter_cons, IH. destruct (decide (due env m v)), (decide (due env m' v)); tauto.
Qed.

Lemma serve_all env vs s :
  NoDup (SessionId <$> vs) →
  relaunches (foldl (serve_session env) s vs) =
    relaunches s ++ (attempt <$> filter (due env (lastLaunch s)) vs) ∧
  spawned (foldl (serve_session env) s vs) =
    spawned s ++ omap (process_of env) (filter (due env (lastLaunch s)) vs).
Proof.
  revert s. induction vs as [|v vs IH]; intros s Hnd; [cbn; by rewrite !app_nil_r|].
  rewrite fmap_cons, NoDup_cons in Hnd. destruct Hnd as [Hv Hnd].
  cbn [foldl]. destruct (IH (serve_session env s v) Hnd) as [-> ->].
  destruct (serve_spec env s v) as (-> & -> & Hl).
  rewrite (filter_due_frame env _ (lastLaunch s) vs); cycle 1.
  { apply Forall_forall. intros w Hw. rewrite Hl, decide_False; [done|].
    intros [_ E]. apply Hv. rewrite <- E. by apply list_elem_of_fmap_2. }
  rewrite filter_cons. destruct (decide (due env (lastLaunch s) v)); [|by rewrite !app_nil_r].
  cbn. rewrite <- !app_assoc. split; [done|]. by destruct (process_of env v).
Qed.

Lemma upgrade_gate_spec env tk s :
  ((upgrade_gate env tk s).1 = true ↔ ¬ upgrading tk) ∧
  lastLaunch (upgrade_gate env tk s).2 = lastLaunch s ∧
  relaunches (upgrade_gate env tk s).2 = relaunches s ∧
  spawned (upgrade_gate env tk s).2 = spawned s.
Proof.
  unfold upgrade_gate, upgrading. destruct (tk_appdata tk); [|by cbn; naive_solver].
  destruct (tk_lock tk) as [w|]; [|by cbn; naive_solver]. unfold kMaxLockAge100ns.
  destruct (Z.ltb_spec w (tk_now tk)), (Z.ltb_spec 9000000000 (tk_now tk - w)); cbn;
    log_same; naive_solver lia.
Qed.

(** A round is the service of the guarded sessions, as far as launches go. *)
Lemma worker_tick_guarded env s tk :
  ∃ s', worker_tick env s tk = foldl (serve_session env) s' (guarded tk) ∧
    lastLaunch s' = lastLaunch s ∧ relaunches s' = relaunches s ∧ spawned s' = spawned s.
Proof.
  unfold worker_tick, guarded. destruct (PolicyAllowExit _ _); [by exists s|].
  destruct (upgrade_gate_spec env tk s) as (Hg & Hl & Hr & Hs).
  destruct (upgrade_gate env tk s) as [go s']. cbn in Hg, Hl, Hr, Hs.
  exists s'. split; [|done]. destruct (decide (upgrading tk)), go; try naive_solver.
  by destruct (tk_sessions tk).
Qed.

(** C18: a round of the watchdog starts the client exactly in the active user
    sessions (not session 0) where no process of the installed client is seen
    and none was started in the last minute, provided the policy forbids leaving
    and no upgrade newer than 15 minutes is under way; what it runs is the
    installed client with --minimized, and only with the user's token. *)
Theorem worker_tick_relaunches env s tk :
  NoDup (SessionId <$> guarded tk) →
  relaunches (worker_tick env s tk) =
    relaunches s ++ (attempt <$> filter (due env (lastLaunch s)) (guarded tk)) ∧
  spawned (worker_tick env s tk) =
    spawned s ++ omap (process_of env) (filter (due env (lastLaunch s)) (guarded tk)).
Proof.
  intros Hnd. destruct (worker_tick_guarded env s tk) as (s' & -> & Hl & Hr & Hs).
  rewrite <- Hl, <- Hr, <- Hs. by apply serve_all.
Qed.

(** ** Runs *)
Definition idle_svc (fs : FS) : Svc := mkSvc ∅ [] [] 0 [] false 0 fs.

(** All session readings of a run, in order. *)
Definition readings (ticks : list Tick) : list Z :=
  ticks ≫= λ tk, se_now <$> default [] (tk_sessions tk).

Definition spaced (l : list (Z * Z)) : Prop :=
  ∀ i j sid t t', (i < j)%nat → l !! i = Some (sid, t) → l !! j = Some (sid, t') →
    kRelaunchCooldownMs <= t' - t.

(** The table holds the last attempt of every session, none later than [m]. *)
Definition watched (m : Z) (s : Svc) : Prop :=
  spaced (relaunches s) ∧
  (∀ sid t, (sid, t) ∈ relaunches s → 0 < t <= default 0 (lastLaunch s !! sid)) ∧
  (∀ sid, default 0 (lastLaunch s !! sid) <= m) ∧
  (∀ sid, default 0 (lastLaunch s !! sid) ≠ 0 → (sid, default 0 (lastLaunch s !! sid)) ∈ relaunches s).

Lemma spaced_snoc l sid t :
  spaced l → (∀ t0, (sid, t0) ∈ l → kRelaunchCooldownMs <= t - t0) → spaced (l ++ [(sid, t)]).
Proof.
  intros Hl Ht i j x a b Hij Hi Hj. apply lookup_app_Some in Hj as [Hj|[Hlen Hj]].
  - assert (j < length l)%nat by by eapply lookup_lt_Some. rewrite lookup_app_l in Hi by lia. eauto.
  - apply list_lookup_singleton_Some in Hj as [Hj ?]. simplify_eq.
    rewrite lookup_app_l in Hi by lia. apply Ht. by eapply list_elem_of_lookup_2.
Qed.

Lemma serve_watched env s v m :
  watched m s → 0 <= m <= se_now v → 0 < se_now v < 2 ^ 64 →
  watched (se_now v) (serve_session env s v) ∧
  (missing env v → ∃ t, (SessionId v, t) ∈ relaunches (serve_session env s v) ∧
    se_now v - t < kRelaunchCooldownMs).
Proof.
  intros (Hsp & Hle & Hm & Hin) Hmn Hn. destruct (serve_spec env s v) as (Hr & _ & Hl).
  set (m0 := lastLaunch s) in *. pose proof (Hm (SessionId v)) as Hmv.
  assert (Hpos : ∀ sid, 0 <= default 0 (m0 !! sid)).
  { intros sid. destruct (decide (default 0 (m0 !! sid) = 0)) as [->|H0]; [done|].
    apply Hin, Hle in H0. lia. }
  pose proof (Hpos (SessionId v)) as Hpv.
  assert (Hu : u64 (se_now v - default 0 (m0 !! SessionId v)) = se_now v - default 0 (m0 !! SessionId v)).
  { unfold u64. apply Z.mod_small. lia. }
  destruct (decide (due env m0 v)) as [Hd|Hd].
  - split; [split_and!|].
    + rewrite Hr. apply spaced_snoc; [done|]. intros t0 Ht0. apply Hle in Ht0.
      destruct Hd as [_ [Hc|Hc]]; [lia|]. rewrite Hu in Hc. lia.
    + intros sid t. rewrite Hr, Hl, elem_of_app, list_elem_of_singleton. intros [H|[= -> ->]].
      * destruct (decide _) as [[_ ->]|]; apply Hle in H; [lia|done].
      * rewrite decide_True by done. lia.
    + intros sid. rewrite Hl. specialize (Hm sid). destruct (decide _); lia.
    + intros sid. rewrite Hl, Hr, elem_of_app, list_elem_of_singleton.
      destruct (decide _) as [[_ ->]|]; [by right|left; auto].
    + intros _. exists (se_now v). rewrite Hr. split; [|unfold kRelaunchCooldownMs; lia].
      apply elem_of_app. right. by apply list_elem_of_singleton.
  - assert (Hl' : ∀ x, default 0 (lastLaunch (serve_session env s v) !! x) = default 0 (m0 !! x)).
    { intros x. by rewrite Hl, decide_False by naive_solver. }
    rewrite app_nil_r in Hr. unfold watched. rewrite Hr. split; [split_and!|].
    + done.
    + intros sid t. rewrite Hl'. apply Hle.
    + intros sid. rewrite Hl'. specialize (Hm sid). lia.
    + intros sid. rewrite Hl'. apply Hin.
    + intros Hmi. exists (default 0 (m0 !! SessionId v)).
      unfold due, cooled in Hd. rewrite Hu in Hd.
      destruct (decide (default 0 (m0 !! SessionId v) = 0)); [naive_solver|].
      split; [by apply Hin|]. destruct (Z_lt_le_dec (se_now v - default 0 (m0 !! SessionId v)) kRelaunchCooldownMs); naive_solver.
Qed.

Lemma serve_keeps env vs s p :
  p ∈ relaunches s → p ∈ relaunches (foldl (serve_session env) s vs).
Proof.
  revert s. induction vs as [|v vs IH]; intros s H; [done|]. apply IH.
  destruct (serve_spec env s v) as (-> & _). apply elem_of_app. by left.
Qed.

Definition in_range (n : Z) : Prop := 0 < n < 2 ^ 64.

Lemma serve_all_watched env vs rest s m :
  watched m s → 0 <= m → StronglySorted Z.le (m :: (se_now <$> vs) ++ rest) →
  Forall in_range (se_now <$> vs) →
  let s' := foldl (serve_session env) s vs in
  (∃ m', watched m' s' ∧ 0 <= m' ∧ StronglySorted Z.le (m' :: rest)) ∧
  (∀ v, v ∈ vs → missing env v → ∃ t, (SessionId v, t) ∈ relaunches s' ∧
    se_now v - t < kRelaunchCooldownMs).
Proof.
  revert s m. induction vs as [|v vs IH]; intros s m Hw H0 Hs Hr; cbn.
  { split; [by exists m|]. intros v []%not_elem_of_nil. }
  apply StronglySorted_inv in Hs as [Hs Hle]. rewrite fmap_cons in Hr, Hs, Hle.
  apply Forall_cons in Hr as [Hv Hr]. apply Forall_cons in Hle as [Hmv _].
  unfold in_range in Hv. destruct (serve_watched env s v m Hw) as [Hw' Hrecent]; [lia..|].
  destruct (IH _ (se_now v) Hw') as [Hm Hall]; [lia|done|done|].
  split; [done|]. intros w [->|Hin]%elem_of_cons Hmi; [|by apply Hall].
  destruct (Hrecent Hmi) as (t & Ht & ?). exists t. split; [by apply serve_keeps|done].
Qed.

Lemma sorted_skip m l rest : StronglySorted Z.le (m :: l ++ rest) → StronglySorted Z.le (m :: rest).
Proof.
  induction l as [|x l IH]; [done|]. intros H. apply IH.
  apply StronglySorted_inv in H as [H1 H2]. apply StronglySorted_inv in H1 as [H1 _].
  apply Forall_cons in H2 as [_ H2]. by constructor.
Qed.

Lemma guarded_readings tk :
  guarded tk = [] ∨ guarded tk = default [] (tk_sessions tk).
Proof. unfold guarded. repeat destr_if; auto. Qed.

Lemma watched_ext m s s' :
  lastLaunch s' = lastLaunch s → relaunches s' = relaunches s → watched m s → watched m s'.
Proof. unfold watched. by intros -> ->. Qed.

Lemma tick_watched env tk rest s m :
  watched m s → 0 <= m → StronglySorted Z.le (m :: readings [tk] ++ rest) →
  Forall in_range (readings [tk]) →
  (∃ m', watched m' (worker_tick env s tk) ∧ 0 <= m' ∧ StronglySorted Z.le (m' :: rest)) ∧
  (∀ v, v ∈ guarded tk → missing env v → ∃ t, (SessionId v, t) ∈ relaunches (worker_tick env s tk) ∧
    se_now v - t < kRelaunchCooldownMs).
Proof.
  intros Hw H0 Hs Hr. destruct (worker_tick_guarded env s tk) as (s' & -> & Hl & Hre & _).
  apply (watched_ext _ _ s') in Hw; [|done..]. unfold readings in Hs, Hr.
  cbn in Hs, Hr. rewrite app_nil_r in Hs, Hr.
  destruct (guarded_readings tk) as [E|E].
  - rewrite E. cbn. split; [|by intros v []%not_elem_of_nil].
    exists m. split_and!; [done..|]. by eapply sorted_skip.
  - rewrite E. by eapply serve_all_watched.
Qed.

Lemma run_watched env ticks rest s m :
  watched m s → 0 <= m → StronglySorted Z.le (m :: readings ticks ++ rest) →
  Forall in_range (readings ticks) →
  ∃ m', watched m' (WorkerLoop env ticks s) ∧ 0 <= m' ∧ StronglySorted Z.le (m' :: rest).
Proof.
  revert s m. induction ticks as [|tk ticks IH]; intros s m Hw H0 Hs Hr; [by exists m|].
  change (tk :: ticks) with ([tk] ++ ticks) in Hs, Hr. unfold readings in Hs, Hr.
  rewrite bind_app in Hs, Hr. rewrite <- app_assoc in Hs. apply Forall_app in Hr as [Hr1 Hr2].
  destruct (tick_watched env tk (readings ticks ++ rest) s m Hw H0 Hs Hr1) as [(m' & Hw' & H0' & Hs') _].
  by apply (IH _ m').
Qed.

Lemma idle_watched fs : watched 0 (idle_svc fs).
Proof.
  split_and!; cbn.
  - intros i j sid t t' _ H. by rewrite lookup_nil in H.
  - intros sid t []%not_elem_of_nil.
  - intros sid. by rewrite lookup_empty.
  - intros sid. by rewrite lookup_empty.
Qed.

(** C17: over any run of the watchdog, as long as [GetTickCount64] does not go
    back, two attempts to start the client in one session are at least a minute
    apart; and after every round, a guarded session without its client has had an
    attempt less than a minute before it was looked at. *)
Theorem WorkerLoop_watch env fs ticks tk :
  StronglySorted Z.le (readings (ticks ++ [tk])) → Forall in_range (readings (ticks ++ [tk])) →
  let s := WorkerLoop env (ticks ++ [tk]) (idle_svc fs) in
  spaced (relaunches s) ∧
  (∀ v, v ∈ guarded tk → missing env v →
    ∃ t, (SessionId v, t) ∈ relaunches s ∧ se_now v - t < kRelaunchCooldownMs).
Proof.
  intros Hs Hr s. unfold readings in Hs, Hr. rewrite bind_app in Hs, Hr.
  apply Forall_app in Hr as [Hr1 Hr2].
  destruct (run_watched env ticks (readings [tk]) (idle_svc fs) 0) as (m & Hw & H0 & Hm).
  - apply idle_watched.
  - done.
  - constructor; [done|]. apply Forall_app. unfold in_range in Hr1, Hr2.
    split; eapply Forall_impl; [exact Hr1|naive_solver lia|exact Hr2|naive_solver lia].
  - done.
  - rewrite <- (app_nil_r (readings [tk])) in Hm.
    destruct (tick_watched env tk [] (WorkerLoop env ticks (idle_svc fs)) m Hw H0 Hm Hr2)
      as [(m' & Hw' & _) Hv].
    unfold s, WorkerLoop. rewrite foldl_app. cbn [foldl]. split; [apply Hw'|exact Hv].
Qed.

(** A machine with one user session, looked at every 15 seconds. *)
Definition demo_env : SvcEnv :=
  mkSvcEnv (Some (W "C:\L\svc.exe")) (Some (W "C:\PD")) id
    (λ _, (mkSystemTime 2026 1 2 3 4 5 6, mkTimeZone false (-180) 0)) (λ _, io_fine).

Definition demo_tick (now : Z) : Tick :=
  mkTick (Some {[ W "AllowExit" := mkRegValue REG_DWORD [0; 0; 0; 0] ]}) None true None 0
    (Some [mkSession 1 0 (Some []) now None (inl 77)]).

Lemma worker_tick_relaunches_witness :
  relaunches (worker_tick demo_env (idle_svc ∅) (demo_tick 5000)) = [(1, 5000)] ∧
  spawned (worker_tick demo_env (idle_svc ∅) (demo_tick 5000)) =
    [(1, W "C:\L\ligament_authenticator.exe",
      [34] ++ W "C:\L\ligament_authenticator.exe" ++ [34] ++ W " --minimized")].
Proof.
  assert (Hg : guarded (demo_tick 5000) = [mkSession 1 0 (Some []) 5000 None (inl 77)]) by by vm_compute.
  destruct (worker_tick_relaunches demo_env (idle_svc ∅) (demo_tick 5000)) as [E1 E2].
  { rewrite Hg. apply NoDup_singleton. }
  rewrite E1, E2, Hg. split; vm_compute; reflexivity.
Defined.

Lemma WorkerLoop_watch_witness :
  let s := WorkerLoop demo_env ([demo_tick 5000; demo_tick 20000; demo_tick 35000; demo_tick 50000] ++
    [demo_tick 65000]) (idle_svc ∅) in
  spaced (relaunches s) ∧ relaunches s = [(1, 5000); (1, 65000)].
Proof.
  split; [|vm_compute; reflexivity].
  apply (WorkerLoop_watch demo_env ∅ [demo_tick 5000; demo_tick 20000; demo_tick 35000; demo_tick 50000]
    (demo_tick 65000)).
  - repeat constructor; done.
  - repeat constructor; done.
Defined.

(** A line of the service's log fits its buffer of 600 code units. *)
Lemma log_line_fits st tz text :
  valid_time st tz → (length (log_line (FormatLogTimestamp st tz) (take 511 text)) < 600)%nat.
Proof.
  intros Ht%FormatLogTimestamp_fits. unfold log_line. rewrite !length_app. cbn [length].
  assert (length (InferServiceLogLevel (take 511 text)) <= 5)%nat.
  { unfold InferServiceLogLevel. destr_if; [vm_compute; lia|]. destr_if; vm_compute; lia. }
  assert (length (take 511 text) <= 511)%nat by (rewrite length_take; lia).
  change (length (W "] level=")) with 8%nat. change (length (W " comp=service ")) with 14%nat. lia.
Qed.
