(* ===== verification/DebugFields.v ===== *)
(** * Fields of the debug log

    [windows/runner/debug_log.h]: what may be written to the debug log of the
    application and its worker, and the decision on an object's security. *)
From S2P Require Import Prelude.

(** ** Characters and fields *)
Definition lower_alpha (c : Z) : bool := (97 <=? c) && (c <=? 122).
Definition upper_alpha (c : Z) : bool := (65 <=? c) && (c <=? 90).
Definition digit (c : Z) : bool := (48 <=? c) && (c <=? 57).

Definition field_char (uppercase hyphen : bool) (c : Z) : bool :=
  lower_alpha c || digit c || (c =? 95) || (c =? 46) || (uppercase && upper_alpha c) ||
  (hyphen && (c =? 45)).

Definition ValidField (value : str) (limit : nat) (uppercase hyphen : bool) : bool :=
  if bool_decide (value = []) || (limit <? length value)%nat then false
  else forallb (field_char uppercase hyphen) value.

Definition ValidEvent (value : str) : bool := ValidField value 80 false true.
Definition ValidLevel (value : str) : bool :=
  bool_decide (value = B "INFO") || bool_decide (value = B "WARN") || bool_decide (value = B "ERROR").
Definition ValidErrorType (value : str) : bool := ValidField value 64 true false.
Definition ValidErrorCode (value : str) : bool := ValidField value 64 true true.

Definition OneOf (value : str) (values : list str) : bool :=
  existsb (λ candidate, bool_decide (candidate = value)) values.

(** The loop of [ValidNumber] over what follows the sign. *)
Fixpoint number_loop (s : str) (dig dot : bool) : bool :=
  match s with
  | [] => dig
  | c :: s' =>
    if digit c then number_loop s' true dot else
    if (c =? 46) && negb dot && dig && negb (bool_decide (s' = [])) then number_loop s' dig true else
    false
  end.

Definition ValidNumber (value : str) : bool :=
  if bool_decide (value = []) || (32 <? length value)%nat then false else
  match value with
  | c :: s' => if c =? 45 then number_loop s' false false else number_loop value false false
  | [] => false
  end.

Definition hex_char (c : Z) : bool :=
  digit c || ((97 <=? c) && (c <=? 102)) || ((65 <=? c) && (c <=? 70)).

Definition uuid_char (i : nat) (c : Z) : bool :=
  if decide (i = 8 ∨ i = 13 ∨ i = 18 ∨ i = 23)%nat then c =? 45 else hex_char c.

Fixpoint uuid_loop (i : nat) (s : str) : bool :=
  match s with [] => true | c :: s' => uuid_char i c && uuid_loop (S i) s' end.

Definition ValidUuid (value : str) : bool :=
  if (length value =? 36)%nat then uuid_loop 0 value else false.

Definition LooksLikeSecret (value : str) : bool :=
  if (length value <? 32)%nat then false else forallb hex_char value.

Definition numbers : list str := B <$>
  ["request_id"; "attempt"; "duration_ms"; "elapsed_ms"; "count"; "bytes";
   "response_bytes"; "sent_bytes"; "received_bytes"; "width"; "height";
   "frames"; "rtt_ms"; "queue_bytes"; "acked_seq"; "seq"; "cursor";
   "ice_servers"; "candidates"; "tracks"; "timeout_ms"; "code"; "http_status";
   "fps"; "step"; "monitor"; "restarts"]%string.
Definition booleans : list str := B <$>
  ["connected"; "frame_ready"; "control_ready"; "owner"; "recorder_enabled";
   "mandatory"; "first_frame_acked"; "is_relay"]%string.
Definition labels : list str := B <$>
  ["phase"; "origin"; "reason"; "state"; "ice_state"; "pc_state"; "dc_state";
   "message_type"; "transport"; "operation"; "result"; "status"; "codec"; "channel";
   "component"]%string.
Definition methods : list str := B <$>
  ["GET"; "POST"; "PUT"; "PATCH"; "DELETE"; "HEAD"; "OPTIONS"]%string.
Definition ids : list str := B <$> ["session_id"; "agent_id"; "challenge_id"; "target_id"]%string.

(** [ValidField(std::string_view(&c, 1), 1, true, true)] *)
Definition code_char (c : Z) : bool := ValidField [c] 1 true true.
Definition server_char (c : Z) : bool := code_char c || (c =? 91) || (c =? 93) || (c =? 58).
Definition route_char (c : Z) : bool :=
  code_char c || (c =? 47) || (c =? 123) || (c =? 125) || (c =? 58).

Definition ValidContextValue (key value : str) : bool :=
  if OneOf key numbers then ValidNumber value else
  if OneOf key booleans then bool_decide (value = B "true") || bool_decide (value = B "false") else
  if OneOf key ids then ValidUuid value else
  if OneOf key labels then ValidErrorCode value && negb (LooksLikeSecret value) else
  if bool_decide (key = B "method") then OneOf value methods else
  if bool_decide (key = B "server") then
    if bool_decide (value = []) || (253 <? length value)%nat then false else forallb server_char value else
  if bool_decide (key = B "route") then
    match value with
    | [] => false
    | c :: _ => if negb (c =? 47) || (240 <? length value)%nat then false else forallb route_char value
    end
  else false.

(** [left] is [64 - fields]. *)
Fixpoint context_loop (left : nat) (context : str) : bool :=
  match context with
  | [] => true
  | _ =>
    match left with
    | O => false
    | S left' =>
      let space := find_ch context 32 0 in
      let token := match space with Some i => take i context | None => context end in
      match find_ch token 61 0 with
      | None => false
      | Some equal =>
        if negb (ValidContextValue (take equal token) (drop (equal + 1) token)) then false else
        match space with
        | None => true
        | Some i =>
          let rest := drop (i + 1) context in
          if bool_decide (rest = []) then false else context_loop left' rest
        end
      end
    end
  end.

Definition ValidContext (context : str) : bool :=
  if (4096 <? length context)%nat then false else context_loop 64 context.

(** ** Security of the log's objects *)
Inductive SecurityUse := use_parent | use_log_directory | use_log_file.
Inductive SecurityDecision := sec_reject | sec_accept | sec_tighten.

#[export] Instance SecurityUse_eq_dec : EqDecision SecurityUse.
Proof. solve_decision. Defined.
#[export] Instance SecurityDecision_eq_dec : EqDecision SecurityDecision.
Proof. solve_decision. Defined.

Definition kParentReadOnlyAccess : Z := Z.lor 0x001200a9 0xa0000000.
Definition SafeParentAllow (privileged inherit_only : bool) (access : Z) : bool :=
  privileged || inherit_only || (Z.ldiff access kParentReadOnlyAccess =? 0).

Definition kFileAllAccess : Z := 0x001f01ff.
Definition kPrivateAceFlags : Z := 3.
Definition PrivateAllow (allow : bool) (access flags : Z) : bool :=
  allow && (access =? kFileAllAccess) && (Z.ldiff flags kPrivateAceFlags =? 0).

Definition DecideSecurity (use : SecurityUse)
    (safe_object privileged_owner safe_parent_acl private_acl : bool) : SecurityDecision :=
  if negb safe_object || negb privileged_owner then sec_reject else
  match use with
  | use_parent => if safe_parent_acl then sec_accept else sec_reject
  | _ =>
    if private_acl then sec_accept else
    if bool_decide (use = use_log_directory) && safe_parent_acl then sec_tighten else sec_reject
  end.

(** ** Specification: the fields of a context *)
Definition token_of (kv : str * str) : str := kv.1 ++ [61] ++ kv.2.

Fixpoint join_tokens (fields : list (str * str)) : str :=
  match fields with
  | [] => []
  | [kv] => token_of kv
  | kv :: rest => token_of kv ++ [32] ++ join_tokens rest
  end.

(** Letters, digits and the marks [_ . - / : { } [ ]]: what a value may hold. *)
Definition plain_char (c : Z) : bool :=
  field_char true true c || bool_decide (c ∈ [47; 58; 91; 93; 123; 125]).
Definition plain (s : str) : Prop := Forall (λ c, plain_char c = true) s.

Definition known_keys : list str :=
  numbers ++ booleans ++ ids ++ labels ++ [B "method"; B "server"; B "route"].

(** ** Lemmas *)
Lemma OneOf_spec v vs : OneOf v vs = true ↔ v ∈ vs.
Proof.
  unfold OneOf. rewrite existsb_exists. setoid_rewrite bool_decide_eq_true.
  setoid_rewrite <- list_elem_of_In. naive_solver.
Qed.

Lemma forallb_plain (f : Z → bool) s :
  (∀ c, f c = true → plain_char c = true) → forallb f s = true → plain s.
Proof.
  intros Hf H. rewrite forallb_forall in H. apply Forall_forall. intros c Hc.
  apply Hf, H. by apply list_elem_of_In.
Qed.

Lemma field_char_plain u h c : field_char u h c = true → plain_char c = true.
Proof.
  unfold plain_char, field_char. rewrite !orb_true_iff, !andb_true_iff. tauto.
Qed.

Lemma ValidField_plain v n u h : ValidField v n u h = true → plain v.
Proof.
  unfold ValidField. destr_if; [done|]. apply forallb_plain. apply field_char_plain.
Qed.

Lemma code_char_plain c : code_char c = true → plain_char c = true.
Proof. intros H%ValidField_plain. by inversion H. Qed.

Lemma server_char_plain c : server_char c = true → plain_char c = true.
Proof.
  unfold server_char. rewrite !orb_true_iff, !Z.eqb_eq. intros [[[?| ->]| ->]| ->]; try done.
  by apply code_char_plain.
Qed.

Lemma route_char_plain c : route_char c = true → plain_char c = true.
Proof.
  unfold route_char. rewrite !orb_true_iff, !Z.eqb_eq. intros [[[[?| ->]| ->]| ->]| ->]; try done.
  by apply code_char_plain.
Qed.

Lemma digit_plain c : digit c = true → plain_char c = true.
Proof.
  intros H. apply (field_char_plain true true). unfold field_char. by rewrite H, orb_true_r.
Qed.

Lemma number_loop_plain s dig dot : number_loop s dig dot = true → plain s.
Proof.
  revert dig dot. induction s as [|c s IH]; intros dig dot; [constructor|]. cbn [number_loop].
  destruct (digit c) eqn:Ed; [intros H; constructor; [by apply digit_plain|by eapply IH]|].
  destruct (Z.eqb_spec c 46) as [->|]; cbn [andb]; [|done]. destr_if; [|done].
  intros H. constructor; [done|by eapply IH].
Qed.

Lemma ValidNumber_plain v : ValidNumber v = true → plain v.
Proof.
  unfold ValidNumber. destr_if; [done|]. destruct v as [|c s]; [done|].
  destruct (Z.eqb_spec c 45) as [->|]; [|apply number_loop_plain].
  intros H. constructor; [done|by eapply number_loop_plain].
Qed.

Lemma hex_char_plain c : hex_char c = true → plain_char c = true.
Proof.
  intros H. apply (field_char_plain true true). unfold hex_char in H. unfold field_char, lower_alpha, upper_alpha.
  rewrite !orb_true_iff, !andb_true_iff, !Z.leb_le in *. naive_solver lia.
Qed.

Lemma uuid_loop_plain i s : uuid_loop i s = true → plain s.
Proof.
  revert i. induction s as [|c s IH]; intros i; [constructor|]. cbn [uuid_loop].
  rewrite andb_true_iff. intros [Hc Hs]. constructor; [|by eapply IH].
  unfold uuid_char in Hc. destruct (decide _); [|by apply hex_char_plain].
  by apply Z.eqb_eq in Hc as ->.
Qed.

Lemma ValidContextValue_plain k v :
  ValidContextValue k v = true → k ∈ known_keys ∧ plain v.
Proof.
  unfold ValidContextValue, known_keys. rewrite !elem_of_app.
  destruct (OneOf k numbers) eqn:E1; [apply OneOf_spec in E1; eauto using ValidNumber_plain|].
  destruct (OneOf k booleans) eqn:E2.
  { apply OneOf_spec in E2. rewrite orb_true_iff, !bool_decide_eq_true.
    intros [-> | ->]; (split; [by auto|]); by repeat constructor. }
  destruct (OneOf k ids) eqn:E3.
  { apply OneOf_spec in E3. unfold ValidUuid. destr_if; [|done]. eauto 6 using uuid_loop_plain. }
  destruct (OneOf k labels) eqn:E4.
  { apply OneOf_spec in E4. rewrite andb_true_iff. intros [H _]. eauto 7 using ValidField_plain. }
  case_bool_decide as Em; [subst k|].
  { intros H%OneOf_spec. split; [do 4 right; constructor|].
    assert (Ha : Forall plain methods) by (repeat constructor). rewrite Forall_forall in Ha. auto. }
  case_bool_decide as Es; [subst k|].
  { destr_if; [done|]. intros H. split; [do 4 right; do 2 constructor|].
    eapply forallb_plain, H. apply server_char_plain. }
  case_bool_decide as Er; [subst k|done].
  destruct v as [|c v]; [done|]. destr_if; [done|]. intros H. split; [do 4 right; do 3 constructor|].
  eapply forallb_plain, H. apply route_char_plain.
Qed.

(** ** A context is a list of fields *)
Definition valid_field (kv : str * str) : Prop := ValidContextValue kv.1 kv.2 = true.

Lemma known_key_free k : k ∈ known_keys → (61 ∉ k) ∧ (32 ∉ k) ∧ plain k.
Proof.
  assert (H : Forall (λ k, (61 ∉ k) ∧ (32 ∉ k) ∧ Forall (λ c, plain_char c = true) k) known_keys).
  { apply (bool_decide_unpack _). by vm_compute. }
  rewrite Forall_forall in H. apply H.
Qed.

Lemma plain_notin c s : plain s → plain_char c = false → c ∉ s.
Proof. unfold plain. rewrite Forall_forall. intros H Hc Hin. apply H in Hin. congruence. Qed.

Lemma token_facts kv :
  valid_field kv → (61 ∉ kv.1) ∧ (32 ∉ token_of kv) ∧ plain kv.1 ∧ plain kv.2.
Proof.
  intros [Hk Hv]%ValidContextValue_plain. destruct (known_key_free _ Hk) as (H1 & H2 & H3).
  split_and!; [done| |done..]. unfold token_of. rewrite !elem_of_app, list_elem_of_singleton.
  intros [?|[?|?]]; [done..|]. by apply (plain_notin 32) in Hv.
Qed.

(** One round of the loop. *)
Lemma context_step left context token rest :
  match find_ch context 32 0 with
  | Some i => token = take i context ∧ rest = Some (drop (i + 1) context)
  | None => token = context ∧ rest = None
  end → context ≠ [] →
  context_loop (S left) context =
  match find_ch token 61 0 with
  | None => false
  | Some equal =>
    if negb (ValidContextValue (take equal token) (drop (equal + 1) token)) then false else
    match rest with
    | None => true
    | Some rest => if bool_decide (rest = []) then false else context_loop left rest
    end
  end.
Proof.
  intros H Hne. destruct context as [|c context]; [done|]. cbn [context_loop].
  destruct (find_ch (c :: context) 32 0); destruct H as [-> ->]; done.
Qed.

Lemma token_split kv : valid_field kv →
  find_ch (token_of kv) 61 0 = Some (length kv.1) ∧
  take (length kv.1) (token_of kv) = kv.1 ∧ drop (length kv.1 + 1) (token_of kv) = kv.2.
Proof.
  intros (Hk & _)%token_facts. unfold token_of. split_and!.
  - by apply find_ch_first.
  - by rewrite take_app_length.
  - rewrite app_assoc. apply drop_app_length'. rewrite length_app. cbn. lia.
Qed.

Lemma token_ne kv : token_of kv ≠ [].
Proof. unfold token_of. destruct kv.1; done. Qed.

Lemma join_cons kv fields : fields ≠ [] → join_tokens (kv :: fields) = token_of kv ++ [32] ++ join_tokens fields.
Proof. by destruct fields. Qed.

Lemma join_ne fields : fields ≠ [] → join_tokens fields ≠ [].
Proof.
  destruct fields as [|kv [|kv' fields]]; [done|intros _; apply token_ne|intros _; cbn [join_tokens]].
  intros [H _]%app_eq_nil. by apply token_ne in H.
Qed.

Lemma context_loop_join left fields :
  (length fields <= left)%nat → Forall valid_field fields → context_loop left (join_tokens fields) = true.
Proof.
  revert fields. induction left as [|left IH]; intros fields Hl Hv.
  { by destruct fields; [|cbn in Hl; lia]. }
  destruct fields as [|kv fields]; [done|]. apply Forall_cons in Hv as [Hkv Hv].
  destruct (token_split kv Hkv) as (E1 & E2 & E3). destruct (token_facts kv Hkv) as (_ & Hsp & _).
  unfold valid_field in Hkv.
  destruct (decide (fields = [])) as [->|Hne].
  - cbn [join_tokens]. rewrite (context_step _ _ (token_of kv) None); [|by rewrite find_ch_notin|apply token_ne].
    by rewrite E1, E2, E3, Hkv.
  - rewrite (context_step _ _ (token_of kv) (Some (join_tokens fields))); [|..|apply join_ne; done].
    + rewrite E1, E2, E3, Hkv. cbn [negb]. rewrite bool_decide_eq_false_2 by by apply join_ne.
      apply IH; [cbn in Hl; lia|done].
    + rewrite join_cons by done. cbn [app]. rewrite find_ch_first by done.
      rewrite take_app_length. split; [done|]. f_equal. symmetry.
      rewrite (app_assoc (token_of kv) [32] (join_tokens fields) : _ ++ 32 :: _ = _).
      apply drop_app_length'. rewrite length_app. cbn. lia.
Qed.

Lemma context_loop_fields left context :
  context_loop left context = true →
  ∃ fields, context = join_tokens fields ∧ (length fields <= left)%nat ∧ Forall valid_field fields.
Proof.
  revert context. induction left as [|left IH]; intros context H.
  { destruct context; [|done]. by exists []. }
  destruct (decide (context = [])) as [->|Hne]; [exists []; split_and!; [done|cbn; lia|done]|].
  destruct (find_ch context 32 0) as [i|] eqn:Es.
  - rewrite (context_step _ _ (take i context) (Some (drop (i + 1) context))) in H by by rewrite ?Es.
    apply find_ch_some in Es as (l & r & -> & <- & _).
    rewrite take_app_length in H.
    replace (drop (length l + 1) (l ++ 32 :: r)) with r in H.
    2: { rewrite (app_assoc l [32] r : l ++ 32 :: r = _). symmetry. apply drop_app_length'.
         rewrite length_app. cbn. lia. }
    destruct (find_ch l 61 0) as [e|] eqn:Ee; [|done].
    destruct (ValidContextValue _ _) eqn:Ev; [|done]. cbn [negb] in H.
    case_bool_decide; [done|]. destruct (IH _ H) as (fields & -> & Hl & Hf).
    exists ((take e l, drop (e + 1) l) :: fields). split_and!; [|cbn; lia|by constructor].
    apply find_ch_some in Ee as (k & v & -> & <- & _).
    rewrite join_cons by (by intros ->). unfold token_of. cbn [fst snd].
    rewrite take_app_length. rewrite (app_assoc k [61] v : k ++ 61 :: v = _) at 2.
    rewrite drop_app_length' by (rewrite length_app; cbn; lia). by rewrite <- !app_assoc.
  - rewrite (context_step _ _ context None) in H by by rewrite ?Es.
    destruct (find_ch context 61 0) as [e|] eqn:Ee; [|done].
    destruct (ValidContextValue _ _) eqn:Ev; [|done].
    exists [(take e context, drop (e + 1) context)]. split_and!; [|cbn; lia|by constructor].
    apply find_ch_some in Ee as (k & v & -> & <- & _). cbn. unfold token_of. cbn [fst snd].
    rewrite take_app_length. rewrite (app_assoc k [61] v : k ++ 61 :: v = _) at 2.
    rewrite drop_app_length' by (rewrite length_app; cbn; lia). done.
Qed.

Definition context_char (c : Z) : Prop := plain_char c = true ∨ c = 32 ∨ c = 61.

Lemma join_chars fields : Forall valid_field fields → Forall context_char (join_tokens fields).
Proof.
  assert (Ht : ∀ kv, valid_field kv → Forall context_char (token_of kv)).
  { intros kv (_ & _ & Hk & Hv)%token_facts. unfold token_of. rewrite !Forall_app.
    split_and!; [by eapply Forall_impl; [apply Hk|left]| |by eapply Forall_impl; [apply Hv|left]].
    apply Forall_singleton. unfold context_char. auto. }
  induction 1 as [|kv fields Hkv Hf IH]; [constructor|].
  destruct (decide (fields = [])) as [->|Hne]; [by apply Ht|].
  rewrite join_cons by done. rewrite !Forall_app. split_and!; [by apply Ht| |done].
  apply Forall_singleton. unfold context_char. auto.
Qed.

(** C27: the context checker accepts exactly the texts of at most 4096 bytes that
    are [key=value] fields, at most 64, separated by single spaces, each with a
    listed key and a value of its kind; so every byte of an accepted context is
    a letter, a digit or one of the marks _ . - / : { } [ ] = and space. *)
Theorem ValidContext_fields context :
  (ValidContext context = true ↔
    (length context <= 4096)%nat ∧
    ∃ fields, context = join_tokens fields ∧ (length fields <= 64)%nat ∧
      Forall (λ kv, ValidContextValue kv.1 kv.2 = true) fields) ∧
  (ValidContext context = true → Forall context_char context).
Proof.
  unfold ValidContext.
  destruct (Nat.ltb_spec 4096 (length context)); [split; [split; [done|lia]|done]|].
  split; [split|].
  - intros Hc. split; [done|]. by apply context_loop_fields.
  - intros (_ & fields & -> & Hl & Hf). by apply context_loop_join.
  - intros (fields & -> & _ & Hf)%context_loop_fields. by apply join_chars.
Qed.

Lemma ValidContext_fields_witness :
  Forall context_char (B "request_id=17 method=POST route=/api/v1/app/sessions/{id} rtt_ms=2.5 status=active") ∧
  ValidContext (B "route=/api/v1/app/login?token=private-token") = false.
Proof. split; [apply (ValidContext_fields _)|]; vm_compute; reflexivity. Defined.
