(* ===== verification/DebugLog.v ===== *)
(** * The debug log

    [windows/runner/debug_log.cpp]: the diagnostic log of the application and of
    its LocalSystem worker, with its settings, the check of directories and
    files before anything is written, rotation and formatting. Both files are
    opened exclusively, so a call sees only its own changes; every Win32 call
    may fail. A failed call is [Some e] with the last error [e]. *)
From S2P Require Import Prelude DebugFields LogFile.

Definition ERROR_SUCCESS : Z := 0.
Definition ERROR_PATH_NOT_FOUND : Z := 3.
Definition ERROR_ACCESS_DENIED : Z := 5.
Definition ERROR_INVALID_DATA : Z := 13.
Definition ERROR_NOT_READY : Z := 21.
Definition ERROR_WRITE_FAULT : Z := 29.
Definition ERROR_READ_FAULT : Z := 30.
Definition ERROR_GEN_FAILURE : Z := 31.
Definition ERROR_INVALID_PARAMETER : Z := 87.
Definition ERROR_ALREADY_EXISTS : Z := 183.
Definition ERROR_INVALID_OWNER : Z := 1307.
Definition ERROR_INVALID_ACL : Z := 1336.

Abbreviation call := (option Z).

Definition Win32Failure (error : Z) : Z := if error =? ERROR_SUCCESS then ERROR_GEN_FAILURE else error.

(** ** Security of an open object *)

(** A SID as [EqualSid] sees it against the two well-known ones. *)
Inductive Trustee := LocalSystem | Administrators | Other (id : Z).
#[export] Instance Trustee_eq_dec : EqDecision Trustee.
Proof. solve_decision. Defined.

Definition ACCESS_ALLOWED_ACE_TYPE : Z := 0.
Definition ACCESS_DENIED_ACE_TYPE : Z := 1.
Definition INHERIT_ONLY_ACE : Z := 8.

(** An ACE: [ace_size_ok] is the two size checks with [IsValidSid]. *)
Record Ace := mkAce {
  ace_get : bool; AceType : Z; AceFlags : Z; ace_size_ok : bool; ace_sid : Trustee; Mask : Z }.

(** What a handle tells: [GetFileInformationByHandle], then [GetSecurityInfo]. *)
Record Object := mkObject {
  ob_info : call;
  ob_reparse : bool; ob_directory : bool; ob_links : Z;
  ob_security : Z;                 (* the status of GetSecurityInfo *)
  ob_descriptor : bool;            (* valid, with control bits *)
  ob_dacl_present : bool; ob_acl_valid : bool; ob_owner : option Trustee;
  ob_well_known : call;            (* CreateWellKnownSid *)
  ob_protected : bool; ob_aces : list Ace }.

Definition all_ace_flags : Z := 31.

Record AclScan := mkScan { private_acl : bool; safe_parent_acl : bool; system : bool; admin : bool }.

#[export] Instance eta_AclScan : Settable AclScan := λ s,
  mkScan (private_acl s) (safe_parent_acl s) (system s) (admin s).

(** One round of the loop over the ACL; [None] is [return ERROR_INVALID_ACL]. *)
Definition scan_ace (s : AclScan) (a : Ace) : option AclScan :=
  if negb (ace_get a) then None else
  if (negb (AceType a =? ACCESS_ALLOWED_ACE_TYPE) && negb (AceType a =? ACCESS_DENIED_ACE_TYPE)) ||
     negb (Z.ldiff (AceFlags a) all_ace_flags =? 0) then None else
  if negb (ace_size_ok a) then None else
  let is_system := bool_decide (ace_sid a = LocalSystem) in
  let is_admin := bool_decide (ace_sid a = Administrators) in
  let allow := AceType a =? ACCESS_ALLOWED_ACE_TYPE in
  let s :=
    if allow && negb (SafeParentAllow (is_system || is_admin)
                        (negb (Z.land (AceFlags a) INHERIT_ONLY_ACE =? 0)) (Mask a))
    then s <| safe_parent_acl := false |> else s in
  let s := if negb (PrivateAllow allow (Mask a) (AceFlags a)) then s <| private_acl := false |> else s in
  if is_system && negb (system s) then Some (s <| system := true |>) else
  if is_admin && negb (admin s) then Some (s <| admin := true |>) else
  Some (s <| private_acl := false |>).

Fixpoint scan_acl (s : AclScan) (aces : list Ace) : option AclScan :=
  match aces with
  | [] => Some s
  | a :: aces => match scan_ace s a with Some s => scan_acl s aces | None => None end
  end.

(** The answer without the repair: a status or, in its place, [sec_tighten]. *)
Definition check_object (worker : bool) (h : Object) (use : SecurityUse) : Z + SecurityDecision :=
  let directory := negb (bool_decide (use = use_log_file)) in
  match ob_info h with
  | Some e => inl (Win32Failure e)
  | None =>
    if ob_reparse h || negb (bool_decide (ob_directory h = directory)) || negb (ob_links h =? 1)
    then inl ERROR_ACCESS_DENIED else
    if negb worker then inl ERROR_SUCCESS else
    if negb (ob_security h =? ERROR_SUCCESS) then inl (ob_security h) else
    if negb (ob_descriptor h && ob_dacl_present h && ob_acl_valid h) then inl ERROR_INVALID_ACL else
    match ob_owner h with
    | None => inl ERROR_INVALID_OWNER
    | Some owner =>
      match ob_well_known h with
      | Some e => inl (Win32Failure e)
      | None =>
        let privileged_owner := bool_decide (owner = LocalSystem) || bool_decide (owner = Administrators) in
        let private_acl0 := ob_protected h && (length (ob_aces h) =? 2)%nat in
        match scan_acl (mkScan private_acl0 true false false) (ob_aces h) with
        | None => inl ERROR_INVALID_ACL
        | Some s => inr (DecideSecurity use true privileged_owner (safe_parent_acl s)
                           (private_acl s && system s && admin s))
        end
      end
    end
  end.

(** [repair_acl] as the status of [SetSecurityInfo] and what the handle tells
    afterwards; the second call has no [repair_acl]. *)
Definition CheckHandle (worker : bool) (h : Object) (use : SecurityUse)
    (repair_acl : option (Z * Object)) : Z :=
  match check_object worker h use with
  | inl status => status
  | inr sec_accept => ERROR_SUCCESS
  | inr sec_reject => ERROR_ACCESS_DENIED
  | inr sec_tighten =>
    match repair_acl with
    | None => ERROR_ACCESS_DENIED
    | Some (repair, h') =>
      if negb (repair =? ERROR_SUCCESS) then repair else
      match check_object worker h' use with
      | inl status => status
      | inr sec_accept => ERROR_SUCCESS
      | inr _ => ERROR_ACCESS_DENIED
      end
    end
  end.

(** ** Writing *)

(** The [WriteFile] calls of one [WriteAll]: a failure, or the bytes written
    (all that remain, if the number is larger). *)
Abbreviation writes := (nat → Z + nat).

(** The status and the bytes that got into the file. *)
Fixpoint write_loop (fuel : nat) (w : writes) (n : nat) (data : str) : Z * str :=
  match data with
  | [] => (ERROR_SUCCESS, [])
  | _ =>
    match fuel with
    | O => (ERROR_SUCCESS, [])
    | S fuel' =>
      match w n with
      | inl e => (Win32Failure e, [])
      | inr written =>
        if (written =? 0)%nat then (ERROR_WRITE_FAULT, []) else
        let '(status, out) := write_loop fuel' w (S n) (drop written data) in
        (status, take written data ++ out)
      end
    end
  end.

(** Every round that goes on writes a byte. *)
Definition WriteAll (w : writes) (data : str) : Z * str := write_loop (length data) w 0 data.

(** [Seek] and [SetEndOfFile] and the like: the status of a call. *)
Definition status_of (c : call) : Z :=
  match c with None => ERROR_SUCCESS | Some e => Win32Failure e end.

Definition kMaxBytes : Z := 2 * 1024 * 1024.
Definition kChunk : Z := 16 * 1024.

(** The backup of a rotation: its open (an error or what the handle tells) and
    the calls in order; [ro_read n] is the [n]-th [ReadFile] of the log and
    [ro_write n] the writes of the [n]-th chunk. *)
Record RotateIO := mkRotateIO {
  ro_open : Z + Object; ro_seek_backup : call; ro_truncate_backup : call; ro_seek : call;
  ro_read : nat → Z + nat; ro_write : nat → writes; ro_flush : call;
  ro_rewind : call; ro_truncate : call }.

(** The copying loop: status and what was added to the backup. *)
Fixpoint copy_loop (fuel : nat) (io : RotateIO) (n : nat) (source : str) (remaining : Z) : Z * str :=
  if remaining <=? 0 then (ERROR_SUCCESS, []) else
  match fuel with
  | O => (ERROR_SUCCESS, [])
  | S fuel' =>
    let wanted := if remaining <? kChunk then remaining else kChunk in
    match ro_read io n with
    | inl e => (Win32Failure e, [])
    | inr read =>
      let chunk := take (Nat.min read (Z.to_nat wanted)) source in
      if bool_decide (chunk = []) then (ERROR_READ_FAULT, []) else
      let '(status, out) := WriteAll (ro_write io n) chunk in
      if negb (status =? ERROR_SUCCESS) then (status, out) else
      let '(status, out') := copy_loop fuel' io (S n) (drop (length chunk) source)
                               (remaining - Z.of_nat (length chunk)) in
      (status, out ++ out')
    end
  end.

(** Status, the log and the backup afterwards. *)
Definition Rotate (worker : bool) (io : RotateIO) (current backup : str) : Z * str * str :=
  match ro_open io with
  | inl e => (Win32Failure e, current, backup)
  | inr h =>
    let status := CheckHandle worker h use_log_file None in
    if negb (status =? ERROR_SUCCESS) then (status, current, backup) else
    let status := status_of (ro_seek_backup io) in
    if negb (status =? ERROR_SUCCESS) then (status, current, backup) else
    match ro_truncate_backup io with
    | Some e => (Win32Failure e, current, backup)
    | None =>
      let size := Z.of_nat (length current) in
      let start := if kMaxBytes <? size then size - kMaxBytes else 0 in
      let status := status_of (ro_seek io) in
      if negb (status =? ERROR_SUCCESS) then (status, current, []) else
      let remaining := if kMaxBytes <? size then kMaxBytes else size in
      let '(status, backup) := copy_loop (Z.to_nat remaining) io 0 (drop (Z.to_nat start) current) remaining in
      if negb (status =? ERROR_SUCCESS) then (status, current, backup) else
      match ro_flush io with
      | Some e => (Win32Failure e, current, backup)
      | None =>
        let status := status_of (ro_rewind io) in
        if negb (status =? ERROR_SUCCESS) then (status, current, backup) else
        match ro_truncate io with
        | None => (ERROR_SUCCESS, [], backup)
        | Some e => (Win32Failure e, current, backup)
        end
      end
    end
  end.

(** ** Lines *)
Record Clock := mkClock {
  ck_time : SystemTime; ck_zone : Z; ck_bias : Z; ck_daylight : Z; ck_standard : Z;
  ck_pid : Z; ck_tid : Z }.
Definition TIME_ZONE_ID_INVALID : Z := 0xffffffff.
Definition TIME_ZONE_ID_STANDARD : Z := 1.
Definition TIME_ZONE_ID_DAYLIGHT : Z := 2.

Definition resolve_level (event level error_type error_code : str) (os_error : option Z) (context : str) : str :=
  if bool_decide (level = []) || negb (ValidLevel level) then
    if negb (bool_decide (error_type = [])) || negb (bool_decide (error_code = [])) ||
       bool_decide (is_Some os_error) || suffixof (B ".failed") event || suffixof (B ".error") event
    then B "ERROR" else
    if containsb event (B ".blocked") || containsb event (B ".cancelled") ||
       containsb event (B ".timeout") || containsb event (B ".retry") ||
       containsb event (B ".dropped") || containsb context (B "result=http_error") ||
       containsb context (B "http_status=4") || containsb context (B "http_status=5")
    then B "WARN" else B "INFO"
  else level.

Definition line_prefix (ck : Clock) (level : str) : str :=
  let bias := ck_bias ck +
    (if ck_zone ck =? TIME_ZONE_ID_DAYLIGHT then ck_daylight ck else
     if ck_zone ck =? TIME_ZONE_ID_STANDARD then ck_standard ck else 0) in
  let offset := i32 (- i32 bias) in
  let absolute := if offset <? 0 then i32 (- offset) else offset in
  let st := ck_time ck in
  padded 4 (wYear st) ++ [45] ++ padded 2 (wMonth st) ++ [45] ++ padded 2 (wDay st) ++ [84] ++
  padded 2 (wHour st) ++ [58] ++ padded 2 (wMinute st) ++ [58] ++ padded 2 (wSecond st) ++ [46] ++
  padded 3 (wMilliseconds st) ++ [if offset <? 0 then 45 else 43] ++
  padded 2 (Z.quot absolute 60) ++ [58] ++ padded 2 (Z.rem absolute 60) ++
  B " pid=" ++ to_string (u32 (ck_pid ck)) ++ B " tid=" ++ to_string (u32 (ck_tid ck)) ++
  B " level=" ++ level ++ B " event=".

(** The [FLUTTER_VERSION] of the build, when there is one. *)
Definition version_part (version : option str) : str :=
  match version with
  | None => []
  | Some v =>
    if negb (bool_decide (v = [])) && (length v <=? 64)%nat &&
       forallb (λ c, (c =? 43) || ValidField [c] 1 true true) v
    then B " version=" ++ v else []
  end.

Definition opt_field (name v : str) : str := if bool_decide (v = []) then [] else name ++ v.

Definition Line (version : option str) (ck : Clock) (event level error_type error_code : str)
    (os_error : option Z) (context : str) : str :=
  if ck_zone ck =? TIME_ZONE_ID_INVALID then [] else
  let prefix := line_prefix ck (resolve_level event level error_type error_code os_error context) in
  if (180 <=? length prefix)%nat then [] else
  prefix ++ event ++ version_part version ++
  opt_field (B " error_type=") error_type ++ opt_field (B " error_code=") error_code ++
  match os_error with Some e => B " os_error=" ++ to_string e | None => [] end ++
  opt_field (B " ") context ++ [13; 10].

(** ** The module's state *)
Inductive Mode := gui | link_host.
#[export] Instance Mode_eq_dec : EqDecision Mode.
Proof. solve_decision. Defined.

Record DebugState := mkDebug {
  log_mode : Mode; initialized : bool; base_path : wstr; file_name : wstr; log_path : wstr }.

Definition Worker (d : DebugState) : bool := negb (bool_decide (log_mode d = gui)).

(** [folder]: what [SHGetKnownFolderPath] gives. *)
Definition Initialize (folder : option wstr) (mode : Mode) : DebugState :=
  let name := if bool_decide (mode = gui) then W "app-debug.log" else W "link-debug.log" in
  match folder with
  | Some path => mkDebug mode true path name (path ++ W "\Ligament\Logs\" ++ name)
  | None => mkDebug mode true [] name []
  end.

(** The registry's [DebugLogsEnabled], as [RegGetValueW] gives it, and the way
    to the user's key from the worker. *)
Record Settings := mkSettings {
  rg_hklm : option Z; rg_hkcu : option Z; rg_hku : wstr → option Z;
  rg_session : bool; rg_token : bool; rg_bytes : Z; rg_user : bool; rg_sid : option wstr }.

Definition ReadRegistry (value : option Z) : bool := bool_decide (value = Some 1).

Definition ReadEnabled (d : DebugState) (r : Settings) : bool :=
  if negb (initialized d) then false else
  if ReadRegistry (rg_hklm r) then true else
  if negb (Worker d) then ReadRegistry (rg_hkcu r) else
  if negb (rg_session r) || negb (rg_token r) then false else
  if (rg_bytes r =? 0) || (64 * 1024 <? rg_bytes r) then false else
  if negb (rg_user r) then false else
  match rg_sid r with
  | None => false
  | Some sid => ReadRegistry (rg_hku r sid)
  end.

(** ** Append *)
Record AppendIO := mkAppendIO {
  ap_descriptor : call; ap_dacl : bool;
  ap_mkdir_app : call; ap_open_app : Z + Object;
  ap_mkdir_dir : call; ap_open_dir : Z + Object; ap_repair : Z * Object;
  ap_open : Z + Object; ap_clock : Clock; ap_size : call; ap_rotate : RotateIO;
  ap_seek : call; ap_write : writes; ap_flush : call }.

(** [CreateDirectoryW] failed, and not because the directory is there. *)
Definition mkdir_failed (c : call) : option Z :=
  match c with
  | Some e => if e =? ERROR_ALREADY_EXISTS then None else Some e
  | None => None
  end.

(** An opened object that passed [CheckHandle], or the status to return. *)
Definition open_checked (worker : bool) (o : Z + Object) (use : SecurityUse)
    (repair : option (Z * Object)) : Z :=
  match o with inl e => Win32Failure e | inr h => CheckHandle worker h use repair end.

(** What comes before the log is written: descriptor, directories, the file. *)
Definition append_checks (worker : bool) (io : AppendIO) : Z :=
  match (if worker then ap_descriptor io else None) with
  | Some e => Win32Failure e
  | None =>
    if worker && negb (ap_dacl io) then ERROR_INVALID_ACL else
    match mkdir_failed (ap_mkdir_app io) with
    | Some e => Win32Failure e
    | None =>
      let status := open_checked worker (ap_open_app io) use_parent None in
      if negb (status =? ERROR_SUCCESS) then status else
      match mkdir_failed (ap_mkdir_dir io) with
      | Some e => Win32Failure e
      | None =>
        let status := open_checked worker (ap_open_dir io) use_log_directory
                        (if worker then Some (ap_repair io) else None) in
        if negb (status =? ERROR_SUCCESS) then status else
        open_checked worker (ap_open io) use_log_file None
      end
    end
  end.

(** Status, the log and the backup afterwards; an absent file counts as empty. *)
Definition append_line (worker : bool) (io : AppendIO) (line current backup : str) : Z * str * str :=
  if bool_decide (line = []) || (kMaxBytes <? Z.of_nat (length line))
  then (ERROR_INVALID_DATA, current, backup) else
  match ap_size io with
  | Some e => (Win32Failure e, current, backup)
  | None =>
    let '(status, current, backup) :=
      if kMaxBytes - Z.of_nat (length line) <? Z.of_nat (length current)
      then Rotate worker (ap_rotate io) current backup
      else (status_of (ap_seek io), current, backup) in
    if negb (status =? ERROR_SUCCESS) then (status, current, backup) else
    let '(status, out) := WriteAll (ap_write io) line in
    if negb (status =? ERROR_SUCCESS) then (status, current ++ out, backup) else
    (status_of (ap_flush io), current ++ out, backup)
  end.

Record Fields := mkFields {
  f_event : str; f_error_type : str; f_error_code : str; f_os_error : option Z;
  f_context : str; f_level : str }.

Definition backup_path (path : wstr) : wstr := path ++ W ".1".

Definition Append (version : option str) (d : DebugState) (io : AppendIO) (f : Fields) (fs : FS) : Z * FS :=
  if bool_decide (base_path d = []) || bool_decide (log_path d = []) then (ERROR_PATH_NOT_FOUND, fs) else
  let status := append_checks (Worker d) io in
  if negb (status =? ERROR_SUCCESS) then (status, fs) else
  let line := Line version (ap_clock io) (f_event f) (f_level f) (f_error_type f) (f_error_code f)
                (f_os_error f) (f_context f) in
  let '(status, current, backup) :=
    append_line (Worker d) io line (default [] (fs !! log_path d)) (default [] (fs !! backup_path (log_path d))) in
  (status, <[log_path d := current]> (<[backup_path (log_path d) := backup]> fs)).

(** ** Entry points *)
Definition valid_fields (f : Fields) : bool :=
  ValidEvent (f_event f) &&
  (bool_decide (f_level f = []) || ValidLevel (f_level f)) &&
  (bool_decide (f_error_type f = []) || ValidErrorType (f_error_type f)) &&
  (bool_decide (f_error_code f = []) || ValidErrorCode (f_error_code f)) &&
  ValidContext (f_context f).

(** The result, the diagnostic code and the files. *)
Definition Write (version : option str) (d : DebugState) (r : Settings) (io : AppendIO) (f : Fields)
    (fs : FS) : bool * Z * FS :=
  if negb (valid_fields f) then (false, ERROR_INVALID_PARAMETER, fs) else
  if negb (ReadEnabled d r) then (false, ERROR_NOT_READY, fs) else
  let '(status, fs) := Append version d io f fs in
  (status =? ERROR_SUCCESS, status, fs).

Definition just (event : str) : Fields := mkFields event [] [] None [] [].

(** [create] and [set_] are the statuses of [RegCreateKeyExW] and [RegSetValueExW]. *)
Definition SetEnabled (version : option str) (d : DebugState) (create set_ : Z) (enabled : bool)
    (io : AppendIO) (r : Settings) (fs : FS) : Z * Settings * FS :=
  if negb (initialized d) || Worker d then (ERROR_ACCESS_DENIED, r, fs) else
  if negb (create =? ERROR_SUCCESS) then (create, r, fs) else
  let previously_enabled := ReadEnabled d r in
  if negb (set_ =? ERROR_SUCCESS) then (set_, r, fs) else
  let r := mkSettings (rg_hklm r) (Some (if enabled then 1 else 0)) (rg_hku r) (rg_session r)
             (rg_token r) (rg_bytes r) (rg_user r) (rg_sid r) in
  let fs :=
    if enabled && ReadEnabled d r then (Append version d io (just (B "debug.enabled")) fs).2 else
    if negb enabled && previously_enabled then (Append version d io (just (B "debug.disabled")) fs).2 else fs in
  (ERROR_SUCCESS, r, fs).

Definition GetState (utf8 : wstr → str) (d : DebugState) (r : Settings) : bool * str :=
  (ReadEnabled d r, utf8 (log_path d)).

(** ** Lemmas: writing *)
Lemma Win32Failure_ne e : Win32Failure e ≠ ERROR_SUCCESS.
Proof. unfold Win32Failure. destruct (Z.eqb_spec e ERROR_SUCCESS); done. Qed.

Lemma status_of_ok c : status_of c = ERROR_SUCCESS ↔ c = None.
Proof. destruct c; simpl; [|done]. split; [|done]. by intros H%Win32Failure_ne. Qed.

(** A write loop with enough fuel: a prefix got written, all of it on success. *)
Lemma write_loop_spec fuel w n data :
  (length data <= fuel)%nat →
  ∃ rest, data = (write_loop fuel w n data).2 ++ rest ∧
    ((write_loop fuel w n data).1 = ERROR_SUCCESS → rest = []).
Proof.
  revert n data. induction fuel as [|fuel IH]; intros n data Hl.
  { destruct data; [by exists []|cbn in Hl; lia]. }
  destruct data as [|c data]; [by exists []|]. cbn [write_loop].
  destruct (w n) as [e|k]; [exists (c :: data); split; [done|]; by intros H%Win32Failure_ne|].
  destruct (Nat.eqb_spec k 0); [by exists (c :: data)|].
  destruct (IH (S n) (drop k (c :: data))) as (rest & E & Hs).
  { rewrite length_drop. cbn in *. lia. }
  destruct (write_loop _ _ _ _) as [st out]. cbn [fst snd] in *. exists rest.
  split; [|done]. rewrite <- app_assoc, <- E. by rewrite take_drop.
Qed.

Lemma WriteAll_spec w data :
  ∃ rest, data = (WriteAll w data).2 ++ rest ∧ ((WriteAll w data).1 = ERROR_SUCCESS → rest = []).
Proof. by apply write_loop_spec. Qed.

Lemma copy_loop_spec fuel io n source remaining :
  0 <= remaining <= Z.of_nat (length source) → remaining <= Z.of_nat fuel →
  ∃ rest, take (Z.to_nat remaining) source = (copy_loop fuel io n source remaining).2 ++ rest ∧
    ((copy_loop fuel io n source remaining).1 = ERROR_SUCCESS → rest = []).
Proof.
  revert n source remaining. induction fuel as [|fuel IH]; intros n source remaining Hr Hf.
  { assert (remaining = 0) as -> by lia. by exists []. }
  cbn [copy_loop]. destruct (Z.leb_spec remaining 0).
  { assert (remaining = 0) as -> by lia. by exists []. }
  set (whole := take (Z.to_nat remaining) source).
  destruct (ro_read io n) as [e|k]; [exists whole; split; [done|]; by intros He%Win32Failure_ne|].
  set (wanted := if remaining <? kChunk then remaining else kChunk).
  assert (Hw : 0 < wanted <= remaining).
  { unfold wanted. destruct (Z.ltb_spec remaining kChunk); [lia|]. unfold kChunk in *. lia. }
  set (chunk := take (k `min` Z.to_nat wanted) source).
  case_bool_decide as Hc; [by exists whole|].
  assert (Hlen : (0 < length chunk)%nat) by (destruct chunk; [done|cbn; lia]).
  assert (Hlw : (length chunk <= Z.to_nat remaining)%nat).
  { unfold chunk. rewrite length_take. lia. }
  assert (Hsrc : source = chunk ++ drop (length chunk) source).
  { unfold chunk. rewrite length_take.
    rewrite <- (take_drop (k `min` Z.to_nat wanted) source) at 1. f_equal.
    destruct (decide (k `min` Z.to_nat wanted <= length source)%nat).
    - f_equal. lia.
    - rewrite !drop_ge by lia. done. }
  assert (Hwhole : whole = chunk ++ take (Z.to_nat (remaining - Z.of_nat (length chunk)))
    (drop (length chunk) source)).
  { unfold whole. rewrite Hsrc at 1. rewrite take_app_ge by lia. f_equal. f_equal. lia. }
  rewrite Hwhole.
  destruct (WriteAll_spec (ro_write io n) chunk) as (r1 & E1 & Hs1).
  destruct (WriteAll (ro_write io n) chunk) as [st out]. cbn [fst snd] in *.
  destruct (Z.eqb_spec st ERROR_SUCCESS) as [->|]; cbn [negb].
  - rewrite (Hs1 eq_refl), app_nil_r in E1. rewrite <- E1.
    destruct (IH (S n) (drop (length chunk) source) (remaining - Z.of_nat (length chunk))) as (r2 & E2 & Hs2).
    { rewrite length_drop. lia. } { lia. }
    destruct (copy_loop _ _ _ _ _) as [st' out']. cbn [fst snd] in *.
    exists r2. rewrite E2, app_assoc. done.
  - eexists. split; [rewrite E1, <- app_assoc; reflexivity|done].
Qed.

(** The last 2 MB of a file. *)
Definition last_bytes (c : str) : str := drop (length c - Z.to_nat kMaxBytes) c.
Definition small (c : str) : Prop := Z.of_nat (length c) <= kMaxBytes.

Lemma last_bytes_small c : small (last_bytes c).
Proof. unfold small, last_bytes. rewrite length_drop. assert (kMaxBytes = 2097152) by done. lia. Qed.

(** What a rotation does to the two files. *)
Lemma Rotate_spec worker io current backup :
  let '(status, current', backup') := Rotate worker io current backup in
  (status = ERROR_SUCCESS → current' = [] ∧ backup' = last_bytes current) ∧
  (status ≠ ERROR_SUCCESS → current' = current) ∧ (small backup → small backup').
Proof.
  unfold Rotate.
  destruct (ro_open io) as [e|h]; [split_and!; try done; by intros H%Win32Failure_ne|].
  destruct (Z.eqb_spec (CheckHandle worker h use_log_file None) ERROR_SUCCESS); cbn [negb]; [|done].
  destruct (Z.eqb_spec (status_of (ro_seek_backup io)) ERROR_SUCCESS); cbn [negb]; [|done].
  destruct (ro_truncate_backup io) as [e'|]; [split_and!; try done; by intros H%Win32Failure_ne|].
  cbv zeta. assert (Hk : kMaxBytes = 2097152) by done.
  destruct (Z.eqb_spec (status_of (ro_seek io)) ERROR_SUCCESS); cbn [negb];
    [|split_and!; try done; intros; unfold small; cbn; lia].
  set (size := Z.of_nat (length current)).
  set (start := if kMaxBytes <? size then size - kMaxBytes else 0).
  set (remaining := if kMaxBytes <? size then kMaxBytes else size).
  assert (Hsr : 0 <= start ∧ 0 <= remaining <= kMaxBytes ∧ start + remaining = size).
  { unfold start, remaining. destruct (Z.ltb_spec kMaxBytes size); unfold size in *; lia. }
  destruct (copy_loop_spec (Z.to_nat remaining) io 0 (drop (Z.to_nat start) current) remaining)
    as (rest & E & Hs); [rewrite length_drop; unfold size in *; lia|lia|].
  assert (Ecp : take (Z.to_nat remaining) (drop (Z.to_nat start) current) = last_bytes current).
  { rewrite take_ge by (rewrite length_drop; unfold size in *; lia).
    unfold last_bytes. f_equal. unfold start. destruct (Z.ltb_spec kMaxBytes size); unfold size in *; lia. }
  rewrite Ecp in E. destruct (copy_loop _ _ _ _ _) as [st out]. cbn [fst snd] in E, Hs.
  assert (Hout : small out).
  { pose proof (last_bytes_small current) as Hl. unfold small in *. rewrite E, length_app in Hl. lia. }
  destruct (Z.eqb_spec st ERROR_SUCCESS) as [->|]; cbn [negb]; [|done].
  rewrite (Hs eq_refl), app_nil_r in E. subst out.
  destruct (ro_flush io) as [e'|]; [split_and!; try done; by intros H%Win32Failure_ne|].
  destruct (Z.eqb_spec (status_of (ro_rewind io)) ERROR_SUCCESS); cbn [negb]; [|done].
  destruct (ro_truncate io) as [e'|]; [split_and!; try done; by intros H%Win32Failure_ne|done].
Qed.

(** ** Lemmas: a line is one line *)
Definition printable (s : str) : Prop := Forall (λ c, 32 <= c < 127) s.

Lemma plain_printable s : plain s → printable s.
Proof.
  intros H. eapply Forall_impl; [exact H|]. intros c Hc. unfold plain_char, field_char in Hc.
  unfold lower_alpha, upper_alpha, digit in Hc.
  rewrite !orb_true_iff, !andb_true_iff, !Z.leb_le, !Z.eqb_eq, bool_decide_eq_true in Hc.
  rewrite !elem_of_cons, elem_of_nil in Hc. lia.
Qed.

Lemma field_printable v n u h : ValidField v n u h = true → printable v.
Proof. intros H. by eapply plain_printable, ValidField_plain. Qed.

Lemma context_printable c : ValidContext c = true → printable c.
Proof.
  unfold ValidContext. destr_if; [done|]. intros (fields & -> & _ & Hf)%context_loop_fields.
  eapply Forall_impl; [by apply join_chars|]. intros x [Hx|[-> | ->]]; [|lia..].
  assert (H : plain [x]) by by constructor. apply plain_printable in H. by inversion H.
Qed.

Lemma decimal_printable z : printable (to_string z).
Proof. eapply Forall_impl; [apply to_string_decimal|]. unfold decimal_char. lia. Qed.

Lemma padded_printable w z : printable (padded w z).
Proof.
  unfold padded. apply Forall_app. split; [|apply decimal_printable].
  apply Forall_forall. intros c [-> _]%elem_of_replicate. lia.
Qed.

Lemma printable_app a b : printable a → printable b → printable (a ++ b).
Proof. unfold printable. rewrite Forall_app. done. Qed.

Lemma printable_one c : 32 <= c < 127 → printable [c].
Proof. by constructor. Qed.

Lemma printable_dec_unpack s : bool_decide (printable s) = true → printable s.
Proof. apply bool_decide_eq_true_1. Qed.

Lemma opt_field_printable name v : printable name → printable v → printable (opt_field name v).
Proof. unfold opt_field. case_bool_decide; [constructor|]. intros. by apply printable_app. Qed.

Create HintDb printable.
#[export] Hint Resolve printable_app padded_printable decimal_printable opt_field_printable : printable.
#[export] Hint Extern 2 (printable [_]) => (apply printable_one; lia) : printable.
#[export] Hint Extern 2 (printable (B _)) => (apply printable_dec_unpack; vm_compute; reflexivity) : printable.

Lemma level_printable event level et ec os ctx : printable (resolve_level event level et ec os ctx).
Proof.
  unfold resolve_level. destruct (_ || negb (ValidLevel level)) eqn:E.
  { repeat destr_if; auto with printable. }
  apply orb_false_iff in E as [_ E%negb_false_iff]. unfold ValidLevel in E.
  rewrite !orb_true_iff, !bool_decide_eq_true in E. destruct E as [[-> | ->]| ->]; auto with printable.
Qed.
#[export] Hint Resolve level_printable : printable.

Lemma prefix_printable ck level : printable level → printable (line_prefix ck level).
Proof.
  intros. unfold line_prefix. cbv zeta.
  repeat first [apply padded_printable | apply printable_app]; auto with printable.
  apply printable_one. by destruct (_ <? 0).
Qed.

Lemma version_printable v : printable (version_part v).
Proof.
  unfold version_part. destruct v as [v|]; [|constructor]. destr_if; [|constructor].
  apply printable_app; [auto with printable|]. rewrite !andb_true_iff, forallb_forall in E.
  apply Forall_forall. intros c Hc. apply list_elem_of_In in Hc.
  destruct E as [_ E]. specialize (E c Hc). apply orb_true_iff in E as [->%Z.eqb_eq|E]; [lia|].
  apply field_printable in E. by inversion E.
Qed.
#[export] Hint Resolve prefix_printable version_printable : printable.

Lemma valid_fields_printable f : valid_fields f = true →
  printable (f_event f) ∧ printable (f_error_type f) ∧ printable (f_error_code f) ∧ printable (f_context f).
Proof.
  unfold valid_fields. rewrite !andb_true_iff, !orb_true_iff, !bool_decide_eq_true.
  intros [[[[He _] Ht] Hc] Hx]. split_and!.
  - by eapply field_printable.
  - destruct Ht as [-> |Ht]; [constructor|by eapply field_printable].
  - destruct Hc as [-> |Hc]; [constructor|by eapply field_printable].
  - by apply context_printable.
Qed.

Lemma Line_one version ck f line :
  valid_fields f = true →
  Line version ck (f_event f) (f_level f) (f_error_type f) (f_error_code f) (f_os_error f) (f_context f) = line →
  line = [] ∨ ∃ text, line = text ++ [13; 10] ∧ printable text.
Proof.
  intros (H1 & H2 & H3 & H4)%valid_fields_printable <-. unfold Line.
  destr_if; [by left|]. cbv zeta. destr_if; [by left|]. right.
  eexists. rewrite !app_assoc. split; [reflexivity|].
  repeat first [apply prefix_printable | apply version_printable | apply opt_field_printable
    | apply printable_app]; auto with printable.
  destruct (f_os_error f); [|constructor]. auto with printable.
Qed.

(** ** What a call does to the files *)

(** The files after a line, or a part of it, was given to the log. *)
Lemma append_line_spec worker io line current backup :
  let '(status, current', backup') := append_line worker io line current backup in
  (status = ERROR_SUCCESS → line ≠ [] ∧
    (current' = current ++ line ∧ backup' = backup ∨
     current' = line ∧ backup' = last_bytes current ∧ ¬ small (current ++ line))) ∧
  (small current → small current') ∧ (small backup → small backup').
Proof.
  unfold append_line. assert (Hk : kMaxBytes = 2097152) by done.
  case_bool_decide as Hne; [done|]. cbn [orb].
  destruct (Z.ltb_spec kMaxBytes (Z.of_nat (length line))); [done|].
  destruct (ap_size io) as [e|]; [split; [by intros He%Win32Failure_ne|done]|].
  destruct (WriteAll_spec (ap_write io) line) as (rest & E & Hs).
  destruct (Z.ltb_spec (kMaxBytes - Z.of_nat (length line)) (Z.of_nat (length current))) as [Hl|Hl].
  - pose proof (Rotate_spec worker (ap_rotate io) current backup) as HR.
    destruct (Rotate _ _ _ _) as [[st c1] b1]. destruct HR as (Hok & Hbad & Hsm).
    destruct (Z.eqb_spec st ERROR_SUCCESS) as [->|]; cbn [negb]; cycle 1.
    { rewrite Hbad by done. done. }
    destruct (Hok eq_refl) as [-> ->]. destruct (WriteAll _ _) as [st out]. cbn [fst snd] in E, Hs.
    assert (small out).
    { unfold small. apply (f_equal length) in E. rewrite length_app in E. lia. }
    destruct (Z.eqb_spec st ERROR_SUCCESS) as [->|]; cbn [negb]; [|done].
    rewrite (Hs eq_refl), app_nil_r in E. subst out. split_and!; [|done..].
    intros _. split; [done|]. right. split_and!; [done..|].
    unfold small. rewrite length_app. lia.
  - destruct (Z.eqb_spec (status_of (ap_seek io)) ERROR_SUCCESS); cbn [negb]; [|done].
    destruct (WriteAll _ _) as [st out]. cbn [fst snd] in E, Hs.
    assert (small (current ++ out)).
    { unfold small. apply (f_equal length) in E. rewrite length_app in E |- *. lia. }
    destruct (Z.eqb_spec st ERROR_SUCCESS) as [->|]; cbn [negb]; [|done].
    rewrite (Hs eq_refl), app_nil_r in E. subst out. split_and!; [|done..]. intros _. split; [done|].
    by left.
Qed.

Lemma backup_path_ne path : backup_path path ≠ path.
Proof. by apply app_ne_self. Qed.

Definition content (fs : FS) (path : wstr) : str := default [] (fs !! path).

(** C26: a write that succeeds was enabled, its fields were valid and directories
    and file had passed the security check; the log then ends with one more line
    of printable ASCII and CR LF, after the old content, or alone when the old
    content was full, the backup then holding its last 2 MB. Whatever fails, no
    other file is touched, log and backup do not outgrow 2 MB, and a call that is
    refused by its fields or the settings changes nothing. *)
Theorem Write_appends version d r io f fs :
  let '(ok, status, fs') := Write version d r io f fs in
  let path := log_path d in
  (ok = true ↔ status = ERROR_SUCCESS) ∧
  (ok = true →
    ReadEnabled d r = true ∧ valid_fields f = true ∧ append_checks (Worker d) io = ERROR_SUCCESS ∧
    ∃ text, printable text ∧
      (content fs' path = content fs path ++ text ++ [13; 10] ∧
         content fs' (backup_path path) = content fs (backup_path path) ∨
       content fs' path = text ++ [13; 10] ∧
         content fs' (backup_path path) = last_bytes (content fs path) ∧
         ¬ small (content fs path ++ text ++ [13; 10]))) ∧
  (small (content fs path) → small (content fs' path)) ∧
  (small (content fs (backup_path path)) → small (content fs' (backup_path path))) ∧
  (∀ q, q ≠ path → q ≠ backup_path path → fs' !! q = fs !! q) ∧
  (ReadEnabled d r && valid_fields f = false → fs' = fs).
Proof.
  unfold Write. destruct (valid_fields f) eqn:Hv; cbn [negb]; [|by rewrite andb_false_r].
  destruct (ReadEnabled d r) eqn:He; cbn [negb]; [|done].
  unfold Append. destruct (bool_decide (base_path d = []) || _) eqn:Hp; [done|].
  destruct (Z.eqb_spec (append_checks (Worker d) io) ERROR_SUCCESS) as [Hc|Hc]; cbn [negb]; cycle 1.
  { destruct (Z.eqb_spec (append_checks (Worker d) io) ERROR_SUCCESS); done. }
  set (line := Line _ _ _ _ _ _ _ _).
  destruct (Line_one version (ap_clock io) f line Hv eq_refl) as [E|(text & E & Ht)].
  { rewrite E. cbn. unfold content. rewrite lookup_insert_eq, lookup_insert_ne, lookup_insert_eq
      by (apply not_eq_sym, backup_path_ne). cbn.
    split_and!; try done. intros q Hq1 Hq2. by rewrite !lookup_insert_ne by done. }
  pose proof (append_line_spec (Worker d) io line (default [] (fs !! log_path d))
    (default [] (fs !! backup_path (log_path d)))) as Ha.
  destruct (append_line _ _ _ _ _) as [[st c1] b1]. destruct Ha as (Hok & Hs1 & Hs2).
  unfold content. rewrite lookup_insert_eq, lookup_insert_ne, lookup_insert_eq
    by (apply not_eq_sym, backup_path_ne).
  change (default [] (Some c1)) with c1. change (default [] (Some b1)) with b1.
  split_and!; try done; [by rewrite Z.eqb_eq..| |].
  - intros Hst%Z.eqb_eq. split_and!; [done..|]. exists text. split; [done|].
    destruct (Hok Hst) as [_ Hcur]. by rewrite E in Hcur.
  - intros q Hq1 Hq2. by rewrite !lookup_insert_ne by done.
Qed.

Definition demo_object (directory : bool) : Object :=
  mkObject None false directory 1 0 true true true (Some LocalSystem) None true
    [mkAce true 0 3 true LocalSystem kFileAllAccess; mkAce true 0 3 true Administrators kFileAllAccess].
Definition demo_debug : DebugState := Initialize (Some (W "C:\ProgramData")) link_host.
Definition demo_settings : Settings :=
  mkSettings (Some 1) None (λ _, None) false false 0 false None.
Definition demo_rotate : RotateIO :=
  mkRotateIO (inr (demo_object false)) None None None (λ _, inr 4096%nat) (λ _ _, inr 4096%nat) None None None.
Definition demo_io : AppendIO :=
  mkAppendIO None true (Some ERROR_ALREADY_EXISTS) (inr (demo_object true)) None (inr (demo_object true))
    (0, demo_object true) (inr (demo_object false))
    (mkClock (mkSystemTime 2026 1 2 3 4 5 6) 1 (-180) (-60) 0 77 78) None demo_rotate None (λ _, inr 9%nat) None.
Definition demo_fields : Fields :=
  mkFields (B "link.connect.failed") (B "SocketException") [] (Some 10061) (B "attempt=2 status=active") [].

Lemma Write_appends_witness :
  let '(ok, status, fs') := Write None demo_debug demo_settings demo_io demo_fields ∅ in
  ok = true ∧ ∃ text, printable text ∧ content fs' (log_path demo_debug) = text ++ [13; 10].
Proof.
  pose proof (Write_appends None demo_debug demo_settings demo_io demo_fields ∅) as H.
  assert (E : (Write None demo_debug demo_settings demo_io demo_fields ∅).1.1 = true) by (vm_compute; reflexivity).
  destruct (Write _ _ _ _ _ _) as [[ok st] fs']. cbn [fst] in E. subst ok.
  destruct H as (_ & H & _). destruct (H eq_refl) as (_ & _ & _ & text & Ht & Hc).
  split; [reflexivity|]. exists text. split; [exact Ht|]. by destruct Hc as [[Hc _]|[Hc _]].
Defined.

(** ** What the security check accepts *)

(** An ACE that grants everything to its trustee, effective on the object. *)
Definition full_grant (t : Trustee) (a : Ace) : Prop :=
  ace_get a = true ∧ ace_size_ok a = true ∧ AceType a = ACCESS_ALLOWED_ACE_TYPE ∧
  Z.ldiff (AceFlags a) kPrivateAceFlags = 0 ∧ ace_sid a = t ∧ Mask a = kFileAllAccess.

(** The DACL is protected, and is exactly full access for SYSTEM and for the
    administrators. *)
Definition private_dacl (h : Object) : Prop :=
  ob_protected h = true ∧
  ∃ a b, ob_aces h = [a; b] ∧
    (full_grant LocalSystem a ∧ full_grant Administrators b ∨
     full_grant Administrators a ∧ full_grant LocalSystem b).

Definition privileged (t : Trustee) : Prop := t = LocalSystem ∨ t = Administrators.

(** What an allowing ACE of a parent may grant to others. *)
Definition harmless (a : Ace) : Prop :=
  AceType a = ACCESS_ALLOWED_ACE_TYPE →
  privileged (ace_sid a) ∨ Z.land (AceFlags a) INHERIT_ONLY_ACE ≠ 0 ∨
  Z.ldiff (Mask a) kParentReadOnlyAccess = 0.

(** The right kind of object, not a link of any sort. *)
Definition genuine (use : SecurityUse) (h : Object) : Prop :=
  ob_info h = None ∧ ob_reparse h = false ∧ ob_links h = 1 ∧
  (ob_directory h = true ↔ use ≠ use_log_file).

(** Every query about the object's security is answered. *)
Definition answered (h : Object) : Prop :=
  ob_security h = ERROR_SUCCESS ∧ ob_descriptor h = true ∧ ob_dacl_present h = true ∧
  ob_acl_valid h = true ∧ ob_well_known h = None ∧ (∃ o, ob_owner h = Some o).

Lemma scan_ace_safe s a s' :
  scan_ace s a = Some s' → safe_parent_acl s' = true → safe_parent_acl s = true ∧ harmless a.
Proof.
  unfold scan_ace. destruct (ace_get a); [|done]. cbn [negb]. destr_if; [done|].
  destruct (ace_size_ok a); [|done]. cbn [negb]. cbv zeta.
  set (bad := _ && negb (SafeParentAllow _ _ _)). intros H Hs.
  assert (Hb : bad = false ∧ safe_parent_acl s = true).
  { revert H Hs. destruct bad; repeat case_match; intros [= <-] Hs;
      first [discriminate Hs | split; [reflexivity|exact Hs]]. }
  destruct Hb as [Hb ?]. split; [done|]. intros Hty. unfold bad in Hb. rewrite Hty in Hb.
  apply andb_false_iff in Hb as [Hb|Hb%negb_false_iff]; [done|]. unfold SafeParentAllow in Hb.
  rewrite !orb_true_iff, !bool_decide_eq_true, negb_true_iff, Z.eqb_neq, Z.eqb_eq in Hb.
  unfold privileged. tauto.
Qed.

Lemma scan_acl_safe s aces s' :
  scan_acl s aces = Some s' → safe_parent_acl s' = true → safe_parent_acl s = true ∧ Forall harmless aces.
Proof.
  revert s. induction aces as [|a aces IH]; intros s; cbn [scan_acl]; [by intros [= ->]|].
  destruct (scan_ace s a) as [s1|] eqn:E; [|done]. intros H Hs.
  destruct (IH _ H Hs) as [H1 H2]. destruct (scan_ace_safe _ _ _ E H1). split; [done|by constructor].
Qed.

Lemma scan_ace_private s a s' :
  scan_ace s a = Some s' → private_acl s' = true →
  private_acl s = true ∧
  (full_grant LocalSystem a ∧ system s = false ∧ system s' = true ∧ admin s' = admin s ∨
   full_grant Administrators a ∧ admin s = false ∧ admin s' = true ∧ system s' = system s).
Proof.
  unfold scan_ace, full_grant. destruct (ace_get a); [|done]. cbn [negb]. destr_if; [done|].
  destruct (ace_size_ok a); [|done]. cbn [negb]. cbv zeta.
  set (bad := _ && negb (SafeParentAllow _ _ _)).
  destruct (PrivateAllow _ _ _) eqn:Ep; cbn [negb]; cycle 1.
  { intros H Hs. exfalso. revert H Hs.
    destruct bad; repeat case_match; intros [= <-] Hs; discriminate Hs. }
  unfold PrivateAllow in Ep. rewrite !andb_true_iff, !Z.eqb_eq in Ep. destruct Ep as [[Ha Hm] Hf].
  assert (Hsame : ∀ s0, s0 = (if bad then s <| safe_parent_acl := false |> else s) →
    private_acl s0 = private_acl s ∧ system s0 = system s ∧ admin s0 = admin s).
  { intros s0 ->. by destruct bad. }
  destruct (Hsame _ eq_refl) as (E1 & E2 & E3). clear Hsame. set (s0 := if bad then _ else s) in *.
  rewrite <- E1, <- E2, <- E3. clearbody s0. clear bad E1 E2 E3.
  case_bool_decide as Hsys; cbn [andb].
  - rewrite (bool_decide_eq_false_2 (ace_sid a = Administrators)) by by rewrite Hsys.
    cbn [andb]. destruct (system s0) eqn:Es; cbn [negb]; intros [= <-] Hp; [discriminate Hp|].
    split; [exact Hp|]. left. split_and!; done.
  - case_bool_decide as Had; cbn [andb]; [|intros [= <-] Hp; discriminate Hp].
    destruct (admin s0) eqn:Es; cbn [negb]; intros [= <-] Hp; [discriminate Hp|].
    split; [exact Hp|]. right. split_and!; done.
Qed.

Lemma ldiff_weaken a : Z.ldiff a kPrivateAceFlags = 0 → Z.ldiff a all_ace_flags = 0.
Proof.
  intros H. apply Z.bits_inj'. intros n Hn. apply (f_equal (λ z, Z.testbit z n)) in H.
  rewrite Z.ldiff_spec, Z.bits_0 in *. destruct (Z.testbit a n); [|done]. cbn [andb] in *.
  apply negb_false_iff in H. apply negb_false_iff. revert H.
  change kPrivateAceFlags with (Z.ones 2). change all_ace_flags with (Z.ones 5).
  rewrite !Z.testbit_ones_nonneg by lia. rewrite !Z.ltb_lt. lia.
Qed.

(** The scan of a full grant to a trustee not met yet. *)
Lemma scan_ace_full s a t :
  full_grant t a → (t = LocalSystem ∧ system s = false ∨ t = Administrators ∧ admin s = false) →
  scan_ace s a = Some (if bool_decide (t = LocalSystem) then s <| system := true |> else s <| admin := true |>).
Proof.
  intros (Hg & Hz & Hty & Hf & Hsid & Hm) Ht. unfold scan_ace, PrivateAllow, SafeParentAllow.
  rewrite Hg, Hz, Hty, Hsid, Hm, Hf, (ldiff_weaken _ Hf), !Z.eqb_refl. cbn [negb andb orb].
  destruct Ht as [[-> Hs]|[-> Hs]].
  - rewrite !(bool_decide_eq_true_2 (LocalSystem = LocalSystem)) by done. cbn [negb andb orb].
    rewrite Hs. done.
  - rewrite !(bool_decide_eq_false_2 (Administrators = LocalSystem)) by done.
    rewrite !(bool_decide_eq_true_2 (Administrators = Administrators)) by done. cbn [negb andb orb].
    rewrite Hs. done.
Qed.

(** The two flags that the decision uses. *)
Lemma scan_private h :
  (∃ s, scan_acl (mkScan (ob_protected h && (length (ob_aces h) =? 2)%nat) true false false) (ob_aces h) = Some s ∧
    private_acl s && system s && admin s = true) ↔ private_dacl h.
Proof.
  unfold private_dacl. split.
  - intros (s & Hscan & Hp). rewrite !andb_true_iff in Hp. destruct Hp as [[Hp Hsy] Had].
    destruct (ob_aces h) as [|a [|b [|c l]]].
    + cbn in Hscan. by simplify_eq.
    + cbn [scan_acl] in Hscan. destruct (scan_ace _ a) as [s1|] eqn:Ea; [|done]. injection Hscan as ->.
      destruct (scan_ace_private _ _ _ Ea Hp) as [Hp0 _]. cbn in Hp0. by rewrite andb_false_r in Hp0.
    + cbn [scan_acl] in Hscan. destruct (scan_ace _ a) as [s1|] eqn:Ea; [|done].
      destruct (scan_ace s1 b) as [s2|] eqn:Eb; [|done]. injection Hscan as ->.
      destruct (scan_ace_private _ _ _ Eb Hp) as [Hp1 Hb].
      destruct (scan_ace_private _ _ _ Ea Hp1) as [Hp0 Ha]. cbn in Hp0, Ha.
      apply andb_true_iff in Hp0 as [Hprot _].
      split; [done|]. exists a, b. split; [done|].
      destruct Ha as [(Ga & _ & Sa & Aa)|(Ga & _ & Aa & Sa)], Hb as [(Gb & Fb & Sb & Ab)|(Gb & Fb & Ab & Sb)];
        try congruence; auto.
    + exfalso.
      assert (Hno : ∀ aces s0, scan_acl s0 aces = Some s → private_acl s0 = true).
      { intros aces. induction aces as [|x aces IH]; intros s0; cbn [scan_acl]; [by intros [= ->]|].
        destruct (scan_ace s0 x) eqn:Ex; [|done]. intros Hs. by apply (scan_ace_private _ _ _ Ex), IH. }
      apply Hno in Hscan. cbn in Hscan. by rewrite andb_false_r in Hscan.
  - intros (Hp & a & b & -> & Hab). rewrite Hp. cbn [length Nat.eqb andb scan_acl].
    destruct Hab as [[Ha Hb]|[Ha Hb]].
    + rewrite (scan_ace_full _ a _ Ha) by auto. rewrite (scan_ace_full _ b _ Hb) by auto. eexists. done.
    + rewrite (scan_ace_full _ a _ Ha) by auto. rewrite (scan_ace_full _ b _ Hb) by auto. eexists. done.
Qed.

Lemma check_object_inr h use dec :
  check_object true h use = inr dec →
  genuine use h ∧ ∃ owner s,
    ob_owner h = Some owner ∧
    scan_acl (mkScan (ob_protected h && (length (ob_aces h) =? 2)%nat) true false false) (ob_aces h) = Some s ∧
    dec = DecideSecurity use true (bool_decide (owner = LocalSystem) || bool_decide (owner = Administrators))
            (safe_parent_acl s) (private_acl s && system s && admin s).
Proof.
  unfold check_object, genuine. destruct (ob_info h); [done|]. cbv zeta.
  destruct (ob_reparse h || _ || _) eqn:E; [done|]. cbn [negb].
  destruct (ob_security h =? ERROR_SUCCESS); [|done]. cbn [negb]. destr_if; [done|].
  destruct (ob_owner h) as [o|]; [|done]. destruct (ob_well_known h); [done|].
  destruct (scan_acl _ _) as [s|]; [|done]. intros [= <-].
  rewrite !orb_false_iff, !negb_false_iff, Z.eqb_eq, bool_decide_eq_true in E.
  destruct E as [[Er Ed] El]. split; [split_and!; [done..|]|by exists o, s].
  rewrite Ed, negb_true_iff, bool_decide_eq_false. done.
Qed.

Lemma check_object_inl h use status :
  check_object true h use = inl status → status ≠ ERROR_SUCCESS.
Proof.
  unfold check_object. destruct (ob_info h); [intros [= <-]; apply Win32Failure_ne|]. cbv zeta.
  destr_if; [by intros [= <-]|]. cbn [negb].
  destruct (Z.eqb_spec (ob_security h) ERROR_SUCCESS); [|by intros [= <-]]. cbn [negb].
  destr_if; [by intros [= <-]|]. destruct (ob_owner h); [|by intros [= <-]].
  destruct (ob_well_known h); [intros [= <-]; apply Win32Failure_ne|].
  destruct (scan_acl _ _); [done|]. by intros [= <-].
Qed.

(** An accepted object, before any repair. *)
Definition acceptable (use : SecurityUse) (h : Object) : Prop :=
  genuine use h ∧ (∃ owner, ob_owner h = Some owner ∧ privileged owner) ∧
  match use with use_parent => Forall harmless (ob_aces h) | _ => private_dacl h end.

Lemma privileged_spec o :
  bool_decide (o = LocalSystem) || bool_decide (o = Administrators) = true ↔ privileged o.
Proof. unfold privileged. by rewrite orb_true_iff, !bool_decide_eq_true. Qed.

Lemma check_object_accept h use :
  check_object true h use = inr sec_accept → acceptable use h.
Proof.
  intros (Hg & o & s & Ho & Hs & Hd)%check_object_inr. unfold acceptable.
  unfold DecideSecurity in Hd. cbn [negb orb] in Hd.
  destruct (bool_decide (o = LocalSystem) || _) eqn:Hp; [|done]. cbn [negb] in Hd.
  apply privileged_spec in Hp. split_and!; [done|by exists o|].
  destruct use; [|revert Hd..].
  - destruct (safe_parent_acl s) eqn:Esafe; [|done]. by apply (scan_acl_safe _ _ _ Hs).
  - destruct (_ && admin s) eqn:Ep; [|destruct (bool_decide _ && _); intros [=]]. intros _. apply scan_private. by exists s.
  - destruct (_ && admin s) eqn:Ep; [|destruct (bool_decide _ && _); intros [=]]. intros _. apply scan_private. by exists s.
Qed.

Lemma check_object_file h use :
  use ≠ use_parent → acceptable use h → answered h → check_object true h use = inr sec_accept.
Proof.
  intros Hu ((Hi & Hr & Hl & Hd) & (o & Ho & Hp) & Hpriv) (H1 & H2 & H3 & H4 & H5 & _).
  assert (private_dacl h) as Hpd by by destruct use.
  apply scan_private in Hpd as (s & Hs & Hsp).
  unfold check_object. rewrite Hi, Hr, Hl, H1, H2, H3, H4, Ho, H5, Hs. cbv zeta.
  rewrite (bool_decide_eq_true_2 (ob_directory h = _)); cycle 1.
  { case_bool_decide; cbn [negb].
    - apply not_true_is_false. tauto.
    - tauto. }
  cbn [negb orb andb Z.eqb Pos.eqb]. apply privileged_spec in Hp. unfold DecideSecurity.
  rewrite Hp, Hsp. cbn [negb orb]. by destruct use.
Qed.

(** C10: in the LocalSystem worker the check passes only for genuine objects (no
    reparse point, one link, the expected kind) owned by SYSTEM or the
    administrators: a file whose DACL is protected and grants exactly SYSTEM and
    the administrators full access; a directory with such a DACL, or one harmless
    to write under whose DACL was replaced and then found to be such; a parent
    that lets others at most read and traverse. Files and directories that are
    so, with every query answered, do pass. *)
Theorem CheckHandle_secure h use repair :
  (CheckHandle true h use repair = ERROR_SUCCESS →
    acceptable use h ∨
    use = use_log_directory ∧ genuine use h ∧ (∃ owner, ob_owner h = Some owner ∧ privileged owner) ∧
      Forall harmless (ob_aces h) ∧
      ∃ h', repair = Some (ERROR_SUCCESS, h') ∧ acceptable use_log_directory h') ∧
  (use ≠ use_parent → acceptable use h → answered h → CheckHandle true h use repair = ERROR_SUCCESS).
Proof.
  unfold CheckHandle. split; [|intros; by rewrite check_object_file].
  destruct (check_object true h use) as [status|dec] eqn:E; [intros ->; by apply check_object_inl in E|].
  destruct dec; [done|intros _; left; by apply check_object_accept|].
  destruct repair as [[r h']|]; [|done].
  destruct (Z.eqb_spec r ERROR_SUCCESS) as [->|]; cbn [negb]; [|done]. intros H. right.
  apply check_object_inr in E as (Hg & o & s & Ho & Hs & Hd). unfold DecideSecurity in Hd.
  cbn [negb orb] in Hd. destruct (bool_decide (o = LocalSystem) || _) eqn:Hp; [|done].
  apply privileged_spec in Hp. cbn [negb] in Hd.
  destruct use; [by destruct (safe_parent_acl s)| |by destruct (_ && admin s)].
  destruct (_ && admin s); [done|]. cbn [bool_decide] in Hd.
  destruct (safe_parent_acl s) eqn:Esafe; [|by rewrite andb_false_r in Hd].
  split_and!; [done..|by exists o|by apply (scan_acl_safe _ _ _ Hs)|].
  exists h'. split; [done|].
  destruct (check_object true h' use_log_directory) as [status|[]] eqn:E'; try done.
  - by apply check_object_inl in E'.
  - by apply check_object_accept.
Qed.

Lemma CheckHandle_secure_witness :
  acceptable use_log_file (demo_object false) ∧ CheckHandle true (demo_object true) use_log_file None ≠ ERROR_SUCCESS.
Proof.
  split; [|vm_compute; discriminate].
  destruct (proj1 (CheckHandle_secure (demo_object false) use_log_file None)) as [H|[H _]];
    [vm_compute; reflexivity|exact H|discriminate H].
Defined.
