(* ===== verification/Diagnostics.v ===== *)
(** * The diagnostics channel

    [windows/runner/flutter_window.cpp]: the method channel by which the Dart side
    reads and changes the log settings and writes events, on top of [DebugLog],
    and the parts that a window of each mode is given. A value of the standard
    method codec is a [Value]; a map is the list of its entries. *)
From S2P Require Import Prelude DebugFields DebugLog LogFile.

#[warnings="-register-all"]
Inductive Value :=
  | VNull | VBool (b : bool) | VInt32 (z : Z) | VInt64 (z : Z) | VString (s : str)
  | VMap (m : list (Value * Value)) | VOther.

Inductive Reply :=
  | Success (v : Value)
  | Error (code message : str) (details : Value)
  | NotImplemented.

(** What a call of the channel may meet: the version resource, the state of the
    log, [RegCreateKeyEx] and [RegSetValueEx], and the append. *)
Record Host := mkHost {
  ho_version : option str; ho_log : DebugState; ho_utf8 : wstr → str;
  ho_create : Z; ho_set : Z; ho_io : AppendIO }.

Section Channel.
Context (h : Host).

Definition DiagnosticsState (r : Settings) : Value :=
  let '(enabled, path) := GetState (ho_utf8 h) (ho_log h) r in
  VMap [(VString (B "enabled"), VBool enabled); (VString (B "path"), VString path)].

(** The locals of [WriteDiagnostic]. *)
Record Parsed := mkParsed {
  p_event : option str; p_level : option str; p_error_type : option str; p_error_code : option str;
  p_context : option str; p_os_error : option Z }.

#[export] Instance eta_Parsed : Settable Parsed := λ s,
  mkParsed (p_event s) (p_level s) (p_error_type s) (p_error_code s) (p_context s) (p_os_error s).

(** One round of the loop over the map; [None] is [return false]. *)
Definition parse_field (p : Parsed) (field : Value * Value) : option Parsed :=
  match field with
  | (VString name, value) =>
    if bool_decide (name = B "os_error") then
      match value with
      | VInt32 z | VInt64 z => Some (p <| p_os_error := Some z |>)
      | _ => None
      end
    else
      match value with
      | VString text =>
        if bool_decide (name = B "event") && ValidEvent text then Some (p <| p_event := Some text |>) else
        if bool_decide (name = B "level") && ValidLevel text then Some (p <| p_level := Some text |>) else
        if bool_decide (name = B "error_type") && ValidErrorType text then Some (p <| p_error_type := Some text |>) else
        if bool_decide (name = B "error_code") && ValidErrorCode text then Some (p <| p_error_code := Some text |>) else
        if bool_decide (name = B "context") && ValidContext text then Some (p <| p_context := Some text |>) else
        None
      | _ => None
      end
  | _ => None
  end.

Fixpoint parse_fields (p : Parsed) (fields : list (Value * Value)) : option Parsed :=
  match fields with
  | [] => Some p
  | f :: fields => match parse_field p f with Some p => parse_fields p fields | None => None end
  end.

Definition nothing_parsed : Parsed := mkParsed None None None None None None.

(** The result, the diagnostic code and the files. *)
Definition WriteDiagnostic (arguments : option Value) (r : Settings) (fs : FS) : bool * Z * FS :=
  match arguments with
  | Some (VMap fields) =>
    if bool_decide (fields = []) || (6 <? length fields)%nat then (false, ERROR_INVALID_PARAMETER, fs) else
    match parse_fields nothing_parsed fields with
    | None => (false, ERROR_INVALID_PARAMETER, fs)
    | Some p =>
      match p_event p with
      | None => (false, ERROR_INVALID_PARAMETER, fs)
      | Some event =>
        Write (ho_version h) (ho_log h) r (ho_io h)
          (mkFields event (default [] (p_error_type p)) (default [] (p_error_code p)) (p_os_error p)
             (default [] (p_context p)) (default [] (p_level p))) fs
      end
    end
  | _ => (false, ERROR_INVALID_PARAMETER, fs)
  end.

Definition HandleDiagnostics (method : str) (arguments : option Value) (r : Settings) (fs : FS)
    : Reply * Settings * FS :=
  if bool_decide (method = B "getState") then (Success (DiagnosticsState r), r, fs) else
  if bool_decide (method = B "setEnabled") then
    if Worker (ho_log h) then (Error (B "read_only") (B "Worker diagnostics are read-only.") VNull, r, fs) else
    match arguments with
    | Some (VBool enabled) =>
      let '(error, r, fs) := SetEnabled (ho_version h) (ho_log h) (ho_create h) (ho_set h) enabled (ho_io h) r fs in
      if negb (error =? ERROR_SUCCESS)
      then (Error (B "registry_write_failed") (B "Cannot save diagnostics setting.") (VInt64 error), r, fs)
      else (Success (DiagnosticsState r), r, fs)
    | _ => (Error (B "invalid_arguments") (B "Expected a boolean.") VNull, r, fs)
    end
  else if bool_decide (method = B "write") then
    let '(written, code, fs) := WriteDiagnostic arguments r fs in
    if negb written && negb (code =? ERROR_NOT_READY)
    then (Error (B "diagnostic_write_failed") (B "Cannot write diagnostics.") (VInt64 code), r, fs)
    else (Success (VBool written), r, fs)
  else (NotImplemented, r, fs).
End Channel.

(** ** The window *)

(** What [OnCreate] has set up, and whether the first frame shows the window. *)
Record Parts := mkParts { diagnostics : bool; binding_bridge : bool; host_bridge : bool; shown : bool }.

(** [base], [controller], [channel]: the window, the Flutter engine and view, and
    the channel could be made. *)
Definition OnCreate (link_host_worker start_minimized base controller channel : bool) (last_error : Z)
    : option Parts * list Fields :=
  let failed event := mkFields event [] [] (Some last_error) [] [] in
  if negb base then (None, [failed (B "window.base_create.failed")]) else
  let start := [just (B "controller.init.begin")] in
  if negb controller then (None, start ++ [failed (B "controller.init.failed")]) else
  (Some (mkParts channel (negb link_host_worker) link_host_worker (negb link_host_worker && negb start_minimized)),
   start ++ [just (B "controller.init.ready")] ++
   (if channel then [] else [just (B "diagnostics.channel.failed")]) ++
   [just (B "plugins.register.begin"); just (B "plugins.register.end")] ++
   (if link_host_worker
    then [just (B "link.host_bridge.init.begin"); just (B "link.host_bridge.init.ready")]
    else [just (B "link.binding.init.begin"); just (B "link.binding.init.ready")])).

(** ** Specification vocabulary *)

(** The texts an event may have, each with its check. *)
Definition text_fields : list (str * (str → bool)) :=
  [(B "event", ValidEvent); (B "level", ValidLevel); (B "error_type", ValidErrorType);
   (B "error_code", ValidErrorCode); (B "context", ValidContext)].

Definition entry_ok (entry : Value * Value) : bool :=
  match entry with
  | (VString name, VString text) => existsb (λ '(n, valid), bool_decide (name = n) && valid text) text_fields
  | (VString name, (VInt32 _ | VInt64 _)) => bool_decide (name = B "os_error")
  | _ => false
  end.

Definition is_key (name : str) (k : Value) : bool :=
  match k with VString n => bool_decide (n = name) | _ => false end.

Definition field (fields : list (Value * Value)) (name : str) : option Value :=
  foldl (λ acc '(k, v), if is_key name k then Some v else acc) None fields.

Definition text_of (v : option Value) : option str := match v with Some (VString t) => Some t | _ => None end.
Definition number_of (v : option Value) : option Z :=
  match v with Some (VInt32 z) | Some (VInt64 z) => Some z | _ => None end.

(** The event a map stands for, if it is one. *)
Definition event_of (arguments : option Value) : option Fields :=
  match arguments with
  | Some (VMap fields) =>
    let text name := text_of (field fields name) in
    if (1 <=? length fields)%nat && (length fields <=? 6)%nat && forallb entry_ok fields then
      (λ event, mkFields event (default [] (text (B "error_type"))) (default [] (text (B "error_code")))
        (number_of (field fields (B "os_error"))) (default [] (text (B "context"))) (default [] (text (B "level"))))
      <$> text (B "event")
    else None
  | _ => None
  end.

(** ** The parser *)

(** The locals after the entries seen so far, by their names. *)
Definition parsed_of (get : str → option Value) : Parsed :=
  mkParsed (text_of (get (B "event"))) (text_of (get (B "level"))) (text_of (get (B "error_type")))
    (text_of (get (B "error_code"))) (text_of (get (B "context"))) (number_of (get (B "os_error"))).

Lemma entry_ok_text name text :
  entry_ok (VString name, VString text) =
  bool_decide (name = B "event") && ValidEvent text || (bool_decide (name = B "level") && ValidLevel text ||
  (bool_decide (name = B "error_type") && ValidErrorType text ||
  (bool_decide (name = B "error_code") && ValidErrorCode text ||
  (bool_decide (name = B "context") && ValidContext text || false)))).
Proof. reflexivity. Qed.

Lemma parse_field_spec get k v :
  parse_field (parsed_of get) (k, v) =
  if entry_ok (k, v) then Some (parsed_of (λ name, if is_key name k then Some v else get name)) else None.
Proof.
  destruct k as [| | | |name| |]; try done. unfold parse_field.
  destruct v as [| |z|z|text| |]; try (cbn [entry_ok]; by destruct (bool_decide _)).
  1, 2: cbn [entry_ok]; case_bool_decide as E; [subst name; vm_compute; reflexivity|done].
  rewrite entry_ok_text.
  generalize (ValidEvent text) (ValidLevel text) (ValidErrorType text) (ValidErrorCode text) (ValidContext text).
  intros b1 b2 b3 b4 b5.
  repeat match goal with
  | |- context [bool_decide (name = ?n)] =>
    destruct (decide (name = n)) as [->|?];
      [destruct b1, b2, b3, b4, b5; vm_compute; reflexivity|rewrite (bool_decide_eq_false_2 (name = n)) by done]
  end.
  done.
Qed.

Lemma parse_fields_spec fields get :
  parse_fields (parsed_of get) fields =
  if forallb entry_ok fields
  then Some (parsed_of (λ name, foldl (λ acc '(k, v), if is_key name k then Some v else acc) (get name) fields))
  else None.
Proof.
  revert get. induction fields as [|[k v] fields IH]; intros get; [done|].
  cbn [parse_fields forallb]. rewrite parse_field_spec. destruct (entry_ok (k, v)); [|done]. cbn [andb].
  by rewrite IH.
Qed.

Lemma field_in fields name v : field fields name = Some v → (VString name, v) ∈ fields.
Proof.
  unfold field. assert (H : ∀ acc, foldl (λ acc '(k, v), if is_key name k then Some v else acc) acc fields = Some v →
    acc = Some v ∨ (VString name, v) ∈ fields).
  { induction fields as [|[k w] fields IH]; intros acc; cbn; [auto|]. intros [H|H]%IH; [|right; by right].
    destruct (is_key name k) eqn:Ek; [|by left]. destruct k; try done.
    apply bool_decide_eq_true in Ek as ->. simplify_eq. right. by left. }
  intros [?|?]%H; done.
Qed.

Lemma text_of_some v t : text_of v = Some t → v = Some (VString t).
Proof. destruct v as [[]|]; naive_solver. Qed.

(** A text that is there passed its check. *)
Lemma field_valid fields :
  forallb entry_ok fields = true →
  Forall (λ '(name, valid), ∀ t, text_of (field fields name) = Some t → valid t = true) text_fields.
Proof.
  intros Hok. rewrite forallb_forall in Hok.
  assert (H : ∀ name t, text_of (field fields name) = Some t → entry_ok (VString name, VString t) = true).
  { intros name t Ht%text_of_some%field_in. apply Hok. by apply list_elem_of_In. }
  repeat constructor; intros t Ht%H; rewrite entry_ok_text in Ht; revert Ht;
    generalize (ValidEvent t) (ValidLevel t) (ValidErrorType t) (ValidErrorCode t) (ValidContext t);
    intros b1 b2 b3 b4 b5; destruct b1, b2, b3, b4, b5; vm_compute; done.
Qed.

Lemma WriteDiagnostic_spec h arguments r fs :
  WriteDiagnostic h arguments r fs =
  match event_of arguments with
  | Some f => Write (ho_version h) (ho_log h) r (ho_io h) f fs
  | None => (false, ERROR_INVALID_PARAMETER, fs)
  end.
Proof.
  destruct arguments as [[| | | | |fields|]|]; try done. cbn [WriteDiagnostic event_of].
  assert (Hl : bool_decide (fields = []) || (6 <? length fields)%nat =
    negb ((1 <=? length fields)%nat && (length fields <=? 6)%nat)).
  { destruct fields as [|x l]; [done|]. rewrite bool_decide_eq_false_2 by done.
    rewrite (Nat.ltb_antisym (length (x :: l)) 6). done. }
  rewrite Hl. destruct (_ && (_ <=? 6)%nat); [|done]. cbn [negb andb].
  change nothing_parsed with (parsed_of (λ _, None)). rewrite parse_fields_spec.
  fold (field fields). destruct (forallb entry_ok fields); [|done].
  cbn [parsed_of p_event p_level p_error_type p_error_code p_context p_os_error].
  unfold field. destruct (text_of _); done.
Qed.

Lemma event_of_valid arguments f : event_of arguments = Some f → valid_fields f = true.
Proof.
  destruct arguments as [[| | | | |fields|]|]; try done. cbn [event_of].
  destruct (_ && _) eqn:E; [|done]. apply andb_true_iff in E as [_ Hok].
  destruct (text_of (field fields (B "event"))) as [event|] eqn:Ee; [|done]. cbn. intros [= <-].
  apply field_valid in Hok. unfold text_fields in Hok.
  apply Forall_cons in Hok as [H1 Hok]. apply Forall_cons in Hok as [H2 Hok].
  apply Forall_cons in Hok as [H3 Hok]. apply Forall_cons in Hok as [H4 Hok].
  apply Forall_cons in Hok as [H5 _].
  assert (Hopt : ∀ name valid,
    (∀ t, text_of (field fields name) = Some t → valid t = true) →
    bool_decide (default [] (text_of (field fields name)) = []) || valid (default [] (text_of (field fields name))) = true).
  { intros name valid H. destruct (text_of (field fields name)) as [t|]; [|done].
    cbn. rewrite (H t) by done. apply orb_true_r. }
  unfold valid_fields. cbn [f_event f_level f_error_type f_error_code f_context].
  rewrite (H1 event), (Hopt _ _ H2), (Hopt _ _ H3), (Hopt _ _ H4) by done. cbn [andb].
  destruct (text_of (field fields (B "context"))) as [t|] eqn:Et; [by apply H5|done].
Qed.

(** A [write] on the channel writes exactly the event its map stands for: one
    to six known fields, each with a valid value, the event among them (the last
    of equal keys counts). Such an event always has valid fields; with the log
    disabled the reply is [false] and nothing is written, otherwise the reply
    tells whether the append succeeded. Any other argument is refused with
    [ERROR_INVALID_PARAMETER] and writes nothing. *)
Theorem HandleDiagnostics_write h arguments r fs :
  let '(reply, r', fs') := HandleDiagnostics h (B "write") arguments r fs in
  r' = r ∧
  match event_of arguments with
  | None => reply = Error (B "diagnostic_write_failed") (B "Cannot write diagnostics.") (VInt64 ERROR_INVALID_PARAMETER)
            ∧ fs' = fs
  | Some f =>
    valid_fields f = true ∧
    if ReadEnabled (ho_log h) r then
      let '(status, fs1) := Append (ho_version h) (ho_log h) (ho_io h) f fs in
      fs' = fs1 ∧
      (status = ERROR_SUCCESS → reply = Success (VBool true)) ∧
      (status = ERROR_NOT_READY → reply = Success (VBool false)) ∧
      (status ≠ ERROR_SUCCESS → status ≠ ERROR_NOT_READY →
       reply = Error (B "diagnostic_write_failed") (B "Cannot write diagnostics.") (VInt64 status))
    else reply = Success (VBool false) ∧ fs' = fs
  end.
Proof.
  unfold HandleDiagnostics. rewrite (bool_decide_eq_false_2 (B "write" = B "getState")) by done.
  rewrite (bool_decide_eq_false_2 (B "write" = B "setEnabled")) by done.
  rewrite (bool_decide_eq_true_2 (B "write" = B "write")) by done.
  rewrite WriteDiagnostic_spec. destruct (event_of arguments) as [f|] eqn:E; [|done].
  pose proof (event_of_valid _ _ E) as Hv. unfold Write. rewrite Hv. cbn [negb].
  destruct (ReadEnabled (ho_log h) r); cbn [negb]; [|done].
  destruct (Append _ _ _ f fs) as [status fs1].
  destruct (Z.eqb_spec status ERROR_SUCCESS) as [->|Hs]; cbn [negb andb]; [done|].
  destruct (Z.eqb_spec status ERROR_NOT_READY) as [->|Hr]; cbn [negb]; done.
Qed.

(** ** Settings *)
Definition with_user_setting (r : Settings) (enabled : bool) : Settings :=
  mkSettings (rg_hklm r) (Some (if enabled then 1 else 0)) (rg_hku r) (rg_session r) (rg_token r)
    (rg_bytes r) (rg_user r) (rg_sid r).

(** [setEnabled] in the application sets the user's value, and the state it
    replies, which [getState] then repeats, is the value asked for, or enabled when
    the machine's setting says so. When the registry refuses, the reply carries
    its error and nothing changes; a worker's settings cannot be changed at all,
    and an argument that is not a boolean changes nothing. *)
Theorem HandleDiagnostics_setEnabled h arguments r fs :
  initialized (ho_log h) = true →
  let '(reply, r', fs') := HandleDiagnostics h (B "setEnabled") arguments r fs in
  match arguments with
  | Some (VBool enabled) =>
    if Worker (ho_log h) then (∃ m, reply = Error (B "read_only") m VNull) ∧ r' = r ∧ fs' = fs
    else if (ho_create h =? ERROR_SUCCESS) && (ho_set h =? ERROR_SUCCESS) then
      r' = with_user_setting r enabled ∧
      reply = Success (VMap [(VString (B "enabled"), VBool (enabled || bool_decide (rg_hklm r = Some 1)));
                             (VString (B "path"), VString (ho_utf8 h (log_path (ho_log h))))]) ∧
      HandleDiagnostics h (B "getState") None r' fs' = (reply, r', fs')
    else ∃ m e, reply = Error (B "registry_write_failed") m (VInt64 e) ∧ e ≠ ERROR_SUCCESS ∧ r' = r ∧ fs' = fs
  | _ => (∃ code m, reply = Error code m VNull) ∧ r' = r ∧ fs' = fs
  end.
Proof.
  intros Hi. unfold HandleDiagnostics at 1. rewrite (bool_decide_eq_false_2 (B "setEnabled" = B "getState")) by done.
  rewrite (bool_decide_eq_true_2 (B "setEnabled" = B "setEnabled")) by done.
  destruct (Worker (ho_log h)) eqn:Ew.
  { destruct arguments as [[]|]; naive_solver. }
  destruct arguments as [[|enabled| | | | |]|]; try naive_solver.
  unfold SetEnabled. rewrite Hi, Ew. cbn [negb orb].
  destruct (Z.eqb_spec (ho_create h) ERROR_SUCCESS) as [Ec|Hc]; cbn [negb andb]; cycle 1.
  { destruct (Z.eqb_spec (ho_create h) ERROR_SUCCESS); [done|]. cbn [negb]. naive_solver. }
  destruct (Z.eqb_spec (ho_set h) ERROR_SUCCESS) as [Es|Hs]; cbn [negb]; cycle 1.
  { destruct (Z.eqb_spec (ho_set h) ERROR_SUCCESS); [done|]. cbn [negb]. naive_solver. }
  split; [done|]. cbn [negb Z.eqb ERROR_SUCCESS].
  fold (with_user_setting r enabled). split; [|done]. unfold DiagnosticsState, GetState.
  assert (He : ReadEnabled (ho_log h) (with_user_setting r enabled) = enabled || bool_decide (rg_hklm r = Some 1)).
  { unfold ReadEnabled. rewrite Hi, Ew. cbn. unfold ReadRegistry. destruct enabled; case_bool_decide; done. }
  by rewrite He.
Qed.

Definition demo_host : Host :=
  mkHost None (Initialize (Some (W "C:\ProgramData")) gui) id 0 0 demo_io.

Lemma HandleDiagnostics_setEnabled_witness :
  let '(reply, r', _) := HandleDiagnostics demo_host (B "setEnabled") (Some (VBool true)) demo_settings ∅ in
  r' = with_user_setting demo_settings true ∧
  ∃ path, reply = Success (VMap [(VString (B "enabled"), VBool true); (VString (B "path"), path)]).
Proof.
  pose proof (HandleDiagnostics_setEnabled demo_host (Some (VBool true)) demo_settings ∅ eq_refl) as H.
  destruct (HandleDiagnostics demo_host (B "setEnabled") (Some (VBool true)) demo_settings ∅) as [[reply r'] fs'].
  cbn [Worker demo_host ho_log ho_create ho_set Z.eqb ERROR_SUCCESS andb] in H.
  change (Worker (ho_log demo_host)) with false in H. cbv beta iota in H.
  destruct H as (Hr & Hp & _). split; [exact Hr|]. eexists. exact Hp.
Defined.

(** Every window gets exactly one bridge: the worker's to the service, or the
    application's to bind it; a worker's window is never shown by its start. *)
Lemma OnCreate_parts host minimized base controller channel e parts events :
  OnCreate host minimized base controller channel e = (Some parts, events) →
  binding_bridge parts = negb host ∧ host_bridge parts = host ∧
  (shown parts = true ↔ host = false ∧ minimized = false) ∧
  Forall (λ f, valid_fields f = true) events.
Proof.
  unfold OnCreate. destruct base, controller; cbn [negb]; try done. intros [= <- <-].
  split; [done|]. split; [done|]. split; [destruct host, minimized; naive_solver|].
  destruct channel, host; repeat constructor.
Qed.
