(* ===== verification/LinkBinding.v ===== *)
(** * Binding of the Link host

    [windows/runner/link_agent_binding_bridge.cpp] with [link_pipe_session.h]:
    the application hands an enrolment token to the Windows Link service over a
    named pipe, after it made sure that the other end is that service. What
    Windows answers is gathered in [BindEnv]; a failed call gives its error. *)
From S2P Require Import Prelude Text.

Definition hexadecimal (c : Z) : bool :=
  ((48 <=? c) && (c <=? 57)) || ((97 <=? c) && (c <=? 102)) || ((65 <=? c) && (c <=? 70)).

Definition IsHexToken (token : str) : bool := (length token =? 64)%nat && forallb hexadecimal token.

Definition Win32Diagnostic (operation : string) (error : Z) : str :=
  B operation ++ B " (Win32 error " ++ to_string (u32 error) ++ B ")".

(** ** The session of the pipe *)
Inductive LinkPipeSessionStatus := session_trusted | query_failed | not_session_zero.
Definition MAXDWORD : Z := 4294967295.
Record LinkPipeSessionResult := mkPipeSession {
  ps_status : LinkPipeSessionStatus; ps_session : Z; ps_error : Z }.

(** [query]: the session, or the last error. *)
Definition CheckLinkPipeSession (query : Z + Z) : LinkPipeSessionResult :=
  match query with
  | inr error => mkPipeSession query_failed MAXDWORD error
  | inl session => mkPipeSession (if session =? 0 then session_trusted else not_session_zero) session 0
  end.

(** ** The exchange *)
Definition SERVICE_RUNNING : Z := 4.
Definition ERROR_INSUFFICIENT_BUFFER : Z := 122.

Record BindEnv := mkBindEnv {
  bn_wait : bool;                    (* WaitNamedPipeW *)
  bn_open : bool;                    (* CreateFileW *)
  bn_server_pid : Z + Z;             (* GetNamedPipeServerProcessId *)
  bn_manager : option Z;             (* OpenSCManagerW: an error *)
  bn_service : option Z;             (* OpenServiceW: an error *)
  bn_status : (Z * Z) + Z;           (* QueryServiceStatusEx: state, process id *)
  bn_size_error : Z; bn_size : Z;    (* the sizing QueryServiceConfigW *)
  bn_config : option wstr + Z;       (* QueryServiceConfigW: lpServiceStartName *)
  bn_session : Z + Z;                (* GetNamedPipeServerSessionId *)
  bn_write : option Z;               (* WriteFile: bytes written *)
  bn_read : str → option str;        (* ReadFile, after the request: at most 511 bytes *)
}.

(** A code with its message. *)
Abbreviation failure := (str * str)%type.

(** [lstrcmpiW(name, L"LocalSystem") == 0], for the letters A to Z. *)
Definition local_system (name : wstr) : bool := bool_decide (ieq name (W "LocalSystem")).

(** The nested checks: [None] when the server is trusted. *)
Definition pipe_trust (env : BindEnv) : option failure :=
  let untrusted m := Some (B "link_agent_service_untrusted", m) in
  match bn_server_pid env with
  | inr e => Some (B "link_agent_pipe_server_pid_failed", Win32Diagnostic "Cannot identify named-pipe server" e)
  | inl server_pid =>
    match bn_manager env with
    | Some e => untrusted (Win32Diagnostic "Cannot inspect Link service manager" e)
    | None =>
      match bn_service env with
      | Some e => untrusted (Win32Diagnostic "Cannot inspect Link service" e)
      | None =>
        match bn_status env with
        | inr e => untrusted (Win32Diagnostic "Cannot inspect Link service status" e)
        | inl (state, pid) =>
          if negb (state =? SERVICE_RUNNING) || negb (pid =? server_pid)
          then untrusted (B "Named-pipe server is not the running Link service") else
          if negb (bn_size_error env =? ERROR_INSUFFICIENT_BUFFER) || (bn_size env =? 0) ||
             (65536 <? bn_size env)
          then untrusted (B "Cannot size Link service configuration") else
          match bn_config env with
          | inr e => untrusted (Win32Diagnostic "Cannot inspect Link service account" e)
          | inl name =>
            if negb (match name with Some n => local_system n | None => false end)
            then Some (B "link_agent_service_sid_mismatch", B "Link service is not configured as LocalSystem") else
            let session := CheckLinkPipeSession (bn_session env) in
            match ps_status session with
            | query_failed => Some (B "link_agent_service_session_check_failed",
                Win32Diagnostic "Cannot verify Link service pipe session" (ps_error session))
            | not_session_zero => Some (B "link_agent_service_not_session0",
                B "Link service pipe is not running in Session 0")
            | session_trusted => None
            end
          end
        end
      end
    end
  end.

Definition bind_request (server_url token : str) : str :=
  J "{'version':1,'server_url':" ++ JsonString server_url ++ J ",'enrollment_token':'" ++ token ++ J "'}".

Definition ok_prefix : str := J "{'ok':true,'fingerprint':'".
Definition ok_suffix : str := J "'}".
Definition error_prefix : str := J "{'ok':false,'error':'".

(** The service's own error code and what the application makes of it. *)
Definition service_error (code : str) : option failure :=
  if decide (code = B "server_mismatch")
  then Some (B "link_agent_server_mismatch", B "App and Windows service use different server URLs") else
  if decide (code = B "host_already_enrolled")
  then Some (B "link_agent_host_already_enrolled", B "This computer is already enrolled") else
  if decide (code = B "identity_store_failed")
  then Some (B "link_agent_identity_store_failed", B "Windows service could not save the host identity") else
  if decide (code = B "enrollment_rejected")
  then Some (B "link_agent_enrollment_rejected", B "Server rejected host enrollment; check the Link agent log")
  else None.

Definition rejected : failure :=
  (B "link_agent_enrollment_rejected", B "Windows Link service rejected host enrollment").

(** The answer of the service: the fingerprint or an exception. *)
Definition read_answer (body : str) : failure + str :=
  if negb (length body =? length ok_prefix + 64 + length ok_suffix)%nat ||
     negb (prefixof ok_prefix body) || negb (suffixof ok_suffix body)
  then
    let prefix_size := length error_prefix in
    let suffix_size := length ok_suffix in
    if (prefix_size + suffix_size <? length body)%nat && prefixof error_prefix body && suffixof ok_suffix body
    then
      match service_error (substr body prefix_size (length body - prefix_size - suffix_size)) with
      | Some f => inl f
      | None => inl rejected
      end
    else inl rejected
  else
    let fingerprint := substr body (length ok_prefix) 64 in
    if IsHexToken fingerprint then inr fingerprint
    else inl (B "link_agent_invalid_response", B "Windows Link service returned an invalid fingerprint").

Definition no_communication (m : string) : failure := (B "link_agent_pipe_communication_failed", B m).

(** The outcome, and the bytes handed to [WriteFile], when it is called. *)
Definition BindOverNamedPipe (env : BindEnv) (server_url token : str) : (failure + str) * option str :=
  if negb (bn_wait env)
  then (inl (B "link_agent_service_not_running", B "Ligament Link Agent service is not running"), None) else
  if negb (bn_open env)
  then (inl (B "link_agent_pipe_unavailable", B "Cannot connect to Ligament Link Agent service pipe"), None) else
  match pipe_trust env with
  | Some f => (inl f, None)
  | None =>
    let request := bind_request server_url token in
    if negb (bool_decide (bn_write env = Some (Z.of_nat (length request))))
    then (inl (no_communication "Could not send the binding request to Link service"), Some request) else
    match bn_read env request with
    | None => (inl (no_communication "Link service did not return a binding result"), Some request)
    | Some response =>
      let body := take 511 response in
      if bool_decide (body = [])
      then (inl (no_communication "Link service did not return a binding result"), Some request) else
      (read_answer body, Some request)
    end
  end.

(** ** The method channel *)

(** The values of the codec that matter. *)
Inductive Encodable := EncString (s : str) | EncOther.

(** A call: the method, and the arguments when they are a map. *)
Record MethodCall := mkCall { method_name : str; arguments : option (gmap str Encodable) }.

Inductive Reply := NotImplemented | Error (code message : str) | Success (fingerprint : str).

Definition string_arg (args : option (gmap str Encodable)) (key : str) : option str :=
  match args with
  | Some m => match m !! key with Some (EncString s) => Some s | _ => None end
  | None => None
  end.

(** What the handler does at once: an answer, or a binding to start. *)
Definition handle_call (busy : bool) (c : MethodCall) : Reply + (str * str) :=
  if negb (bool_decide (method_name c = B "bindHost")) then inl NotImplemented else
  match string_arg (arguments c) (B "enrollment_token"), string_arg (arguments c) (B "server_url") with
  | Some token, Some server_url =>
    if negb (IsHexToken token) || bool_decide (server_url = []) || (2048 <? length server_url)%nat
    then inl (Error (B "invalid_binding_request") (B "Invalid Link host binding request")) else
    if busy then inl (Error (B "binding_in_progress") (B "A Link host binding is already in progress"))
    else inr (server_url, token)
  | _, _ => inl (Error (B "invalid_binding_request") (B "Invalid Link host binding request"))
  end.

(** The bridge: the flag, the bindings under way and finished but unanswered,
    the answers given (by call) and the requests written to the pipe. *)
Record Bridge := mkBridge {
  busy : bool;
  running : list (nat * (str * str));
  decided : list (nat * Reply);
  replies : list (nat * Reply);
  calls : nat;
  written : list str;
}.

Definition reply_of (r : failure + str) : Reply :=
  match r with inl (code, message) => Error code message | inr fingerprint => Success fingerprint end.

(** The steps of the platform thread and of the detached threads. *)
Inductive bridge_step (b : Bridge) : Bridge → Prop :=
  | step_call c b' :
    b' = match handle_call (busy b) c with
         | inl r => mkBridge (busy b) (running b) (decided b) (replies b ++ [(calls b, r)]) (S (calls b)) (written b)
         | inr ut => mkBridge true (running b ++ [(calls b, ut)]) (decided b) (replies b) (S (calls b)) (written b)
         end → bridge_step b b'
  | step_bound l1 l2 n url token env r sent :
    running b = l1 ++ (n, (url, token)) :: l2 →
    BindOverNamedPipe env url token = (r, sent) →
    (* busy->store(false); the result is delivered afterwards *)
    bridge_step b (mkBridge false (l1 ++ l2) (decided b ++ [(n, reply_of r)]) (replies b) (calls b)
                     (written b ++ option_list sent))
  | step_deliver l1 l2 n r :
    decided b = l1 ++ (n, r) :: l2 →
    bridge_step b (mkBridge (busy b) (running b) (l1 ++ l2) (replies b ++ [(n, r)]) (calls b) (written b)).

Definition idle_bridge : Bridge := mkBridge false [] [] [] 0 [].
Definition bridge_reachable : Bridge → Prop := rtc bridge_step idle_bridge.

(** ** Specification vocabulary *)

(** The pipe's server is the running Link service, a LocalSystem service of
    session 0. *)
Definition trusted_server (env : BindEnv) : Prop :=
  ∃ pid name, bn_server_pid env = inl pid ∧ bn_manager env = None ∧ bn_service env = None ∧
    bn_status env = inl (SERVICE_RUNNING, pid) ∧
    bn_size_error env = ERROR_INSUFFICIENT_BUFFER ∧ bn_size env ≠ 0 ∧ bn_size env <= 65536 ∧
    bn_config env = inl (Some name) ∧ ieq name (W "LocalSystem") ∧ bn_session env = inl 0.

Definition ok_answer (fingerprint : str) : str := ok_prefix ++ fingerprint ++ ok_suffix.

(** ** Lemmas *)
Lemma pipe_trust_spec env : pipe_trust env = None ↔ trusted_server env.
Proof.
  unfold pipe_trust, trusted_server, CheckLinkPipeSession. split.
  - destruct (bn_server_pid env) as [pid|]; [|done]. destruct (bn_manager env); [done|].
    destruct (bn_service env); [done|]. destruct (bn_status env) as [[st p]|]; [|done].
    destruct (Z.eqb_spec st SERVICE_RUNNING) as [->|]; [|done].
    destruct (Z.eqb_spec p pid) as [->|]; [|done]. cbn [negb orb].
    destruct (Z.eqb_spec (bn_size_error env) ERROR_INSUFFICIENT_BUFFER); [|done].
    destruct (Z.eqb_spec (bn_size env) 0); [done|].
    destruct (Z.ltb_spec 65536 (bn_size env)); [done|]. cbn [negb orb].
    destruct (bn_config env) as [[name|]|]; [|done..].
    destruct (local_system name) eqn:Hn; [|done]. cbn [negb]. apply bool_decide_eq_true in Hn.
    destruct (bn_session env) as [sn|]; [|done]. cbn [ps_status].
    destruct (Z.eqb_spec sn 0) as [->|]; [|done]. intros _. by exists pid, name.
  - intros (pid & name & -> & -> & -> & -> & -> & Hs & Hl & -> & Hn & ->).
    rewrite !Z.eqb_refl. cbn [negb orb].
    destruct (Z.eqb_spec (bn_size env) 0); [done|]. destruct (Z.ltb_spec 65536 (bn_size env)); [lia|].
    cbn [orb]. unfold local_system. by rewrite bool_decide_eq_true_2 by done.
Qed.

Lemma IsHexToken_length t : IsHexToken t = true → length t = 64%nat.
Proof. unfold IsHexToken. rewrite andb_true_iff, Nat.eqb_eq. tauto. Qed.

(** A text of the right length with the right ends. *)
Lemma read_answer_ok body fp :
  read_answer body = inr fp ↔ IsHexToken fp = true ∧ body = ok_answer fp.
Proof.
  unfold read_answer, ok_answer, substr. split.
  - destruct (_ || negb (suffixof _ _)) eqn:E; [repeat case_match; done|].
    rewrite !orb_false_iff, !negb_false_iff, Nat.eqb_eq in E. destruct E as [[El Ep] Es].
    apply prefixb_spec in Ep as [r Er]. apply suffixof_spec in Es as [l Els].
    destruct (IsHexToken _) eqn:Ht; [|done]. intros [= <-]. split; [done|].
    subst body. rewrite drop_app_length in *.
    assert (Hr : length r = (64 + length ok_suffix)%nat) by (rewrite length_app in El; lia).
    f_equal. assert (Hdrop : r = take 64 r ++ drop 64 r) by by rewrite take_drop.
    rewrite Hdrop at 1. f_equal. clear Hdrop.
    assert (Hl : length (l ++ ok_suffix) = (length ok_prefix + 64 + length ok_suffix)%nat) by congruence.
    apply (f_equal (drop (length ok_prefix + 64))) in Els.
    rewrite <- drop_drop, drop_app_length in Els.
    rewrite length_app in Hl. rewrite drop_app_length' in Els by lia. done.
  - intros [Ht ->]. pose proof (IsHexToken_length _ Ht) as Hl.
    rewrite !length_app, Hl. rewrite Nat.add_assoc, Nat.eqb_refl. cbn [negb orb].
    unfold prefixof, suffixof. rewrite prefixb_app, !rev_app_distr, <- app_assoc, prefixb_app.
    cbn [negb orb]. rewrite drop_app_length, take_app_length' by done. by rewrite Ht.
Qed.

(** C9: the request with the token is written only to a pipe whose server is the
    running Link service under LocalSystem in session 0, and it is exactly the
    version, the escaped server URL and the token; a fingerprint comes back
    exactly when the whole request was written to such a pipe and the answer was
    an ok object with 64 hexadecimal digits, in its exact form. *)
Theorem BindOverNamedPipe_trusted env server_url token :
  let '(r, sent) := BindOverNamedPipe env server_url token in
  (∀ request, sent = Some request ↔
    bn_wait env = true ∧ bn_open env = true ∧ trusted_server env ∧ request = bind_request server_url token) ∧
  (∀ fingerprint, r = inr fingerprint ↔
    ∃ request response, sent = Some request ∧ bn_write env = Some (Z.of_nat (length request)) ∧
      bn_read env request = Some response ∧ take 511 response = ok_answer fingerprint ∧
      IsHexToken fingerprint = true).
Proof.
  unfold BindOverNamedPipe. destruct (bn_wait env); cbn [negb]; [|naive_solver].
  destruct (bn_open env); cbn [negb]; [|naive_solver].
  destruct (pipe_trust env) as [f|] eqn:Et.
  { assert (¬ trusted_server env) by (rewrite <- pipe_trust_spec; congruence). naive_solver. }
  apply pipe_trust_spec in Et. case_bool_decide as Hw; cbn [negb]; [|naive_solver].
  destruct (bn_read env _) as [response|] eqn:Er; [|naive_solver].
  case_bool_decide as Hb; (split; [naive_solver|]); intros fp.
  - split; [done|]. intros (rq & rs & [= <-] & _ & Ers & Htk & _). exfalso.
    rewrite Er in Ers. injection Ers as <-. rewrite Hb in Htk. done.
  - rewrite read_answer_ok. naive_solver.
Qed.

(** ** The bridge *)
Definition bridge_inv (b : Bridge) : Prop :=
  (length (running b) <= 1)%nat ∧ (busy b = true ↔ running b ≠ []) ∧
  Permutation ((replies b).*1 ++ (decided b).*1 ++ (running b).*1) (seq 0 (calls b)).

Lemma bridge_step_inv b b' : bridge_inv b → bridge_step b b' → bridge_inv b'.
Proof.
  intros (Hl & Hb & Hp). destruct 1 as [c b' ->|l1 l2 n url tk env r sent Hr _|l1 l2 n r Hd].
  - destruct (handle_call (busy b) c) as [r|ut] eqn:Eh.
    + unfold bridge_inv. cbn -[seq]. split_and!; [done|apply Hb..|].
      rewrite seq_S, <- Hp, fmap_app, <- !app_assoc. f_equiv.
      etrans; [apply (Permutation_app_comm [calls b])|]. by rewrite <- !app_assoc.
    + assert (busy b = false) as Hf.
      { unfold handle_call in Eh. repeat case_match; simplify_eq. done. }
      assert (running b = []) as Er.
      { destruct (running b); [done|]. rewrite Hf in Hb. naive_solver. }
      unfold bridge_inv. cbn -[seq]. rewrite Er in *. cbn -[seq] in *. split_and!; [lia|naive_solver|].
      rewrite seq_S, <- Hp, app_nil_r, app_assoc. done.
  - rewrite Hr, length_app in Hl. cbn in Hl.
    destruct l1; [|cbn in Hl; lia]. destruct l2; [|cbn in Hl; lia].
    unfold bridge_inv. cbn -[seq]. split_and!; [lia|naive_solver|].
    rewrite Hr in Hp. cbn in Hp. rewrite fmap_app, app_nil_r. done.
  - unfold bridge_inv. cbn -[seq]. split_and!; [done|apply Hb..|]. rewrite <- Hp, Hd, !fmap_app. cbn.
    rewrite <- !app_assoc. f_equiv. cbn. rewrite <- Permutation_middle. done.
Qed.

(** Whatever the order of calls, answers and deliveries, at most one binding
    is under way, the flag is up exactly then, and every call has exactly one
    answer given, decided or being worked for: none is lost, none answered twice. *)
Theorem bridge_calls b :
  bridge_reachable b →
  (length (running b) <= 1)%nat ∧ (busy b = true ↔ running b ≠ []) ∧
  Permutation ((replies b).*1 ++ (decided b).*1 ++ (running b).*1) (seq 0 (calls b)).
Proof.
  intros H. change (bridge_inv b). revert H. unfold bridge_reachable. apply rtc_ind_r.
  - split_and!; cbn; (done || lia).
  - intros x y _ Hs Hx. by eapply bridge_step_inv.
Qed.

(** ** Witnesses *)
Definition demo_token : str := replicate 64 97.
Definition demo_bind : BindEnv :=
  mkBindEnv true true (inl 4711) None None (inl (SERVICE_RUNNING, 4711)) ERROR_INSUFFICIENT_BUFFER 300
    (inl (Some (W "localSystem"))) (inl 0)
    (Some (Z.of_nat (length (bind_request (B "https://a.example") demo_token))))
    (λ _, Some (ok_answer demo_token)).
Definition demo_call : MethodCall :=
  mkCall (B "bindHost") (Some {[ B "enrollment_token" := EncString demo_token;
                                 B "server_url" := EncString (B "https://a.example") ]}).

Lemma BindOverNamedPipe_trusted_witness :
  (BindOverNamedPipe demo_bind (B "https://a.example") demo_token).1 = inr demo_token ∧ trusted_server demo_bind.
Proof.
  pose proof (BindOverNamedPipe_trusted demo_bind (B "https://a.example") demo_token) as H.
  assert (E : BindOverNamedPipe demo_bind (B "https://a.example") demo_token =
    (inr demo_token, Some (bind_request (B "https://a.example") demo_token))) by (vm_compute; reflexivity).
  rewrite E in H. destruct H as [H _]. split; [by rewrite E|].
  by apply (proj1 (H _) eq_refl).
Defined.

(** Two calls, the second while the first is under way; then the first ends. *)
Definition demo_bridge : Bridge :=
  mkBridge false [] [(0%nat, Success demo_token)]
    [(1%nat, Error (B "binding_in_progress") (B "A Link host binding is already in progress"))] 2
    [bind_request (B "https://a.example") demo_token].

Lemma bridge_calls_witness :
  bridge_reachable demo_bridge ∧ Permutation [1; 0]%nat (seq 0 2).
Proof.
  assert (H : bridge_reachable demo_bridge).
  { eapply rtc_l; [eapply (step_call _ demo_call); reflexivity|].
    eapply rtc_l; [eapply (step_call _ demo_call); reflexivity|].
    eapply rtc_l; [eapply (step_bound _ [] [] 0%nat (B "https://a.example") demo_token demo_bind);
      [vm_compute; reflexivity|reflexivity]|].
    apply reflexive_eq. vm_compute. reflexivity. }
  split; [exact H|]. apply (bridge_calls demo_bridge H).
Defined.
