(* ===== verification/LinkHost.v ===== *)
(** * The Link host bridge

    [windows/runner/link_host_bridge.cpp]: the worker's end of the pipe to the
    LocalSystem Link service. The bridge keeps one handle; every method call is
    served under its mutex, so a call is a function of the state and of what
    Windows answers during it ([HostEnv]). Moving the window ([bringToFront])
    leaves the state alone. *)
From S2P Require Import Prelude LinkBinding.

Definition kFrameLimit : Z := 512 * 1024.
Definition kPipePrefix : string := "\\.\pipe\LigamentLinkHost-".

(** ** Pipe names *)
Definition lower_hex (c : Z) : bool := ((48 <=? c) && (c <=? 57)) || ((97 <=? c) && (c <=? 102)).

(** The two loops, and the wide name. *)
Definition ValidPipeName (value : str) : option wstr :=
  let prefix := W kPipePrefix in
  let prefix_size := length prefix in
  if negb (length value =? prefix_size + 32)%nat then None else
  if negb (bool_decide (take prefix_size value = prefix)) then None else
  if negb (forallb lower_hex (drop prefix_size value)) then None else
  Some (prefix ++ drop prefix_size value).

(** ** The server behind a pipe *)

(** [IsSystemProcessInSessionZero]: the calls it makes about one process. *)
Record ProcessView := mkProcessView {
  pv_open : bool; pv_token : bool; pv_needed : Z; pv_user : bool; pv_well_known : bool;
  pv_is_system : bool;             (* EqualSid with LocalSystem *)
  pv_session : option Z }.         (* ProcessIdToSessionId *)

Definition IsSystemProcessInSessionZero (v : ProcessView) : bool :=
  if negb (pv_open v) then false else
  if negb (pv_token v) then false else
  (0 <? pv_needed v) && pv_user v && pv_well_known v && pv_is_system v &&
  bool_decide (pv_session v = Some 0).

(** What befalls one call. *)
Record HostEnv := mkHostEnv {
  he_wait : bool; he_open : option nat;   (* CreateFileW: a handle *)
  he_server_pid : option Z; he_client_pid : option Z; he_own_pid : Z;
  he_process : Z → ProcessView;
  he_mode : bool;                         (* SetNamedPipeHandleState *)
  he_read : option str;                   (* ReadFile of at most kFrameLimit bytes *)
  he_write : option Z;                    (* WriteFile: bytes written *)
  he_peek : option Z;                     (* PeekNamedPipe: the message's size *)
}.

Definition ConnectToService (env : HostEnv) (pipe_name : wstr) : option (wstr * nat) :=
  if negb (he_wait env) then None else
  match he_open env with
  | None => None
  | Some h =>
    let trusted :=
      match he_server_pid env, he_client_pid env with
      | Some server_pid, Some client_pid =>
        (client_pid =? he_own_pid env) && IsSystemProcessInSessionZero (he_process env server_pid)
      | _, _ => false
      end in
    if negb trusted then None else
    if negb (he_mode env) then None else Some (pipe_name, h)
  end.

(** A message longer than the buffer fails. *)
Definition ReadFrame (env : HostEnv) : option str :=
  match he_read env with
  | None => None
  | Some data =>
    if bool_decide (data = []) || (kFrameLimit <? Z.of_nat (length data)) then None else Some data
  end.

(** ** The handler *)
Inductive HostReply :=
  | HostError (code message : str) | HostNotImplemented | HostVoid | HostNull
  | HostString (s : str) | HostBool (b : bool).

(** The handle with the name it was opened under, and the frames given to
    [WriteFile]. *)
Record HostBridge := mkHost { pipe_ : option (wstr * nat); sent_frames : list (nat * str) }.

Record HostCall := mkHostCall { host_method : str; host_arg : option str }.

Definition err (code message : string) : HostReply := HostError (B code) (B message).

Definition bootstrap (env : HostEnv) (b : HostBridge) (arg : option str) : HostReply * HostBridge :=
  let refused := (err "link_worker_pipe_refused" "Link worker pipe unavailable", b) in
  match pipe_ b with
  | Some _ => refused
  | None =>
    match arg ≫= ValidPipeName with
    | None => refused
    | Some pipe_name =>
      match ConnectToService env pipe_name with
      | None => refused
      | Some pipe =>
        match ReadFrame env with
        | None => (err "link_worker_bootstrap_failed" "Link worker bootstrap unavailable",
                   mkHost None (sent_frames b))
        | Some frame => (HostString frame, mkHost (Some pipe) (sent_frames b))
        end
      end
    end
  end.

Definition send (env : HostEnv) (b : HostBridge) (handle : nat) (arg : option str) : HostReply * HostBridge :=
  match arg with
  | None => (err "invalid_link_worker_frame" "Invalid Link worker frame", b)
  | Some frame =>
    if bool_decide (frame = []) || (kFrameLimit <? Z.of_nat (length frame))
    then (err "invalid_link_worker_frame" "Invalid Link worker frame", b) else
    (HostBool (bool_decide (he_write env = Some (Z.of_nat (length frame)))),
     mkHost (pipe_ b) (sent_frames b ++ [(handle, frame)]))
  end.

Definition receive (env : HostEnv) : HostReply :=
  match he_peek env with
  | None => err "link_worker_pipe_failed" "Link worker pipe closed"
  | Some message_size =>
    if message_size =? 0 then HostNull else
    if kFrameLimit <? message_size
    then err "link_worker_frame_too_large" "Link worker frame exceeds limit" else
    match ReadFrame env with
    | None => err "link_worker_pipe_failed" "Could not read Link worker frame"
    | Some frame => HostString frame
    end
  end.

Definition ClosePipe (b : HostBridge) : HostBridge := mkHost None (sent_frames b).

Definition host_call (env : HostEnv) (b : HostBridge) (c : HostCall) : HostReply * HostBridge :=
  let named := λ name : string, bool_decide (host_method c = B name) in
  if named "bringToFront" then (HostVoid, b) else
  if named "bootstrap" then bootstrap env b (host_arg c) else
  match pipe_ b with
  | None => (err "link_worker_not_ready" "Link worker bootstrap required", b)
  | Some (_, handle) =>
    if named "send" then send env b handle (host_arg c) else
    if named "receive" then (receive env, b) else
    if named "close" then (HostVoid, ClosePipe b) else (HostNotImplemented, b)
  end.

(** The calls of a session, each with its answers from Windows. *)
Fixpoint host_run (b : HostBridge) (calls : list (HostEnv * HostCall)) : list HostReply * HostBridge :=
  match calls with
  | [] => ([], b)
  | (env, c) :: calls =>
    let '(r, b) := host_call env b c in
    let '(rs, b) := host_run b calls in (r :: rs, b)
  end.

(** ** Specification vocabulary *)

(** A name the service gives out: the prefix and 32 lower-case digits. *)
Definition service_pipe_name (name : wstr) : Prop :=
  ∃ id, name = W kPipePrefix ++ id ∧ length id = 32%nat ∧ Forall (λ c, lower_hex c = true) id.

(** [env] saw the handle connected to LocalSystem in session 0, this process
    being the client. *)
Definition service_end (env : HostEnv) (handle : nat) : Prop :=
  he_open env = Some handle ∧ he_client_pid env = Some (he_own_pid env) ∧
  ∃ pid, he_server_pid env = Some pid ∧ pv_is_system (he_process env pid) = true ∧
    pv_session (he_process env pid) = Some 0.

Definition frame_ok (frame : str) : Prop := frame ≠ [] ∧ Z.of_nat (length frame) <= kFrameLimit.

(** What an open handle owes to the calls so far: a bootstrap under a valid name
    whose checks it passed. *)
Definition bootstrapped (calls : list (HostEnv * HostCall)) (handle : nat) : Prop :=
  ∃ env c name, (env, c) ∈ calls ∧ host_method c = B "bootstrap" ∧ host_arg c = Some name ∧
    service_pipe_name name ∧ service_end env handle.

(** ** Lemmas *)
Lemma ValidPipeName_spec value wide :
  ValidPipeName value = Some wide ↔ service_pipe_name value ∧ wide = value.
Proof.
  unfold ValidPipeName, service_pipe_name. cbv zeta. split.
  - destruct (Nat.eqb_spec (length value) (length (W kPipePrefix) + 32)) as [El|]; [|done].
    case_bool_decide as Ep; [|done]. destruct (forallb _ _) eqn:Eh; [|done]. cbn [negb].
    intros [= <-]. assert (Ev : W kPipePrefix ++ drop (length (W kPipePrefix)) value = value).
    { rewrite <- Ep at 1. by rewrite take_drop. }
    split; [|done]. exists (drop (length (W kPipePrefix)) value). split_and!; [done| |].
    + rewrite length_drop. lia.
    + rewrite forallb_forall in Eh. apply Forall_forall. intros c Hc. by apply Eh, list_elem_of_In.
  - intros [(id & -> & Hl & Hh) ->]. rewrite length_app, Hl, Nat.eqb_refl. cbn [negb].
    rewrite take_app_length, drop_app_length, bool_decide_eq_true_2 by done. cbn [negb].
    rewrite (proj2 (forallb_forall _ _)); [done|]. intros c Hc. rewrite Forall_forall in Hh.
    by apply Hh, list_elem_of_In.
Qed.

Lemma ConnectToService_end env name p :
  ConnectToService env name = Some p → p.1 = name ∧ service_end env p.2.
Proof.
  unfold ConnectToService, service_end, IsSystemProcessInSessionZero.
  destruct (he_wait env); [|done]. destruct (he_open env) as [h|]; [|done]. cbn [negb].
  destruct (he_server_pid env) as [sp|]; [|done]. destruct (he_client_pid env) as [cp|]; [|done].
  destruct (Z.eqb_spec cp (he_own_pid env)) as [->|]; [|done]. cbn [andb].
  destruct (pv_open _); [|done]. destruct (pv_token _); [|done]. cbn [negb].
  destruct (_ && bool_decide _) eqn:E; [|done]. destruct (he_mode env); [|done]. intros [= <-].
  rewrite !andb_true_iff, bool_decide_eq_true in E. destruct E as [[[[_ _] _] Hs] Hse].
  split; [done|]. split_and!; [done..|]. by exists sp.
Qed.

Lemma ReadFrame_ok env frame : ReadFrame env = Some frame → frame_ok frame ∧ he_read env = Some frame.
Proof.
  unfold ReadFrame, frame_ok. destruct (he_read env) as [d|]; [|done].
  case_bool_decide; [done|]. destruct (Z.ltb_spec kFrameLimit (Z.of_nat (length d))); [done|].
  by intros [= <-].
Qed.

(** ** Sessions *)
Definition host_inv (seen : list (HostEnv * HostCall)) (b : HostBridge) : Prop :=
  (∀ p, pipe_ b = Some p → bootstrapped seen p.2) ∧
  (∀ h frame, (h, frame) ∈ sent_frames b → frame_ok frame ∧ bootstrapped seen h).

Lemma bootstrapped_mono seen x h : bootstrapped seen h → bootstrapped (seen ++ [x]) h.
Proof.
  intros (env & c & name & Hin & H). exists env, c, name. split; [|done]. apply elem_of_app. by left.
Qed.

Lemma host_inv_mono seen x b : host_inv seen b → host_inv (seen ++ [x]) b.
Proof.
  intros [H1 H2]. split; [intros p Hp; by apply bootstrapped_mono, H1|].
  intros h f Hin. destruct (H2 h f Hin). by split; [|apply bootstrapped_mono].
Qed.

Lemma host_inv_closed seen b : host_inv seen b → host_inv seen (ClosePipe b).
Proof. intros [_ H]. by split. Qed.

(** One call: the bridge stays in order, and text comes back only as a frame. *)
Lemma host_call_inv seen env c b r b' :
  host_inv seen b → host_call env b c = (r, b') →
  host_inv (seen ++ [(env, c)]) b' ∧ (∀ s, r = HostString s → frame_ok s ∧ he_read env = Some s).
Proof.
  intros Hi. pose proof (host_inv_mono _ (env, c) _ Hi) as Hm. unfold host_call. cbv zeta.
  case_bool_decide; [by intros [= <- <-]|].
  case_bool_decide as Hboot.
  { unfold bootstrap. destruct (pipe_ b); [by intros [= <- <-]|].
    destruct (host_arg c ≫= ValidPipeName) as [name|] eqn:Ev; [|by intros [= <- <-]].
    destruct (ConnectToService env name) as [p|] eqn:Ec; [|by intros [= <- <-]].
    destruct (ReadFrame env) as [frame|] eqn:Er; cycle 1.
    { intros [= <- <-]. split; [|done]. by apply (host_inv_closed _ b). }
    intros [= <- <-]. apply ReadFrame_ok in Er. split; [|by intros s [= <-]].
    split; [|apply Hm]. intros q [= <-]. destruct (host_arg c) as [value|] eqn:Ea; [|done].
    cbn in Ev. apply ValidPipeName_spec in Ev as [Hname ->].
    apply ConnectToService_end in Ec as [_ He]. exists env, c, value.
    split_and!; [|done..]. apply elem_of_app. right. by apply list_elem_of_singleton. }
  destruct (pipe_ b) as [[name handle]|] eqn:Ep; [|by intros [= <- <-]].
  case_bool_decide.
  { unfold send. destruct (host_arg c) as [frame|]; [|by intros [= <- <-]].
    case_bool_decide as Hne; [by intros [= <- <-]|].
    destruct (Z.ltb_spec kFrameLimit (Z.of_nat (length frame))); [by intros [= <- <-]|].
    intros [= <- <-]. split; [|done]. split.
    - intros p Hp. cbn in Hp. apply Hm. congruence.
    - intros h f. cbn. rewrite elem_of_app, list_elem_of_singleton. intros [Hin|[= -> ->]]; [by apply Hm|].
      split; [by split|]. by apply (proj1 Hm (name, handle)). }
  case_bool_decide.
  { intros [= <- <-]. split; [done|]. unfold receive. intros s. destruct (he_peek env); [|done].
    repeat (destr_if; [done|]). destruct (ReadFrame env) eqn:Er; [|done].
    intros [= <-]. by apply ReadFrame_ok. }
  case_bool_decide; intros [= <- <-]; (split; [|done]); [by apply host_inv_closed|done].
Qed.

(** Every text of a session came from a frame read in one of its calls. *)
Lemma host_run_inv seen b calls rs b' :
  host_inv seen b → host_run b calls = (rs, b') →
  host_inv (seen ++ calls) b' ∧ length rs = length calls ∧ Forall (λ r, ∀ s, r = HostString s → frame_ok s) rs.
Proof.
  revert seen b rs. induction calls as [|[env c] calls IH]; intros seen b rs Hi; cbn [host_run].
  { intros [= <- <-]. rewrite app_nil_r. split_and!; [by apply Hi..|done|constructor]. }
  destruct (host_call env b c) as [r b1] eqn:Ec. destruct (host_run b1 calls) as [rs1 b2] eqn:Er.
  intros [= <- <-]. destruct (host_call_inv _ _ _ _ _ _ Hi Ec) as [Hi1 Hr].
  destruct (IH _ _ _ Hi1 Er) as (Hi2 & Hl & Hf). rewrite <- app_assoc in Hi2. cbn in Hi2.
  split; [done|]. split; [cbn; lia|]. constructor; [|done]. intros s Hs. by apply Hr.
Qed.

Lemma host_inv_nil : host_inv [] (mkHost None []).
Proof. split; [intros p Hp; discriminate Hp|]. cbn. intros h f Hin. by apply not_elem_of_nil in Hin. Qed.

(** C28: over any session of the bridge, a pipe is open, and a frame was sent on
    it, only after a bootstrap whose argument was a well-formed pipe name and
    whose handle was connected to a LocalSystem process of session 0 with this
    process as the client; frames in either direction are not empty and at most
    512 KB. Every call is answered. *)
Theorem host_session calls :
  let '(rs, b) := host_run (mkHost None []) calls in
  (∀ p, pipe_ b = Some p → bootstrapped calls p.2) ∧
  (∀ h frame, (h, frame) ∈ sent_frames b → frame_ok frame ∧ bootstrapped calls h) ∧
  (∀ s, HostString s ∈ rs → frame_ok s) ∧ length rs = length calls.
Proof.
  destruct (host_run (mkHost None []) calls) as [rs b] eqn:E.
  destruct (host_run_inv [] _ _ _ _ host_inv_nil E) as ([H1 H2] & Hl & Hf).
  cbn in H1, H2. split_and!; [exact H1|exact H2| |exact Hl]. intros s Hs. rewrite Forall_forall in Hf. by apply (Hf _ Hs).
Qed.

Definition demo_name : str := W kPipePrefix ++ replicate 32 48.
Definition demo_host (read : str) : HostEnv :=
  mkHostEnv true (Some 5%nat) (Some 900) (Some 77) 77 (λ _, mkProcessView true true 44 true true true (Some 0))
    true (Some read) (Some 2) (Some 2).
Definition demo_session : list (HostEnv * HostCall) :=
  [(demo_host (B "{}"), mkHostCall (B "bootstrap") (Some demo_name));
   (demo_host [], mkHostCall (B "send") (Some (B "[]")));
   (demo_host (B "ok"), mkHostCall (B "receive") None)].

Lemma host_session_witness :
  (host_run (mkHost None []) demo_session).1 = [HostString (B "{}"); HostBool true; HostString (B "ok")] ∧
  bootstrapped demo_session 5%nat.
Proof.
  pose proof (host_session demo_session) as H.
  assert (E : host_run (mkHost None []) demo_session =
    ([HostString (B "{}"); HostBool true; HostString (B "ok")],
     mkHost (Some (demo_name, 5%nat)) [(5%nat, B "[]")])) by (vm_compute; reflexivity).
  rewrite E in H. destruct H as [H _]. split; [by rewrite E|]. by apply (H (demo_name, 5%nat)).
Defined.
