(* ===== verification/InputQueue.v ===== *)
(** * Input of the remote operator

    [windows/runner/input_block.cpp]: the queue of keyboard and mouse events, the
    worker thread that follows the input desktop and injects them, the gate that
    keeps an interactive session away from the secure desktop, and the hooks that
    hold back the local user's input. Desktop handles are numbers; what Windows
    answers is an argument of the step that asks. *)
From S2P Require Import Prelude Config.

(** ** Tasks *)
Inductive Kind := kUnicode | kVk | kMouse | kSas.
#[export] Instance Kind_eq_dec : EqDecision Kind.
Proof. solve_decision. Defined.

Record NativeInputTask := mkTask {
  kind : Kind; ch : Z; vk : Z; is_down : bool; abs_x : Z; abs_y : Z;
  norm_vx : Z; norm_vy : Z; mouse_flags : Z; mouse_data : Z }.

Definition MOUSEEVENTF_MOVE : Z := 0x1.
Definition MOUSEEVENTF_LEFTUP : Z := 0x4.
Definition MOUSEEVENTF_RIGHTUP : Z := 0x10.
Definition MOUSEEVENTF_MIDDLEUP : Z := 0x40.
Definition MOUSEEVENTF_XUP : Z := 0x100.
Definition MOUSEEVENTF_VIRTUALDESK : Z := 0x4000.
Definition MOUSEEVENTF_ABSOLUTE : Z := 0x8000.

Definition move_flags : Z := Z.lor (Z.lor MOUSEEVENTF_MOVE MOUSEEVENTF_ABSOLUTE) MOUSEEVENTF_VIRTUALDESK.
Definition up_flags : Z :=
  Z.lor (Z.lor (Z.lor MOUSEEVENTF_LEFTUP MOUSEEVENTF_RIGHTUP) MOUSEEVENTF_MIDDLEUP) MOUSEEVENTF_XUP.

Definition is_kind (k : Kind) (t : NativeInputTask) : bool := bool_decide (kind t = k).
Definition is_move (t : NativeInputTask) : bool := is_kind kMouse t && (mouse_flags t =? move_flags).

(** [is_key_up || is_mouse_up] *)
Definition is_up (t : NativeInputTask) : bool :=
  ((is_kind kVk t || is_kind kUnicode t) && negb (is_down t)) ||
  (is_kind kMouse t && negb (Z.land (mouse_flags t) up_flags =? 0)).

(** ** The queue *)

(** One sweep over the queue while it is too long: [size] is its size. *)
Fixpoint sweep (victim : NativeInputTask → bool) (size : nat) (q : list NativeInputTask) : list NativeInputTask :=
  match q with
  | [] => []
  | t :: q' =>
    if (size <? 512)%nat then q else
    if victim t then sweep victim (size - 1) q' else t :: sweep victim size q'
  end.

Definition EnqueueNativeInput (q : list NativeInputTask) (task : NativeInputTask) : list NativeInputTask :=
  if is_move task &&
     match last q with Some b => is_kind kMouse b && (mouse_flags b =? mouse_flags task) | None => false end
  then removelast q ++ [task]
  else
    let q :=
      if (512 <=? length q)%nat then
        let q := sweep is_move (length q) q in
        if (512 <=? length q)%nat then sweep (λ t, negb (is_up t)) (length q) q else q
      else q in
    q ++ [task].

(** ** Injected events *)
Inductive InputEvent :=
  | KeyEvent (wVk wScan dwFlags : Z)
  | MouseEvent (dx dy dwFlags mouseData : Z)
  | SasEvent.

Definition KEYEVENTF_EXTENDEDKEY : Z := 1.
Definition KEYEVENTF_KEYUP : Z := 2.
Definition KEYEVENTF_UNICODE : Z := 4.

Section Events.
(** [MapVirtualKeyW(vk, MAPVK_VK_TO_VSC)]; whether [SendInput] took the event;
    [GetAsyncKeyState(vk) & 0x8000]. *)
Context (MapVirtualKey : Z → Z) (SendInput : InputEvent → bool) (pressed : Z → bool).

Definition extended_key (vk : Z) : bool :=
  bool_decide (vk ∈ [163; 165; 45; 46; 36; 35; 33; 34]) || ((37 <=? vk) && (vk <=? 40)).

Definition ExecuteSendVk (vk : Z) (is_down : bool) : list InputEvent :=
  let flags := Z.lor (if is_down then 0 else KEYEVENTF_KEYUP)
                     (if extended_key vk then KEYEVENTF_EXTENDEDKEY else 0) in
  let e := KeyEvent vk (u16 (MapVirtualKey vk)) flags in
  if SendInput e then [e] else [e; KeyEvent (u8 vk) (u8 (u16 (MapVirtualKey vk))) flags].

Definition ExecuteSendUnicode (ch : Z) (is_down : bool) : list InputEvent :=
  [KeyEvent 0 ch (Z.lor KEYEVENTF_UNICODE (if is_down then 0 else KEYEVENTF_KEYUP))].

Definition ExecuteSendMouse (t : NativeInputTask) : list InputEvent :=
  let e := MouseEvent (norm_vx t) (norm_vy t) (mouse_flags t) (mouse_data t) in
  if SendInput e then [e] else [e; e].

Definition mod_vks : list Z := [162; 163; 17; 164; 165; 18; 160; 161; 16; 91; 92].

Definition ReleaseModifierKeys : list InputEvent :=
  (λ vk, KeyEvent vk (u16 (MapVirtualKey vk)) KEYEVENTF_KEYUP) <$> filter (λ vk, pressed vk = true) mod_vks.
End Events.

(** The system policy key, when it opens for query and writing (the writes then
    succeed), and [sas.dll] with its [SendSAS]. *)
Record SasEnv := mkSas { sas_key : option RegKey; sas_dll : bool; sas_proc : bool }.

Definition sas_value : wstr := W "SoftwareSASGeneration".

(** The events, the key while they are sent and the key afterwards. *)
Definition ExecuteSendSas (env : SasEnv) : list InputEvent * option RegKey * option RegKey :=
  let r := query (sas_key env) sas_value 0 4 [0; 0; 0; 0] in
  let during := insert sas_value (mkRegValue REG_DWORD [3; 0; 0; 0]) <$> sas_key env in
  let after :=
    if rr_ok r then insert sas_value (mkRegValue (rr_type r) (take 4 (rr_buf r))) <$> during
    else delete sas_value <$> during in
  (if sas_dll env && sas_proc env then [SasEvent] else [], during, after).

(** ** Desktops *)
Definition IsSecureDesktop (name : wstr) : bool :=
  if bool_decide (name = []) then false
  else bool_decide (ieq name (W "Winlogon")) || bool_decide (ieq name (W "Screen-saver")).

(** What Windows answers about desktops during one call. *)
Record DeskEnv := mkDeskEnv {
  de_input : option nat;               (* OpenInputDesktop *)
  de_default : option nat; de_winlogon : option nat; de_saver : option nat;   (* OpenDesktopW *)
  de_receiving : nat → bool;           (* UOI_IO *)
  de_name : nat → wstr;                (* UOI_NAME; empty when the query fails *)
  de_set : nat → bool;                 (* SetThreadDesktop *)
}.

(** Handles opened and not closed yet. *)
Abbreviation desks := (list nat).
Definition opened (h : option nat) (l : desks) : desks := match h with Some h => h :: l | None => l end.
Definition closed (h : nat) (l : desks) : desks :=
  match list_find (eq h) l with Some (i, _) => delete i l | None => l end.

(** The loop over the candidates; [inl] is the early return. The flag tells the
    candidate [Default]. *)
Fixpoint candidate_loop (env : DeskEnv) (cands : list (bool * option nat)) (fallback : option nat)
    (l : desks) : option nat * desks :=
  match cands with
  | [] => (fallback, l)
  | (is_default, None) :: cands => candidate_loop env cands fallback l
  | (is_default, Some cand) :: cands =>
    let l := opened (Some cand) l in
    if de_receiving env cand then
      (Some cand, match fallback with
                  | Some f => if decide (f = cand) then l else closed f l
                  | None => l
                  end)
    else
      match fallback, is_default with
      | None, true => candidate_loop env cands (Some cand) l
      | _, _ => candidate_loop env cands fallback (closed cand l)
      end
  end.

Definition FindActiveInputDesktop (env : DeskEnv) (l : desks) : option nat * desks :=
  let l := opened (de_input env) l in
  let search := candidate_loop env
    [(true, de_default env); (false, de_winlogon env); (false, de_saver env)] (de_input env) l in
  match de_input env with
  | Some desk => if de_receiving env desk then (Some desk, l) else search
  | None => search
  end.

Record Worker := mkWorker {
  active_desk : option nat; open_desks : desks; last_name : wstr; desktop_changed : bool;
  last_awake : Z; last_check : Z;
  at_sas : option NativeInputTask      (* past the gate, before the case of Ctrl+Alt+Del *) }.

#[export] Instance eta_Worker : Settable Worker := λ w,
  mkWorker (active_desk w) (open_desks w) (last_name w) (desktop_changed w) (last_awake w) (last_check w) (at_sas w).

Definition AttachCurrentInputDesktop (env : DeskEnv) (w : Worker) : Worker :=
  if match active_desk w with Some d => de_receiving env d | None => false end then w else
  let '(found, l) := FindActiveInputDesktop env (open_desks w) in
  let w := w <| open_desks := l |> in
  match found with
  | None => w
  | Some target =>
    let name := de_name env target in
    let changed := negb (bool_decide (name = [])) && negb (bool_decide (name = last_name w)) in
    if de_set env target then
      let w := match active_desk w with Some d => w <| open_desks := closed d (open_desks w) |> | None => w end in
      let w := w <| active_desk := Some target |> in
      if changed then
        let w := if bool_decide (last_name w = []) then w else w <| desktop_changed := true |> in
        w <| last_name := name |>
      else w
    else w <| open_desks := closed target (open_desks w) |>
  end.

(** ** The worker *)
Record Shared := mkShared {
  queue : list NativeInputTask; keep_awake : bool; system_console_allowed : bool }.

(** An injection: the events, the task they serve, the desktop attached. *)
Record Injection := mkInjection { in_task : option NativeInputTask; in_desk : option nat; in_events : list InputEvent }.

(** What one round of the worker meets. *)
Record RoundEnv := mkRound {
  rn_now : Z;                          (* milliseconds *)
  rn_desk : DeskEnv; rn_map : Z → Z; rn_send : InputEvent → bool; rn_pressed : Z → bool;
  rn_sas : SasEnv }.

Definition execute (r : RoundEnv) (t : NativeInputTask) : list InputEvent :=
  match kind t with
  | kUnicode => ExecuteSendUnicode (ch t) (is_down t)
  | kVk => ExecuteSendVk (rn_map r) (rn_send r) (vk t) (is_down t)
  | kMouse => ExecuteSendMouse (rn_send r) t
  | kSas => []
  end.

(** One round of [DesktopInputWorkerLoop], up to the case of Ctrl+Alt+Del. The scope
    is read at the gate, after everything else a round does; a change of it during the
    round is as one before the round. *)
Definition worker_round (r : RoundEnv) (sh : Shared) (w : Worker) : Shared * Worker * list Injection :=
  let '(task, q) := match queue sh with t :: q => (Some t, q) | [] => (None, []) end in
  let sh := mkShared q (keep_awake sh) (system_console_allowed sh) in
  let now := rn_now r in
  let w := if 250 <=? now - last_check w
           then AttachCurrentInputDesktop (rn_desk r) (w <| last_check := now |>) else w in
  let awake := keep_awake sh && (15000 <=? now - last_awake w) in
  let w := if awake then w <| last_awake := now |> else w in
  let log := if awake then [mkInjection None (active_desk w) [MouseEvent 0 0 MOUSEEVENTF_MOVE 0]] else [] in
  match task with
  | None => (sh, w, log)
  | Some t =>
    if IsSecureDesktop (last_name w) && negb (system_console_allowed sh)
    then (sh, w, log ++ [mkInjection None (active_desk w) (ReleaseModifierKeys (rn_map r) (rn_pressed r))])
    else if is_kind kSas t then (sh, w <| at_sas := Some t |>, log)
    else (sh, w, log ++ [mkInjection (Some t) (active_desk w) (execute r t)])
  end.

(** The case of Ctrl+Alt+Del, which reads the scope a second time. *)
Definition sas_case (r : RoundEnv) (sh : Shared) (w : Worker) (t : NativeInputTask) : Worker * list Injection :=
  (w <| at_sas := None |>,
   if system_console_allowed sh
   then [mkInjection (Some t) (active_desk w) (ExecuteSendSas (rn_sas r)).1.1] else []).

(** The worker's next step. *)
Definition worker_step (r : RoundEnv) (sh : Shared) (w : Worker) : Shared * Worker * list Injection :=
  match at_sas w with
  | Some t => let '(w, log) := sas_case r sh w t in (sh, w, log)
  | None => worker_round r sh w
  end.

(** ** The exported functions *)
Inductive Call :=
  | send_unicode_char (ch : Z) (is_down : bool)
  | send_vk (vk : Z) (is_down : bool)
  | send_mouse (abs_x abs_y norm_vx norm_vy flags data : Z)
  | send_sas
  | set_keep_awake (active : bool)
  | set_desktop_scope (scope : option str).

Definition zero_task (k : Kind) : NativeInputTask := mkTask k 0 0 false 0 0 0 0 0 0.

Definition task_of (c : Call) : option NativeInputTask :=
  match c with
  | send_unicode_char c d => Some (mkTask kUnicode c 0 d 0 0 0 0 0 0)
  | send_vk v d => Some (mkTask kVk 0 v d 0 0 0 0 0 0)
  | send_mouse x y nx ny f m => Some (mkTask kMouse 0 0 false x y nx ny f m)
  | send_sas => Some (zero_task kSas)
  | _ => None
  end.

Definition run_call (c : Call) (sh : Shared) : Shared :=
  match c with
  | set_keep_awake b => mkShared (queue sh) b (system_console_allowed sh)
  | set_desktop_scope s =>
    mkShared (queue sh) (keep_awake sh)
      (match s with Some s => bool_decide (c_str s = B "system_console") | None => false end)
  | _ =>
    match task_of c with
    | Some t => mkShared (EnqueueNativeInput (queue sh) t) (keep_awake sh) (system_console_allowed sh)
    | None => sh
    end
  end.

(** [ligament_consume_desktop_changed] *)
Definition consume_desktop_changed (w : Worker) : Z * Worker :=
  (if desktop_changed w then 1 else 0, w <| desktop_changed := false |>).

(** A run: calls from the application and steps of the worker, in their order. *)
Inductive Event := EvCall (c : Call) | EvConsume | EvRound (r : RoundEnv).

Definition run_event (e : Event) (st : Shared * Worker) : Shared * Worker * list Injection :=
  let '(sh, w) := st in
  match e with
  | EvCall c => (run_call c sh, w, [])
  | EvConsume => (sh, (consume_desktop_changed w).2, [])
  | EvRound r => worker_step r sh w
  end.

(** ** The hooks *)
Definition LLHF_INJECTED_KEY : Z := 0x10.
Definition LLHF_INJECTED_MOUSE : Z := 0x1.

(** [KeyboardLLProc] and [MouseLLProc]: [Some 1] holds the event back, [None]
    passes it to the next hook. *)
Definition LLProc (injected_flag : Z) (blocked : bool) (n_code flags : Z) : option Z :=
  if (0 <=? n_code) && blocked then
    if Z.land flags injected_flag =? 0 then Some 1 else None
  else None.
Definition KeyboardLLProc : bool → Z → Z → option Z := LLProc LLHF_INJECTED_KEY.
Definition MouseLLProc : bool → Z → Z → option Z := LLProc LLHF_INJECTED_MOUSE.

(** ** Lemmas: the queue *)
Lemma sweep_sublist v n q : sweep v n q `sublist_of` q.
Proof.
  revert n. induction q as [|t q IH]; intros n; cbn [sweep]; [done|].
  destruct (n <? 512)%nat; [done|]. destruct (v t); [by apply sublist_cons|by apply sublist_skip].
Qed.

Lemma sweep_keeps v (P : NativeInputTask → Prop) `{!∀ t, Decision (P t)} n q :
  (∀ t, v t = true → ¬ P t) → filter P (sweep v n q) = filter P q.
Proof.
  intros Hv. revert n. induction q as [|t q IH]; intros n; cbn [sweep]; [done|].
  destruct (n <? 512)%nat; [done|]. destruct (v t) eqn:E.
  - rewrite IH, filter_cons_False; auto.
  - rewrite !filter_cons, IH. done.
Qed.

Lemma sweep_short v n q :
  (length q <= n)%nat →
  (n - (length q - length (sweep v n q)) < 512)%nat ∨ Forall (λ t, v t = false) (sweep v n q).
Proof.
  revert n. induction q as [|t q IH]; intros n Hn; cbn [sweep]; [by right|].
  destruct (Nat.ltb_spec n 512); [left; lia|]. cbn [length] in Hn.
  pose proof (sublist_length _ _ (sweep_sublist v n q)).
  pose proof (sublist_length _ _ (sweep_sublist v (n - 1) q)).
  destruct (v t) eqn:E.
  - destruct (IH (n - 1)%nat) as [Hc|Hc]; [lia|left; cbn [length]; lia|by right].
  - destruct (IH n) as [Hc|Hc]; [lia|left; cbn [length]; lia|right; by constructor].
Qed.

(** The tasks that are not releases. *)
Definition others (q : list NativeInputTask) : list NativeInputTask := filter (λ t, is_up t = false) q.

(** The queue's limit: it binds all tasks but the releases. *)
Definition bounded (q : list NativeInputTask) : Prop := (length (others q) <= 512)%nat.

Lemma others_app q1 q2 : others (q1 ++ q2) = others q1 ++ others q2.
Proof. apply filter_app. Qed.
Lemma others_length q : (length (others q) <= length q)%nat.
Proof. apply length_filter. Qed.
Lemma others_releases q : Forall (λ t, is_up t = true) q → others q = [].
Proof.
  induction 1 as [|t q Ht _ IH]; [done|]. unfold others. by rewrite filter_cons_False; [|rewrite Ht].
Qed.

Lemma move_not_up t : is_move t = true → is_up t = false.
Proof.
  unfold is_move, is_up. rewrite andb_true_iff, Z.eqb_eq. intros [Hk ->].
  unfold is_kind in *. apply bool_decide_eq_true in Hk. by rewrite Hk.
Qed.

Lemma removelast_snoc {A} (l : list A) x : removelast (l ++ [x]) = l.
Proof. by rewrite removelast_last. Qed.

(** What is dropped to make room: moves first, then what is not a release. *)
Lemma make_room_spec q :
  let kept := if (512 <=? length q)%nat then
      let q := sweep is_move (length q) q in
      if (512 <=? length q)%nat then sweep (λ t, negb (is_up t)) (length q) q else q
    else q in
  kept `sublist_of` q ∧ filter (λ t, is_up t = true) kept = filter (λ t, is_up t = true) q ∧
  (filter (λ t, is_move t = false) kept = filter (λ t, is_move t = false) q ∨
   Forall (λ t, is_move t = false) kept) ∧
  ((length kept < 512)%nat ∨ Forall (λ t, is_up t = true) kept).
Proof.
  cbv zeta. destruct (Nat.leb_spec 512 (length q)); [|split_and!; auto].
  set (q1 := sweep is_move (length q) q).
  assert (Hs1 : q1 `sublist_of` q) by apply sweep_sublist.
  assert (Hu1 : filter (λ t, is_up t = true) q1 = filter (λ t, is_up t = true) q).
  { apply sweep_keeps. intros t Ht%move_not_up. congruence. }
  assert (Hm1 : filter (λ t, is_move t = false) q1 = filter (λ t, is_move t = false) q).
  { apply sweep_keeps. intros t Ht. congruence. }
  pose proof (sublist_length _ _ Hs1).
  destruct (Nat.leb_spec 512 (length q1)) as [Hl|Hl]; [|split_and!; auto].
  set (q2 := sweep _ (length q1) q1).
  assert (Hs2 : q2 `sublist_of` q1) by apply sweep_sublist.
  destruct (sweep_short is_move (length q) q) as [Hn|Hn]; [done|fold q1 in Hn; lia|fold q1 in Hn].
  split_and!.
  - by etrans.
  - rewrite <- Hu1. apply sweep_keeps. intros t Ht. by destruct (is_up t).
  - right. rewrite Forall_forall in *. intros t Ht. apply Hn.
    eapply sublist_submseteq in Hs2. by eapply elem_of_submseteq.
  - destruct (sweep_short (λ t, negb (is_up t)) (length q1) q1) as [Hk|Hk]; [done| |].
    + left. fold q2 in Hk. pose proof (sublist_length _ _ Hs2). lia.
    + right. eapply Forall_impl; [exact Hk|]. intros t. apply negb_false_iff.
Qed.

Lemma enqueue_spec q task :
  bounded q →
  bounded (EnqueueNativeInput q task) ∧
  ∃ kept, EnqueueNativeInput q task = kept ++ [task] ∧ kept `sublist_of` q ∧
    filter (λ t, is_up t = true) kept = filter (λ t, is_up t = true) q ∧
    (filter (λ t, is_move t = false) kept = filter (λ t, is_move t = false) q ∨
     Forall (λ t, is_move t = false) kept).
Proof.
  intros Hb. unfold EnqueueNativeInput. destruct (is_move task && _) eqn:E.
  - apply andb_true_iff in E as [Hm Hl]. destruct (last q) as [b|] eqn:El; [|done].
    apply last_Some in El as [q0 ->]. rewrite removelast_snoc.
    assert (Hmb : is_move b = true).
    { apply andb_true_iff in Hl as [Hk Hf%Z.eqb_eq]. unfold is_move in *. rewrite Hk, Hf.
      by apply andb_true_iff in Hm as [_ ->]. }
    split.
    + unfold bounded in *. rewrite others_app, length_app in *. unfold others at 2 in Hb.
      rewrite filter_cons_True in Hb by by apply move_not_up. cbn in Hb.
      pose proof (others_length [task]). cbn in *. lia.
    + exists q0. split_and!; [done|by apply sublist_inserts_r| |left].
      * rewrite filter_app, filter_cons_False, app_nil_r; [done|]. by rewrite move_not_up.
      * rewrite filter_app, filter_cons_False, app_nil_r; [done|]. by rewrite Hmb.
  - destruct (make_room_spec q) as (Hs & Hu & Hm & Hl). set (kept := if (512 <=? length q)%nat then _ else q) in *.
    split; [|by exists kept]. unfold bounded. rewrite others_app, length_app.
    pose proof (others_length [task]). pose proof (others_length kept). cbn in *.
    destruct Hl as [Hl|Hl]; [lia|]. rewrite (others_releases _ Hl). cbn. lia.
Qed.

(** Nothing bounds the releases themselves: [n] of them make a queue of [n]. *)
Lemma releases_unbounded n :
  length (foldl EnqueueNativeInput [] (replicate n (mkTask kVk 0 65 false 0 0 0 0 0 0))) = n.
Proof.
  set (t := mkTask _ _ _ _ _ _ _ _ _ _).
  assert (∀ q, Forall (λ t, is_up t = true) q → EnqueueNativeInput q t = q ++ [t]) as Ht.
  { intros q Hq. unfold EnqueueNativeInput. cbn [is_move is_kind andb].
    change (is_move t) with false. cbn [andb].
    assert (∀ v n, (∀ x, is_up x = true → v x = false) → sweep v n q = q) as Hs.
    { intros v k Hv. clear -Hq Hv. revert k. induction Hq as [|x q Hx _ IH]; intros k; cbn [sweep]; [done|].
      destruct (k <? 512)%nat; [done|]. rewrite Hv by done. by rewrite IH. }
    destruct (512 <=? length q)%nat; [|done]. cbv zeta.
    rewrite (Hs is_move) by (intros x Hx; destruct (is_move x) eqn:E; [apply move_not_up in E; congruence|done]).
    destruct (512 <=? length q)%nat; [|done]. by rewrite Hs by by intros x ->. }
  assert (∀ q, Forall (λ t, is_up t = true) q →
    foldl EnqueueNativeInput q (replicate n t) = q ++ replicate n t) as H.
  { induction n as [|n IH]; intros q Hq; cbn [replicate foldl]; [by rewrite app_nil_r|].
    rewrite Ht by done. rewrite IH by (apply Forall_app; split; [done|by repeat constructor]).
    by rewrite <- app_assoc. }
  rewrite H by constructor. apply length_replicate.
Qed.

(** C29: a new task always goes to the end of the queue and the rest keeps its
    order; no release of a key or button is ever dropped; pure moves are dropped
    before anything else; and at most 512 of the queued tasks are not releases. The
    releases have no limit of their own, so the queue has none
    ([releases_unbounded]). *)
Theorem EnqueueNativeInput_keeps q task :
  bounded q →
  bounded (EnqueueNativeInput q task) ∧
  ∃ kept, EnqueueNativeInput q task = kept ++ [task] ∧ kept `sublist_of` q ∧
    filter (λ t, is_up t = true) kept = filter (λ t, is_up t = true) q ∧
    (filter (λ t, is_move t = false) kept = filter (λ t, is_move t = false) q ∨
     Forall (λ t, is_move t = false) kept).
Proof. apply enqueue_spec. Qed.

Lemma EnqueueNativeInput_keeps_witness :
  bounded (EnqueueNativeInput (replicate 512 (zero_task kSas)) (mkTask kVk 0 65 false 0 0 0 0 0 0)) ∧
  length (EnqueueNativeInput (replicate 512 (zero_task kSas)) (mkTask kVk 0 65 false 0 0 0 0 0 0)) = 512%nat.
Proof.
  split; [|vm_compute; reflexivity].
  apply (EnqueueNativeInput_keeps (replicate 512 (zero_task kSas))).
  apply (bool_decide_unpack _). vm_compute. exact I.
Defined.

(** ** Lemmas: desktops *)
Lemma closed_perm h l : h ∈ l → h :: closed h l ≡ₚ l.
Proof.
  intros Hin. unfold closed. destruct (list_find (eq h) l) as [[i x]|] eqn:E.
  - apply list_find_Some in E as (Hi & <- & _). by rewrite <- delete_Permutation.
  - apply list_find_None in E. rewrite Forall_forall in E. by apply E in Hin.
Qed.

Lemma closed_head h l l' : l ≡ₚ h :: l' → closed h l ≡ₚ l'.
Proof.
  intros H. apply (Permutation_cons_inv (a := h)). rewrite <- H. apply closed_perm.
  rewrite H. by left.
Qed.

Definition handles (cands : list (bool * option nat)) : list nat := omap snd cands.

(** The search gives up every handle but the one it returns. *)
Lemma candidate_loop_open env cands fallback l l0 :
  l ≡ₚ option_list fallback ++ l0 → NoDup (handles cands ++ l) →
  let '(found, l') := candidate_loop env cands fallback l in l' ≡ₚ option_list found ++ l0.
Proof.
  revert fallback l. induction cands as [|[def [cand|]] cands IH]; intros fallback l Hl Hnd;
    cbn [candidate_loop]; [done| |by apply IH].
  cbn in Hnd. apply NoDup_cons in Hnd as [Hc Hnd]. rewrite elem_of_app in Hc. cbn [opened].
  destruct (de_receiving env cand).
  - destruct fallback as [f|]; [|by rewrite Hl]. cbn in Hl. rewrite decide_False; cycle 1.
    { intros ->. apply Hc. right. rewrite Hl. by left. }
    cbn. apply closed_head. rewrite Hl. apply Permutation_swap.
  - assert (Hcl : closed cand (cand :: l) ≡ₚ l) by by apply closed_head.
    assert (Hdrop : NoDup (handles cands ++ closed cand (cand :: l))) by by rewrite Hcl.
    destruct fallback as [f|]; [by apply IH; [rewrite Hcl|]|].
    destruct def; [|by apply IH; [rewrite Hcl|]].
    apply IH; [cbn in *; by rewrite Hl|].
    rewrite <- Permutation_middle. apply NoDup_cons. by rewrite elem_of_app.
Qed.

(** The handles of one call are new, and differ. *)
Definition fresh (env : DeskEnv) (l : desks) : Prop :=
  NoDup (handles [(true, de_input env); (true, de_default env); (false, de_winlogon env); (false, de_saver env)] ++ l).

Lemma FindActive_open env l :
  fresh env l →
  let '(found, l') := FindActiveInputDesktop env l in l' ≡ₚ option_list found ++ l.
Proof.
  intros Hf. unfold FindActiveInputDesktop.
  pose proof (candidate_loop_open env
    [(true, de_default env); (false, de_winlogon env); (false, de_saver env)] (de_input env)
    (opened (de_input env) l) l) as H.
  assert (Ho : opened (de_input env) l = option_list (de_input env) ++ l) by by destruct (de_input env).
  specialize (H ltac:(by rewrite Ho)).
  assert (Hnd : NoDup (handles [(true, de_default env); (false, de_winlogon env); (false, de_saver env)] ++
    opened (de_input env) l)).
  { unfold fresh, handles in Hf. unfold handles. rewrite Ho. cbn [omap list_omap snd] in *.
    destruct (de_input env) as [d|]; [|exact Hf]. cbn [option_list option_rect app] in *.
    rewrite <- Permutation_middle. exact Hf. }
  specialize (H Hnd). destruct (de_input env) as [desk|]; [|exact H].
  destruct (de_receiving env desk); [done|exact H].
Qed.

(** The worker's desktop handles: those attached, and no other is left open. *)
Definition tidy (w : Worker) : Prop := open_desks w ≡ₚ option_list (active_desk w).

Lemma Attach_tidy env w :
  fresh env (open_desks w) → tidy w → tidy (AttachCurrentInputDesktop env w).
Proof.
  intros Hf Ht. unfold AttachCurrentInputDesktop.
  destruct (match active_desk w with Some _ => _ | None => _ end); [done|].
  pose proof (FindActive_open env (open_desks w) Hf) as Ho.
  destruct (FindActiveInputDesktop env (open_desks w)) as [[target|] l]; cycle 1.
  { unfold tidy in *. cbn. by rewrite Ho, Ht. }
  cbn in Ho. cbv zeta. unfold tidy in *. destruct (de_set env target); cycle 1.
  { cbn. rewrite <- Ht. by apply closed_head. }
  assert (Hgo : open_desks match active_desk w with
    | Some d => w <| open_desks := l |> <| open_desks := closed d l |>
    | None => w <| open_desks := l |> end ≡ₚ [target]).
  { destruct (active_desk w) as [d|]; cbn in *; [|by rewrite Ho, Ht].
    apply closed_head. rewrite Ho, Ht. apply Permutation_swap. }
  destruct (negb _ && negb _); [destruct (bool_decide _)|]; exact Hgo.
Qed.

(** ** Runs of the worker *)

(** What Windows answered when it was last asked for the name of a desktop that was then
    attached; nothing when the query failed. *)
Definition answered (env : DeskEnv) (w : Worker) (g : wstr) : wstr :=
  if match active_desk w with Some d => de_receiving env d | None => false end then g else
  match (FindActiveInputDesktop env (open_desks w)).1 with
  | Some target => if de_set env target then de_name env target else g
  | None => g
  end.

(** The name in use is the last one that was not refused. *)
Definition knows (g : wstr) (w : Worker) : Prop := g ≠ [] → last_name w = g.

Lemma Attach_knows env w g : knows g w → knows (answered env w g) (AttachCurrentInputDesktop env w).
Proof.
  intros Hk. unfold answered, AttachCurrentInputDesktop.
  destruct (match active_desk w with Some d => de_receiving env d | None => false end); [done|].
  destruct (FindActiveInputDesktop env (open_desks w)) as [[target|] l]; [|exact Hk]. cbn [fst].
  cbv zeta. destruct (de_set env target); [|exact Hk]. intros Hne.
  assert (Hlast : last_name match active_desk w with
    | Some d => w <| open_desks := l |> <| open_desks := closed d l |>
    | None => w <| open_desks := l |> end = last_name w) by by destruct (active_desk w).
  rewrite (bool_decide_eq_false_2 (de_name env target = [])) by done. cbn [negb andb].
  case_bool_decide as Hsame; cbn [negb].
  - etrans; [exact Hlast|]. exact (eq_sym Hsame).
  - destruct (bool_decide _); done.
Qed.

Definition start (now : Z) : Shared * Worker :=
  (mkShared [] false false, mkWorker None [] [] false (now - 30000) (now - 250) None).

(** Every handle that Windows returns is a new one. *)
Definition ok_event (st : Shared * Worker) (e : Event) : Prop :=
  match e with
  | EvRound r => fresh (rn_desk r) (open_desks st.2)
  | _ => True
  end.

(** The answer after an event. *)
Definition heard (e : Event) (st : Shared * Worker) (g : wstr) : wstr :=
  match e with
  | EvRound r =>
    match at_sas st.2 with
    | Some _ => g
    | None => if 250 <=? rn_now r - last_check st.2 then answered (rn_desk r) st.2 g else g
    end
  | _ => g
  end.

Inductive reach : Shared * Worker → wstr → Prop :=
  | reach_start now : reach (start now) []
  | reach_step st g e : reach st g → ok_event st e → reach (run_event e st).1 (heard e st g).

Definition worker_inv (st : Shared * Worker) (g : wstr) : Prop :=
  tidy st.2 ∧ knows g st.2 ∧ bounded (queue st.1) ∧
  (∀ t, at_sas st.2 = Some t → kind t = kSas).

(** The worker after the desktop check of a round. *)
Definition checked (r : RoundEnv) (w : Worker) : Worker :=
  if 250 <=? rn_now r - last_check w
  then AttachCurrentInputDesktop (rn_desk r) (w <| last_check := rn_now r |>) else w.

Lemma checked_inv r sh w g :
  fresh (rn_desk r) (open_desks w) → tidy w → knows g w → at_sas w = None →
  tidy (checked r w) ∧ knows (heard (EvRound r) (sh, w) g) (checked r w).
Proof.
  intros Hf Ht Hk Hs. unfold checked, heard. cbn [snd]. rewrite Hs.
  destruct (250 <=? rn_now r - last_check w); [|done].
  split; [by apply Attach_tidy|]. 
  change (answered (rn_desk r) w g) with (answered (rn_desk r) (w <| last_check := rn_now r |>) g). by apply Attach_knows.
Qed.

Lemma others_tail q : (length (others (tail q)) <= length (others q))%nat.
Proof. destruct q as [|t q]; [done|]. unfold others. rewrite filter_cons. destruct (decide _); cbn; lia. Qed.

Definition passive (e : InputEvent) : Prop :=
  e = MouseEvent 0 0 MOUSEEVENTF_MOVE 0 ∨ ∃ vk scan, vk ∈ mod_vks ∧ e = KeyEvent vk scan KEYEVENTF_KEYUP.

Lemma execute_no_sas r t : SasEvent ∉ execute r t.
Proof.
  unfold execute, ExecuteSendUnicode, ExecuteSendVk, ExecuteSendMouse. cbv zeta.
  destruct (kind t); intros H.
  - by apply list_elem_of_singleton in H.
  - destruct (rn_send r _); rewrite !elem_of_cons, elem_of_nil in H; naive_solver.
  - destruct (rn_send r _); rewrite !elem_of_cons, elem_of_nil in H; naive_solver.
  - by apply not_elem_of_nil in H.
Qed.

Lemma Release_passive m p : Forall passive (ReleaseModifierKeys m p).
Proof.
  unfold ReleaseModifierKeys. apply Forall_forall. intros e [vk [-> Hvk]]%list_elem_of_fmap. right.
  exists vk, (u16 (m vk)). split; [|done]. by apply list_elem_of_filter in Hvk as [_ ?].
Qed.

Lemma Attach_at_sas env w : at_sas (AttachCurrentInputDesktop env w) = at_sas w.
Proof.
  unfold AttachCurrentInputDesktop. destruct (match active_desk w with Some _ => _ | None => _ end); [done|].
  destruct (FindActiveInputDesktop env (open_desks w)) as [[t|] l]; [|done]. cbv zeta.
  destruct (de_set env t); [|done]. repeat case_match; done.
Qed.

(** What a round logs. *)
Lemma worker_round_log r sh w : at_sas w = None →
  let '(sh', w', log) := worker_round r sh w in
  let w1 := checked r w in
  queue sh' = tail (queue sh) ∧
  active_desk w' = active_desk w1 ∧ open_desks w' = open_desks w1 ∧ last_name w' = last_name w1 ∧
  (∀ t, at_sas w' = Some t → kind t = kSas) ∧
  ∀ i, i ∈ log →
    in_desk i = active_desk w1 ∧
    match in_task i with
    | Some t => (IsSecureDesktop (last_name w1) = true → system_console_allowed sh = true) ∧ SasEvent ∉ in_events i
    | None => Forall passive (in_events i)
    end.
Proof.
  intros Hsas. unfold worker_round. fold (checked r w). set (w1 := checked r w).
  assert (at_sas w1 = None) as Hs1.
  { unfold w1, checked. destruct (250 <=? _); [|done]. by rewrite Attach_at_sas. }
  destruct (match queue sh with t :: q => (Some t, q) | [] => (None, []) end) as [task q] eqn:Eq.
  assert (Hq : q = tail (queue sh)) by (destruct (queue sh); by simplify_eq). cbn [keep_awake system_console_allowed].
  set (aw := keep_awake sh && _).
  set (w2 := if aw then w1 <| last_awake := rn_now r |> else w1).
  assert (Hw2 : active_desk w2 = active_desk w1 ∧ open_desks w2 = open_desks w1 ∧ last_name w2 = last_name w1 ∧
    at_sas w2 = None) by (unfold w2; destruct aw; by rewrite <- Hs1).
  destruct Hw2 as (Ha & Ho & Hn & Hs2).
  set (log := if aw then [mkInjection None (active_desk w2) [MouseEvent 0 0 MOUSEEVENTF_MOVE 0]] else []).
  assert (Hlog : ∀ i, i ∈ log → in_desk i = active_desk w1 ∧ in_task i = None ∧ Forall passive (in_events i)).
  { unfold log. intros i. destruct aw; [|by intros ?%not_elem_of_nil].
    intros ->%list_elem_of_singleton. cbn. split_and!; [done..|]. constructor; [by left|constructor]. }
  destruct task as [t|]; cbn.
  2: { split_and!; [done..|by rewrite Hs2|]. intros i (Hd & -> & Hp)%Hlog. done. }
  destruct (IsSecureDesktop (last_name w2) && negb (system_console_allowed sh)) eqn:Eg; cbn [fst snd];
    [|destruct (is_kind kSas t) eqn:Ek].
  - split_and!; [done..|by rewrite Hs2|]. intros i. rewrite elem_of_app, list_elem_of_singleton.
    intros [(Hd & -> & Hp)%Hlog| ->]; [done|]. split; [done|apply Release_passive].
  - split_and!; [done..|by intros t' [= <-]; apply bool_decide_eq_true in Ek|].
    intros i (Hd & -> & Hp)%Hlog. done.
  - split_and!; [done..|by rewrite Hs2|]. intros i. rewrite elem_of_app, list_elem_of_singleton.
    intros [(Hd & -> & Hp)%Hlog| ->]; [done|]. cbn [in_desk in_task in_events]. split; [done|].
    rewrite <- Hn. split; [|apply execute_no_sas]. intros Hs. rewrite Hs in Eg. by destruct (system_console_allowed sh).
Qed.

Lemma run_call_bounded c sh : bounded (queue sh) → bounded (queue (run_call c sh)).
Proof. intros H. destruct c; cbn; try done; by apply enqueue_spec. Qed.

Lemma run_event_inv st g e :
  worker_inv st g → ok_event st e → worker_inv (run_event e st).1 (heard e st g).
Proof.
  destruct st as [sh w]. intros (Ht & Hc & Hb & Hk) He. cbn [fst snd] in *. destruct e as [c| |r]; cbn [run_event fst].
  - split_and!; [done..| |done]. cbn [fst]. by apply run_call_bounded.
  - split_and!; done.
  - unfold worker_step. destruct (at_sas w) as [t|] eqn:Es.
    { cbn. rewrite Es. by split_and!. }
    destruct (checked_inv r sh w g He Ht Hc Es) as [Ht1 Hc1].
    pose proof (worker_round_log r sh w Es) as Hl.
    destruct (worker_round r sh w) as [[sh' w'] log]. destruct Hl as (Hq & Ha & Ho & Hla & Hk' & _).
    unfold worker_inv, tidy, knows, bounded in *. cbn [fst snd] in *. rewrite Ha, Ho, Hla, Hq. split_and!; [done..| |done].
    pose proof (others_tail (queue sh)). lia.
Qed.

Lemma reach_inv st g : reach st g → worker_inv st g.
Proof.
  induction 1 as [now|st g e _ IH He]; [|by apply run_event_inv].
  split_and!; [unfold tidy; cbn; done|done|unfold bounded; cbn; lia|done].
Qed.

(** C8: over any run of calls and worker steps, an operator's event is injected only into
    the desktop that is attached, and only if the scope allows the system console, or the
    name that the gate goes by is not that of a secure desktop and neither is the name that
    Windows gave for the attached desktop. Windows may give none: then the gate goes by the
    last name it was given, of an earlier desktop ([unnamed_desktop_passes_gate] is such a
    run). Ctrl+Alt+Del is raised only for its own task and when the scope allows it at that
    moment. All the worker injects besides is releases of modifier keys and null moves. It
    leaves no desktop handle open but the attached one (each handle that Windows returns
    being a new one), and at most 512 of the queued tasks are not releases. *)
Theorem worker_gate st g e :
  reach st g → ok_event st e →
  let '(st', log) := run_event e st in
  open_desks st'.2 ≡ₚ option_list (active_desk st'.2) ∧ bounded (queue st'.1) ∧
  ∀ i, i ∈ log →
    match in_task i with
    | Some t =>
      in_desk i = active_desk st'.2 ∧
      (system_console_allowed st.1 = true ∨
         IsSecureDesktop (last_name st'.2) = false ∧ IsSecureDesktop (heard e st g) = false) ∧
      (SasEvent ∈ in_events i → kind t = kSas ∧ system_console_allowed st.1 = true)
    | None => Forall passive (in_events i)
    end.
Proof.
  intros Hr He. pose proof (reach_inv _ _ Hr) as Hi. pose proof (run_event_inv _ _ _ Hi He) as (Ht & Hkn & Hb & _).
  destruct (run_event e st) as [st' log] eqn:E. cbn [fst] in Ht, Hb, Hkn. split_and!; [done..|].
  destruct st as [sh w]. destruct Hi as (_ & _ & _ & Hk).
  destruct e as [c| |r]; cbn [run_event] in E; [by simplify_eq; intros i ?%not_elem_of_nil..|].
  unfold worker_step in E. cbn [fst snd] in *. destruct (at_sas w) as [t|] eqn:Es.
  { cbn in E. injection E as <- <-. destruct (system_console_allowed sh) eqn:Ea; [|by intros i ?%not_elem_of_nil].
    intros i ->%list_elem_of_singleton. cbn. split_and!; [done|by left|]. intros _. split; [by apply Hk|done]. }
  pose proof (worker_round_log r sh w Es) as Hl. rewrite E in Hl. destruct st' as [sh' w'].
  destruct Hl as (_ & Ha & _ & Hla & _ & Hlog). intros i Hin. destruct (Hlog i Hin) as [Hd Hti'].
  destruct (in_task i) as [t|]; [|done]. destruct Hti' as [Hg Hs]. cbn [snd] in *.
  split_and!; [by rewrite Ha| |by intros ?%Hs].
  destruct (system_console_allowed sh); [by left|right]. rewrite Hla in *.
  assert (IsSecureDesktop (last_name (checked r w)) = false) as Hsec.
  { destruct (IsSecureDesktop _); [|done]. by discriminate Hg. }
  split; [done|]. destruct (decide (heard (EvRound r) (sh, w) g = [])) as [->|Hne]; [done|].
  rewrite <- (Hkn Hne). cbn [snd]. by rewrite Hla.
Qed.

(** A machine: handle 1 is [Default], 2 is [Winlogon]. *)
Definition demo_desk (input : nat) (name : nat → wstr) : DeskEnv :=
  mkDeskEnv (Some input) None None None (λ h, bool_decide (h = input)) name (λ _, true).
Definition demo_names (h : nat) : wstr :=
  if bool_decide (h = 2%nat) then W "Winlogon" else W "Default".
Definition demo_round (now : Z) (input : nat) (name : nat → wstr) : RoundEnv :=
  mkRound now (demo_desk input name) id (λ _, true) (λ _, false) (mkSas None false false).
(** The attached desktop 1 goes on receiving input; nothing is opened. *)
Definition still_round (now : Z) : RoundEnv :=
  mkRound now (mkDeskEnv None None None None (λ h, bool_decide (h = 1%nat)) demo_names (λ _, true))
    id (λ _, true) (λ _, false) (mkSas None false false).
Definition demo_key : Call := send_vk 65 true.

Definition run_all (es : list Event) (st : Shared * Worker) : Shared * Worker :=
  foldl (λ st e, (run_event e st).1) st es.

(** A key typed on the ordinary desktop, and one while the secure desktop is attached. *)
Lemma worker_gate_witness :
  let st := run_all [EvRound (demo_round 0 1 demo_names); EvCall demo_key] (start 0) in
  reach st (W "Default") ∧
  (run_event (EvRound (demo_round 1000 2 demo_names)) st).2 = [mkInjection None (Some 2%nat) []] ∧
  (run_event (EvRound (still_round 1000)) st).2 = [mkInjection (task_of demo_key) (Some 1%nat) [KeyEvent 65 65 0]] ∧
  IsSecureDesktop (heard (EvRound (still_round 1000)) st (W "Default")) = false.
Proof.
  set (st := run_all _ _).
  assert (Hr : reach st (W "Default")).
  { apply (reach_step _ (W "Default") (EvCall demo_key)); [|done].
    replace (W "Default") with (heard (EvRound (demo_round 0 1 demo_names)) (start 0) []) by (vm_compute; reflexivity).
    apply (reach_step _ [] (EvRound (demo_round 0 1 demo_names))); [apply reach_start|].
    repeat constructor. apply not_elem_of_nil. }
  assert (He : ok_event st (EvRound (still_round 1000))).
  { apply (bool_decide_unpack _). vm_compute. exact I. }
  pose proof (worker_gate st _ _ Hr He) as H.
  assert (El : (run_event (EvRound (still_round 1000)) st).2 =
    [mkInjection (task_of demo_key) (Some 1%nat) [KeyEvent 65 65 0]]) by (vm_compute; reflexivity).
  split; [exact Hr|]. split; [vm_compute; reflexivity|]. split; [exact El|].
  destruct (run_event (EvRound (still_round 1000)) st) as [st' log]. cbn [snd] in El. subst log.
  destruct H as (_ & _ & H). specialize (H _ (list_elem_of_here _ _)). cbn [in_task task_of demo_key] in H.
  destruct H as (_ & [H|[_ H]] & _); [discriminate H|exact H].
Defined.

(** When the name query fails for the desktop that is attached, the gate goes
    on with the name of the one before: the operator's key goes to the logon
    desktop although the scope forbids it. *)
Theorem unnamed_desktop_passes_gate :
  let st := run_all [EvRound (demo_round 0 1 demo_names); EvCall demo_key] (start 0) in
  let nameless := demo_round 1000 2 (λ h, if bool_decide (h = 2%nat) then [] else demo_names h) in
  system_console_allowed st.1 = false ∧ IsSecureDesktop (demo_names 2) = true ∧
  (run_event (EvRound nameless) st).2 =
    [mkInjection (task_of demo_key) (Some 2%nat) [KeyEvent 65 65 0]].
Proof. vm_compute. done. Qed.

(** Raising Ctrl+Alt+Del sets the policy to 3 for its duration and leaves the
    key as it was, when the policy value was absent or four bytes long. *)
Theorem ExecuteSendSas_restores key dll proc :
  (∀ v, key !! sas_value = Some v → length (rv_data v) = 4%nat) →
  let '(events, during, after) := ExecuteSendSas (mkSas (Some key) dll proc) in
  (∃ k, during = Some k ∧ k !! sas_value = Some (mkRegValue REG_DWORD [3; 0; 0; 0])) ∧
  after = Some key ∧ (SasEvent ∈ events ↔ dll = true ∧ proc = true).
Proof.
  intros Hv. unfold ExecuteSendSas. cbn [sas_key query sas_dll sas_proc fmap option_fmap option_map].
  assert (He : SasEvent ∈ (if dll && proc then [SasEvent] else []) ↔ dll = true ∧ proc = true).
  { destruct dll, proc; cbn; rewrite ?list_elem_of_singleton, ?elem_of_nil; naive_solver. }
  unfold RegQueryValueExW. destruct (key !! sas_value) as [v|] eqn:Ev.
  - pose proof (Hv v eq_refl) as Hl. rewrite decide_True by lia. cbn [rr_ok rr_type rr_buf].
    split_and!; [by eexists; rewrite lookup_insert_eq|  |done..].
    rewrite insert_insert_eq, take_app_length' by done. f_equal. apply insert_id.
    rewrite Ev. by destruct v.
  - cbn [rr_ok]. split_and!; [by eexists; rewrite lookup_insert_eq| |done..].
    f_equal. by rewrite delete_insert_id.
Qed.

Lemma ExecuteSendSas_restores_witness :
  (ExecuteSendSas (mkSas (Some {[ sas_value := mkRegValue REG_DWORD [1; 0; 0; 0] ]}) true true)).2 =
    Some {[ sas_value := mkRegValue REG_DWORD [1; 0; 0; 0] ]}.
Proof.
  pose proof (ExecuteSendSas_restores {[ sas_value := mkRegValue REG_DWORD [1; 0; 0; 0] ]} true true) as H.
  destruct (ExecuteSendSas _) as [[ev during] after]. cbn [snd].
  apply H. intros v Hv. apply lookup_singleton_Some in Hv as [_ <-]. reflexivity.
Defined.
