(* ===== verification/RemoteMouse.v ===== *)
(** * The mouse of a remote session

    [windows/runner/remote_mouse_input.h]: the templates by which one thread injects
    the operator's mouse and holds back the local one, over an interface to Windows,
    and the conversion of a pixel to the axis of [SendInput]. The header is built into
    its test only; [InputQueue] is what the application runs. *)
From S2P Require Import Prelude Doubles InputQueue.

Definition MOUSEEVENTF_LEFTDOWN : Z := 0x2.
Definition MOUSEEVENTF_RIGHTDOWN : Z := 0x8.
Definition MOUSEEVENTF_MIDDLEDOWN : Z := 0x20.

(** [INPUT] with [type] [INPUT_MOUSE]. *)
Record MouseInput := mkMouseInput { mi_dx : Z; mi_dy : Z; mi_dwFlags : Z; mi_mouseData : Z }.

(** The calls, with the answer of those whose answer is used; the rectangle of
    [ClipCursor] is always null. *)
Inductive ApiCall := Send (input : MouseInput) (inserted : Z) | Block (blocked ok : bool) | ClipNull.

(** [Win32RemoteMouseApi]: what [SendInput] and [BlockInput] answer. *)
Class MouseApi := { api_send : MouseInput → Z; api_block : bool → bool }.

(** The result of a function and the calls it made, the first first. *)
Definition SendRemoteMouse `{MouseApi} (flags data dx dy : Z) : bool * list ApiCall :=
  let clip := if Z.land flags MOUSEEVENTF_MOVE =? 0 then [] else [ClipNull] in
  let input := mkMouseInput dx dy flags data in
  let n := api_send input in
  (n =? 1, clip ++ [Send input n]).

(** With the variable [blocked] before and after. *)
Definition SetRemoteMouseBlocked `{MouseApi} (desired blocked : bool) : bool * bool * list ApiCall :=
  if eqb blocked desired then (true, blocked, [ClipNull])
  else if api_block desired then (true, desired, [ClipNull; Block desired true])
  else (false, blocked, [ClipNull; Block desired false]).

(** [static_cast<LONG>(std::clamp(std::round(...), 0.0, 65535.0))]. *)
Definition RemoteMouseAxis (pixel origin extent : Z) : Z :=
  if extent <=? 1 then 0 else
  to_int (dclamp (dround (ddiv (dmul (dsub (of_int pixel) (of_int origin)) (of_int 65535)) (of_int (extent - 1))))
    (of_int 0) (of_int 65535)).

Definition RemoteMouseButton (button : Z) (down : bool) : Z :=
  let i := Z.to_nat (Z.max 0 (Z.min 2 button)) in
  nth i (if down then [MOUSEEVENTF_LEFTDOWN; MOUSEEVENTF_MIDDLEDOWN; MOUSEEVENTF_RIGHTDOWN]
         else [MOUSEEVENTF_LEFTUP; MOUSEEVENTF_MIDDLEUP; MOUSEEVENTF_RIGHTUP]) 0.

(** ** What Windows makes of the calls *)

(** Whether the cursor is confined, whether local input is held back, and the packets
    that were inserted. *)
Record MouseState := mkMouse { confined : bool; held_back : bool; inserted : list MouseInput }.
Definition apply_call (s : MouseState) (c : ApiCall) : MouseState :=
  match c with
  | Send input n => mkMouse (confined s) (held_back s) (if n =? 1 then inserted s ++ [input] else inserted s)
  | Block b ok => mkMouse (confined s) (if ok then b else held_back s) (inserted s)
  | ClipNull => mkMouse false (held_back s) (inserted s)
  end.

(** What the input thread is asked for, each time with Windows' answers of that time. *)
Inductive MouseOp := OpSend (api : MouseApi) (flags data dx dy : Z) | OpBlock (api : MouseApi) (desired : bool).
Definition mouse_op (blocked : bool) (o : MouseOp) : bool * bool * list ApiCall :=
  match o with
  | OpSend api flags data dx dy => let '(r, cs) := SendRemoteMouse flags data dx dy in (r, blocked, cs)
  | OpBlock api desired => SetRemoteMouseBlocked desired blocked
  end.
Fixpoint mouse_ops (os : list MouseOp) (blocked : bool) (s : MouseState) : list bool * bool * MouseState :=
  match os with
  | [] => ([], blocked, s)
  | o :: os =>
    let '(r, blocked, cs) := mouse_op blocked o in
    let '(rs, blocked, s) := mouse_ops os blocked (foldl apply_call s cs) in (r :: rs, blocked, s)
  end.

(** The packets of the requests that were reported as done. *)
Fixpoint reported (os : list MouseOp) (rs : list bool) : list MouseInput :=
  match os, rs with
  | OpSend _ flags data dx dy :: os, r :: rs =>
    (if (r : bool) then [mkMouseInput dx dy flags data] else []) ++ reported os rs
  | _ :: os, _ :: rs => reported os rs
  | _, _ => []
  end.
(** The last block that was reported as done, if there is one. *)
Fixpoint last_block (os : list MouseOp) (rs : list bool) (b : bool) : bool :=
  match os, rs with
  | OpBlock _ d :: os, r :: rs => last_block os rs (if (r : bool) then d else b)
  | _ :: os, _ :: rs => last_block os rs b
  | _, _ => b
  end.

(** ** Theorems *)

(** The axis value is the nearest integer, halves up, to the pixel's place on a scale
    from 0 to 65535 over the extent, and its nearest end outside: the two roundings in
    [double] arithmetic never show. For every [int] argument. *)
Theorem RemoteMouseAxis_nearest pixel origin extent :
  - 2 ^ 31 <= pixel < 2 ^ 31 → - 2 ^ 31 <= origin < 2 ^ 31 → extent < 2 ^ 31 →
  RemoteMouseAxis pixel origin extent =
    if extent <=? 1 then 0
    else Z.max 0 (Z.min 65535 ((2 * (65535 * (pixel - origin)) + (extent - 1)) / (2 * (extent - 1)))).
Proof.
  intros Hp Ho He. unfold RemoteMouseAxis. destruct (Z.leb_spec extent 1) as [|Hext]; [done|].
  rewrite dsub_exact by lia. replace (dmul (of_int (pixel - origin)) (of_int 65535)) with (of_int (65535 * (pixel - origin))).
  { apply round_div_clamped; lia. }
  destruct (Z.eq_dec (pixel - origin) 0) as [->|Hne]; [by vm_compute|].
  rewrite (Z.mul_comm 65535). symmetry. apply dmul_exact; split; lia.
Qed.

(** The middle pixel of a monitor left of the main one. *)
Lemma RemoteMouseAxis_nearest_witness : RemoteMouseAxis (-960) (-1920) 1921 = 32768.
Proof. rewrite (RemoteMouseAxis_nearest (-960) (-1920) 1921) by lia. reflexivity. Defined.

(** The edges of the screen reach the ends of the axis, and no pixel overtakes another. *)
Theorem RemoteMouseAxis_monotone p q origin extent :
  - 2 ^ 31 <= p <= q → q < 2 ^ 31 → - 2 ^ 31 <= origin < 2 ^ 31 → 1 < extent < 2 ^ 31 →
  0 <= RemoteMouseAxis p origin extent <= RemoteMouseAxis q origin extent ∧ RemoteMouseAxis q origin extent <= 65535 ∧
  (p <= origin → RemoteMouseAxis p origin extent = 0) ∧
  (origin + extent - 1 <= q → RemoteMouseAxis q origin extent = 65535).
Proof.
  intros Hp Hq Ho He. rewrite !RemoteMouseAxis_nearest by lia. rewrite (proj2 (Z.leb_gt extent 1)) by lia.
  assert (∀ a b, a <= b → (2 * (65535 * (a - origin)) + (extent - 1)) / (2 * (extent - 1)) <=
    (2 * (65535 * (b - origin)) + (extent - 1)) / (2 * (extent - 1))) as Hmono by (intros a b Hab; apply Z.div_le_mono; lia).
  split; [specialize (Hmono p q); lia|]. split; [lia|]. split; intros H.
  - assert ((2 * (65535 * (p - origin)) + (extent - 1)) / (2 * (extent - 1)) < 1) by (apply Z.div_lt_upper_bound; lia). lia.
  - assert (65535 <= (2 * (65535 * (q - origin)) + (extent - 1)) / (2 * (extent - 1))) by (apply Z.div_le_lower_bound; lia). lia.
Qed.

Lemma RemoteMouseAxis_monotone_witness : RemoteMouseAxis 1919 (-1920) 3840 = 65535.
Proof. apply (RemoteMouseAxis_monotone 0 1919 (-1920) 3840); lia. Defined.

(** Whatever Windows answers: [blocked] tells what Windows does; local input is held
    back exactly as the last successful request said; the packets inserted are those
    that were reported, in order; and an old confinement of the cursor does not survive
    a request to block, even a refused or superfluous one. *)
Theorem mouse_session os : ∀ blocked confined0 log,
  let '(rs, blocked', s) := mouse_ops os blocked (mkMouse confined0 blocked log) in
  length rs = length os ∧ held_back s = blocked' ∧ blocked' = last_block os rs blocked ∧
  inserted s = log ++ reported os rs ∧
  confined s = confined0 && forallb (λ o, match o with OpBlock _ _ => false | OpSend _ flags _ _ _ => Z.land flags MOUSEEVENTF_MOVE =? 0 end) os.
Proof.
  induction os as [|o os IH]; intros blocked c log; cbn [mouse_ops reported last_block].
  { cbn. rewrite app_nil_r, andb_true_r. by split_and!. }
  destruct o as [api flags data dx dy|api desired]; cbn [mouse_op].
  - unfold SendRemoteMouse. cbn zeta.
    set (c' := c && (Z.land flags MOUSEEVENTF_MOVE =? 0)). set (input := mkMouseInput dx dy flags data).
    assert (foldl apply_call (mkMouse c blocked log) ((if Z.land flags MOUSEEVENTF_MOVE =? 0 then [] else [ClipNull]) ++ [Send input (api_send input)]) =
      mkMouse c' blocked (if api_send input =? 1 then log ++ [input] else log)) as ->.
    { subst c'. destruct (Z.land flags MOUSEEVENTF_MOVE =? 0); cbn; by rewrite ?andb_true_r, ?andb_false_r. }
    specialize (IH blocked c' (if api_send input =? 1 then log ++ [input] else log)).
    destruct (mouse_ops os blocked _) as [[rs b'] s]. destruct IH as (H1 & H2 & H3 & H4 & H5).
    cbn [length reported last_block forallb]. split_and!; [by rewrite H1|done|done| |by rewrite H5; subst c'; rewrite andb_assoc].
    rewrite H4. destruct (api_send input =? 1); [by rewrite <- app_assoc|done].
  - unfold SetRemoteMouseBlocked. cbn [forallb]. rewrite andb_false_r.
    destruct (eqb blocked desired) eqn:E; [apply eqb_prop in E as <-|destruct (api_block desired) eqn:Ea]; cbn [foldl apply_call confined held_back inserted].
    + specialize (IH blocked false log). destruct (mouse_ops os blocked _) as [[rs b'] s]. destruct IH as (H1 & H2 & H3 & H4 & H5).
      cbn [length reported last_block]. by split_and!; [f_equal| | | |].
    + specialize (IH desired false log). destruct (mouse_ops os desired _) as [[rs b'] s]. destruct IH as (H1 & H2 & H3 & H4 & H5).
      cbn [length reported last_block]. by split_and!; [f_equal| | | |].
    + specialize (IH blocked false log). destruct (mouse_ops os blocked _) as [[rs b'] s]. destruct IH as (H1 & H2 & H3 & H4 & H5).
      cbn [length reported last_block]. by split_and!; [f_equal| | | |].
Qed.

(** A button's packets go down and up with the same button, and only with one. *)
Theorem RemoteMouseButton_pairs button : ∃ i, i ∈ [1; 3; 5] ∧
  RemoteMouseButton button true = Z.shiftl 1 i ∧ RemoteMouseButton button false = Z.shiftl 1 (i + 1).
Proof.
  unfold RemoteMouseButton.
  assert (Z.max 0 (Z.min 2 button) = 0 ∨ Z.max 0 (Z.min 2 button) = 1 ∨ Z.max 0 (Z.min 2 button) = 2) as [-> | [-> | ->]] by lia.
  - exists 1. split; [set_solver|done].
  - exists 5. split; [set_solver|done].
  - exists 3. split; [set_solver|done].
Qed.
