(* ===== verification/Startup.v ===== *)
(** * Start of the application

    [windows/runner/main.cpp] and [windows/runner/utils.cpp]: the command line, the
    three ways to run (application, Link worker, autoshare forwarder), the single
    instance of the application with the treatment of one that hangs, the
    window and the message loop. A start is a function of what Windows answers;
    its effects are the list of the calls that change something. Names of
    windows and classes have less than 256 code units. *)
From S2P Require Import Prelude DebugFields DebugLog.

(** ** The command line *)

Definition UNICODE_STRING_MAX_CHARS : nat := Z.to_nat 32767.

(** [WideCharToMultiByte] with [WC_ERR_INVALID_CHARS]; [None] is a failure. *)
Definition Utf8FromUtf16 (conv : wstr → option str) (utf16 : option wstr) : str :=
  match utf16 with
  | None => []
  | Some s => default [] (conv (take UNICODE_STRING_MAX_CHARS (c_str s)))
  end.

(** [argv]: what [CommandLineToArgvW] gives. *)
Definition GetCommandLineArguments (conv : wstr → option str) (argv : option (list wstr)) : list str :=
  match argv with
  | None => []
  | Some l => (λ a, Utf8FromUtf16 conv (Some a)) <$> drop 1 l
  end.

Record Options := mkOptions { link_host_worker : bool; start_minimized : bool; autoshare : bool }.

(** One round of the loop over the arguments. *)
Definition read_argument (o : Options) (argument : str) : Options :=
  let host := prefixof (B "--link-host=") argument in
  let share := prefixof (B "--autoshare=") argument in
  mkOptions (link_host_worker o || host)
    (start_minimized o || bool_decide (argument = B "--minimized") || share)
    (autoshare o || share).

Definition read_arguments (args : list str) : Options := foldl read_argument (mkOptions false false false) args.

(** ** Windows and processes *)

(** A top-level window, with the answers about it: [IsIconic], the reply to
    [WM_NULL] within 1500 ms, and whether its class name can be read. *)
Record Window := mkWindow {
  hwnd : nat; class_name : wstr; title : wstr; class_ok : bool; iconic : bool; responds : bool }.

Record ProcessEntry := mkProcess {
  th32ProcessID : Z; szExeFile : wstr; can_open : bool }.

Definition runner_class : wstr := W "FLUTTER_RUNNER_WIN32_WINDOW".

(** [FindWindowW] ignores case. *)
Definition FindWindow (windows : list Window) (class name : wstr) : option Window :=
  List.find (λ w, bool_decide (ieq (class_name w) class) && bool_decide (ieq (title w) name)) windows.

(** The callback of [EnumWindows]: whether it stops at the window. *)
Definition enum_hit (w : Window) : bool :=
  class_ok w && bool_decide (class_name w = runner_class) && containsb (title w) (W "Ligament").

Definition FindExistingAppWindow (windows : list Window) : option Window :=
  match FindWindow windows runner_class (W "Ligament 2FA Authenticator") with
  | Some w => Some w
  | None =>
    match FindWindow windows runner_class (W "Ligament 2FA") with
    | Some w => Some w
    | None => List.find enum_hit windows
    end
  end.

(** ** Effects *)
Inductive Act :=
  | InitializeLog (m : Mode)
  | LogEvent (f : Fields)
  | CreateMutex | CloseMutex
  | ShowWindow (h : nat) (restore : bool)
  | AttachThreadInput (attach : bool)
  | SetWindowPos (h : nat) (topmost : bool)
  | SetForegroundWindow (h : nat) | BringWindowToTop (h : nat)
  | TerminateProcess (pid : Z)
  | Sleep (ms : Z)
  | CreateWindow (args : list str) (host minimized : bool)
  | Dispatch (n : nat)
  | CoUninitialize.

Definition log (event : str) : Act := LogEvent (just event).
Definition log_error (event : str) (e : Z) : Act := LogEvent (mkFields event [] [] (Some e) [] []).

(** [ActivateExistingWindow]; the threads are those of the foreground window
    and of the caller. *)
Definition ActivateExistingWindow (foreground current : Z) (w : Window) : list Act :=
  let h := hwnd w in
  let front := [SetWindowPos h true; SetForegroundWindow h; BringWindowToTop h; SetWindowPos h false] in
  ShowWindow h (iconic w) ::
  if negb (foreground =? 0) && negb (foreground =? current)
  then [AttachThreadInput true] ++ front ++ [AttachThreadInput false]
  else front.

(** One round of the loop over the processes. *)
Definition terminate_one (current_pid : Z) (p : ProcessEntry) : list Act :=
  if bool_decide (ieq (szExeFile p) (W "ligament_authenticator.exe")) && negb (th32ProcessID p =? current_pid)
     && can_open p
  then [log_error (B "startup.orphaned_process.terminate") (th32ProcessID p); TerminateProcess (th32ProcessID p)]
  else [].

Definition TerminateOrphanedInstances (current_pid : Z) (snapshot : option (list ProcessEntry)) : list Act :=
  match snapshot with Some l => mbind (terminate_one current_pid) l | None => [] end.

(** ** The start *)

(** [CreateMutexW]: whether there is a handle, and [GetLastError]. *)
Record MutexReply := mkMutexReply { mx_handle : bool; mx_error : Z }.

Record StartEnv := mkStartEnv {
  st_conv : wstr → option str;
  st_argv : option (list wstr);
  st_com : Z;                                (* CoInitializeEx, as a signed HRESULT *)
  st_mutex : MutexReply;                     (* the first CreateMutexW *)
  st_windows : list Window;
  st_foreground : Z; st_thread : Z;
  st_pid : Z; st_processes : option (list ProcessEntry);
  st_mutex2 : MutexReply;                    (* CreateMutexW after the clean-up *)
  st_window : bool; st_window_error : Z;     (* window.Create *)
  st_messages : nat; st_quit : bool;         (* messages, and whether WM_QUIT ended the loop *)
  st_loop_error : Z }.

Definition EXIT_SUCCESS : Z := 0.
Definition EXIT_FAILURE : Z := 1.

Section Start.
Context (e : StartEnv).

Definition arguments : list str := GetCommandLineArguments (st_conv e) (st_argv e).
Definition options : Options := read_arguments arguments.
Definition com_ok : bool := 0 <=? st_com e.
Definition uninitialize : list Act := if com_ok then [CoUninitialize] else [].

Definition prologue : list Act :=
  let o := options in
  [InitializeLog (if link_host_worker o then link_host else gui);
   log (if link_host_worker o then B "startup.mode.link_host" else B "startup.mode.gui")] ++
  (if start_minimized o then [log (B "startup.minimized")] else []) ++
  (if autoshare o then [log (B "startup.autoshare")] else []) ++
  (if com_ok then [] else [LogEvent (mkFields (B "startup.com.failed") (B "HRESULT") [] (Some (st_com e)) [] [])]).

(** Whether this process goes on, whether it holds the mutex, and the effects. *)
Definition single_instance : bool * bool * list Act :=
  let after (m : MutexReply) (acts : list Act) : bool * bool * list Act :=
    if mx_handle m
    then (true, true, acts ++ [CreateMutex; log (B "startup.mutex.created")])
    else (true, false, acts ++ [log_error (B "startup.mutex.failed") (mx_error m)]) in
  let m := st_mutex e in
  if mx_handle m && (mx_error m =? ERROR_ALREADY_EXISTS) then
    let found := FindExistingAppWindow (st_windows e) in
    let acts := [CreateMutex; log_error (B "startup.mutex.existing") (mx_error m);
                 log (match found with Some _ => B "startup.window.found" | None => B "startup.window.missing" end)] in
    match found with
    | Some w =>
      if responds w then
        (false, false, acts ++
          (if start_minimized options then [] else ActivateExistingWindow (st_foreground e) (st_thread e) w) ++
          [CloseMutex; log (B "startup.single_instance.exit")])
      else after (st_mutex2 e) (acts ++ [log (B "startup.stale_instance.cleanup"); CloseMutex] ++
             TerminateOrphanedInstances (st_pid e) (st_processes e) ++ [Sleep 300])
    | None => after (st_mutex2 e) (acts ++ [log (B "startup.stale_instance.cleanup"); CloseMutex] ++
             TerminateOrphanedInstances (st_pid e) (st_processes e) ++ [Sleep 300])
    end
  else after m [].

Definition epilogue (mutex : bool) : list Act := (if mutex then [CloseMutex] else []) ++ uninitialize.

(** The window and the message loop. *)
Definition run_window (mutex : bool) : Z * list Act :=
  let o := options in
  let create := [log (B "window.create.begin"); CreateWindow arguments (link_host_worker o) (start_minimized o)] in
  if negb (st_window e)
  then (EXIT_FAILURE, create ++ [log_error (B "window.create.failed") (st_window_error e)] ++ epilogue mutex)
  else
    (if st_quit e then EXIT_SUCCESS else EXIT_FAILURE,
     create ++ [log (B "window.create.ready"); Dispatch (st_messages e);
       if st_quit e then log (B "message_loop.exit") else log_error (B "message_loop.failed") (st_loop_error e)] ++
     epilogue mutex).

Definition wWinMain : Z * list Act :=
  let o := options in
  let '(go, mutex, acts) :=
    if negb (link_host_worker o) && negb (autoshare o) then single_instance else (true, false, []) in
  if negb go then (EXIT_SUCCESS, prologue ++ acts ++ uninitialize)
  else let '(code, acts') := run_window mutex in (code, prologue ++ acts ++ acts').
End Start.

(** ** Specification vocabulary *)

(** The effects of a kind. *)
Definition created (a : Act) : option (list str * bool * bool) :=
  match a with CreateWindow args h m => Some (args, h, m) | _ => None end.
Definition terminated (a : Act) : option Z := match a with TerminateProcess pid => Some pid | _ => None end.
Definition raised (a : Act) : option nat := match a with SetForegroundWindow h => Some h | _ => None end.
Definition mutex_opened (a : Act) : option () := match a with CreateMutex => Some () | _ => None end.
Definition mutex_closed (a : Act) : option () := match a with CloseMutex => Some () | _ => None end.

Definition made {A} (f : Act → option A) (acts : list Act) : list A := omap f acts.

Section Policy.
Context (e : StartEnv).

(** The application itself, not a worker or a forwarder. *)
Definition application : Prop := link_host_worker (options e) = false ∧ autoshare (options e) = false.

(** Another instance holds the mutex. *)
Definition second_instance : Prop :=
  application ∧ mx_handle (st_mutex e) = true ∧ mx_error (st_mutex e) = ERROR_ALREADY_EXISTS.

Definition answering (w : Window) : Prop :=
  FindExistingAppWindow (st_windows e) = Some w ∧ responds w = true.

#[export] Instance second_instance_dec : Decision second_instance.
Proof. unfold second_instance, application. apply _. Defined.

(** The window a second instance yields to. *)
Definition incumbent : option Window :=
  if decide second_instance then
    match FindExistingAppWindow (st_windows e) with
    | Some w => if responds w then Some w else None
    | None => None
    end
  else None.

(** A process the clean-up takes for an orphan. *)
Definition orphan (p : ProcessEntry) : Prop :=
  ieq (szExeFile p) (W "ligament_authenticator.exe") ∧ th32ProcessID p ≠ st_pid e ∧ can_open p = true.

#[export] Instance orphan_dec p : Decision (orphan p).
Proof. unfold orphan. apply _. Defined.

(** What a window has to look like to be taken for the application's. *)
Definition app_window (w : Window) : Prop :=
  ieq (class_name w) runner_class ∧
  (ieq (title w) (W "Ligament 2FA Authenticator") ∨ ieq (title w) (W "Ligament 2FA")) ∨
  enum_hit w = true.
End Policy.

(** ** Lemmas *)
Lemma made_app {A} (f : Act → option A) l k : made f (l ++ k) = made f l ++ made f k.
Proof. apply omap_app. Qed.

Lemma made_terminate {A} (f : Act → option A) pid l :
  (∀ p, f (log_error (B "startup.orphaned_process.terminate") p) = None) →
  made f (mbind (terminate_one pid) l) =
  omap (λ p, if bool_decide (ieq (szExeFile p) (W "ligament_authenticator.exe")) &&
       negb (th32ProcessID p =? pid) && can_open p then f (TerminateProcess (th32ProcessID p)) else None) l.
Proof.
  intros Hf. induction l as [|p l IH]; [done|].
  change (mbind (terminate_one pid) (p :: l)) with (terminate_one pid p ++ mbind (terminate_one pid) l).
  rewrite made_app, IH. unfold terminate_one. cbn [omap list_omap].
  destruct (_ && can_open p); [|done]. cbn. rewrite Hf. by destruct (f _).
Qed.

Lemma find_sat {A} (f : A → bool) l x : List.find f l = Some x → x ∈ l ∧ f x = true.
Proof. intros H. apply List.find_some in H as [? ?]. split; [by apply list_elem_of_In|done]. Qed.

Lemma FindExisting_app ws w : FindExistingAppWindow ws = Some w → w ∈ ws ∧ app_window w.
Proof.
  unfold FindExistingAppWindow, FindWindow, app_window.
  destruct (List.find _ ws) as [w1|] eqn:E1; [|destruct (List.find _ ws) as [w2|] eqn:E2 in |- *].
  - intros [= ->]. apply find_sat in E1 as [? [H1%bool_decide_eq_true H2%bool_decide_eq_true]%andb_true_iff]. auto.
  - intros [= ->]. apply find_sat in E2 as [? [H1%bool_decide_eq_true H2%bool_decide_eq_true]%andb_true_iff]. auto.
  - intros [? ?]%find_sat. auto.
Qed.

(** Nothing but diagnostics. *)
Definition silent {A} (f : Act → option A) : Prop :=
  (∀ fl, f (LogEvent fl) = None) ∧ (∀ m, f (InitializeLog m) = None) ∧ f CoUninitialize = None ∧
  (∀ n, f (Sleep n) = None) ∧ (∀ n, f (Dispatch n) = None).

Lemma made_cons {A} (f : Act → option A) a l : made f (a :: l) = option_list (f a) ++ made f l.
Proof. unfold made. cbn. by destruct (f a). Qed.

Lemma prologue_silent {A} (f : Act → option A) e : silent f → made f (prologue e) = [].
Proof.
  intros (Hl & Hi & _). unfold prologue. rewrite !made_app, !made_cons.
  destruct (start_minimized _), (autoshare _), (com_ok e); unfold log; rewrite ?made_cons, ?Hl, ?Hi; done.
Qed.

Lemma uninitialize_silent {A} (f : Act → option A) e : silent f → made f (uninitialize e) = [].
Proof. intros (_ & _ & Hu & _). unfold uninitialize. destruct (com_ok e); rewrite ?made_cons, ?Hu; done. Qed.

Lemma run_window_made {A} (f : Act → option A) e mutex : silent f →
  made f (run_window e mutex).2 =
  option_list (f (CreateWindow (arguments e) (link_host_worker (options e)) (start_minimized (options e)))) ++
  if mutex then option_list (f CloseMutex) else [].
Proof.
  intros Hf. pose proof (uninitialize_silent f e Hf) as Hu. destruct Hf as (Hl & _ & _ & _ & Hd).
  unfold run_window. destruct (st_window e); cbn [negb snd]; unfold epilogue, log, log_error;
    rewrite !made_app, Hu, !made_cons, ?Hl, ?Hd.
  - destruct (st_quit e), mutex; rewrite ?made_cons, ?Hl; cbn; by rewrite ?app_nil_r.
  - destruct mutex; rewrite ?made_cons, ?Hl; cbn; by rewrite ?app_nil_r.
Qed.

Lemma run_window_code e mutex :
  (run_window e mutex).1 = if st_window e && st_quit e then EXIT_SUCCESS else EXIT_FAILURE.
Proof. unfold run_window. by destruct (st_window e), (st_quit e). Qed.

Lemma activate_made {A} (f : Act → option A) fg cur w :
  (∀ h r, f (ShowWindow h r) = None) → (∀ b, f (AttachThreadInput b) = None) →
  (∀ h b, f (SetWindowPos h b) = None) → (∀ h, f (BringWindowToTop h) = None) →
  made f (ActivateExistingWindow fg cur w) = option_list (f (SetForegroundWindow (hwnd w))).
Proof.
  intros Hs Ha Hp Hb. unfold ActivateExistingWindow. rewrite made_cons, Hs.
  destruct (_ && _); rewrite ?made_app, ?made_cons, ?Ha, ?Hp, ?Hb; cbn; by rewrite ?app_nil_r.
Qed.

(** The clean-up and the mutex after it. *)
Definition cleaned (e : StartEnv) : list Act :=
  TerminateOrphanedInstances (st_pid e) (st_processes e).

Lemma cleaned_terminated e :
  made terminated (cleaned e) = th32ProcessID <$> filter (orphan e) (default [] (st_processes e)).
Proof.
  unfold cleaned, TerminateOrphanedInstances. destruct (st_processes e) as [l|]; [|done].
  rewrite made_terminate by done. change (default [] (Some l)) with l. induction l as [|p l IH]; [done|].
  rewrite filter_cons. cbn [omap list_omap].
  destruct (decide (orphan e p)) as [(H1 & H2 & H3)|Hn].
  - rewrite bool_decide_eq_true_2 by done. destruct (Z.eqb_spec (th32ProcessID p) (st_pid e)); [done|].
    rewrite H3. cbn [negb andb terminated]. rewrite fmap_cons. by f_equal.
  - case_bool_decide; [|done]. destruct (Z.eqb_spec (th32ProcessID p) (st_pid e)); [done|].
    destruct (can_open p) eqn:E; [|done]. by destruct Hn.
Qed.

Lemma cleaned_other {A} (f : Act → option A) e :
  (∀ fl, f (LogEvent fl) = None) → (∀ pid, f (TerminateProcess pid) = None) → made f (cleaned e) = [].
Proof.
  intros Hl Ht. unfold cleaned, TerminateOrphanedInstances. destruct (st_processes e) as [l|]; [|done].
  rewrite made_terminate by (intros; apply Hl). induction l as [|p l IH]; [done|]. cbn [omap list_omap].
  rewrite Ht. by destruct (_ && _).
Qed.

(** What [single_instance] does, by who else is there. *)
Lemma single_instance_yields e w :
  application e → incumbent e = Some w →
  ∃ acts, single_instance e = (false, false, acts) ∧
    ∀ A (f : Act → option A), silent f →
      made f acts = option_list (f CreateMutex) ++
        made f (if start_minimized (options e) then []
                else ActivateExistingWindow (st_foreground e) (st_thread e) w) ++ option_list (f CloseMutex).
Proof.
  unfold incumbent, single_instance. destruct (decide (second_instance e)) as [(_ & Hh & He)|]; [|done].
  rewrite Hh, He. cbn [andb Z.eqb ERROR_ALREADY_EXISTS Pos.eqb]. intros _.
  destruct (FindExistingAppWindow (st_windows e)) as [w'|]; [|done].
  destruct (responds w'); [|done]. intros [= ->]. eexists. split; [done|].
  intros A f (Hl & _). unfold log, log_error. rewrite !made_app, !made_cons, !Hl. cbn [option_list option_rect app].
  by rewrite !app_nil_r.
Qed.

Lemma single_instance_goes_on e :
  application e → incumbent e = None →
  ∃ mutex acts, single_instance e = (true, mutex, acts) ∧
    ∀ A (f : Act → option A), silent f →
      made f acts =
        (if decide (second_instance e)
         then option_list (f CreateMutex) ++ option_list (f CloseMutex) ++ made f (cleaned e) else []) ++
        if mutex then option_list (f CreateMutex) else [].
Proof.
  intros Ha. unfold incumbent, single_instance. fold (cleaned e).
  destruct (decide (second_instance e)) as [(_ & Hh & He)|Hn].
  - rewrite Hh, He. cbn [andb Z.eqb ERROR_ALREADY_EXISTS Pos.eqb]. intros Hi.
    assert (H : ∀ found, ∃ mutex acts,
      (if mx_handle (st_mutex2 e)
       then (true, true, ([CreateMutex; log_error (B "startup.mutex.existing") ERROR_ALREADY_EXISTS; log found] ++
              [log (B "startup.stale_instance.cleanup"); CloseMutex] ++ cleaned e ++ [Sleep 300]) ++
              [CreateMutex; log (B "startup.mutex.created")])
       else (true, false, ([CreateMutex; log_error (B "startup.mutex.existing") ERROR_ALREADY_EXISTS; log found] ++
              [log (B "startup.stale_instance.cleanup"); CloseMutex] ++ cleaned e ++ [Sleep 300]) ++
              [log_error (B "startup.mutex.failed") (mx_error (st_mutex2 e))])) = (true, mutex, acts) ∧
      ∀ A (f : Act → option A), silent f →
        made f acts = (option_list (f CreateMutex) ++ option_list (f CloseMutex) ++ made f (cleaned e)) ++
          if mutex then option_list (f CreateMutex) else []).
    { intros found. destruct (mx_handle (st_mutex2 e)); eexists _, _; (split; [done|]);
        intros A f (Hl & _ & _ & Hs & _); unfold log, log_error;
        rewrite !made_app, !made_cons, !Hl, !Hs; cbn [option_list option_rect app];
        change (made f []) with (@nil A); rewrite !app_nil_r, <- ?app_assoc; done. }
    destruct (FindExistingAppWindow (st_windows e)) as [w'|]; [|apply H].
    destruct (responds w'); [done|apply H].
  - intros _. destruct (mx_handle (st_mutex e)) eqn:Hh.
    + destruct (Z.eqb_spec (mx_error (st_mutex e)) ERROR_ALREADY_EXISTS) as [He|]; [by destruct Hn|].
      cbn [andb]. eexists _, _. split; [done|]. intros A f (Hl & _). cbn [app]. unfold log.
      rewrite !made_cons, Hl. change (made f []) with (@nil A). by rewrite !app_nil_r.
    + cbn [andb]. eexists _, _. split; [done|]. intros A f (Hl & _). cbn [app]. unfold log_error.
      rewrite !made_cons, Hl. done.
Qed.

(** All effects of a start. *)
Lemma wWinMain_made e :
  ∃ mutex : bool,
    (wWinMain e).1 = (match incumbent e with
                      | Some _ => EXIT_SUCCESS
                      | None => if st_window e && st_quit e then EXIT_SUCCESS else EXIT_FAILURE
                      end) ∧
    ∀ A (f : Act → option A), silent f →
      made f (wWinMain e).2 =
      match incumbent e with
      | Some w => option_list (f CreateMutex) ++
          made f (if start_minimized (options e) then []
                  else ActivateExistingWindow (st_foreground e) (st_thread e) w) ++ option_list (f CloseMutex)
      | None =>
        ((if decide (second_instance e)
          then option_list (f CreateMutex) ++ option_list (f CloseMutex) ++ made f (cleaned e) else []) ++
         if mutex then option_list (f CreateMutex) else []) ++
        option_list (f (CreateWindow (arguments e) (link_host_worker (options e)) (start_minimized (options e)))) ++
        if mutex then option_list (f CloseMutex) else []
      end.
Proof.
  unfold wWinMain. destruct (negb (link_host_worker (options e)) && negb (autoshare (options e))) eqn:Ea.
  - assert (Happ : application e) by by apply andb_true_iff in Ea as [?%negb_true_iff ?%negb_true_iff].
    destruct (incumbent e) as [w|] eqn:Ei.
    + destruct (single_instance_yields e w Happ Ei) as (acts & -> & H). exists false. split; [done|].
      intros A f Hf. cbn [snd negb]. rewrite !made_app, prologue_silent, uninitialize_silent, (H A f Hf) by done.
      by rewrite app_nil_r.
    + destruct (single_instance_goes_on e Happ Ei) as (mutex & acts & -> & H). exists mutex. cbn [negb].
      pose proof (run_window_code e mutex) as Hc. split; [by destruct (run_window e mutex)|].
      intros A f Hf. pose proof (run_window_made f e mutex Hf) as Hw. destruct (run_window e mutex) as [c acts'].
      cbn [snd] in *. by rewrite !made_app, prologue_silent, (H A f Hf), Hw.
  - assert (Hn : ¬ second_instance e).
    { intros [[H1 H2] _]. by rewrite H1, H2 in Ea. }
    assert (Ei : incumbent e = None) by (unfold incumbent; by rewrite decide_False).
    rewrite Ei. exists false. cbn [negb]. pose proof (run_window_code e false) as Hc.
    split; [by destruct (run_window e false)|].
    intros A f Hf. pose proof (run_window_made f e false Hf) as Hw. destruct (run_window e false) as [c acts'].
    cbn [snd] in *. rewrite !made_app, prologue_silent, Hw, (decide_False (P := second_instance e)) by done. done.
Qed.

(** The debug log takes what a start writes to it. *)
Definition accepted (a : Act) : Prop := match a with LogEvent f => valid_fields f = true | _ => True end.

Ltac accept :=
  repeat match goal with
  | |- Forall _ (_ ++ _) => apply Forall_app; split
  | |- Forall _ (_ :: _) => apply Forall_cons; split
  | |- Forall _ [] => constructor
  | |- accepted _ => vm_compute; done
  end; try done.

Lemma prologue_log e : Forall accepted (prologue e).
Proof.
  unfold prologue. destruct (link_host_worker _), (start_minimized _), (autoshare _), (com_ok e); accept.
Qed.

Lemma run_window_log e mutex : Forall accepted (run_window e mutex).2.
Proof.
  unfold run_window, epilogue, uninitialize.
  destruct (st_window e), (st_quit e), mutex, (com_ok e); cbn [negb snd]; accept.
Qed.

Lemma cleaned_log e : Forall accepted (cleaned e).
Proof.
  unfold cleaned, TerminateOrphanedInstances. destruct (st_processes e) as [l|]; [|constructor].
  induction l as [|p l IH]; [constructor|].
  change (mbind (terminate_one (st_pid e)) (p :: l)) with
    (terminate_one (st_pid e) p ++ mbind (terminate_one (st_pid e)) l).
  apply Forall_app. split; [|done]. unfold terminate_one. destruct (_ && can_open p); accept.
Qed.

Lemma single_instance_log e : Forall accepted (single_instance e).2.
Proof.
  unfold single_instance. fold (cleaned e). pose proof (cleaned_log e).
  destruct (mx_handle (st_mutex e) && _); [|destruct (mx_handle (st_mutex e)); cbn [snd]; accept].
  destruct (FindExistingAppWindow _) as [w|]; [destruct (responds w)|].
  - cbn [snd]. unfold ActivateExistingWindow.
    destruct (start_minimized _); [|destruct (_ && negb (_ =? _))]; accept.
  - destruct (mx_handle (st_mutex2 e)); cbn [snd]; accept.
  - destruct (mx_handle (st_mutex2 e)); cbn [snd]; accept.
Qed.

Lemma wWinMain_log e : Forall accepted (wWinMain e).2.
Proof.
  unfold wWinMain. pose proof (single_instance_log e) as Hs. pose proof (prologue_log e).
  destruct (_ && _); [destruct (single_instance e) as [[go mutex] acts]|];
    cbn [snd] in Hs; [destruct go; cbn [negb]|cbn [negb]].
  - pose proof (run_window_log e mutex) as Hw. destruct (run_window e mutex). cbn [snd] in *. by rewrite !Forall_app.
  - cbn [snd]. rewrite !Forall_app. split_and!; [done..|]. unfold uninitialize. destruct (com_ok e); accept.
  - pose proof (run_window_log e false) as Hw. destruct (run_window e false). cbn [snd] in *. by rewrite !Forall_app.
Qed.

(** C24: a start of the application yields to another instance exactly when that
    one holds the mutex and a window found for it answers: then no window is
    created, no process ended and the window is raised unless the start is
    minimised. Otherwise one window is created, with the arguments and the mode of
    the command line, after the processes of the same name were ended if a mutex
    was found without a window that answers. Link workers and forwarders always
    create their window and end nothing. Every mutex handle is closed again. The
    exit code is 0 iff the start yielded or its loop ended with [WM_QUIT]. *)
Theorem wWinMain_policy e :
  let o := options e in
  let '(code, acts) := wWinMain e in
  made created acts =
    match incumbent e with Some _ => [] | None => [(arguments e, link_host_worker o, start_minimized o)] end ∧
  made raised acts =
    match incumbent e with Some w => if start_minimized o then [] else [hwnd w] | None => [] end ∧
  made terminated acts =
    (if decide (second_instance e ∧ incumbent e = None)
     then th32ProcessID <$> filter (orphan e) (default [] (st_processes e)) else []) ∧
  length (made mutex_opened acts) = length (made mutex_closed acts) ∧
  Forall accepted acts ∧
  (∀ w, incumbent e = Some w → w ∈ st_windows e ∧ app_window w ∧ responds w = true) ∧
  (code = EXIT_SUCCESS ↔ is_Some (incumbent e) ∨ st_window e = true ∧ st_quit e = true) ∧
  (code = EXIT_SUCCESS ∨ code = EXIT_FAILURE).
Proof.
  assert (Hinc : ∀ w, incumbent e = Some w → w ∈ st_windows e ∧ app_window w ∧ responds w = true).
  { intros w. unfold incumbent. destruct (decide _); [|done].
    destruct (FindExistingAppWindow _) as [w'|] eqn:Ef; [|done]. destruct (responds w') eqn:Er; [|done].
    intros [= ->]. by apply FindExisting_app in Ef as [? ?]. }
  cbv zeta. destruct (wWinMain_made e) as (mutex & Hcode & Hm). pose proof (wWinMain_log e) as Hlog. destruct (wWinMain e) as [code acts].
  cbn [fst snd] in Hcode, Hm, Hlog. subst code.
  rewrite (Hm _ created ltac:(done)), (Hm _ raised ltac:(done)), (Hm _ terminated ltac:(done)),
    (Hm _ mutex_opened ltac:(done)), (Hm _ mutex_closed ltac:(done)).
  rewrite cleaned_terminated, !(cleaned_other _ e) by done.
  split_and!; [..|exact Hlog|exact Hinc| |].
  - destruct (incumbent e); [by destruct (start_minimized _); rewrite ?activate_made|].
    destruct (decide _), mutex; done.
  - destruct (incumbent e); [by destruct (start_minimized _); rewrite ?activate_made|].
    destruct (decide _), mutex; done.
  - destruct (incumbent e) eqn:Ei.
    + rewrite decide_False by naive_solver. by destruct (start_minimized _); rewrite ?activate_made.
    + destruct (decide (second_instance e)) as [H2|H2]; [rewrite decide_True by done|rewrite decide_False by naive_solver];
        destruct mutex; cbn; by rewrite ?app_nil_r.
  - destruct (incumbent e); [by destruct (start_minimized _); rewrite ?activate_made|].
    destruct (decide _), mutex; done.
  - destruct (incumbent e) eqn:Ei; [naive_solver|].
    destruct (st_window e), (st_quit e); cbn; naive_solver.
  - destruct (incumbent e); [by left|]. destruct (_ && _); auto.
Qed.
