(* ===== verification/InputBlock.v ===== *)
(** * The block on local input

    [windows/runner/input_block.cpp]: [ligament_install_input_block] and
    [ligament_remove_input_block] with the thread that owns the two low-level
    hooks. The thread's start and the caller run side by side; each access to
    the shared variables is a step. The hook procedures are those of
    [InputQueue]. Calls come one after the other. *)
From S2P Require Import Prelude InputQueue.

(** ** State *)

(** What [InputBlockThread] does next; it pumps messages once the hooks are set. *)
Inductive ThreadPc :=
  | Absent | Prioritising | HookingKeyboard | HookingMouse | Announcing | Pumping
  | UnhookingKeyboard | UnhookingMouse | Ended.

(** What [ligament_install_input_block] does next. *)
Inductive CallerPc := Outside | CreatingEvent | CreatingThread | WaitingReady | Blocking | Testing.

Inductive BlockCall := Install | Remove.

#[export] Instance ThreadPc_eq_dec : EqDecision ThreadPc.
Proof. solve_decision. Defined.
#[export] Instance CallerPc_eq_dec : EqDecision CallerPc.
Proof. solve_decision. Defined.

Record Block := mkBlock {
  g_blocked : bool;
  g_kbd_hook : bool; g_mouse_hook : bool;      (* set *)
  g_thread : bool;
  g_ready : option bool;                       (* the event, and whether it is signalled *)
  thread : ThreadPc; caller : CallerPc;
  returned : list (BlockCall * Z) }.           (* results of the calls, the latest first *)

#[export] Instance eta_Block : Settable Block := λ s,
  mkBlock (g_blocked s) (g_kbd_hook s) (g_mouse_hook s) (g_thread s) (g_ready s) (thread s) (caller s)
    (returned s).

Definition idle_block : Block := mkBlock false false false false None Absent Outside [].

(** ** Operations *)

(** A step of [InputBlockThread]; [ok] is the success of the call it makes:
    [SetWindowsHookExW], or a message of [GetMessageW] that is not the last. *)
Definition InputBlockThread (ok : bool) (s : Block) : Block :=
  match thread s with
  | Prioritising => s <| thread := HookingKeyboard |>
  | HookingKeyboard => s <| g_kbd_hook := ok |> <| thread := HookingMouse |>
  | HookingMouse => s <| g_mouse_hook := ok |> <| thread := Announcing |>
  | Announcing =>
    s <| g_ready := match g_ready s with Some _ => Some true | None => None end |> <| thread := Pumping |>
  | Pumping => if ok then s else s <| thread := UnhookingKeyboard |>
  | UnhookingKeyboard => s <| g_kbd_hook := false |> <| thread := UnhookingMouse |>
  | UnhookingMouse => s <| g_mouse_hook := false |> <| thread := Ended |>
  | Absent | Ended => s
  end.

(** A step of [ligament_install_input_block], [EnsureThread] included; [ok] is
    the success of [CreateEventW] or [CreateThread], or a wait that does not
    time out before the event is signalled. *)
Definition install_step (ok : bool) (s : Block) : Block :=
  match caller s with
  | Outside => s <| caller := if g_thread s then Blocking else CreatingEvent |>
  | CreatingEvent => s <| g_ready := if ok then Some false else None |> <| caller := CreatingThread |>
  | CreatingThread =>
    s <| g_thread := ok |> <| thread := if ok then Prioritising else thread s |>
      <| caller := if ok && bool_decide (g_ready s ≠ None) then WaitingReady else Blocking |>
  | WaitingReady =>
    if bool_decide (g_ready s = Some true) || negb ok then s <| caller := Blocking |> else s
  | Blocking => s <| g_blocked := true |> <| caller := Testing |>
  | Testing =>
    s <| returned := (Install, if g_kbd_hook s && g_mouse_hook s then 0 else -1) :: returned s |>
      <| caller := Outside |>
  end.

Definition remove_input_block (s : Block) : Block :=
  s <| g_blocked := false |> <| returned := (Remove, 0) :: returned s |>.

(** ** Input *)

(** A keyboard or mouse event of the machine: a hook is asked if it is set and
    its thread pumps; [Some 1] holds the event back. *)
Definition keyboard_event (s : Block) (n_code flags : Z) : option Z :=
  if g_kbd_hook s && bool_decide (thread s = Pumping) then KeyboardLLProc (g_blocked s) n_code flags else None.
Definition mouse_event (s : Block) (n_code flags : Z) : option Z :=
  if g_mouse_hook s && bool_decide (thread s = Pumping) then MouseLLProc (g_blocked s) n_code flags else None.

(** ** Runs *)
Inductive BlockEvent := EvThread (ok : bool) | EvInstall (ok : bool) | EvRemove.

Definition run_event (s : Block) (e : BlockEvent) : Block :=
  match e with
  | EvThread ok => InputBlockThread ok s
  | EvInstall ok => install_step ok s
  | EvRemove => remove_input_block s
  end.

Definition possible (s : Block) (e : BlockEvent) : Prop :=
  match e with EvRemove => caller s = Outside | _ => True end.

Fixpoint feasible (s : Block) (es : list BlockEvent) : Prop :=
  match es with [] => True | e :: es => possible s e ∧ feasible (run_event s e) es end.

Definition run (es : list BlockEvent) (s : Block) : Block := foldl run_event s es.

(** ** Specification vocabulary *)

(** The hooks are as they will be as long as the thread pumps. *)
Definition settled (s : Block) : bool :=
  match thread s with Absent | Prioritising | HookingKeyboard | HookingMouse => false | _ => true end.

Definition both_hooks (s : Block) : bool := g_kbd_hook s && g_mouse_hook s.

(** No event ends the thread's pump. *)
Definition pumps (e : BlockEvent) : Prop := e ≠ EvThread false.

(** No call of [ligament_remove_input_block]. *)
Definition keeps (e : BlockEvent) : Prop := e ≠ EvRemove.

Record block_inv (s : Block) : Prop := {
  inv_thread : g_thread s = false ↔ thread s = Absent;
  inv_absent : settled s = false → thread s ≠ HookingMouse → g_kbd_hook s = false;
  inv_mouse : settled s = false → g_mouse_hook s = false;
  inv_caller : caller s = CreatingEvent ∨ caller s = CreatingThread → g_thread s = false;
  inv_testing : caller s = Testing → g_blocked s = true }.

Ltac block_solve := split; cbn in *; intuition (congruence || auto).

Lemma InputBlockThread_inv ok s : block_inv s → block_inv (InputBlockThread ok s).
Proof.
  intros [H1 H2 H3 H4 H5]. destruct s as [b k m t r pc c l]. unfold InputBlockThread; cbn in *.
  destruct pc, ok; block_solve.
Qed.

Lemma install_step_inv ok s : block_inv s → block_inv (install_step ok s).
Proof.
  intros [H1 H2 H3 H4 H5]. destruct s as [b k m t r pc c l]. unfold install_step; cbn in *.
  destruct c; cbn in *; [destruct t|destruct ok|destruct ok; [destruct (bool_decide _)|]|
    destruct (_ || _)| |]; destruct pc; block_solve.
Qed.

Lemma block_event_inv s e : block_inv s → possible s e → block_inv (run_event s e).
Proof.
  intros H Hp. destruct e; cbn; [by apply InputBlockThread_inv|by apply install_step_inv|].
  destruct H as [H1 H2 H3 H4 H5]. destruct s; block_solve.
Qed.

Lemma block_feasible_app s es1 es2 : feasible s (es1 ++ es2) ↔ feasible s es1 ∧ feasible (run es1 s) es2.
Proof.
  revert s. induction es1 as [|e es1 IH]; intros s; cbn; [tauto|]. rewrite IH. unfold run. tauto.
Qed.

Lemma block_run_inv es s : block_inv s → feasible s es → block_inv (run es s).
Proof.
  revert s. induction es as [|e es IH]; intros s H; [done|]. intros [Hp Hf].
  apply IH; [by apply block_event_inv|done].
Qed.

Lemma idle_inv : block_inv idle_block.
Proof. split; cbn; naive_solver. Qed.

(** ** What a run keeps *)
Lemma settled_step s e :
  block_inv s → settled s = true → settled (run_event s e) = true ∧
  (both_hooks s = false → both_hooks (run_event s e) = false) ∧
  (pumps e → thread s = Announcing ∨ thread s = Pumping →
   (thread (run_event s e) = Announcing ∨ thread (run_event s e) = Pumping) ∧
   g_kbd_hook (run_event s e) = g_kbd_hook s ∧ g_mouse_hook (run_event s e) = g_mouse_hook s).
Proof.
  intros [H1 _ _ H4 _] Hs. destruct s as [b k m t r pc c l]. unfold both_hooks, pumps in *. cbn in *.
  destruct e as [ok|ok|]; cbn.
  - unfold InputBlockThread; cbn. destruct pc; cbn in *; try done; try destruct ok; cbn;
      rewrite ?andb_false_r; naive_solver.
  - unfold install_step; cbn. destruct c; cbn; repeat case_match; cbn; try naive_solver.
    all: exfalso; rewrite (proj1 H1) in Hs by (apply H4; auto); done.
  - naive_solver.
Qed.

Lemma settled_run es s :
  block_inv s → feasible s es → settled s = true →
  settled (run es s) = true ∧
  (both_hooks s = false → both_hooks (run es s) = false) ∧
  (Forall pumps es → thread s = Announcing ∨ thread s = Pumping →
   (thread (run es s) = Announcing ∨ thread (run es s) = Pumping) ∧
   g_kbd_hook (run es s) = g_kbd_hook s ∧ g_mouse_hook (run es s) = g_mouse_hook s).
Proof.
  revert s. induction es as [|e es IH]; intros s Hi; [naive_solver|]. intros [Hp Hf] Hs.
  destruct (settled_step s e Hi Hs) as (Hs1 & Hb1 & Ht1).
  destruct (IH _ (block_event_inv s e Hi Hp) Hf Hs1) as (Hs2 & Hb2 & Ht2).
  split; [done|]. split; [tauto|]. intros [Hpe Hpes]%Forall_cons Ht.
  destruct (Ht1 Hpe Ht) as (Ht' & E1 & E2). destruct (Ht2 Hpes Ht') as (Ht3 & E3 & E4).
  split; [done|]. by rewrite <- E1, <- E2.
Qed.

(** [g_blocked] over a run without [ligament_remove_input_block]. *)
Lemma blocked_run es s : Forall keeps es → g_blocked s = true → g_blocked (run es s) = true.
Proof.
  revert s. induction es as [|e es IH]; intros s; [done|]. intros [He Hes]%Forall_cons Hb.
  apply IH; [done|]. destruct e as [ok|ok|]; [..|done]; cbn.
  - unfold InputBlockThread. destruct (thread s), ok; done.
  - unfold install_step. destruct (caller s); try done. by destruct (_ || _).
Qed.

(** It stays clear until an [ligament_install_input_block] reaches it. *)
Lemma unblocked_run es s :
  g_blocked s = false → (∀ e, e ∈ es → ∃ ok, e = EvThread ok) → g_blocked (run es s) = false.
Proof.
  revert s. induction es as [|e es IH]; intros s Hb He; [done|].
  destruct (He e) as [ok ->]; [by left|]. apply IH; [|intros; apply He; by right].
  cbn. unfold InputBlockThread. destruct (thread s), ok; done.
Qed.

(** The results a run adds. *)
Lemma returned_run es s :
  block_inv s → feasible s es → settled s = true → both_hooks s = false →
  (Install, 0) ∈ returned (run es s) → (Install, 0) ∈ returned s.
Proof.
  revert s. induction es as [|e es IH]; intros s Hi; [done|]. intros [Hp Hf] Hs Hb Hin.
  destruct (settled_step s e Hi Hs) as (Hs1 & Hb1 & _).
  apply IH in Hin; [|by apply block_event_inv|done..|by apply Hb1]. revert Hin. destruct e as [ok|ok|]; cbn.
  - unfold InputBlockThread. destruct (thread s), ok; done.
  - unfold install_step. unfold both_hooks in Hb. destruct (caller s), ok; cbn; try done; try (by case_match).
    all: rewrite Hb; intros [?|?]%elem_of_cons; done.
  - intros [?|?]%elem_of_cons; done.
Qed.

(** As long as it pumps the thread does not end. *)
Lemma pumping_run es s :
  Forall pumps es → settled s = false ∨ thread s = Announcing ∨ thread s = Pumping →
  settled (run es s) = false ∨ thread (run es s) = Announcing ∨ thread (run es s) = Pumping.
Proof.
  revert s. induction es as [|e es IH]; intros s; [done|]. intros [He Hes]%Forall_cons Ht.
  apply IH; [done|]. destruct s as [b k m t r pc c l]. destruct e as [ok|ok|]; [..|done]; cbn in *.
  - unfold InputBlockThread, pumps in *. cbn. destruct pc, ok; cbn in *; naive_solver.
  - unfold install_step. cbn. destruct c; cbn; repeat case_match; naive_solver.
Qed.

(** C19: once [ligament_install_input_block] has returned 0, whatever its thread
    and later calls do, as long as the thread pumps and nothing removes the block,
    a keyboard or mouse event of the local user is held back and an injected one
    passes; after [ligament_remove_input_block], until the next install, all pass. *)
Theorem install_holds_input es1 ok es2 es3 :
  let s := run es1 idle_block in
  let s1 := run (EvInstall ok :: es2) s in
  let s2 := run (EvRemove :: es3) s1 in
  feasible idle_block (es1 ++ EvInstall ok :: es2 ++ EvRemove :: es3) →
  caller s = Testing → head (returned (run_event s (EvInstall ok))) = Some (Install, 0) →
  Forall pumps (es1 ++ es2) → Forall keeps es2 → (∀ e, e ∈ es3 → ∃ b, e = EvThread b) →
  (thread s1 = Announcing ∨ thread s1 = Pumping) ∧
  (thread s1 = Pumping → ∀ n flags, 0 <= n →
    keyboard_event s1 n flags = (if Z.land flags LLHF_INJECTED_KEY =? 0 then Some 1 else None) ∧
    mouse_event s1 n flags = (if Z.land flags LLHF_INJECTED_MOUSE =? 0 then Some 1 else None)) ∧
  (∀ n flags, keyboard_event s2 n flags = None ∧ mouse_event s2 n flags = None).
Proof.
  intros s s1 s2 Hf Ht Hret [Hp1 Hp2]%Forall_app Hk He3.
  apply block_feasible_app in Hf as [Hf1 [_ [Hf2 _]%block_feasible_app]].
  pose proof (block_run_inv _ _ idle_inv Hf1) as Hi. fold s in Hi, Hf2.
  assert (Hboth : g_kbd_hook s && g_mouse_hook s = true).
  { unfold run_event, install_step in Hret. rewrite Ht in Hret. cbn in Hret. by destruct (_ && _). }
  apply andb_true_iff in Hboth as [Hkb Hm].
  assert (Hset : settled s = true).
  { destruct (settled s) eqn:E; [done|]. by rewrite (inv_mouse s Hi) in Hm. }
  assert (Hth : thread s = Announcing ∨ thread s = Pumping).
  { destruct (pumping_run es1 idle_block Hp1) as [H|H]; [by left|by fold s in H; congruence|done]. }
  assert (Hb : g_blocked (run_event s (EvInstall ok)) = true).
  { cbn. unfold install_step. rewrite Ht. cbn. by apply inv_testing. }
  destruct (settled_run es2 (run_event s (EvInstall ok))) as (_ & _ & H2).
  { by apply block_event_inv. } { done. } { by apply settled_step. }
  destruct (settled_step s (EvInstall ok) Hi Hset) as (_ & _ & H1).
  destruct (H1 ltac:(done) Hth) as (Hth1 & E1 & E2). destruct (H2 Hp2 Hth1) as (Hth2 & E3 & E4).
  pose proof (blocked_run es2 _ Hk Hb) as Hb1.
  split; [done|]. split.
  - intros Hpump n flags Hn. unfold keyboard_event, mouse_event. fold s1 in E3, E4.
    change (run es2 (run_event s (EvInstall ok))) with s1 in *.
    rewrite E3, E4, E1, E2, Hkb, Hm, Hpump, Hb1. unfold KeyboardLLProc, MouseLLProc, LLProc.
    rewrite bool_decide_eq_true_2, (proj2 (Z.leb_le 0 n) Hn) by done.
    cbn [andb]. done.
  - intros n flags. pose proof (unblocked_run es3 (run_event s1 EvRemove) eq_refl He3) as Hb2.
    change (run es3 (run_event s1 EvRemove)) with s2 in Hb2.
    unfold keyboard_event, mouse_event, KeyboardLLProc, MouseLLProc, LLProc.
    rewrite Hb2, andb_false_r. split; by case_match.
Qed.

(** An installation that found a hook missing is final: as long as the process
    lives no later call installs it, every later [ligament_install_input_block]
    reports failure, yet each of them, the failed first one included, leaves the
    block on for the hook that is there. *)
Theorem failed_install_final es1 es2 :
  let s := run es1 idle_block in
  let s2 := run es2 s in
  feasible idle_block (es1 ++ es2) → settled s = true → both_hooks s = false →
  both_hooks s2 = false ∧
  ((Install, 0) ∈ returned s2 → (Install, 0) ∈ returned s) ∧
  (caller s2 = Testing → ∀ ok, returned (run_event s2 (EvInstall ok)) = (Install, -1) :: returned s2 ∧
     g_blocked (run_event s2 (EvInstall ok)) = true).
Proof.
  intros s s2 [Hf1 Hf2]%block_feasible_app Hs Hb. pose proof (block_run_inv _ _ idle_inv Hf1) as Hi.
  destruct (settled_run es2 s Hi Hf2 Hs) as (_ & Hb2 & _). specialize (Hb2 Hb). fold s2 in Hb2.
  split; [done|]. split; [by apply returned_run|]. intros Ht ok.
  pose proof (inv_testing _ (block_run_inv _ _ Hi Hf2) Ht) as Hblk. cbn. unfold install_step. rewrite Ht. cbn.
  unfold both_hooks in Hb2. rewrite Hb2. done.
Qed.

(** ** Runs *)
Definition calls (n : nat) : list BlockEvent := replicate n (EvInstall true).
Definition demo_install : list BlockEvent := calls 3 ++ replicate 4 (EvThread true) ++ calls 2.

Lemma install_holds_input_witness :
  let s1 := run (EvInstall true :: [EvThread true]) (run demo_install idle_block) in
  thread s1 = Pumping ∧ keyboard_event s1 0 0 = Some 1 ∧ keyboard_event s1 0 0x10 = None ∧
  mouse_event s1 0 0 = Some 1.
Proof.
  assert (Hp : thread (run (EvInstall true :: [EvThread true]) (run demo_install idle_block)) = Pumping)
    by reflexivity.
  destruct (install_holds_input demo_install true [EvThread true] []) as (_ & H & _).
  - vm_compute. repeat split.
  - reflexivity.
  - reflexivity.
  - repeat constructor; discriminate.
  - repeat constructor; discriminate.
  - intros e He. inversion He.
  - pose proof (H Hp 0 0 ltac:(lia)) as [K M]. pose proof (H Hp 0 0x10 ltac:(lia)) as [K' _].
    split; [exact Hp|]. split; [exact K|]. split; [exact K'|exact M].
Defined.

(** The mouse hook cannot be set. *)
Definition demo_failure : list BlockEvent :=
  calls 3 ++ [EvThread true; EvThread true; EvThread false; EvThread true] ++ calls 3.

Lemma failed_install_final_witness :
  let s := run demo_failure idle_block in
  let s2 := run (calls 2) s in
  head (returned s) = Some (Install, -1) ∧ keyboard_event s 0 0 = Some 1 ∧ mouse_event s 0 0 = None ∧
  head (returned (run_event s2 (EvInstall true))) = Some (Install, -1).
Proof.
  destruct (failed_install_final demo_failure (calls 2)) as (_ & _ & H); [vm_compute; repeat split|reflexivity..|].
  split; [reflexivity|]. split; [reflexivity|]. split; [reflexivity|].
  destruct (H ltac:(reflexivity) true) as [E _]. rewrite E. reflexivity.
Defined.

(** ** The worker of the queue *)

(** [g_input_worker_started] with the number of worker threads created, and the
    process's window station (its handle, when one is open). *)
Record Workers := mkWorkers { g_input_worker_started : bool; threads : nat; g_winsta0 : option nat }.

(** Also the first part of [ligament_set_keep_awake]. *)
Definition EnsureInputWorkerStarted (w : Workers) : Workers :=
  if g_input_worker_started w then w else mkWorkers true (S (threads w)) (g_winsta0 w).

(** [handle]: what [OpenWindowStationW] gives; the second part is the argument of
    [SetProcessWindowStation], if that is called. *)
Definition EnsureProcessWindowStation (handle : option nat) (w : Workers) : Workers * option nat :=
  match g_winsta0 w with
  | Some _ => (w, None)
  | None => (mkWorkers (g_input_worker_started w) (threads w) handle, handle)
  end.

(** Any sequence of calls ([None]) and worker starts ([Some handle]). *)
Definition run_workers (es : list (option (option nat))) (w : Workers) : Workers :=
  foldl (λ w e, match e with
                | None => EnsureInputWorkerStarted w
                | Some h => (EnsureProcessWindowStation h w).1
                end) w es.

(** One worker at most, one as soon as anything was called, and the window station
    is kept once it is open. *)
Lemma one_worker es :
  let w := run_workers es (mkWorkers false 0 None) in
  (threads w <= 1)%nat ∧ (None ∈ es → threads w = 1%nat) ∧
  (∀ es' h, g_winsta0 w = Some h → g_winsta0 (run_workers es' w) = Some h).
Proof.
  assert (Hinv : ∀ es w, threads w = (if g_input_worker_started w then 1%nat else 0%nat) →
    let w' := run_workers es w in
    threads w' = (if g_input_worker_started w' then 1%nat else 0%nat) ∧
    (g_input_worker_started w = true ∨ None ∈ es → g_input_worker_started w' = true)).
  { clear es. induction es as [|e es IH]; intros w Hw; cbv zeta.
    - split; [done|]. intros [?|?%not_elem_of_nil]; done.
    - cbn [run_workers foldl]. destruct (IH (match e with None => EnsureInputWorkerStarted w
        | Some h => (EnsureProcessWindowStation h w).1 end)) as [H1 H2].
      { destruct e as [h|]; unfold EnsureInputWorkerStarted, EnsureProcessWindowStation.
        - by destruct (g_winsta0 w).
        - destruct (g_input_worker_started w) eqn:E; [by rewrite E|cbn; lia]. }
      split; [exact H1|]. intros H. apply H2. destruct e as [h|].
      + destruct H as [H|[H|H]%elem_of_cons]; [|done|by right].
        left. unfold EnsureProcessWindowStation. by destruct (g_winsta0 w).
      + left. unfold EnsureInputWorkerStarted. by destruct (g_input_worker_started w) eqn:E. }
  cbv zeta. destruct (Hinv es (mkWorkers false 0 None) eq_refl) as [H1 H2]. split; [|split].
  - rewrite H1. destruct (g_input_worker_started _); lia.
  - intros Hin. rewrite H1, H2; auto.
  - intros es'. generalize (run_workers es (mkWorkers false 0 None)). clear.
    induction es' as [|e es' IH]; intros w h Hh; [done|]. apply IH. destruct e as [h'|].
    + unfold EnsureProcessWindowStation. by rewrite Hh.
    + unfold EnsureInputWorkerStarted. by destruct (g_input_worker_started w).
Qed.
