(* ===== verification/ServiceControl.v ===== *)
(** * The service and the control manager

    [windows/service/service.cpp]: [SvcMain], [SvcHandler] and [wmain] around the
    watchdog of [Service]. The two functions run in threads of their own and
    share [g_status] and [g_hStop]; each point where one of them reads, writes
    or reports these is a program counter, and a run is a sequence of their steps
    and of controls sent by the service control manager (SCM). *)
From Stdlib Require Import Sorted.
From S2P Require Import Prelude Config LogFile Service.

Definition SERVICE_CONTROL_STOP : Z := 1.
Definition SERVICE_CONTROL_INTERROGATE : Z := 4.
Definition SERVICE_CONTROL_SHUTDOWN : Z := 5.
Definition SERVICE_STOPPED : Z := 1.
Definition SERVICE_START_PENDING : Z := 2.
Definition SERVICE_STOP_PENDING : Z := 3.
Definition SERVICE_RUNNING : Z := 4.
Definition SERVICE_WIN32_OWN_PROCESS : Z := 16.
Definition SERVICE_ACCEPT_STOP : Z := 1.
Definition SERVICE_ACCEPT_SHUTDOWN : Z := 4.

(** ** State *)

(** The fields of [SERVICE_STATUS] that the code writes. *)
Record ServiceStatus := mkStatus {
  dwServiceType : Z; dwCurrentState : Z; dwControlsAccepted : Z; dwWaitHint : Z }.

#[export] Instance eta_ServiceStatus : Settable ServiceStatus := λ s,
  mkStatus (dwServiceType s) (dwCurrentState s) (dwControlsAccepted s) (dwWaitHint s).

(** What [SvcMain] does next. *)
Inductive MainPc :=
  | Registering | Starting | ReportingStart | Creating | SettingRunning | ReportingRunning
  | LoggingStart
  | Watching                           (* in the wait of WorkerLoop *)
  | Checking                           (* the wait timed out; policy, lock and sessions *)
  | Serving (rest : list Session)      (* the round's sessions not yet looked at *)
  | SettingStopped | ReportingStopped | LoggingStop | Closing | Finished.

(** What [SvcHandler] does next. *)
Inductive HandlerPc := Idle | SettingPending | ReportingPending | Signalling | Reporting.

#[export] Instance HandlerPc_eq_dec : EqDecision HandlerPc.
Proof. solve_decision. Defined.

(** The manual-reset event of [g_hStop]. *)
Record StopEvent := mkStopEvent { signalled : bool; closed : bool }.

Record Scm := mkScm {
  main : MainPc; handler : HandlerPc;
  g_status : ServiceStatus;
  g_hStatus : bool;                    (* the handler is registered *)
  g_hStop : option StopEvent;
  reports : list ServiceStatus;        (* SetServiceStatus, the latest first *)
  stale_sets : nat;                    (* SetEvent on the closed handle *)
  svc : Svc }.

#[export] Instance eta_Scm : Settable Scm := λ s,
  mkScm (main s) (handler s) (g_status s) (g_hStatus s) (g_hStop s) (reports s) (stale_sets s) (svc s).

(** What Windows answers in a step of [SvcMain]. *)
Record MainAnswer := mkMainAnswer {
  an_register : bool;                  (* RegisterServiceCtrlHandlerW *)
  an_create : bool;                    (* CreateEventW *)
  an_pid : Z;                          (* GetCurrentProcessId *)
  an_tick : Tick }.                    (* a round of the watchdog *)

Section Control.
Context (env : SvcEnv).

Definition report (s : Scm) : Scm := s <| reports := g_status s :: reports s |>.

Definition set_state (z : Z) (s : Scm) : Scm :=
  s <| g_status := (g_status s) <| dwCurrentState := z |> |>.

(** A step of [SvcMain] and of [WorkerLoop] inside it. While it is [Watching], the wait
    ends with a failure (there is no event), the event, or a time-out; after a time-out a
    round is the check and then a step per session, whatever happens to the event. *)
Definition SvcMain (a : MainAnswer) (s : Scm) : Scm :=
  match main s with
  | Registering => s <| g_hStatus := an_register a |> <| main := if an_register a then Starting else Finished |>
  | Starting =>
    s <| g_status := (g_status s) <| dwServiceType := SERVICE_WIN32_OWN_PROCESS |>
                       <| dwCurrentState := SERVICE_START_PENDING |>
                       <| dwControlsAccepted := Z.lor SERVICE_ACCEPT_STOP SERVICE_ACCEPT_SHUTDOWN |> |>
      <| main := ReportingStart |>
  | ReportingStart => report s <| main := Creating |>
  | Creating =>
    s <| g_hStop := if an_create a then Some (mkStopEvent false false) else None |>
      <| main := SettingRunning |>
  | SettingRunning => set_state SERVICE_RUNNING s <| main := ReportingRunning |>
  | ReportingRunning => report s <| main := LoggingStart |>
  | LoggingStart =>
    s <| svc := Log env (W "служба запущена (pid=" ++ lu (an_pid a) ++ W ")") (svc s) |>
      <| main := Watching |>
  | Watching =>
    match g_hStop s with
    | Some (mkStopEvent false _) => s <| main := Checking |>
    | _ => s <| main := SettingStopped |>
    end
  | Checking =>
    let tk := an_tick a in
    if PolicyAllowExit (tk_policy tk) (tk_local tk) then s <| main := Watching |> else
    let '(go, v) := upgrade_gate env tk (svc s) in
    let s := s <| svc := v |> in
    if negb go then s <| main := Watching |> else
    match tk_sessions tk with
    | None => s <| main := Watching |>
    | Some sessions => s <| main := Serving sessions |>
    end
  | Serving [] => s <| main := Watching |>
  | Serving (v :: rest) => s <| svc := serve_session env (svc s) v |> <| main := Serving rest |>
  | SettingStopped => set_state SERVICE_STOPPED s <| main := ReportingStopped |>
  | ReportingStopped => report s <| main := LoggingStop |>
  | LoggingStop => s <| svc := Log env (W "служба остановлена") (svc s) |> <| main := Closing |>
  | Closing =>
    s <| g_hStop := match g_hStop s with Some e => Some (mkStopEvent (signalled e) true) | None => None end |>
      <| main := Finished |>
  | Finished => s
  end.

(** [SvcHandler] is called with a control... *)
Definition SvcHandler_call (control : Z) (s : Scm) : Scm :=
  s <| handler := if (control =? SERVICE_CONTROL_STOP) || (control =? SERVICE_CONTROL_SHUTDOWN)
                  then SettingPending else Reporting |>.

(** ... and takes a step. *)
Definition SvcHandler (s : Scm) : Scm :=
  match handler s with
  | Idle => s
  | SettingPending =>
    s <| g_status := (g_status s) <| dwCurrentState := SERVICE_STOP_PENDING |> <| dwWaitHint := 5000 |> |>
      <| handler := ReportingPending |>
  | ReportingPending => report s <| handler := Signalling |>
  | Signalling =>
    match g_hStop s with
    | None => s
    | Some (mkStopEvent _ true) => s <| stale_sets := S (stale_sets s) |>
    | Some (mkStopEvent _ false) => s <| g_hStop := Some (mkStopEvent true false) |>
    end <| handler := Idle |>
  | Reporting => report s <| handler := Idle |>
  end.

(** ** Runs *)
Inductive ScmEvent := EvMain (a : MainAnswer) | EvHandler | EvControl (control : Z).

Definition run_event (s : Scm) (e : ScmEvent) : Scm :=
  match e with
  | EvMain a => SvcMain a s
  | EvHandler => SvcHandler s
  | EvControl c => SvcHandler_call c s
  end.

Definition started (v : Svc) : Scm := mkScm Registering Idle (mkStatus 0 0 0 0) false None [] 0 v.

(** [wmain]: the text printed, the exit code, the state. [dispatched] is the
    error of [StartServiceCtrlDispatcherW], which otherwise returns when
    [SvcMain] has. *)
Definition wmain (argv : list wstr) (policy loc : option RegKey) (dispatched : option Z) (v : Svc)
    : str * Z * Svc :=
  if match argv with _ :: a :: _ => bool_decide (a = W "--console") | _ => false end
  then (B "AllowExit=" ++ to_string (if PolicyAllowExit policy loc then 1 else 0) ++ [10], 0, v)
  else match dispatched with
       | Some e => ([], 1, Log env (W "StartServiceCtrlDispatcherW failed " ++ lu e) v)
       | None => ([], 0, v)
       end.
End Control.

(** ** What the manager sees *)

(** The state last reported; until the first report a service is starting. *)
Definition seen (s : Scm) : Z :=
  match reports s with r :: _ => dwCurrentState r | [] => SERVICE_START_PENDING end.

(** The order of a service's life (0 is a status not yet filled in). *)
Definition rank (state : Z) : Z :=
  if state =? SERVICE_START_PENDING then 1 else
  if state =? SERVICE_RUNNING then 2 else
  if state =? SERVICE_STOP_PENDING then 3 else
  if state =? SERVICE_STOPPED then 4 else 0.

Definition state_rank (s : Scm) : Z := rank (dwCurrentState (g_status s)).

Definition is_stop (c : Z) : Prop := c = SERVICE_CONTROL_STOP ∨ c = SERVICE_CONTROL_SHUTDOWN.

Definition reports_sorted (l : list ServiceStatus) : Prop :=
  StronglySorted (λ a b, rank (dwCurrentState b) <= rank (dwCurrentState a)) l.

Section Life.
Context (env : SvcEnv).

(** Controls come one at a time, to a registered handler, in any state. *)
Definition possible (s : Scm) (e : ScmEvent) : Prop :=
  match e with
  | EvMain _ | EvHandler => True
  | EvControl _ => handler s = Idle ∧ g_hStatus s = true
  end.

(** What Windows promises: no control to a service that was reported stopped
    ([ERROR_SERVICE_NOT_ACTIVE]), and [SERVICE_CONTROL_STOP] only to a running one (otherwise
    [ERROR_SERVICE_CANNOT_ACCEPT_CTRL]); a shutdown is announced in any other state. *)
Definition documented (s : Scm) (e : ScmEvent) : Prop :=
  possible s e ∧
  match e with
  | EvControl c => seen s ≠ SERVICE_STOPPED ∧ (c = SERVICE_CONTROL_STOP → seen s = SERVICE_RUNNING)
  | _ => True
  end.

(** The event can be created, and no stop and no shutdown comes but to a service reported
    running. *)
Definition tame (s : Scm) (e : ScmEvent) : Prop :=
  possible s e ∧
  match e with
  | EvMain a => an_create a = true
  | EvHandler => True
  | EvControl c => is_stop c → seen s = SERVICE_RUNNING
  end.

(** A sequence of events each of which is allowed when it happens. *)
Fixpoint feasible (ok : Scm → ScmEvent → Prop) (s : Scm) (es : list ScmEvent) : Prop :=
  match es with [] => True | e :: es => ok s e ∧ feasible ok (run_event env s e) es end.

Definition run (es : list ScmEvent) (s : Scm) : Scm := foldl (run_event env) s es.

Inductive reach (ok : Scm → ScmEvent → Prop) (v : Svc) : Scm → Prop :=
  | reach_start : reach ok v (started v)
  | reach_step s e : reach ok v s → ok s e → reach ok v (run_event env s e).

Lemma reach_run ok v es : ∀ s, reach ok v s → feasible ok s es → reach ok v (run es s).
Proof.
  induction es as [|e es IH]; intros s Hr; [done|]. intros [Hp Hf]. apply IH; [by apply reach_step|done].
Qed.

Lemma feasible_app ok es1 es2 : ∀ s, feasible ok s (es1 ++ es2) ↔ feasible ok s es1 ∧ feasible ok (run es1 s) es2.
Proof. induction es1 as [|e es1 IH]; intros s; cbn; [tauto|]. rewrite IH. unfold run. tauto. Qed.

(** An assertion that every allowed event keeps holds after a run. *)
Lemma run_keeps ok (P : Scm → Prop) es : (∀ s e, P s → ok s e → P (run_event env s e)) →
  ∀ s, P s → feasible ok s es → P (run es s).
Proof.
  intros HP. induction es as [|e es IH]; intros s Hs; [done|]. intros [He Hf].
  apply (IH (run_event env s e)); [by apply HP|done].
Qed.
Lemma reach_keeps ok v (P : Scm → Prop) : P (started v) → (∀ s e, P s → ok s e → P (run_event env s e)) →
  ∀ s, reach ok v s → P s.
Proof. induction 3; auto. Qed.

(** ** Rounds *)

(** Inside a round only the watchdog's own state and the place in the round change. *)
Lemma SvcMain_round a s : (main s = Checking ∨ ∃ l, main s = Serving l) →
  ∃ pc v, SvcMain env a s = s <| svc := v |> <| main := pc |> ∧ (pc = Watching ∨ ∃ l, pc = Serving l).
Proof.
  assert (∀ pc, ∃ v, s <| main := pc |> = s <| svc := v |> <| main := pc |>) as Hv
    by (intros pc; exists (svc s); by destruct s).
  unfold SvcMain. intros [E|[[|x l] E]]; rewrite E.
  - destruct (PolicyAllowExit _ _); [destruct (Hv Watching) as [v ->]; eauto|].
    destruct (upgrade_gate env (an_tick a) (svc s)) as [go v]. cbv zeta.
    destruct go; cbn [negb]; [destruct (tk_sessions (an_tick a))|]; eauto 10.
  - destruct (Hv Watching) as [v ->]. eauto.
  - eauto 10.
Qed.

Lemma decide_round pc : {pc = Checking ∨ ∃ l, pc = Serving l} + {¬ (pc = Checking ∨ ∃ l, pc = Serving l)}.
Proof. destruct pc; first [left; by eauto|right; by intros [?|[? ?]]]. Qed.

(** A round run to its end is the round of [Service]. *)
Lemma round_is_worker_tick a s : main s = Checking →
  ∃ n, run (EvMain <$> replicate n a) s = s <| svc := worker_tick env (svc s) (an_tick a) |> <| main := Watching |>.
Proof.
  intros E.
  assert (∀ l v, ∃ n, run (EvMain <$> replicate n a) (s <| svc := v |> <| main := Serving l |>) =
    s <| svc := foldl (serve_session env) v l |> <| main := Watching |>) as Hl.
  { induction l as [|x l IH]; intros v; [by exists 1%nat|]. destruct (IH (serve_session env v x)) as [n Hn].
    exists (S n). exact Hn. }
  unfold worker_tick. destruct (PolicyAllowExit _ _) eqn:Ep.
  { exists 1%nat. cbn. unfold SvcMain. rewrite E, Ep. by destruct s. }
  destruct (upgrade_gate env (an_tick a) (svc s)) as [go v] eqn:Eg.
  destruct go; cbn [negb]; [destruct (tk_sessions (an_tick a)) as [l|] eqn:El|].
  - destruct (Hl l v) as [n Hn]. exists (S n). rewrite <- Hn.
    transitivity (run (EvMain <$> replicate n a) (SvcMain env a s)); [done|]. f_equal.
    unfold SvcMain. rewrite E, Ep, Eg. cbn [negb]. by rewrite El.
  - exists 1%nat. cbn. unfold SvcMain. rewrite E, Ep, Eg. cbn [negb]. by rewrite El.
  - exists 1%nat. cbn. unfold SvcMain. by rewrite E, Ep, Eg.
Qed.

(** ** Where the main thread is *)
Definition early (pc : MainPc) : bool :=
  match pc with Registering | Starting | ReportingStart | Creating => true | _ => false end.
Definition live (pc : MainPc) : bool :=
  match pc with ReportingRunning | LoggingStart | Watching | Checking | Serving _ => true | _ => false end.
(** Out of the loop. *)
Definition past (pc : MainPc) : bool :=
  match pc with SettingStopped | ReportingStopped | LoggingStop | Closing | Finished => true | _ => false end.

Definition event_signalled (s : Scm) : bool :=
  match g_hStop s with Some e => signalled e | None => false end.

Ltac destruct_scm s :=
  let pc := fresh "pc" in let h := fresh "h" in let st := fresh "st" in let ev := fresh "ev" in
  destruct s as [pc h [? st ? ?] reg ev rs stale v'];
  unfold event_signalled, seen in *; cbn in *.

(** ** The event, in any run *)
Definition event_inv (s : Scm) : Prop :=
  match g_hStop s with
  | None => True
  | Some e => early (main s) = false ∧ (closed e = true → main s = Finished) ∧ (past (main s) = true → signalled e = true)
  end.

Lemma event_inv_step s e : event_inv s → possible s e → event_inv (run_event env s e).
Proof.
  unfold event_inv. intros Hi Hp. destruct e as [a| |c]; cbn [run_event]; [| |done].
  - destruct (decide_round (main s)) as [Hr|Hr].
    + destruct (SvcMain_round a s Hr) as (pc & v & -> & Hpc). cbn. destruct (g_hStop s) as [e|]; [|done].
      destruct Hi as (_ & Hc & _). assert (closed e = true → pc = Finished) as Hc'.
      { intros H%Hc. rewrite H in Hr. by destruct Hr as [?|[? ?]]. }
      destruct Hpc as [->|[l ->]]; by split_and!.
    + unfold SvcMain. destruct_scm s. destruct pc; cbn in *; try done;
        try (destruct (an_create a); naive_solver);
        try (by destruct ev as [[[] []]|]; cbn in *; naive_solver).
      all: exfalso; apply Hr; eauto.
  - unfold SvcHandler. destruct_scm s. destruct h; try done.
    destruct ev as [[? []]|]; cbn in *; naive_solver.
Qed.

(** A signalled event stays signalled, and an event once created is there to stay. *)
Lemma event_kept s e : event_inv s → event_signalled s = true → event_signalled (run_event env s e) = true.
Proof.
  unfold event_inv, event_signalled. intros Hi Hs. destruct e as [a| |c]; cbn [run_event]; [| |done].
  - destruct (decide_round (main s)) as [Hr|Hr].
    { destruct (SvcMain_round a s Hr) as (pc & v & -> & _). done. }
    unfold SvcMain. destruct_scm s. destruct pc, ev as [[[] ?]|]; cbn in *; try done; naive_solver.
  - unfold SvcHandler. destruct_scm s. destruct h; try done. by destruct ev as [[? []]|].
Qed.

(** ** A stop is carried out, in any run *)
Definition main_step (e : ScmEvent) : nat := match e with EvMain _ => 1 | _ => 0 end.
Definition handler_step (e : ScmEvent) : nat := match e with EvHandler => 1 | _ => 0 end.
Definition main_steps (es : list ScmEvent) : nat := sum_list_with main_step es.
Definition handler_steps (es : list ScmEvent) : nat := sum_list_with handler_step es.

(** Steps of the handler until it has signalled. *)
Definition handler_left (h : HandlerPc) : nat :=
  match h with SettingPending => 3 | ReportingPending => 2 | Signalling => 1 | _ => 0 end.

(** The event is signalled, or the handler will signal it in [n] steps, or [SvcMain] is over. *)
Definition stopping (n : nat) (s : Scm) : Prop :=
  event_inv s ∧ is_Some (g_hStop s) ∧
  (event_signalled s = true ∨ main s = Finished ∨ (0 < handler_left (handler s) <= n)%nat).

Lemma hStop_kept s e : event_inv s → is_Some (g_hStop s) → is_Some (g_hStop (run_event env s e)).
Proof.
  unfold event_inv. intros Hi Hs. destruct e as [a| |c]; cbn [run_event]; [| |done].
  - destruct (decide_round (main s)) as [Hr|Hr].
    { destruct (SvcMain_round a s Hr) as (pc & v & -> & _). done. }
    unfold SvcMain. destruct_scm s. destruct pc, ev as [[[] ?]|]; cbn in *; try done; naive_solver.
  - unfold SvcHandler. destruct_scm s. destruct h; try done. by destruct ev as [[? []]|].
Qed.

Lemma main_handler a s : handler (SvcMain env a s) = handler s.
Proof.
  destruct (decide_round (main s)) as [Hr|Hr]; [by destruct (SvcMain_round a s Hr) as (pc & v & -> & _)|].
  unfold SvcMain. destruct_scm s. destruct pc, ev as [[[] ?]|]; done || naive_solver.
Qed.

Lemma stopping_step n s e : stopping n s → possible s e →
  stopping (n - handler_step e) (run_event env s e).
Proof.
  intros (Hi & Hev & Hu) Hp. split; [by apply event_inv_step|]. split; [by apply hStop_kept|].
  destruct Hu as [Hu|[Hu|Hu]]; [left; by apply event_kept|right; left|].
  { destruct e as [a| |c]; cbn [run_event]; [by unfold SvcMain; rewrite Hu| |done].
    unfold SvcHandler. destruct (handler s), (g_hStop s) as [[? []]|]; done. }
  destruct e as [a| |c]; cbn [run_event handler_step].
  - rewrite main_handler. right; right; lia.
  - unfold SvcHandler. destruct (handler s) eqn:E; cbn in Hu |- *; try lia.
    destruct Hev as [[sg cl] Ev]. unfold event_inv, event_signalled in *. rewrite Ev in *.
    destruct Hi as (_ & Hc & _). destruct cl; [right; left; by apply Hc|by left].
  - destruct Hp as (Hidle & _). rewrite Hidle in Hu. cbn in Hu. lia.
Qed.

Lemma stopping_run es : ∀ n s, stopping n s → feasible possible s es →
  stopping (n - handler_steps es) (run es s).
Proof.
  induction es as [|e es IH]; intros n s Hs; [by rewrite Nat.sub_0_r|]. intros [Hp Hf].
  specialize (IH _ _ (stopping_step n s e Hs Hp) Hf). unfold handler_steps in *. cbn [sum_list_with].
  by replace (n - (handler_step e + sum_list_with handler_step es))%nat
    with (n - handler_step e - sum_list_with handler_step es)%nat by lia.
Qed.

(** At most [n] sessions are listed. *)
Definition few (n : nat) (e : ScmEvent) : Prop :=
  match e with EvMain a => (length (default [] (tk_sessions (an_tick a))) <= n)%nat | _ => True end.

Definition in_round (s : Scm) : list Session := match main s with Serving l => l | _ => [] end.

(** Steps of [SvcMain] once the event is signalled. *)
Definition main_left (n : nat) (pc : MainPc) : nat :=
  match pc with
  | SettingRunning => 8 | ReportingRunning => 7 | LoggingStart => 6
  | Checking => 7 + n | Serving l => 6 + length l | Watching => 5
  | SettingStopped => 4 | ReportingStopped => 3 | LoggingStop => 2 | Closing => 1 | _ => 0
  end.

Definition signalled_or_over (s : Scm) : Prop :=
  event_inv s ∧ is_Some (g_hStop s) ∧ (event_signalled s = true ∨ main s = Finished).

Lemma over_step s e : signalled_or_over s → possible s e → signalled_or_over (run_event env s e).
Proof.
  intros (Hi & Hev & Hu) Hp. split; [by apply event_inv_step|]. split; [by apply hStop_kept|].
  destruct Hu as [Hu|Hu]; [left; by apply event_kept|right].
  destruct e as [a| |c]; cbn [run_event]; [by unfold SvcMain; rewrite Hu| |done].
  unfold SvcHandler. destruct (handler s), (g_hStop s) as [[? []]|]; done.
Qed.

Lemma handler_main s : main (SvcHandler s) = main s ∧ svc (SvcHandler s) = svc s.
Proof. unfold SvcHandler. by destruct (handler s), (g_hStop s) as [[? []]|]. Qed.

Lemma main_left_step n s e : signalled_or_over s → few n e →
  (main_left n (main (run_event env s e)) <= main_left n (main s) - main_step e)%nat.
Proof.
  intros (Hi & Hev & Hu) Hn. destruct e as [a| |c]; cbn [run_event main_step]; [|rewrite Nat.sub_0_r; by destruct (handler_main s) as [-> _]|by rewrite Nat.sub_0_r].
  assert (early (main s) = false) as He.
  { destruct Hev as [ev Ev]. unfold event_inv in Hi. rewrite Ev in Hi. apply Hi. }
  unfold SvcMain. destruct (main s) as [| | | | | | | | |[|x l]| | | | |] eqn:E; cbn; try done; try lia.
  - unfold event_inv, event_signalled in *. destruct (g_hStop s) as [[[] ?]|]; cbn in *; [lia|naive_solver|lia].
  - cbn in Hn. destruct (PolicyAllowExit _ _); cbn; [lia|]. destruct (upgrade_gate _ _ _) as [go v].
    destruct go; cbn; [|lia]. destruct (tk_sessions (an_tick a)); cbn in *; lia.
  - by rewrite E.
Qed.

Lemma main_left_run n es : ∀ s, signalled_or_over s → feasible possible s es → Forall (few n) es →
  signalled_or_over (run es s) ∧ (main_left n (main (run es s)) <= main_left n (main s) - main_steps es)%nat.
Proof.
  induction es as [|e es IH]; intros s Hs; [intros; split; [done|cbn; lia]|]. intros [Hp Hf] [He Hn]%Forall_cons.
  destruct (IH _ (over_step s e Hs Hp) Hf Hn) as [H1 H2]. pose proof (main_left_step n s e Hs He).
  split; [exact H1|]. unfold main_steps in *. cbn [sum_list_with]. cbn [run foldl] in *. unfold run in H2. lia.
Qed.

Lemma over_finished n s : signalled_or_over s → main_left n (main s) = 0%nat → main s = Finished.
Proof.
  intros (Hi & [e Ev] & _) Hl. unfold event_inv in Hi. rewrite Ev in Hi. destruct Hi as (He & _).
  by destruct (main s).
Qed.

(** *** Launches after the signal *)
Fixpoint next_tick (es : list ScmEvent) : option Tick :=
  match es with [] => None | EvMain a :: _ => Some (an_tick a) | _ :: es => next_tick es end.

(** The sessions that the round in progress may still serve. *)
Definition round_of (s : Scm) (es : list ScmEvent) : list Session :=
  match main s with
  | Serving l => l
  | Checking => match next_tick es with Some tk => default [] (tk_sessions tk) | None => [] end
  | _ => []
  end.

(** From [v] to [v'], sessions out of [l] were served, in their order. *)
Definition served_from (l : list Session) (v v' : Svc) : Prop :=
  ∃ vs, vs `sublist_of` l ∧ relaunches v' = relaunches v ++ (attempt <$> vs) ∧
    spawned v' = spawned v ++ omap (process_of env) vs.

Lemma served_from_same v v' v'' l : relaunches v' = relaunches v → spawned v' = spawned v →
  served_from l v' v'' → served_from l v v''.
Proof. intros E1 E2 (vs & Hs & H1 & H2). exists vs. by rewrite H1, H2, E1, E2. Qed.

Lemma served_from_weaken v v' l l' : l `sublist_of` l' → served_from l v v' → served_from l' v v'.
Proof. intros Hl (vs & Hs & H). exists vs. split; [by etrans|done]. Qed.

Lemma launches_run es : ∀ s, signalled_or_over s → feasible possible s es →
  served_from (round_of s es) (svc s) (svc (run es s)).
Proof.
  induction es as [|e es IH]; intros s Hs.
  { intros _. exists []. cbn. rewrite !app_nil_r. split_and!; [apply sublist_nil_l|done..]. }
  intros [Hp Hf]. pose proof (IH _ (over_step s e Hs Hp) Hf) as H. unfold run. cbn [foldl]. fold (run es (run_event env s e)).
  destruct e as [a| |c]; [|destruct (handler_main s) as [Em Ev]; cbn [run_event] in *; unfold round_of in *;
    by rewrite Em, Ev in H|exact H].
  clear IH Hf Hp. set (t := run es (run_event env s (EvMain a))) in *. clearbody t. cbn [run_event] in H.
  unfold round_of in *. cbn [next_tick].
  destruct (main s) as [| | | | | | | | |[|x l]| | | | |] eqn:E; unfold SvcMain in H; rewrite E in H; cbn in H.
  1-4: exfalso; destruct Hs as (Hi & [ev Hev] & _); unfold event_inv in Hi; rewrite Hev, E in Hi; by destruct Hi.
  - exact H.
  - exact H.
  - eapply served_from_same; [| |exact H]; by log_same.
  - destruct Hs as (_ & [ev Hev] & [Hs|Hs]); [|congruence]. unfold event_signalled in Hs. rewrite Hev in *.
    by destruct ev as [[] ?].
  - destruct (PolicyAllowExit _ _); [eapply served_from_weaken; [apply sublist_nil_l|exact H]|].
    destruct (upgrade_gate_spec env (an_tick a) (svc s)) as (_ & _ & Hr & Hsp).
    destruct (upgrade_gate env (an_tick a) (svc s)) as [go v]. cbn in Hr, Hsp.
    destruct go; cbn in H; [destruct (tk_sessions (an_tick a)); cbn in *|].
    + by eapply served_from_same.
    + by eapply served_from_same.
    + eapply served_from_weaken; [apply sublist_nil_l|by eapply served_from_same].
  - exact H.
  - destruct H as (vs & Hsub & H1 & H2). destruct (serve_spec env (svc s) x) as (E1 & E2 & _).
    rewrite E1 in H1. rewrite E2 in H2. destruct (decide (due env (lastLaunch (svc s)) x)).
    + exists (x :: vs). split; [by apply sublist_skip|]. rewrite H1, H2, <- !app_assoc. split; [done|].
      cbn. by destruct (process_of env x).
    + exists vs. rewrite !app_nil_r in *. split; [by apply sublist_cons|done].
  - exact H.
  - exact H.
  - eapply served_from_same; [| |exact H]; by log_same.
  - exact H.
  - rewrite E in H. exact H.
Qed.

(** *** The last report *)
Definition no_stop (e : ScmEvent) : Prop := match e with EvControl c => ¬ is_stop c | _ => True end.

(** While a stop is handled and no other comes: before the signal the loop goes on, after it
    [STOPPED] is set for good and reported. *)
Definition one_stop (s : Scm) : Prop :=
  event_inv s ∧
  match handler_left (handler s) with
  | O => event_signalled s = true ∧
         match main s with
         | ReportingStopped => dwCurrentState (g_status s) = SERVICE_STOPPED
         | LoggingStop | Closing | Finished =>
           dwCurrentState (g_status s) = SERVICE_STOPPED ∧ seen s = SERVICE_STOPPED
         | _ => True
         end
  | S _ => g_hStop s = Some (mkStopEvent false false)
  end.

Lemma one_stop_step s e : one_stop s → possible s e → no_stop e → one_stop (run_event env s e).
Proof.
  intros [Hi Hq] Hp He. split; [by apply event_inv_step|]. unfold event_inv in Hi. destruct e as [a| |c]; cbn [run_event].
  - destruct (decide_round (main s)) as [Hr|Hr].
    { destruct (SvcMain_round a s Hr) as (pc & v & -> & Hpc). cbn. destruct (handler_left _); [|done].
      split; [apply Hq|]. by destruct Hpc as [->|[l ->]]. }
    rewrite main_handler. destruct (handler_left (handler s)).
    + destruct Hq as [Hev Hq]. unfold SvcMain. destruct_scm s.
      destruct ev as [[sg cl]|]; [|done]. cbn in Hev. subst sg. destruct pc; cbn in *; try done; naive_solver.
    + rewrite Hq in Hi. destruct Hi as (He' & _ & Hi). unfold SvcMain. destruct_scm s. subst ev.
      destruct pc; try done; naive_solver.
  - unfold SvcHandler. destruct_scm s. destruct h; cbn in *; [exact Hq|exact Hq|exact Hq| |].
    + subst ev. cbn. destruct Hi as (_ & _ & Hi). split; [done|]. destruct pc; try done; by discriminate Hi.
    + destruct Hq as [Hev Hq]. split; [done|]. destruct pc; try done; by destruct Hq as [-> _].
  - destruct Hp as (Hidle & _). unfold SvcHandler_call. cbn in He. unfold is_stop in He.
    destruct (Z.eqb_spec c SERVICE_CONTROL_STOP), (Z.eqb_spec c SERVICE_CONTROL_SHUTDOWN); try naive_solver.
    cbn. rewrite Hidle in Hq. exact Hq.
Qed.

Lemma one_stop_run es : ∀ s, one_stop s → feasible possible s es → Forall no_stop es → one_stop (run es s).
Proof.
  induction es as [|e es IH]; intros s Hs; [done|]. intros [Hp Hf] [He Hn]%Forall_cons.
  apply (IH (run_event env s e)); [by apply one_stop_step|done..].
Qed.


(** ** What the manager is told, in a tame run *)

(** The main thread's program counter against the state in [g_status]. *)
Definition main_inv (s : Scm) : Prop :=
  let r := state_rank s in
  match main s with
  | Registering => r = 0 ∧ event_signalled s = false ∧ g_hStatus s = false ∧ handler s = Idle
  | Starting => r = 0 ∧ event_signalled s = false
  | ReportingStart | Creating | SettingRunning => r = 1 ∧ event_signalled s = false
  | ReportingRunning | LoggingStart | Watching | Checking | Serving _ => r = 2 ∨ r = 3
  | SettingStopped => r = 3 ∧ event_signalled s = true
  | ReportingStopped => r = 4
  | LoggingStop | Closing => r = 4 ∧ rank (seen s) = 4
  | Finished => r = 4 ∧ rank (seen s) = 4 ∨
                r = 0 ∧ g_hStatus s = false ∧ handler s = Idle ∧ event_signalled s = false
  end.

(** The handler's, against both. *)
Definition handler_inv (s : Scm) : Prop :=
  match handler s with
  | SettingPending => live (main s) = true ∧ state_rank s = 2 ∧ event_signalled s = false
  | ReportingPending => live (main s) = true ∧ state_rank s = 3 ∧ event_signalled s = false
  | Signalling => live (main s) = true ∧ state_rank s = 3 ∧ event_signalled s = false ∧ 3 <= rank (seen s)
  | Idle | Reporting =>
      (3 <= state_rank s → 3 <= rank (seen s)) ∧ (state_rank s = 2 → event_signalled s = false) ∧
      (state_rank s = 3 → event_signalled s = true)
  end.

Record scm_inv (s : Scm) : Prop := {
  inv_main : main_inv s;
  inv_handler : handler_inv s;
  inv_sorted : reports_sorted (reports s);
  inv_bound : Forall (λ r, rank (dwCurrentState r) <= state_rank s) (reports s);
  inv_event : match g_hStop s with
              | None => early (main s) = true ∨ main s = Finished ∧ state_rank s = 0
              | Some e => early (main s) = false ∧ (closed e = true → main s = Finished)
              end;
  inv_stale : stale_sets s = 0%nat }.

Lemma started_inv v : scm_inv (started v).
Proof. split; cbn; try done; [constructor|by left]. Qed.

Lemma bound_mono (l : list ServiceStatus) (a b : Z) :
  Forall (λ r, rank (dwCurrentState r) <= a) l → a <= b → Forall (λ r, rank (dwCurrentState r) <= b) l.
Proof. intros H ?. eapply Forall_impl; [exact H|]. cbn. lia. Qed.

Ltac destruct_status s :=
  let pc := fresh "pc" in let h := fresh "h" in let st := fresh "st" in let ev := fresh "ev" in
  destruct s as [pc h [? st ? ?] reg ev rs stale v'];
  unfold main_inv, handler_inv, event_signalled, state_rank, seen, reports_sorted in *; cbn in *.

Ltac scm_solve :=
  repeat match goal with
  | H : _ ∧ _ |- _ => destruct H
  | H : _ ∨ _ |- _ => destruct H
  | |- Forall _ (_ :: _) => constructor
  | |- StronglySorted _ (_ :: _) => constructor
  | |- _ ∧ _ => split
  end; try done; try lia; auto;
  try (eapply bound_mono; [eassumption|lia]); try congruence.

(** A step inside a round. *)
Lemma round_inv s pc v : scm_inv s → live (main s) = true → early (main s) = false → live pc = true →
  scm_inv (s <| svc := v |> <| main := pc |>).
Proof.
  intros [Hm Hh Hs Hb He Hst] Hl Hea Hpc. assert (early pc = false) as Hep by by destruct pc.
  assert (state_rank s = 2 ∨ state_rank s = 3) as Hr by (unfold main_inv in Hm; by destruct (main s)).
  split; [| |done|done| |done].
  - unfold main_inv. cbn. by destruct pc.
  - unfold handler_inv in *. cbn. rewrite Hpc. rewrite Hl in Hh. done.
  - cbn. destruct (g_hStop s) as [e|]; [|destruct He as [He|[He _]]; by rewrite He in *].
    split; [done|]. intros [_ Hf]%(conj I). destruct He as (_ & He). by rewrite (He Hf) in Hl.
Qed.

Lemma SvcMain_inv a s : scm_inv s → an_create a = true → scm_inv (SvcMain env a s).
Proof.
  intros HI Hc. destruct (decide_round (main s)) as [Hr|Hr].
  { destruct (SvcMain_round a s Hr) as (pc & v & -> & Hpc).
    apply round_inv; [done|by destruct Hr as [->|[? ->]]..|by destruct Hpc as [->|[? ->]]]. }
  destruct HI as [Hm Hh Hs Hb He Hst]. destruct_status s. destruct pc; cbn in *; rewrite ?Hc.
  all: try (exfalso; apply Hr; by eauto).
  all: try (destruct ev as [[[] []]|]; cbn in *).
  all: try (destruct He as [_ He]; discriminate (He eq_refl)).
  all: try (exfalso; destruct h; scm_solve; fail).
  all: try destruct (an_register a).
  all: split; cbn; unfold main_inv, handler_inv, event_signalled, state_rank, seen, reports_sorted; cbn.
  all: try (destruct h; scm_solve; fail).
Qed.

Lemma SvcHandler_inv s : scm_inv s → scm_inv (SvcHandler s).
Proof.
  intros [Hm Hh Hs Hb He Hst]. destruct_status s. destruct h; cbn in *.
  all: try (destruct ev as [[[] []]|]; cbn in *).
  all: split; cbn; unfold main_inv, handler_inv, event_signalled, state_rank, seen, reports_sorted; cbn.
  all: destruct pc; cbn in *; scm_solve.
  all: match goal with H : true = true → _ |- _ => discriminate (H eq_refl) end.
Qed.

Lemma seen_rank s : scm_inv s → seen s = SERVICE_RUNNING → 2 <= state_rank s.
Proof.
  intros [_ _ _ Hb _ _]. unfold seen. destruct (reports s) as [|r rs]; [done|].
  intros Hr. apply Forall_cons in Hb as [Hb _]. by rewrite Hr in Hb.
Qed.

Lemma SvcHandler_call_inv c s :
  scm_inv s → handler s = Idle → g_hStatus s = true → (is_stop c → seen s = SERVICE_RUNNING) →
  scm_inv (SvcHandler_call c s).
Proof.
  intros Hi Hidle Hreg Hc. pose proof (seen_rank s Hi) as Hrank.
  destruct Hi as [Hm Hh Hs Hb He Hst]. unfold SvcHandler_call.
  destruct ((c =? SERVICE_CONTROL_STOP) || (c =? SERVICE_CONTROL_SHUTDOWN)) eqn:E.
  - assert (Hrun : seen s = SERVICE_RUNNING).
    { apply Hc. unfold is_stop. apply orb_true_iff in E as [E|E]; apply Z.eqb_eq in E; auto. }
    specialize (Hrank Hrun). clear Hc. destruct_status s. subst h. rewrite Hrun in *. cbn in *.
    split; cbn; unfold main_inv, handler_inv, event_signalled, state_rank, seen, reports_sorted; cbn.
    all: destruct pc; cbn in *; scm_solve.
  - clear Hc Hrank. destruct_status s. subst h reg.
    split; cbn; unfold main_inv, handler_inv, event_signalled, state_rank, seen, reports_sorted; cbn.
    all: destruct pc; cbn in *; scm_solve.
Qed.

Lemma scm_event_inv s e : scm_inv s → tame s e → scm_inv (run_event env s e).
Proof.
  intros Hi [Hp Ht]. destruct e as [a| |c]; cbn [run_event].
  - by apply SvcMain_inv.
  - by apply SvcHandler_inv.
  - destruct Hp as (? & ?). by apply SvcHandler_call_inv.
Qed.

Lemma rank_stopped z : rank z = 4 → z = SERVICE_STOPPED.
Proof.
  unfold rank. destruct (z =? SERVICE_START_PENDING), (z =? SERVICE_RUNNING), (z =? SERVICE_STOP_PENDING);
    try done. by destruct (Z.eqb_spec z SERVICE_STOPPED).
Qed.

(** C30: In every interleaving of the service's two threads in which the stop event can be
    created and a stop or shutdown comes only while [SERVICE_RUNNING] is what was reported
    last, the reported states only go forward (start pending, running, stop pending,
    stopped), the stop event is never set after it was closed, a stop arrives only while the
    watchdog runs or is about to, and when [SvcMain] of a registered service has returned
    the last report says stopped. Windows keeps the condition for [SERVICE_CONTROL_STOP] but
    announces a shutdown in any state; [shutdown_while_stopping], [shutdown_while_starting]
    and [stop_without_event] are what then happens, and what happens without the event. *)
Theorem service_life v s :
  reach tame v s →
  reports_sorted (reports s) ∧ stale_sets s = 0%nat ∧
  (∀ c, is_stop c → tame s (EvControl c) → live (main s) = true) ∧
  (main s = Finished → g_hStatus s = true → seen s = SERVICE_STOPPED).
Proof.
  intros Hr. assert (scm_inv s) as Hi
    by (apply (reach_keeps tame v scm_inv); [apply started_inv|apply scm_event_inv|done]).
  split; [apply Hi|]. split; [apply Hi|]. split.
  - intros c Hc ((Hidle & _) & Hs). specialize (Hs Hc).
    pose proof (seen_rank s Hi Hs) as Hrk. pose proof (inv_main _ Hi) as Hm.
    pose proof (inv_handler _ Hi) as Hh. unfold main_inv in Hm.
    unfold handler_inv in Hh. rewrite Hs in Hh.
    rewrite Hidle in Hh. destruct Hh as (H3 & _ & _).
    assert (state_rank s = 2) as E.
    { destruct (decide (3 <= state_rank s)) as [H|]; [by apply H3 in H|lia]. }
    rewrite E in Hm. destruct (main s); naive_solver.
  - intros Hf Hg. pose proof (inv_main _ Hi) as Hm. unfold main_inv in Hm. rewrite Hf in Hm.
    destruct Hm as [[_ ?]|(_ & ? & _)]; [by apply rank_stopped|congruence].
Qed.
End Life.

(** ** Runs to evaluate *)
Definition demo_answer (now : Z) : MainAnswer := mkMainAnswer true true 4242 (demo_tick now).
Definition mains (l : list Z) : list ScmEvent := EvMain ∘ demo_answer <$> l.

(** Started, one round served, and in the wait again. *)
Definition demo_start : list ScmEvent := mains (replicate 7 0 ++ [5000; 5000; 5000; 5000]).
Definition demo_scm : Scm := run demo_env demo_start (started (idle_svc ∅)).

Ltac scm_feasible := repeat first [exact I | split | discriminate | (intros; discriminate) | reflexivity].

Lemma demo_reach : reach demo_env tame (idle_svc ∅) demo_scm.
Proof. apply reach_run; [apply reach_start|]. vm_compute. scm_feasible. Qed.

Lemma demo_reach_possible : reach demo_env possible (idle_svc ∅) demo_scm.
Proof. apply reach_run; [apply reach_start|]. vm_compute. scm_feasible. Qed.

Lemma service_life_witness :
  (dwCurrentState <$> reports demo_scm) = [SERVICE_RUNNING; SERVICE_START_PENDING] ∧
  reports_sorted (reports demo_scm) ∧ stale_sets demo_scm = 0%nat.
Proof.
  destruct (service_life demo_env _ _ demo_reach) as (Hs & Hz & _).
  split; [vm_compute; reflexivity|]. split; [exact Hs|exact Hz].
Defined.

(** The stop comes in the wait; the next round begins before the event is signalled and
    launches a client after it. *)
Definition demo_stop : list ScmEvent :=
  [EvHandler; EvMain (demo_answer 70000); EvHandler; EvMain (demo_answer 70000); EvHandler].
Definition demo_end : list ScmEvent := mains (replicate 9 200000).


(** *** Where the code departs from it *)

(** A shutdown that arrives while a stop is carried out overwrites the status between
    [SvcMain]'s setting and its report: the service is never reported stopped, and the
    handler goes on to set the event after it was closed. *)
Theorem shutdown_while_stopping :
  let es := EvControl SERVICE_CONTROL_STOP :: [EvHandler; EvHandler; EvHandler] ++ mains [0; 0] ++
    [EvControl SERVICE_CONTROL_SHUTDOWN; EvHandler] ++ mains [0; 0; 0] ++ [EvHandler; EvHandler] in
  let s := run demo_env es demo_scm in
  feasible demo_env documented demo_scm es ∧ main s = Finished ∧
  (dwCurrentState <$> reports s) =
    [SERVICE_STOP_PENDING; SERVICE_STOP_PENDING; SERVICE_STOP_PENDING; SERVICE_RUNNING; SERVICE_START_PENDING] ∧
  stale_sets s = 1%nat.
Proof. split; [vm_compute; scm_feasible|]. vm_compute. done. Qed.

(** A shutdown that arrives before the event exists is lost: the service goes on to run. *)
Theorem shutdown_while_starting :
  let es := mains [0; 0; 0] ++ [EvControl SERVICE_CONTROL_SHUTDOWN; EvHandler; EvHandler; EvHandler] ++
    mains [0; 0; 0; 0; 0] in
  let s := run demo_env es (started (idle_svc ∅)) in
  feasible demo_env documented (started (idle_svc ∅)) es ∧
  main s = Checking ∧ handler s = Idle ∧ event_signalled s = false ∧ seen s = SERVICE_RUNNING.
Proof. split; [vm_compute; scm_feasible|]. vm_compute. done. Qed.

(** Without the event the loop ends at once; a stop that is already on its way is then
    reported pending after stopped was. *)
Theorem stop_without_event :
  let no_event := EvMain (mkMainAnswer true false 4242 (demo_tick 0)) in
  let es := replicate 7 no_event ++ [EvControl SERVICE_CONTROL_STOP] ++ replicate 3 no_event ++ [EvHandler; EvHandler] in
  let s := run demo_env es (started (idle_svc ∅)) in
  feasible demo_env documented (started (idle_svc ∅)) es ∧
  (dwCurrentState <$> reports s) =
    [SERVICE_STOP_PENDING; SERVICE_STOPPED; SERVICE_RUNNING; SERVICE_START_PENDING].
Proof. split; [vm_compute; scm_feasible|]. vm_compute. done. Qed.
