(* ===== verification/Capture.v ===== *)
(** * Monitors and screen capture

    [windows/runner/input_block.cpp]: the rectangle of a monitor by either of two
    numberings, and the capture of a screen rectangle as JPEG, or as BMP when no
    encoder works. Displays and drawing are answers of Windows; [double] is IEEE
    binary64 ([Doubles]); [int] wraps where it would overflow. *)
From S2P Require Import Prelude Doubles Config Pack.

(** ** Displays *)
Record Rect := mkRect { left_ : Z; top_ : Z; right_ : Z; bottom_ : Z }.

(** A monitor of [EnumDisplayMonitors] with [GetMonitorInfoW]: its device and
    rectangle. *)
Abbreviation Monitor := (option (wstr * Rect)).

(** A device of [EnumDisplayDevicesW] with [EnumDisplaySettingsExW]. *)
Record DevMode := mkDevMode { dm_x : Z; dm_y : Z; dm_width : Z; dm_height : Z }.
Record Device := mkDevice { dev_attached : bool; dev_name : wstr; dev_mode : option DevMode }.

Definition mode_rect (m : DevMode) : Rect :=
  mkRect (dm_x m) (dm_y m) (i32 (dm_x m + i32 (dm_width m))) (i32 (dm_y m + i32 (dm_height m))).

(** The settings, when they are usable. *)
Definition usable_mode (d : Device) : option Rect :=
  match dev_mode d with
  | Some m => if (0 <? dm_width m) && (0 <? dm_height m) then Some (mode_rect m) else None
  | None => None
  end.

(** [EnumDisplayMonitors] with the callback of the first function. *)
Fixpoint monitor_by_index (ms : list Monitor) (current target : Z) : option Rect :=
  match ms with
  | [] => None
  | m :: ms =>
    if current =? target then
      match m with
      | Some (_, r) => Some r
      | None => monitor_by_index ms (current + 1) target
      end
    else monitor_by_index ms (current + 1) target
  end.

(** The loop over attached devices; [inl] is its [break] or return. *)
Fixpoint device_by_index (ds : list Device) (active index : Z) : option Device :=
  match ds with
  | [] => None
  | d :: ds =>
    if negb (dev_attached d) then device_by_index ds active index else
    if active =? index then Some d else device_by_index ds (active + 1) index
  end.

(** The result and the rectangle, when it is written. *)
Definition get_monitor_rect_by_index (ms : list Monitor) (ds : list Device) (index : Z) : Z * option Rect :=
  if index <? 0 then (-1, None) else
  match monitor_by_index ms 0 index with
  | Some r => (0, Some r)
  | None =>
    match device_by_index ds 0 index with
    | Some d => match usable_mode d with Some r => (0, Some r) | None => (-1, None) end
    | None => (-1, None)
    end
  end.

Fixpoint monitor_by_name (ms : list Monitor) (want : wstr) : option Rect :=
  match ms with
  | [] => None
  | Some (name, r) :: ms => if bool_decide (c_str name = c_str want) then Some r else monitor_by_name ms want
  | None :: ms => monitor_by_name ms want
  end.

Definition get_monitor_rect_by_device_index (ms : list Monitor) (ds : list Device) (device_index : Z) : Z * option Rect :=
  if device_index <? 0 then (-1, None) else
  let direct :=
    match ds !! Z.to_nat device_index with
    | Some d => if dev_attached d then Some d else None
    | None => None
    end in
  match (match direct with Some d => Some d | None => device_by_index ds 0 device_index end) with
  | None => (-1, None)
  | Some d =>
    match usable_mode d with
    | Some r => (0, Some r)
    | None =>
      match monitor_by_name ms (dev_name d) with
      | Some r => (0, Some r)
      | None => (-1, None)
      end
    end
  end.

(** ** Sizes *)
Definition target_size (source_w source_h max_w max_h : Z) : Z * Z :=
  if (0 <? max_w) && (0 <? max_h) && ((max_w <? source_w) || (max_h <? source_h)) then
    let scale := dmin (ddiv (of_int max_w) (of_int source_w)) (ddiv (of_int max_h) (of_int source_h)) in
    let w := to_int (dmul (of_int source_w) scale) in
    let h := to_int (dmul (of_int source_h) scale) in
    (if w <? 1 then 1 else w, if h <? 1 then 1 else h)
  else (source_w, source_h).

Definition row_stride (w : Z) : Z := i32 (Z.quot (i32 (i32 (w * 32) + 31)) 32 * 4).
Definition pixel_data_size (w h : Z) : Z := i32 (row_stride w * h).
Definition header_size : Z := 54.
Definition total_bmp_size (w h : Z) : Z := i32 (header_size + pixel_data_size w h).

(** ** Capture *)

(** One device as the last resort of [captureOneToOne] meets it: its position,
    [CreateDCW] and the two [BitBlt]s. *)
Record BltDevice := mkBltDevice { bd_device : Device; bd_dc : bool; bd_blt1 : bool; bd_blt2 : bool }.

Record CaptureEnv := mkCaptureEnv {
  ce_dc : bool;                        (* GetDC *)
  ce_metrics : Z * Z;                  (* GetSystemMetrics *)
  ce_mem_dc : bool; ce_dib : bool;     (* the target: CreateCompatibleDC, CreateDIBSection *)
  ce_blt1 : bool; ce_blt2 : bool;      (* BitBlt from the screen *)
  ce_devices : list BltDevice;
  ce_src_dc : bool; ce_src_dib : bool; ce_stretch : bool;
  ce_bits : Z → str;                   (* the target's pixels, of a size, top row first *)
  ce_jpeg : option str;                (* the encoder's output, when every step worked *)
}.

(** The search for the display at the source position: the first such decides. *)
Fixpoint blt_from_device (ds : list BltDevice) (x y : Z) : bool :=
  match ds with
  | [] => false
  | d :: ds =>
    if negb (dev_attached (bd_device d)) then blt_from_device ds x y else
    match dev_mode (bd_device d) with
    | Some m =>
      if (dm_x m =? x) && (dm_y m =? y) then bd_dc d && (bd_blt1 d || bd_blt2 d)
      else blt_from_device ds x y
    | None => blt_from_device ds x y
    end
  end.

Definition captureOneToOne (env : CaptureEnv) (x y : Z) : bool :=
  ce_blt1 env || ce_blt2 env || blt_from_device (ce_devices env) x y.

(** [BITMAPFILEHEADER] and [BITMAPINFOHEADER] of the fallback. *)
Definition bmp_header (w h : Z) : str :=
  le16 0x4d42 ++ le32 (u32 (total_bmp_size w h)) ++ le16 0 ++ le16 0 ++ le32 header_size ++
  le32 40 ++ le32 (u32 w) ++ le32 (u32 h) ++ le16 1 ++ le16 32 ++ le32 0 ++ le32 0 ++ le32 0 ++
  le32 0 ++ le32 0 ++ le32 0.

(** What a successful call leaves in [out_buf]: its first bytes and their number,
    with the two dimensions. *)
Record Shot := mkShot { out_data : str; out_len : Z; out_w : Z; out_h : Z }.

(** [busy]: another capture holds the mutex. *)
Definition capture_desktop_rect_bmp (env : CaptureEnv) (busy : bool)
    (src_x src_y src_w src_h max_w max_h buf_size : Z) : Z * option Shot :=
  if buf_size <=? header_size then (-1, None) else
  if busy then (-98, None) else
  if negb (ce_dc env) then (-2, None) else
  let '(x, y, w, h) :=
    if (src_w <=? 0) || (src_h <=? 0) then (0, 0, (ce_metrics env).1, (ce_metrics env).2)
    else (src_x, src_y, src_w, src_h) in
  if (w <=? 0) || (h <=? 0) then (-3, None) else
  let '(tw, th) := target_size w h max_w max_h in
  if buf_size <? total_bmp_size tw th then (-4, None) else
  if negb (ce_mem_dc env) then (-5, None) else
  if negb (ce_dib env) then (-6, None) else
  let bltOk :=
    if (tw =? w) && (th =? h) then captureOneToOne env x y
    else ce_src_dc env && ce_src_dib env && captureOneToOne env x y && ce_stretch env in
  if negb bltOk then (-7, None) else
  match ce_jpeg env with
  | Some jpeg =>
    if (0 <? Z.of_nat (length jpeg)) && (Z.of_nat (length jpeg) <=? buf_size)
    then (0, Some (mkShot jpeg (Z.of_nat (length jpeg)) tw th))
    else (0, Some (mkShot (bmp_header tw th ++ ce_bits env (pixel_data_size tw th)) (total_bmp_size tw th) tw th))
  | None =>
    (0, Some (mkShot (bmp_header tw th ++ ce_bits env (pixel_data_size tw th)) (total_bmp_size tw th) tw th))
  end.

Definition capture_desktop_bmp (env : CaptureEnv) (busy : bool) (max_w max_h buf_size : Z) : Z * option Shot :=
  capture_desktop_rect_bmp env busy 0 0 0 0 max_w max_h buf_size.

(** ** Specification vocabulary *)

(** The [n]-th monitor's rectangle, when Windows tells it. *)
Definition monitor_rect (ms : list Monitor) (n : nat) : option Rect :=
  match ms !! n with Some (Some (_, r)) => Some r | _ => None end.

(** The [n]-th display that belongs to the desktop. *)
Definition attached_device (ds : list Device) (n : nat) : option Device :=
  filter (λ d, dev_attached d = true) ds !! n.

Definition answer (r : option Rect) : Z * option Rect :=
  match r with Some r => (0, Some r) | None => (-1, None) end.

(** A reader of uncompressed 32-bit BMP files: the rows, top row first. A positive
    height means that the file starts with the bottom row. *)
Definition read_bmp (b : str) : option (list str) :=
  let offset := Z.to_nat (le_at 4 10 b) in
  let w := i32 (le_at 4 18 b) in
  let h := i32 (le_at 4 22 b) in
  let stride := Z.to_nat (4 * w) in
  let rows := (λ k, take stride (drop (offset + k * stride) b)) <$> seq 0 (Z.to_nat (Z.abs h)) in
  if bool_decide (le_at 2 0 b = 0x4d42) && (le_at 2 28 b =? 32) && (le_at 4 30 b =? 0) && (0 <? w)
  then Some (if 0 <? h then reverse rows else rows) else None.

(** ** Lemmas: monitors *)
Lemma monitor_by_index_past ms c t : t < c → monitor_by_index ms c t = None.
Proof.
  revert c. induction ms as [|m ms IH]; intros c H; [done|]. cbn [monitor_by_index].
  destruct (Z.eqb_spec c t); [lia|]. apply IH. lia.
Qed.

Lemma monitor_by_index_spec ms c t :
  0 <= c <= t → monitor_by_index ms c t = monitor_rect ms (Z.to_nat (t - c)).
Proof.
  unfold monitor_rect. revert c. induction ms as [|m ms IH]; intros c H; [done|]. cbn [monitor_by_index].
  destruct (Z.eqb_spec c t) as [->|].
  - rewrite Z.sub_diag. cbn. destruct m as [[nm r]|]; [done|]. apply monitor_by_index_past. lia.
  - rewrite IH by lia. replace (Z.to_nat (t - c)) with (S (Z.to_nat (t - (c + 1)))) by lia. done.
Qed.

Lemma device_by_index_spec ds a i :
  0 <= a <= i → device_by_index ds a i = attached_device ds (Z.to_nat (i - a)).
Proof.
  unfold attached_device. revert a. induction ds as [|d ds IH]; intros a H; [done|].
  cbn [device_by_index]. destruct (dev_attached d) eqn:Ed; cbn [negb].
  - rewrite filter_cons_True by done. destruct (Z.eqb_spec a i) as [->|]; [by rewrite Z.sub_diag|].
    rewrite IH by lia. replace (Z.to_nat (i - a)) with (S (Z.to_nat (i - (a + 1)))) by lia. done.
  - rewrite filter_cons_False by congruence. by apply IH.
Qed.

(** Both monitor look-ups write a rectangle exactly when they return 0. The
    first gives the rectangle of the monitor with that place in the enumeration,
    and failing that the settings of the attached display with that place; the
    second the settings of the display device with that number, or of the attached
    display with that place when there is none, and failing that the monitor of
    that device's name. *)
Theorem monitor_rects ms ds index :
  0 <= index →
  let n := Z.to_nat index in
  get_monitor_rect_by_index ms ds index =
    answer (match monitor_rect ms n with
            | Some r => Some r
            | None => attached_device ds n ≫= usable_mode
            end) ∧
  get_monitor_rect_by_device_index ms ds index =
    answer (d ← (match ds !! n with
                 | Some d => if dev_attached d then Some d else attached_device ds n
                 | None => attached_device ds n
                 end);
            match usable_mode d with Some r => Some r | None => monitor_by_name ms (dev_name d) end).
Proof.
  intros Hi n. unfold get_monitor_rect_by_index, get_monitor_rect_by_device_index.
  destruct (Z.ltb_spec index 0); [lia|]. cbv zeta.
  rewrite monitor_by_index_spec, device_by_index_spec by lia. rewrite Z.sub_0_r. fold n. split.
  - destruct (monitor_rect ms n); [done|]. destruct (attached_device ds n) as [d|]; [|done].
    cbn. by destruct (usable_mode d).
  - destruct (ds !! n) as [d|]; [destruct (dev_attached d)|]; [| |];
      try (destruct (attached_device ds n) as [d'|]; [|done]); cbn;
      match goal with |- context [usable_mode ?x] => destruct (usable_mode x); [done|] end;
      by destruct (monitor_by_name _ _).
Qed.

Lemma monitor_rects_witness :
  let ms := [Some (W "\\.\DISPLAY1", mkRect 0 0 1920 1080); Some (W "\\.\DISPLAY3", mkRect 1920 0 3840 1080)] in
  let ds := [mkDevice true (W "\\.\DISPLAY1") (Some (mkDevMode 0 0 1920 1080));
             mkDevice false (W "\\.\DISPLAY2") None;
             mkDevice true (W "\\.\DISPLAY3") (Some (mkDevMode 1920 0 1920 1080))] in
  get_monitor_rect_by_index ms ds 1 = (0, Some (mkRect 1920 0 3840 1080)) ∧
  get_monitor_rect_by_device_index ms ds 2 = (0, Some (mkRect 1920 0 3840 1080)).
Proof.
  intros ms ds. split.
  - destruct (monitor_rects ms ds 1 ltac:(lia)) as [-> _]. vm_compute. reflexivity.
  - destruct (monitor_rects ms ds 2 ltac:(lia)) as [_ ->]. vm_compute. reflexivity.
Defined.

(** ** Lemmas: sizes *)
Definition sane (w h : Z) : Prop := 0 < w ∧ 0 < h ∧ 32 * w + 31 < 2 ^ 31 ∧ 4 * w * h + header_size < 2 ^ 31.

Lemma sane_sizes w h :
  sane w h → row_stride w = 4 * w ∧ pixel_data_size w h = 4 * w * h ∧ total_bmp_size w h = header_size + 4 * w * h.
Proof.
  intros (Hw & Hh & H1 & H2). unfold total_bmp_size, pixel_data_size.
  assert (Er : row_stride w = 4 * w).
  { unfold row_stride. rewrite (i32_small (w * 32)) by lia. rewrite (i32_small (w * 32 + 31)) by lia.
    assert (Z.quot (w * 32 + 31) 32 = w) as ->.
    { rewrite Z.quot_div_nonneg by lia. rewrite Z.div_add_l by lia.
      change (31 / 32) with 0. lia. }
    rewrite i32_small by nia. lia. }
  rewrite Er. unfold header_size in *. assert (0 <= 4 * w * h) by nia.
  rewrite (i32_small (4 * w * h)) by lia. rewrite i32_small by lia. done.
Qed.

(** One side's quotient against the scale that was chosen: not above the quotient by
    more than the rounding, and within it if it is the one. *)
Lemma scale_side w a mA kA m k : 0 < w < 2 ^ 31 → 0 < a < 2 ^ 31 → 2 ^ 52 <= mA → 0 <= kA → 0 <= k →
  2 * Z.abs (mA * w - a * 2 ^ kA) <= w → m * 2 ^ kA <= mA * 2 ^ k →
  2 ^ 20 * (w * m - a * 2 ^ k) <= 2 ^ k ∧ (m = mA → k = kA → 2 ^ 20 * (a * 2 ^ k - w * m) <= 2 ^ k).
Proof.
  intros Hw Ha HmA HkA Hk Herr Hle. pose proof (Z.pow_pos_nonneg 2 kA ltac:(lia) HkA) as HK. pose proof (Z.pow_pos_nonneg 2 k ltac:(lia) Hk) as Hk0.
  assert (mA * w <= a * 2 ^ kA + w) as HmAw by lia. assert (w * 2 ^ 20 <= 2 ^ kA) as Hsmall by nia.
  split; [|intros -> ->; lia].
  generalize dependent (2 ^ kA). intros K. intros. apply (Z.mul_le_mono_pos_r _ _ K); [done|]. generalize dependent (2 ^ k). intros P. intros.
  pose proof (Z.mul_le_mono_nonneg_l _ _ w ltac:(lia) Hle). pose proof (Z.mul_le_mono_nonneg_r _ _ P ltac:(lia) HmAw).
  pose proof (Z.mul_le_mono_nonneg_r _ _ P ltac:(lia) Hsmall). lia.
Qed.

Lemma scale_below w a m P : 0 <= a < w → 0 < P → 2 ^ 20 * (w * m - a * P) <= P → m <= P.
Proof.
  intros Ha HP Hle. destruct (Z.le_gt_cases m P); [done|]. pose proof (Z.mul_le_mono_nonneg_l P m w ltac:(lia) ltac:(lia)).
  pose proof (Z.mul_le_mono_nonneg_r (a + 1) w P ltac:(lia) ltac:(lia)). lia.
Qed.

(** A scaled side: at most the bound and the source, and a pixel below the exact value
    at most. *)
Lemma scale_size w a x m k : 0 < w < 2 ^ 31 → 0 < a < 2 ^ 31 → fraction x m k → 1 <= k → m <= 2 ^ k →
  2 ^ 20 * (w * m - a * 2 ^ k) <= 2 ^ k →
  let t0 := to_int (dmul (of_int w) x) in let t := if t0 <? 1 then 1 else t0 in
  1 <= t <= w ∧ t <= a ∧ 2 ^ 20 * Z.abs (t * 2 ^ k - w * m) <= (2 ^ 20 + 1) * 2 ^ k ∧
  (2 ^ 20 * (a * 2 ^ k - w * m) <= 2 ^ k → a - 1 <= t).
Proof.
  intros Hw Ha Hx Hk Hm Hle t0. pose proof (Z.pow_pos_nonneg 2 k ltac:(lia) ltac:(lia)) as Hk0.
  pose proof Hx as (Hm0 & _ & _).
  destruct (scale_bounds w x m k Hw Hx Hk) as (Ht & Hup & Hlow); [nia|]. fold t0 in Ht, Hup, Hlow.
  assert (w * m <= w * 2 ^ k) as Hwm by nia. generalize dependent (2 ^ k). intros K. intros.
  assert (t0 <= w) by nia. assert (t0 <= a) by nia.
  assert (2 ^ 20 * (a * K - w * m) <= K → a - 1 <= t0) by nia.
  destruct (Z.ltb_spec t0 1); cbn zeta; (split; [lia|]; split; [lia|]; split; [nia|lia]).
Qed.

Lemma ratio_kept w h t u m P : 0 < w → 0 < h → 0 < P →
  2 ^ 20 * Z.abs (t * P - w * m) <= (2 ^ 20 + 1) * P → 2 ^ 20 * Z.abs (u * P - h * m) <= (2 ^ 20 + 1) * P →
  2 ^ 20 * Z.abs (t * h - u * w) <= (2 ^ 20 + 1) * (w + h).
Proof.
  intros Hw Hh HP Ht Hu. apply (Z.mul_le_mono_pos_r _ _ P); [done|].
  assert (Z.abs (t * h - u * w) * P <= h * Z.abs (t * P - w * m) + w * Z.abs (u * P - h * m)) as Htri.
  { rewrite <- (Z.abs_eq P) at 1 by lia. rewrite <- (Z.abs_eq h) at 2 by lia. rewrite <- (Z.abs_eq w) at 3 by lia.
    rewrite <- !Z.abs_mul. replace ((t * h - u * w) * P) with (h * (t * P - w * m) + - (w * (u * P - h * m))) by lia.
    etrans; [apply Z.abs_triangle|]. rewrite Z.abs_opp. lia. }
  pose proof (Z.mul_le_mono_nonneg_l _ _ h ltac:(lia) Ht). pose proof (Z.mul_le_mono_nonneg_l _ _ w ltac:(lia) Hu). lia.
Qed.

(** The size of the picture: inside the source and inside the box, if there is one;
    one side fills the box up to a pixel; the proportions are kept up to a pixel. *)
Lemma target_size_spec w h max_w max_h : 0 < w < 2 ^ 31 → 0 < h < 2 ^ 31 → max_w < 2 ^ 31 → max_h < 2 ^ 31 →
  let '(tw, th) := target_size w h max_w max_h in
  1 <= tw <= w ∧ 1 <= th <= h ∧
  2 ^ 20 * Z.abs (tw * h - th * w) <= (2 ^ 20 + 1) * (w + h) ∧
  (0 < max_w → 0 < max_h → tw <= max_w ∧ th <= max_h ∧ ((tw, th) = (w, h) ∨ max_w - 1 <= tw ∨ max_h - 1 <= th)).
Proof.
  intros Hw Hh Hmw Hmh. unfold target_size.
  destruct ((0 <? max_w) && (0 <? max_h) && ((max_w <? w) || (max_h <? h))) eqn:E; cycle 1.
  { split; [lia|]. split; [lia|]. split; [replace (w * h - h * w) with 0 by lia; lia|]. intros. split; [lia|]. split; [lia|by left]. }
  destruct (ddiv_near max_w w) as (mA & kA & HfA & HeA & HkA); [lia..|]. destruct (ddiv_near max_h h) as (mB & kB & HfB & HeB & HkB); [lia..|].
  destruct (dmin_spec _ _ _ _ _ _ HfA HfB) as (m & k & Hf & Hor & HA & HB); [lia..|]. cbv zeta.
  assert (1 <= k) as Hk by lia. pose proof (Z.pow_pos_nonneg 2 k ltac:(lia) ltac:(lia)) as Hk0.
  destruct (scale_side w max_w mA kA m k) as [HA1 HA2]; [lia|lia|by destruct HfA as [? _]; lia|lia..|].
  destruct (scale_side h max_h mB kB m k) as [HB1 HB2]; [lia|lia|by destruct HfB as [? _]; lia|lia..|].
  assert (m <= 2 ^ k) as Hm.
  { assert (max_w < w ∨ max_h < h) as [?|?] by lia; [apply (scale_below w max_w)|apply (scale_below h max_h)]; lia. }
  destruct (scale_size w max_w _ m k Hw ltac:(lia) Hf Hk Hm HA1) as (Hw1 & Hw2 & Hw3 & Hw4).
  destruct (scale_size h max_h _ m k Hh ltac:(lia) Hf Hk Hm HB1) as (Hh1 & Hh2 & Hh3 & Hh4).
  set (tw := if _ <? 1 then 1 else _) in *. set (th := if _ <? 1 then 1 else _) in Hh1, Hh2, Hh3, Hh4 |- *. clearbody tw th.
  split; [done|]. split; [done|]. split; [by apply (ratio_kept w h tw th m (2 ^ k)); lia|]. intros _ _. split; [done|]. split; [done|]. right.
  destruct Hor as [[Em Ek] | [Em Ek]]; [left|right]; auto.
Qed.

Lemma bmp_header_length w h : length (bmp_header w h) = Z.to_nat header_size.
Proof. done. Qed.

(** The dimensions of a picture of a source of that size... *)
Definition shot_sized (w h max_w max_h : Z) (s : Shot) : Prop :=
  1 <= out_w s <= w ∧ 1 <= out_h s <= h ∧ (0 < max_w → 0 < max_h → out_w s <= max_w ∧ out_h s <= max_h).

(** ... and its bytes in the caller's buffer. *)
Definition shot_fits (buf_size : Z) (s : Shot) : Prop :=
  Z.of_nat (length (out_data s)) = out_len s ∧ 0 < out_len s <= buf_size.


(** A picture of 23171 by 23171 points: the size of its BMP wraps to a negative number,
    passes the check against the buffer's 100 bytes and is announced as the length. *)
Definition huge_capture : CaptureEnv :=
  mkCaptureEnv true (0, 0) true true true true [] true true true (λ n, if n <? 0 then [] else replicate (Z.to_nat n) 9) None.

Theorem captured_past_int :
  total_bmp_size 23171 23171 = -2147386278 ∧
  capture_desktop_rect_bmp huge_capture false 0 0 23171 23171 0 0 100 =
    (0, Some (mkShot (bmp_header 23171 23171) (-2147386278) 23171 23171)).
Proof. split; vm_compute; reflexivity. Qed.

(** ** Lemmas: rows *)
Lemma concat_row (rows : list str) n k row :
  Forall (λ r, length r = n) rows → rows !! k = Some row →
  take n (drop (k * n) (mjoin rows)) = row.
Proof.
  revert k. induction rows as [|r rows IH]; intros k Hl Hk; [done|].
  apply Forall_cons in Hl as [Hr Hl]. change (mjoin (r :: rows)) with (r ++ mjoin rows).
  destruct k as [|k].
  - injection Hk as ->. rewrite Nat.mul_0_l, drop_0. by rewrite take_app_length'.
  - replace (S k * n)%nat with (length r + k * n)%nat by lia.
    rewrite <- drop_drop, drop_app_length. by apply IH.
Qed.

Lemma seq_rows (rows : list str) n (f : nat → str) :
  Forall (λ r, length r = n) rows →
  (∀ k, (k < length rows)%nat → f k = take n (drop (k * n) (mjoin rows))) →
  f <$> seq 0 (length rows) = rows.
Proof.
  intros Hl Hf. apply list_eq. intros k. rewrite list_lookup_fmap.
  destruct (decide (k < length rows)%nat) as [Hk|Hk].
  - rewrite lookup_seq_lt by done. cbn. rewrite Hf by done.
    destruct (lookup_lt_is_Some_2 rows k Hk) as [row E]. rewrite E. f_equal. by apply concat_row.
  - rewrite lookup_seq_ge by lia. symmetry. apply lookup_ge_None. lia.
Qed.

Lemma le_at_header (a z : Z) l b r :
  0 <= z < 4294967296 → length l = Z.to_nat a → b = l ++ le32 z ++ r → le_at 4 (Z.to_nat a) b = z.
Proof.
  intros Hz Hl ->. unfold le_at. rewrite drop_app_length' by done.
  change (take 4 (le32 z ++ r)) with (le32 z). by apply le_value_le32.
Qed.

(** The BMP of the fallback announces a positive height, which means that the
    bottom row comes first, but holds the captured rows from the top: whoever reads
    it gets the picture upside down. *)
Theorem bmp_upside_down w h (rows : list str) :
  sane w h → Z.of_nat (length rows) = h → Forall (λ r, length r = Z.to_nat (4 * w)) rows →
  read_bmp (bmp_header w h ++ mjoin rows) = Some (reverse rows).
Proof.
  intros Hs Hh Hrows. pose proof (sane_sizes _ _ Hs) as (_ & _ & Et). destruct Hs as (Hw & Hh0 & H1 & H2).
  unfold header_size in *. set (b := bmp_header w h ++ mjoin rows).
  assert (Eu : u32 w = w ∧ u32 h = h).
  { unfold u32. rewrite !Z.mod_small by nia. done. }
  destruct Eu as [Ew Eh].
  assert (E10 : le_at 4 10 b = 54) by (apply (le_at_header 10 54 (take 10 b) b (drop 14 b)); [lia|done|done]).
  assert (E18 : le_at 4 18 b = w).
  { apply (le_at_header 18 w (take 18 b) b (drop 22 b)); [nia|done|]. rewrite <- Ew at 1. done. }
  assert (E22 : le_at 4 22 b = h).
  { apply (le_at_header 22 h (take 22 b) b (drop 26 b)); [nia|done|]. rewrite <- Eh at 1. done. }
  unfold read_bmp. rewrite E10, E18, E22.
  rewrite !(i32_small w), !(i32_small h) by nia.
  rewrite (bool_decide_eq_true_2 (le_at 2 0 b = _)) by done.
  change (le_at 2 28 b) with 32. change (le_at 4 30 b) with 0. rewrite !Z.eqb_refl. cbn [andb].
  destruct (Z.ltb_spec 0 w); [|lia]. destruct (Z.ltb_spec 0 h); [|lia].
  f_equal. f_equal. rewrite Z.abs_eq, <- Hh, Nat2Z.id by lia.
  apply (seq_rows _ (Z.to_nat (4 * w))); [done|]. intros k _. f_equal.
Qed.

Lemma bmp_upside_down_witness :
  read_bmp (bmp_header 1 2 ++ mjoin [[1; 2; 3; 0]; [4; 5; 6; 0]]) = Some [[4; 5; 6; 0]; [1; 2; 3; 0]].
Proof. apply (bmp_upside_down 1 2 [[1; 2; 3; 0]; [4; 5; 6; 0]]); [done|done|by repeat constructor]. Defined.

(** A 4 by 2 screen shown in at most 2 by 2 points. *)
Definition demo_capture : CaptureEnv :=
  mkCaptureEnv true (4, 2) true true true true [] true true true (λ n, replicate (Z.to_nat n) 9) None.

