(* ===== verification/CaptureThread.v ===== *)
(** * The thread of a screen capture

    [windows/runner/input_block.cpp], [ligament_capture_desktop_rect_bmp]: the calls
    that the capture thread makes, in their order, with everything it acquires and
    gives back: the apartment, the window station, the desktop, device contexts, bitmaps, the stream
    of the JPEG encoder and the lock on its memory. [Capture] has what the call
    answers; here is that the thread answers the same, and how it leaves Windows. *)
From S2P Require Import Prelude Capture InputQueue.

(** ** The calls *)

(** What the thread holds; each kind but the desktop at most once at a time. *)
Inductive Handle :=
| Apartment | WinStation | Desktop (h : nat) | ScreenDC | MemDC | Dib | SrcDC | SrcDib | MonDC | Stream | GdiplusBitmap | Locked.

Inductive Call :=
| Acquire (h : Handle) | Release (h : Handle)
| SetProcessWindowStation
| SetThreadDesktop (h : nat)           (* that succeeds *)
| Select (dc bitmap : Handle) | SelectOld (dc : Handle)
| Draw (dst src : Handle)
| ReadPixels.                          (* the target's memory is read *)

(** What Windows answers. *)
Record ThreadEnv := mkThreadEnv {
  te_com : bool;                       (* CoInitializeEx *)
  te_station1 : bool; te_station2 : bool;   (* OpenWindowStationW, should it be asked once or twice *)
  te_desk : DeskEnv;
  te_dc : bool; te_metrics : Z * Z;
  te_mem_dc : bool; te_dib : bool; te_dib_bits : bool;
  te_blt1 : bool; te_blt2 : bool; te_devices : list BltDevice;
  te_src_dc : bool; te_src_dib : bool; te_src_bits : bool; te_stretch : bool;
  te_bits : Z → str;
  te_stream : bool;                    (* CreateStreamOnHGlobal *)
  te_encoders_size : Z; te_encoders : list (wstr * Z);   (* GetImageEncoders: MIME type, CLSID *)
  te_save : bool; te_hglobal : bool;   (* Save, GetHGlobalFromStream *)
  te_lock : bool; te_block : str;      (* GlobalLock; the block of memory, as long as GlobalSize says *)
}.

(** The index of the encoder and its CLSID; -1 when there is none. *)
Fixpoint encoder_from (codecs : list (wstr * Z)) (format : wstr) (j : Z) : Z * option Z :=
  match codecs with
  | [] => (-1, None)
  | (mime, clsid) :: codecs =>
    if bool_decide (c_str mime = c_str format) then (j, Some clsid) else encoder_from codecs format (j + 1)
  end.
Definition GetEncoderClsid (env : ThreadEnv) (format : wstr) : Z * option Z :=
  if te_encoders_size env =? 0 then (-1, None) else encoder_from (te_encoders env) format 0.

(** The search for the display at the source position. *)
Fixpoint device_calls (dst : Handle) (ds : list BltDevice) (x y : Z) : list Call * bool :=
  match ds with
  | [] => ([], false)
  | d :: ds =>
    if negb (dev_attached (bd_device d)) then device_calls dst ds x y else
    match dev_mode (bd_device d) with
    | Some m =>
      if (dm_x m =? x) && (dm_y m =? y) then
        if bd_dc d then
          ([Acquire MonDC; Draw dst MonDC] ++ (if bd_blt1 d then [] else [Draw dst MonDC]) ++ [Release MonDC],
           bd_blt1 d || bd_blt2 d)
        else ([], false)
      else device_calls dst ds x y
    | None => device_calls dst ds x y
    end
  end.

Definition one_to_one (env : ThreadEnv) (dst : Handle) (x y : Z) : list Call * bool :=
  if te_blt1 env then ([Draw dst ScreenDC], true) else
  if te_blt2 env then ([Draw dst ScreenDC; Draw dst ScreenDC], true) else
  let '(calls, ok) := device_calls dst (te_devices env) x y in
  ([Draw dst ScreenDC; Draw dst ScreenDC] ++ calls, ok).

(** The picture on [hMemDC]: directly, or through a bitmap of the source's size. *)
Definition draw_calls (env : ThreadEnv) (same_size : bool) (x y : Z) : list Call * bool :=
  if same_size then one_to_one env MemDC x y else
  if negb (te_src_dc env) then ([], false) else
  if negb (te_src_dib env) then ([Acquire SrcDC; Release SrcDC], false) else
  if negb (te_src_bits env) then ([Acquire SrcDC; Acquire SrcDib; Release SrcDib; Release SrcDC], false) else
  let '(calls, ok) := one_to_one env SrcDC x y in
  ([Acquire SrcDC; Acquire SrcDib; Select SrcDC SrcDib] ++ calls ++
   (if ok then [Draw MemDC SrcDC] else []) ++ [SelectOld SrcDC; Release SrcDib; Release SrcDC],
   ok && te_stretch env).

(** The JPEG, when every step works and it fits. *)
Definition jpeg_calls (env : ThreadEnv) (buf_size : Z) : list Call * option str :=
  if negb (te_stream env) then ([], None) else
  let '(calls, jpeg) :=
    if (GetEncoderClsid env (W "image/jpeg")).1 =? -1 then ([], None) else
    let '(calls, jpeg) :=
      if te_save env && te_hglobal env then
        if te_lock env then
          ([Acquire Locked; Release Locked],
           if (0 <? Z.of_nat (length (te_block env))) && (Z.of_nat (length (te_block env)) <=? buf_size)
           then Some (te_block env) else None)
        else ([], None)
      else ([], None) in
    ([Acquire GdiplusBitmap; ReadPixels] ++ calls ++ [Release GdiplusBitmap], jpeg) in
  ([Acquire Stream] ++ calls ++ [Release Stream], jpeg).

(** The body of the thread after the desktop; [tail] gives the desktop back. *)
Definition capture_body (env : ThreadEnv) (tail : list Call) (src_x src_y src_w src_h max_w max_h buf_size : Z)
    : list Call * (Z * option Shot) :=
  if negb (te_dc env) then (tail, (-2, None)) else
  let '(x, y, w, h) :=
    if (src_w <=? 0) || (src_h <=? 0) then (0, 0, (te_metrics env).1, (te_metrics env).2)
    else (src_x, src_y, src_w, src_h) in
  let screen calls result := (Acquire ScreenDC :: calls ++ Release ScreenDC :: tail, result) in
  if (w <=? 0) || (h <=? 0) then screen [] (-3, None) else
  let '(tw, th) := target_size w h max_w max_h in
  if buf_size <? total_bmp_size tw th then screen [] (-4, None) else
  if negb (te_mem_dc env) then screen [] (-5, None) else
  let mem calls result := screen (Acquire MemDC :: calls ++ [Release MemDC]) result in
  if negb (te_dib env) then mem [] (-6, None) else
  if negb (te_dib_bits env) then mem [Acquire Dib; Release Dib] (-6, None) else
  let dib calls result := mem ([Acquire Dib; Select MemDC Dib] ++ calls ++ [SelectOld MemDC; Release Dib]) result in
  let '(draw, bltOk) := draw_calls env ((tw =? w) && (th =? h)) x y in
  if negb bltOk then dib draw (-7, None) else
  let '(encode, jpeg) := jpeg_calls env buf_size in
  match jpeg with
  | Some jpeg => dib (draw ++ encode) (0, Some (mkShot jpeg (Z.of_nat (length jpeg)) tw th))
  | None => dib (draw ++ encode ++ [ReadPixels])
      (0, Some (mkShot (bmp_header tw th ++ te_bits env (pixel_data_size tw th)) (total_bmp_size tw th) tw th))
  end.

(** [EnsureProcessWindowStation], with [g_winsta0] and what [OpenWindowStationW] answers. *)
Definition EnsureProcessWindowStation (g_winsta0 opens : bool) : list Call * bool :=
  if g_winsta0 then ([], true) else
  if opens then ([Acquire WinStation; SetProcessWindowStation], true) else ([], false).

(** The thread, given the desktop that [FindActiveInputDesktop] finds; the search
    asks for the window station once more before it looks. The destructor of
    [com_init] calls [CoUninitialize] whatever [CoInitializeEx] has answered. *)
Definition capture_thread (env : ThreadEnv) (g_winsta0 : bool) (desk : option nat)
    (src_x src_y src_w src_h max_w max_h buf_size : Z) : list Call * (Z * option Shot) :=
  let com_init := if te_com env then [Acquire Apartment] else [] in
  let '(station1, g_winsta0) := EnsureProcessWindowStation g_winsta0 (te_station1 env) in
  let '(station2, g_winsta0) := EnsureProcessWindowStation g_winsta0 (te_station2 env) in
  let enter := match desk with
               | Some h => Acquire (Desktop h) :: if de_set (te_desk env) h then [SetThreadDesktop h] else []
               | None => [] end in
  let leave := match desk with Some h => [Release (Desktop h)] | None => [] end in
  let '(calls, result) := capture_body env leave src_x src_y src_w src_h max_w max_h buf_size in
  ((com_init ++ station1 ++ station2 ++ enter) ++ calls ++ [Release Apartment], result).

(** The exported function; [busy]: another capture holds the mutex. *)
Definition ligament_capture_desktop_rect_bmp (env : ThreadEnv) (g_winsta0 : bool) (desk : option nat) (busy : bool)
    (src_x src_y src_w src_h max_w max_h buf_size : Z) : list Call * (Z * option Shot) :=
  if buf_size <=? header_size then ([], (-1, None)) else
  if busy then ([], (-98, None)) else
  capture_thread env g_winsta0 desk src_x src_y src_w src_h max_w max_h buf_size.

(** ** What Windows asks of the caller *)
Record Ledger := mkLedger { live : list Handle; selected : list (Handle * Handle); attached : option nat }.

Definition same (a b : Handle) : bool :=
  match a, b with
  | Apartment, Apartment | WinStation, WinStation | ScreenDC, ScreenDC | MemDC, MemDC | Dib, Dib | SrcDC, SrcDC | SrcDib, SrcDib
  | MonDC, MonDC | Stream, Stream | GdiplusBitmap, GdiplusBitmap | Locked, Locked => true
  | Desktop a, Desktop b => (a =? b)%nat
  | _, _ => false
  end.
Definition has (l : list Handle) (h : Handle) : bool := existsb (same h) l.
Definition without (h : Handle) (l : list Handle) : list Handle := List.filter (λ x, negb (same h x)) l.
Definition in_use (s : list (Handle * Handle)) (h : Handle) : bool := existsb (λ p, same h p.1 || same h p.2) s.

(** One call on the thread's books; [None] is a misuse: a handle taken twice, given
    back twice or used when it is not held, a bitmap deleted or a device context
    given back while a bitmap is selected, a drawing onto nothing. [CloseDesktop]
    fails, as documented, for the desktop of a thread of the process. *)
Definition call_step (l : Ledger) (c : Call) : option Ledger :=
  match c with
  | Acquire h => if has (live l) h then None else Some (mkLedger (h :: live l) (selected l) (attached l))
  | Release h =>
    if negb (has (live l) h) || in_use (selected l) h then None else
    match h, attached l with
    | Desktop d, Some a => if (d =? a)%nat then Some l else Some (mkLedger (without h (live l)) (selected l) (attached l))
    | _, _ => Some (mkLedger (without h (live l)) (selected l) (attached l))
    end
  | SetProcessWindowStation => if has (live l) WinStation then Some l else None
  | SetThreadDesktop d => if has (live l) (Desktop d) then Some (mkLedger (live l) (selected l) (Some d)) else None
  | Select dc b =>
    if has (live l) dc && has (live l) b && negb (in_use (selected l) dc) && negb (in_use (selected l) b)
    then Some (mkLedger (live l) ((dc, b) :: selected l) (attached l)) else None
  | SelectOld dc =>
    if has (live l) dc && in_use (selected l) dc
    then Some (mkLedger (live l) (List.filter (λ p, negb (same dc p.1)) (selected l)) (attached l)) else None
  | Draw dst src => if has (live l) dst && has (live l) src && in_use (selected l) dst then Some l else None
  | ReadPixels => if has (live l) Dib then Some l else None
  end.
Fixpoint books (l : Ledger) (calls : list Call) : option Ledger :=
  match calls with [] => Some l | c :: calls => l ← call_step l c; books l calls end.

(** The answers as [Capture] groups them. *)
Definition capture_env (env : ThreadEnv) : CaptureEnv :=
  mkCaptureEnv (te_dc env) (te_metrics env) (te_mem_dc env) (te_dib env && te_dib_bits env)
    (te_blt1 env) (te_blt2 env) (te_devices env) (te_src_dc env) (te_src_dib env && te_src_bits env) (te_stretch env)
    (te_bits env)
    (if te_stream env && negb ((GetEncoderClsid env (W "image/jpeg")).1 =? -1) && te_save env && te_hglobal env && te_lock env
     then Some (te_block env) else None).

Lemma books_app l c1 c2 : books l (c1 ++ c2) = books l c1 ≫= λ l, books l c2.
Proof. revert l. induction c1 as [|c c1 IH]; intros l; [done|]. cbn. destruct (call_step l c); cbn; [apply IH|done]. Qed.

(** ** The parts keep the books *)

(** Calls that leave the ledger as it was. *)
Definition neutral (l : Ledger) (calls : list Call) : Prop := books l calls = Some l.

Lemma neutral_app l c1 c2 : neutral l c1 → neutral l c2 → neutral l (c1 ++ c2).
Proof. intros H1 H2. unfold neutral. by rewrite books_app, H1. Qed.

Lemma same_refl h : same h h = true.
Proof. destruct h; try done. apply Nat.eqb_refl. Qed.
Lemma without_fresh h l : has l h = false → without h l = l.
Proof.
  unfold has, without. induction l as [|x l IH]; intros H; [done|]. cbn in *. apply orb_false_iff in H as [-> H].
  cbn. by rewrite IH.
Qed.

(** Taking something that is not held, and giving it back. *)
Lemma borrow l h calls :
  has (live l) h = false → in_use (selected l) h = false → (∀ d, h ≠ Desktop d) →
  neutral (mkLedger (h :: live l) (selected l) (attached l)) calls → neutral l (Acquire h :: calls ++ [Release h]).
Proof.
  intros Hl Hs Hd Hc. unfold neutral. cbn [books call_step]. rewrite Hl. cbn [mbind option_bind]. rewrite books_app, Hc.
  cbn [mbind option_bind books call_step live selected attached]. unfold has at 1. cbn [existsb]. rewrite same_refl, Hs. cbn [orb negb].
  assert (without h (h :: live l) = live l) as E.
  { unfold without. cbn [List.filter]. rewrite same_refl. cbn [negb]. by apply without_fresh. }
  rewrite E. destruct l as [a b [c|]], h; cbn; try done. by destruct (Hd h).
Qed.

Definition drawable (l : Ledger) (dst : Handle) : Prop :=
  has (live l) dst = true ∧ in_use (selected l) dst = true ∧ has (live l) ScreenDC = true ∧
  has (live l) MonDC = false ∧ in_use (selected l) MonDC = false.

Lemma draw_neutral l dst src : has (live l) dst = true → has (live l) src = true → in_use (selected l) dst = true →
  neutral l [Draw dst src].
Proof. intros H1 H2 H3. unfold neutral. cbn. by rewrite H1, H2, H3. Qed.

Lemma device_calls_spec l dst ds x y : drawable l dst →
  neutral l (device_calls dst ds x y).1 ∧ (device_calls dst ds x y).2 = blt_from_device ds x y.
Proof.
  intros (H1 & H2 & H3 & H4 & H5). induction ds as [|d ds IH]; [done|]. cbn [device_calls blt_from_device].
  destruct (negb _); [done|]. destruct (dev_mode (bd_device d)) as [m|]; [|done].
  destruct (_ && _); [|done]. destruct (bd_dc d); [|done]. cbn [fst snd andb]. split; [|done].
  assert (Hd : neutral (mkLedger (MonDC :: live l) (selected l) (attached l)) [Draw dst MonDC]).
  { apply draw_neutral; cbn [live selected has existsb]; [|done|done]. change (existsb (same dst) (live l)) with (has (live l) dst).
    by rewrite H1, orb_true_r. }
  change ([Acquire MonDC; Draw dst MonDC] ++ (if bd_blt1 d then [] else [Draw dst MonDC]) ++ [Release MonDC])
    with (Acquire MonDC :: ([Draw dst MonDC] ++ (if bd_blt1 d then [] else [Draw dst MonDC]) ++ [Release MonDC])).
  rewrite app_assoc. apply borrow; [done..|]. apply neutral_app; [done|]. by destruct (bd_blt1 d).
Qed.

Lemma one_to_one_spec env l dst x y : drawable l dst →
  neutral l (one_to_one env dst x y).1 ∧ (one_to_one env dst x y).2 = captureOneToOne (capture_env env) x y.
Proof.
  intros H. pose proof H as (H1 & H2 & H3 & _). pose proof (draw_neutral l dst ScreenDC H1 H3 H2) as Hd.
  unfold one_to_one, captureOneToOne. cbn [ce_blt1 ce_blt2 ce_devices capture_env].
  destruct (te_blt1 env); [done|]. destruct (te_blt2 env); [split; [by apply (neutral_app l [_] [_])|done]|].
  destruct (device_calls_spec l dst (te_devices env) x y H) as [Hn E]. destruct (device_calls _ _ _ _) as [calls ok].
  cbn [fst snd orb] in *. split; [|done]. apply neutral_app; [by apply (neutral_app l [_] [_])|done].
Qed.

(** The ledger while the target is being drawn. *)
Definition drawing (base : Ledger) : Ledger :=
  mkLedger (Dib :: MemDC :: ScreenDC :: live base) [(MemDC, Dib)] (attached base).

(** Before the device contexts: at most the apartment, the window station and a desktop. *)
Definition entered (base : Ledger) : Prop :=
  selected base = [] ∧ ∀ h, h ∈ [ScreenDC; MemDC; Dib; SrcDC; SrcDib; MonDC; Stream; GdiplusBitmap; Locked] → has (live base) h = false.

Lemma entered_not base h : entered base → h ∈ [ScreenDC; MemDC; Dib; SrcDC; SrcDib; MonDC; Stream; GdiplusBitmap; Locked] →
  existsb (same h) (live base) = false.
Proof. intros [_ H]. apply H. Qed.

Ltac not_held := repeat match goal with
  | H : entered ?b |- context [existsb (same ?h) (live ?b)] =>
    rewrite (entered_not b h H) by (solve [repeat first [left; reflexivity | right]])
  end.

Lemma drawing_drawable base : entered base → drawable (drawing base) MemDC.
Proof. intros H. unfold drawable, drawing, has. cbn. by not_held. Qed.

Lemma draw_calls_spec env base same_size x y : entered base →
  neutral (drawing base) (draw_calls env same_size x y).1 ∧
  (draw_calls env same_size x y).2 =
    if same_size then captureOneToOne (capture_env env) x y
    else te_src_dc env && (te_src_dib env && te_src_bits env) && captureOneToOne (capture_env env) x y && te_stretch env.
Proof.
  intros H. unfold draw_calls. destruct same_size; [by apply one_to_one_spec, drawing_drawable|].
  destruct (te_src_dc env); [|done]. destruct (te_src_dib env); cbn [negb andb fst snd].
  2: { split; [|done]. apply (borrow (drawing base) SrcDC []); unfold drawing, has; cbn; by not_held. }
  destruct (te_src_bits env); cbn [negb andb fst snd].
  2: { split; [|done]. apply (borrow (drawing base) SrcDC [Acquire SrcDib; Release SrcDib]);
       [unfold drawing, has; cbn; by not_held|done|done|].
       apply (borrow _ SrcDib []); unfold drawing, has; cbn; by not_held. }
  set (l := mkLedger (SrcDib :: SrcDC :: live (drawing base)) [(SrcDC, SrcDib); (MemDC, Dib)] (attached base)).
  destruct (one_to_one_spec env l SrcDC x y) as [Hn Eok]; [unfold drawable, l, drawing, has; cbn; by not_held|].
  revert Hn Eok. destruct (one_to_one env SrcDC x y) as [calls ok]. cbn [fst snd]. intros Hn <-.
  cut (∀ ok' : bool, neutral (drawing base) ([Acquire SrcDC; Acquire SrcDib; Select SrcDC SrcDib] ++ calls ++
      (if ok' then [Draw MemDC SrcDC] else []) ++ [SelectOld SrcDC; Release SrcDib; Release SrcDC])).
  { intros Hc. split; [apply Hc|done]. }
  intros ok'. unfold neutral. rewrite books_app.
  assert (books (drawing base) [Acquire SrcDC; Acquire SrcDib; Select SrcDC SrcDib] = Some l) as ->.
  { unfold drawing, has. cbn. unfold has. cbn. not_held. cbn. unfold has. cbn. not_held. done. }
  cbn [mbind option_bind]. rewrite books_app, Hn. cbn [mbind option_bind]. rewrite books_app.
  assert (books l (if ok' then [Draw MemDC SrcDC] else []) = Some l) as -> by (by destruct ok').
  cbn [mbind option_bind]. unfold l, drawing. cbn. unfold without. cbn. do 2 f_equal.
  f_equal. rewrite <- (without_fresh SrcDC (live base)) at 2 by (apply H; repeat first [left; reflexivity | right]).
  rewrite <- (without_fresh SrcDib (live base)) at 2 by (apply H; repeat first [left; reflexivity | right]). done.
Qed.

Lemma jpeg_calls_spec env base buf_size : entered base →
  neutral (drawing base) (jpeg_calls env buf_size).1 ∧
  (jpeg_calls env buf_size).2 =
    match ce_jpeg (capture_env env) with
    | Some jpeg => if (0 <? Z.of_nat (length jpeg)) && (Z.of_nat (length jpeg) <=? buf_size) then Some jpeg else None
    | None => None
    end.
Proof.
  intros H. unfold jpeg_calls, capture_env. cbn [ce_jpeg]. destruct (te_stream env); [|done]. cbn [negb andb].
  assert (Hs : ∀ calls, neutral (mkLedger (Stream :: live (drawing base)) [(MemDC, Dib)] (attached base)) calls →
    neutral (drawing base) ([Acquire Stream] ++ calls ++ [Release Stream])).
  { intros calls Hc. apply (borrow (drawing base) Stream calls); [unfold drawing, has; cbn; by not_held|done|done|done]. }
  destruct (_ =? -1); cbn [negb andb]; [split; [by apply (Hs [])|done]|].
  assert (Hg : ∀ calls, neutral (mkLedger (GdiplusBitmap :: Stream :: live (drawing base)) [(MemDC, Dib)] (attached base)) calls →
    neutral (drawing base) ([Acquire Stream] ++ ([Acquire GdiplusBitmap; ReadPixels] ++ calls ++ [Release GdiplusBitmap]) ++ [Release Stream])).
  { intros calls Hc. apply Hs.
    apply (borrow _ GdiplusBitmap ([ReadPixels] ++ calls)); [unfold drawing, has; cbn; by not_held|done|done|].
    by apply (neutral_app _ [_]). }
  assert (Hl : neutral (mkLedger (GdiplusBitmap :: Stream :: live (drawing base)) [(MemDC, Dib)] (attached base)) [Acquire Locked; Release Locked]).
  { apply (borrow _ Locked []); [unfold drawing, has; cbn; by not_held|done|done|done]. }
  destruct (te_save env), (te_hglobal env), (te_lock env); cbn [andb fst snd]; (split; [by apply Hg|done]).
Qed.

Lemma screen_neutral base calls : entered base →
  neutral (mkLedger (ScreenDC :: live base) [] (attached base)) calls → neutral base ([Acquire ScreenDC] ++ calls ++ [Release ScreenDC]).
Proof.
  intros H Hc. apply (borrow base ScreenDC calls); [|by rewrite (proj1 H)|done|by rewrite (proj1 H)].
  apply H. repeat first [left; reflexivity | right].
Qed.
Lemma mem_neutral base calls : entered base →
  neutral (mkLedger (MemDC :: ScreenDC :: live base) [] (attached base)) calls →
  neutral base ([Acquire ScreenDC] ++ ([Acquire MemDC] ++ calls ++ [Release MemDC]) ++ [Release ScreenDC]).
Proof.
  intros H Hc. apply screen_neutral; [done|].
  apply (borrow (mkLedger (ScreenDC :: live base) [] (attached base)) MemDC calls); [unfold has; cbn; by not_held|done..].
Qed.
Lemma dib_neutral base calls : entered base → neutral (drawing base) calls →
  neutral base ([Acquire ScreenDC] ++ ([Acquire MemDC] ++ (([Acquire Dib; Select MemDC Dib] ++ calls ++ [SelectOld MemDC; Release Dib])) ++ [Release MemDC]) ++ [Release ScreenDC]).
Proof.
  intros H Hc. apply mem_neutral; [done|].
  change ([Acquire Dib; Select MemDC Dib] ++ calls ++ [SelectOld MemDC; Release Dib])
    with (Acquire Dib :: ([Select MemDC Dib] ++ calls ++ [SelectOld MemDC; Release Dib])).
  replace ([Select MemDC Dib] ++ calls ++ [SelectOld MemDC; Release Dib]) with (([Select MemDC Dib] ++ calls ++ [SelectOld MemDC]) ++ [Release Dib])
    by (by rewrite <- !app_assoc).
  apply borrow; [unfold has; cbn; by not_held|done|done|].
  unfold neutral. rewrite books_app. cbn [books call_step live selected attached]. unfold has. cbn [existsb same orb andb in_use negb].
  cbn [mbind option_bind]. rewrite books_app. fold (drawing base). rewrite Hc. done.
Qed.

(** The thread between its desktop's coming and going: nothing is left, and the
    answer is the one that [Capture] gives. *)
Lemma capture_body_spec env base tail src_x src_y src_w src_h max_w max_h buf_size :
  entered base → header_size < buf_size →
  ∃ calls, (capture_body env tail src_x src_y src_w src_h max_w max_h buf_size).1 = calls ++ tail ∧ neutral base calls ∧
    (capture_body env tail src_x src_y src_w src_h max_w max_h buf_size).2 =
      capture_desktop_rect_bmp (capture_env env) false src_x src_y src_w src_h max_w max_h buf_size.
Proof.
  intros H Hbuf. unfold capture_body, capture_desktop_rect_bmp.
  destruct (Z.leb_spec buf_size header_size); [lia|]. cbn [ce_dc ce_metrics ce_mem_dc ce_dib ce_src_dc ce_src_dib ce_stretch ce_bits capture_env].
  assert (Hfin : ∀ calls, neutral base ([Acquire ScreenDC] ++ calls ++ [Release ScreenDC]) →
    ∃ calls', Acquire ScreenDC :: calls ++ Release ScreenDC :: tail = calls' ++ tail ∧ neutral base calls').
  { intros calls Hc. exists ([Acquire ScreenDC] ++ calls ++ [Release ScreenDC]). split; [|done]. cbn. by rewrite <- app_assoc. }
  assert (Hpair : ∀ (calls : list Call) (r1 r2 : Z * option Shot), (∃ calls', calls = calls' ++ tail ∧ neutral base calls') → r1 = r2 →
    ∃ calls', (calls, r1).1 = calls' ++ tail ∧ neutral base calls' ∧ (calls, r1).2 = r2).
  { intros calls r1 r2 (calls' & -> & Hn) ->. by exists calls'. }
  destruct (te_dc env); cbn [negb]; [|apply Hpair; [by exists []|done]].
  destruct (if _ || _ then _ else _) as [[[x y] w] h]. destruct (_ || _).
  { apply Hpair; [|done]. by apply (Hfin []), screen_neutral. }
  destruct (target_size w h max_w max_h) as [tw th]. destruct (_ <? _).
  { apply Hpair; [|done]. by apply (Hfin []), screen_neutral. }
  destruct (te_mem_dc env); cbn [negb].
  2: { apply Hpair; [|done]. by apply (Hfin []), screen_neutral. }
  destruct (te_dib env); cbn [negb andb].
  2: { apply Hpair; [|done]. by apply (Hfin [Acquire MemDC; Release MemDC]), (mem_neutral base []). }
  destruct (te_dib_bits env); cbn [negb].
  2: { apply Hpair; [|done]. apply (Hfin [Acquire MemDC; Acquire Dib; Release Dib; Release MemDC]).
       apply (mem_neutral base [Acquire Dib; Release Dib]); [done|].
       apply (borrow _ Dib []); [unfold has; cbn; by not_held|done..]. }
  assert (Hdib : ∀ calls, neutral (drawing base) calls → ∃ calls',
    Acquire ScreenDC :: (Acquire MemDC :: ([Acquire Dib; Select MemDC Dib] ++ calls ++ [SelectOld MemDC; Release Dib]) ++ [Release MemDC]) ++
      Release ScreenDC :: tail = calls' ++ tail ∧ neutral base calls').
  { intros calls Hc. apply Hfin. by apply dib_neutral. }
  destruct (draw_calls_spec env base ((tw =? w) && (th =? h)) x y H) as [Hd Eok].
  destruct (draw_calls env _ x y) as [draw ok]. cbn [fst snd] in Hd, Eok. rewrite <- Eok. clear Eok.
  destruct ok; cbn [negb]; [|by apply Hpair; [apply Hdib|]].
  destruct (jpeg_calls_spec env base buf_size H) as [Hj Ej]. destruct (jpeg_calls env buf_size) as [encode jpeg]. cbn [fst snd] in Hj, Ej. subst jpeg.
  assert (neutral (drawing base) (draw ++ encode)) as Hde by (by apply neutral_app).
  assert (neutral (drawing base) (draw ++ encode ++ [ReadPixels])) as Hde2 by (rewrite app_assoc; by apply neutral_app).
  destruct (ce_jpeg (capture_env env)) as [jpeg|]; [destruct (_ && _)|]; by apply Hpair; [apply Hdib|].
Qed.

(** *** With the apartment, the window station and the desktop *)

(** The window station stays open for the process. *)
Definition station (open : bool) : list Handle := if open then [WinStation] else [].
Definition process (g_winsta0 : bool) : Ledger := mkLedger (station g_winsta0) [] None.

(** The desktop that stays open. *)
Definition left_open (env : ThreadEnv) (desk : option nat) : list Handle :=
  match desk with Some h => if de_set (te_desk env) h then [Desktop h] else [] | None => [] end.

(** What the thread holds when it asks for the screen. *)
Definition base (env : ThreadEnv) (g_winsta0 : bool) (desk : option nat) : Ledger :=
  let apartment := if te_com env then [Apartment] else [] in
  mkLedger
    (match desk with Some h => [Desktop h] | None => [] end ++
     (if g_winsta0 then apartment ++ [WinStation] else station (te_station1 env || te_station2 env) ++ apartment)) []
    (match desk with Some h => if de_set (te_desk env) h then Some h else None | None => None end).

Lemma base_entered env g desk : entered (base env g desk).
Proof.
  split; [done|]. intros h Hh. unfold base, station.
  destruct desk, g, (te_com env), (te_station1 env), (te_station2 env); cbn;
    repeat (apply elem_of_cons in Hh as [->|Hh]; [done|]); by apply elem_of_nil in Hh.
Qed.

Definition enter_calls (env : ThreadEnv) (g : bool) (desk : option nat) : list Call :=
  let '(station1, g1) := EnsureProcessWindowStation g (te_station1 env) in
  (if te_com env then [Acquire Apartment] else []) ++ station1 ++ (EnsureProcessWindowStation g1 (te_station2 env)).1 ++
  match desk with Some h => Acquire (Desktop h) :: if de_set (te_desk env) h then [SetThreadDesktop h] else [] | None => [] end.

Lemma enter_books env g desk : books (process g) (enter_calls env g desk) = Some (base env g desk).
Proof.
  unfold enter_calls, base, process, station.
  destruct desk as [d|], g, (te_com env), (te_station1 env), (te_station2 env); cbn; try done;
    destruct (de_set (te_desk env) d); cbn; unfold has; cbn; by rewrite ?Nat.eqb_refl.
Qed.

(** After the body: the desktop, and the apartment when there is one. *)
Definition leave_calls (env : ThreadEnv) (desk : option nat) : list Call :=
  match desk with Some h => [Release (Desktop h)] | None => [] end ++ (if te_com env then [Release Apartment] else []).

Lemma leave_books env g desk : ∃ l, books (base env g desk) (leave_calls env desk) = Some l ∧ selected l = [] ∧
  live l = left_open env desk ++ station (g || te_station1 env || te_station2 env).
Proof.
  unfold leave_calls, left_open, base, station.
  destruct desk as [d|], g, (te_com env), (te_station1 env), (te_station2 env); cbn; try (by eexists);
    destruct (de_set (te_desk env) d); cbn; unfold has; cbn; rewrite ?Nat.eqb_refl; cbn; rewrite ?Nat.eqb_refl; by eexists.
Qed.

(** C38: The capture thread answers what [Capture] says, and on every one of its ways
    out it keeps the books of Windows: it takes nothing twice, draws only onto bitmaps
    it holds, puts the old bitmap back before it deletes its own, and gives back every
    device context, bitmap, stream and lock exactly once, in an order Windows allows.
    Three things are not given back as they came. The apartment: the last call is
    always [CoUninitialize], and where [CoInitializeEx] has failed this is one call too
    many, of an apartment never taken (then, and only then, the books without that
    call are the ones in order). The window station, once open, stays open for the
    process, and is opened at most once. And the desktop that the search handed over is
    closed while it is still the thread's own, which fails, so that every capture whose
    [SetThreadDesktop] succeeds leaves one more desktop handle open. *)
Theorem capture_gives_back env g_winsta0 desk busy src_x src_y src_w src_h max_w max_h buf_size :
  let '(calls, result) := ligament_capture_desktop_rect_bmp env g_winsta0 desk busy src_x src_y src_w src_h max_w max_h buf_size in
  let ran := (header_size <? buf_size) && negb busy in
  result = capture_desktop_rect_bmp (capture_env env) busy src_x src_y src_w src_h max_w max_h buf_size ∧
  ∃ kept l, calls = kept ++ (if ran && negb (te_com env) then [Release Apartment] else []) ∧
    books (process g_winsta0) kept = Some l ∧ selected l = [] ∧
    live l = if ran then left_open env desk ++ station (g_winsta0 || te_station1 env || te_station2 env)
             else station g_winsta0.
Proof.
  unfold ligament_capture_desktop_rect_bmp. destruct (Z.leb_spec buf_size header_size) as [Hs|Hbuf].
  { unfold capture_desktop_rect_bmp. destruct (Z.leb_spec buf_size header_size); [|lia]. split; [done|].
    exists [], (process g_winsta0). by destruct (Z.ltb_spec header_size buf_size); [lia|]. }
  destruct (Z.ltb_spec header_size buf_size); [|lia]. destruct busy; cbn [negb andb].
  { unfold capture_desktop_rect_bmp. destruct (Z.leb_spec buf_size header_size); [lia|]. split; [done|].
    by exists [], (process g_winsta0). }
  pose proof (enter_books env g_winsta0 desk) as Eb. unfold enter_calls in Eb. unfold capture_thread.
  destruct (EnsureProcessWindowStation g_winsta0 (te_station1 env)) as [s1 g1].
  destruct (EnsureProcessWindowStation g1 (te_station2 env)) as [s2 g2]. cbn [fst] in Eb.
  destruct (capture_body_spec env (base env g_winsta0 desk) (match desk with Some h => [Release (Desktop h)] | None => [] end)
    src_x src_y src_w src_h max_w max_h buf_size (base_entered _ _ _) Hbuf) as (mid & Ec & Hmid & Er).
  destruct (capture_body env _ src_x src_y src_w src_h max_w max_h buf_size) as [calls result]. cbn [fst snd] in Ec, Er. subst calls.
  split; [done|]. destruct (leave_books env g_winsta0 desk) as (l & Hl & Hsel & Hlive).
  set (enter := _ ++ s1 ++ _) in *. exists (enter ++ mid ++ leave_calls env desk), l. split; [|split; [|done]].
  - unfold leave_calls. rewrite <- !app_assoc. destruct (te_com env); cbn [negb]; by rewrite ?app_nil_r.
  - rewrite books_app, Eb. cbn [mbind option_bind]. by rewrite books_app, Hmid.
Qed.
