(* ===== verification/Window.v ===== *)
(** * The window of the application

    [windows/runner/win32_window.cpp], class [Win32Window], and the window half of
    [flutter_window.cpp], class [FlutterWindow]: one window object from its
    constructor to its destructor. Windows calls back into [WndProc] while the code
    is inside [CreateWindow] and [DestroyWindow]; virtual calls follow the dynamic
    type, which changes when the derived destructor is done. *)
From S2P Require Import Prelude Doubles Capture.

(** ** Messages and calls *)
Inductive Message :=
| WM_NCCREATE | WM_DESTROY | WM_NCDESTROY | WM_CLOSE | WM_DPICHANGED (suggested : Rect) | WM_SIZE | WM_ACTIVATE
| WM_DWMCOLORIZATIONCOLORCHANGED | WM_FONTCHANGE | WM_OTHER (n : Z).

(** What the code asks of Windows, besides creating and destroying windows. *)
Inductive OsCall :=
| SetWindowPos (x y w h : Z) | MoveWindow (child x y w h : Z) | SetFocus (child : Z) | SetParent (child parent : Z)
| DarkMode (on : bool) | ShowNormal (window : option Z) | PostQuit | ReloadFonts.

(** [Scale]: [static_cast<int>(source * scale_factor)], with [dpi / 96.0]. *)
Definition Scale (source dpi : Z) : Z := to_int (dmul (of_int source) (ddiv (of_int dpi) (of_int 96))).

(** The members, the statics of the file, the windows of this object that exist, and
    what was asked of Windows, the latest first. [flutter_controller_] is the window
    of its view; [diagnostics_channel_] tells whether it has a handler. *)
Record Win := mkWin {
  window_handle_ : option Z; child_content_ : option Z; quit_on_close_ : bool;
  is_flutter : bool; link_host_worker_ : bool; start_minimized_ : bool;
  flutter_controller_ : option Z; diagnostics_channel_ : option bool;
  link_agent_binding_bridge_ : bool; link_host_bridge_ : bool; next_frame : bool;
  g_active_window_count : Z; class_registered_ : bool;
  windows : list Z; asked : list OsCall }.
#[export] Instance eta_Win : Settable Win := λ w,
  mkWin (window_handle_ w) (child_content_ w) (quit_on_close_ w) (is_flutter w) (link_host_worker_ w) (start_minimized_ w)
    (flutter_controller_ w) (diagnostics_channel_ w) (link_agent_binding_bridge_ w) (link_host_bridge_ w) (next_frame w)
    (g_active_window_count w) (class_registered_ w) (windows w) (asked w).

Definition ask (c : OsCall) (w : Win) : Win := w <| asked := c :: asked w |>.

Section Window.
(** [GetClientRect]; the theme's registry value; the messages that the plugins of a
    living controller take for themselves. *)
Context (client : Z → Rect) (light_mode : option Z) (taken : Message → bool).

Definition GetClientArea (w : Win) : Rect :=
  match window_handle_ w with Some h => client h | None => mkRect 0 0 0 0 end.
Definition width (r : Rect) : Z := i32 (right_ r - left_ r).
Definition height (r : Rect) : Z := i32 (bottom_ r - top_ r).
Definition move_child (child : Z) (r : Rect) : OsCall := MoveWindow child (left_ r) (top_ r) (width r) (height r).

Definition UpdateTheme (w : Win) : Win :=
  match light_mode with Some m => ask (DarkMode (m =? 0)) w | None => w end.

Definition UnregisterWindowClass (w : Win) : Win := w <| class_registered_ := false |>.

(** [FlutterWindow::OnDestroy], and the empty one of the base class. *)
Definition OnDestroy (w : Win) : Win :=
  if is_flutter w then
    w <| diagnostics_channel_ := None |> <| link_agent_binding_bridge_ := false |> <| link_host_bridge_ := false |>
      <| flutter_controller_ := None |> <| next_frame := false |>
  else w.

(** [DestroyWindow] is what Windows makes of it, below; [None] is a null dereference. *)
Definition Destroy (DestroyWindow : Z → Win → option Win) (w : Win) : option Win :=
  let w := OnDestroy w in
  w ← match window_handle_ w with
      | Some h => w ← DestroyWindow h w; Some (w <| window_handle_ := None |>)
      | None => Some w
      end;
  Some (if g_active_window_count w =? 0 then UnregisterWindowClass w else w).

(** [DefWindowProc], of which only [WM_CLOSE] matters here. *)
Definition DefWindowProc (DestroyWindow : Z → Win → option Win) (window : option Z) (m : Message) (w : Win) : option Win :=
  match m, window with WM_CLOSE, Some h => DestroyWindow h w | _, _ => Some w end.

Definition base_MessageHandler (DestroyWindow : Z → Win → option Win) (m : Message) (w : Win) : option Win :=
  match m with
  | WM_DESTROY =>
    w ← Destroy DestroyWindow (w <| window_handle_ := None |>);
    Some (if quit_on_close_ w then ask PostQuit w else w)
  | WM_DPICHANGED r => Some (ask (SetWindowPos (left_ r) (top_ r) (width r) (height r)) w)
  | WM_SIZE => Some (match child_content_ w with Some c => ask (move_child c (GetClientArea w)) w | None => w end)
  | WM_ACTIVATE => Some (match child_content_ w with Some c => ask (SetFocus c) w | None => w end)
  | WM_DWMCOLORIZATIONCOLORCHANGED => Some (UpdateTheme w)
  | _ => DefWindowProc DestroyWindow (window_handle_ w) m w
  end.

Definition MessageHandler (DestroyWindow : Z → Win → option Win) (m : Message) (w : Win) : option Win :=
  if is_flutter w then
    if bool_decide (flutter_controller_ w ≠ None) && taken m then Some w else
    w ← (match m with
         | WM_FONTCHANGE => match flutter_controller_ w with Some _ => Some (ask ReloadFonts w) | None => None end
         | _ => Some w
         end);
    base_MessageHandler DestroyWindow m w
  else base_MessageHandler DestroyWindow m w.

(** [WndProc] for a window that knows its object. *)
Definition WndProc (DestroyWindow : Z → Win → option Win) (h : Z) (m : Message) (w : Win) : option Win :=
  match m with
  | WM_NCCREATE => DefWindowProc DestroyWindow (Some h) m (w <| window_handle_ := Some h |>)
  | _ => MessageHandler DestroyWindow m w
  end.

(** Windows: the two messages, then the window is gone. *)
Fixpoint DestroyWindow (fuel : nat) (h : Z) (w : Win) : option Win :=
  match fuel with
  | O => None
  | S fuel =>
    if bool_decide (h ∈ windows w) then
      w ← WndProc (DestroyWindow fuel) h WM_DESTROY w;
      w ← WndProc (DestroyWindow fuel) h WM_NCDESTROY w;
      Some (w <| windows := List.filter (λ x, negb (x =? h)) (windows w) |>)
    else Some w
  end.

(** Three nested calls are enough ([destroy_window_spec]). *)
Definition destroy_window : Z → Win → option Win := DestroyWindow 3.

Definition GetWindowClass (w : Win) : Win := w <| class_registered_ := true |>.

(** What Windows and the engine answer during [Create]: the new window and the
    messages it gets meanwhile, the engine with its view's window, the channel. *)
Record CreateEnv := mkCreateEnv {
  cr_dpi : Z; cr_window : option Z; cr_messages : list Message; cr_view : option Z; cr_engine : bool; cr_channel : bool }.

Fixpoint deliver (h : Z) (ms : list Message) (w : Win) : option Win :=
  match ms with [] => Some w | m :: ms => w ← WndProc destroy_window h m w; deliver h ms w end.

Definition SetChildContent (content : Z) (w : Win) : Win :=
  let w := w <| child_content_ := Some content |> in
  let w := ask (SetParent content (default 0 (window_handle_ w))) w in
  let w := ask (move_child content (GetClientArea w)) w in
  ask (SetFocus content) w.

(** [FlutterWindow::OnCreate]: the controller stays when its engine or view failed. *)
Definition OnCreate (env : CreateEnv) (w : Win) : bool * Win :=
  let w := w <| flutter_controller_ := Some (default 0 (cr_view env)) |> in
  match cr_view env with
  | Some view =>
    if negb (cr_engine env) then (false, w) else
    let w := if cr_channel env then w <| diagnostics_channel_ := Some true |> else w in
    let w := if link_host_worker_ w then w <| link_host_bridge_ := true |> else w <| link_agent_binding_bridge_ := true |> in
    let w := SetChildContent view w in
    (true, w <| next_frame := true |>)
  | None => (false, w)
  end.

(** The window's place and size in pixels, and the result. *)
Definition Create (env : CreateEnv) (w : Win) : option (bool * Win) :=
  w ← Destroy destroy_window w;
  let w := GetWindowClass w in
  match cr_window env with
  | None => Some (false, w)
  | Some h =>
    w ← deliver h (WM_NCCREATE :: cr_messages env) (w <| windows := h :: windows w |>);
    Some (OnCreate env (UpdateTheme w))
  end.

Definition Show (w : Win) : Win := ask (ShowNormal (window_handle_ w)) w.

(** The callback of the first frame. *)
Definition first_frame (w : Win) : Win :=
  if next_frame w then
    let w := w <| next_frame := false |> in
    if negb (link_host_worker_ w) && negb (start_minimized_ w) then Show w else w
  else w.

Definition new_window (worker minimized : bool) (others : Z) (registered : bool) : Win :=
  mkWin None None false true worker minimized None None false false false (others + 1) registered [] [].

(** [~FlutterWindow]: its body, then its members from the last to the first; from here
    on the object is a [Win32Window]. *)
Definition delete_derived (w : Win) : Win :=
  let w := match diagnostics_channel_ w with Some _ => w <| diagnostics_channel_ := Some false |> | None => w end in
  let w := w <| diagnostics_channel_ := None |> in
  let w := w <| link_host_bridge_ := false |> in
  let w := w <| link_agent_binding_bridge_ := false |> in
  let w := w <| flutter_controller_ := None |> <| next_frame := false |> in
  w <| is_flutter := false |>.

(** [~Win32Window]. *)
Definition delete_base (w : Win) : option Win :=
  Destroy destroy_window (w <| g_active_window_count := g_active_window_count w - 1 |>).
Definition delete_window (w : Win) : option Win := delete_base (delete_derived w).

Inductive WinEvent :=
| EvCreate (env : CreateEnv) | EvShow | EvMessage (m : Message) | EvFrame | EvDestroy | EvQuitOnClose (b : bool).

(** One event of the object's life; a message finds its window or is not delivered. *)
Definition win_event (e : WinEvent) (w : Win) : option Win :=
  match e with
  | EvCreate env => snd <$> Create env w
  | EvShow => Some (Show w)
  | EvMessage m => match windows w with h :: _ => WndProc destroy_window h m w | [] => Some w end
  | EvFrame => Some (first_frame w)
  | EvDestroy => Destroy destroy_window w
  | EvQuitOnClose b => Some (w <| quit_on_close_ := b |>)
  end.
Fixpoint win_events (es : list WinEvent) (w : Win) : option Win :=
  match es with [] => Some w | e :: es => w ← win_event e w; win_events es w end.

(** ** Destroying a window *)
Hypothesis destroy_not_taken : taken WM_DESTROY = false.

Lemma OnDestroy_handle w : window_handle_ (OnDestroy w) = window_handle_ w.
Proof. unfold OnDestroy. by destruct (is_flutter w). Qed.
Lemma OnDestroy_windows w : windows (OnDestroy w) = windows w.
Proof. unfold OnDestroy. by destruct (is_flutter w). Qed.
Lemma OnDestroy_controller w : is_flutter w = true → flutter_controller_ (OnDestroy w) = None.
Proof. unfold OnDestroy. by intros ->. Qed.
Lemma OnDestroy_flutter w : is_flutter (OnDestroy w) = is_flutter w.
Proof. unfold OnDestroy. by destruct (is_flutter w) eqn:E. Qed.

(** After [WM_DESTROY]; the window itself is still there. *)
Definition let_go (w : Win) : Win :=
  let w := OnDestroy (w <| window_handle_ := None |>) in
  let w := if g_active_window_count w =? 0 then UnregisterWindowClass w else w in
  if quit_on_close_ w then ask PostQuit w else w.

Lemma let_go_spec w : window_handle_ (let_go w) = None ∧ windows (let_go w) = windows w ∧ is_flutter (let_go w) = is_flutter w ∧
  (is_flutter w = true → flutter_controller_ (let_go w) = None).
Proof.
  unfold let_go. set (w1 := w <| window_handle_ := None |>).
  assert (is_flutter w1 = is_flutter w) as E1 by done. assert (windows w1 = windows w) as E2 by done.
  rewrite <- E1, <- E2, <- (OnDestroy_flutter w1), <- (OnDestroy_windows w1).
  assert (window_handle_ (OnDestroy w1) = None) as E3 by (by rewrite OnDestroy_handle).
  assert (is_flutter (OnDestroy w1) = true → flutter_controller_ (OnDestroy w1) = None) as E4
    by (rewrite OnDestroy_flutter; apply OnDestroy_controller).
  revert E3 E4. generalize (OnDestroy w1) as w2. intros w2 E3 E4. unfold UnregisterWindowClass, ask.
  destruct (g_active_window_count w2 =? 0); cbn; destruct (quit_on_close_ w2); by split_and!.
Qed.

Lemma handle_destroy D h w : WndProc D h WM_DESTROY w = Some (let_go w).
Proof.
  unfold WndProc, MessageHandler. rewrite destroy_not_taken, andb_false_r.
  assert (base_MessageHandler D WM_DESTROY w = Some (let_go w)) as E; [|by destruct (is_flutter w)].
  unfold base_MessageHandler, Destroy. rewrite OnDestroy_handle. done.
Qed.
Lemma handle_ncdestroy D h w : window_handle_ w = None → (is_flutter w = true → flutter_controller_ w = None) →
  WndProc D h WM_NCDESTROY w = Some w.
Proof.
  intros Hh Hc. unfold WndProc, MessageHandler, base_MessageHandler, DefWindowProc.
  destruct (is_flutter w); [|by destruct (window_handle_ w)]. rewrite Hc by done. by destruct (window_handle_ w).
Qed.

Lemma destroy_window_spec fuel h w : windows w = [h] → DestroyWindow (S fuel) h w = Some ((let_go w) <| windows := [] |>).
Proof.
  intros Hw. cbn [DestroyWindow]. rewrite bool_decide_true by (rewrite Hw; by left).
  rewrite handle_destroy. cbn [mbind option_bind]. destruct (let_go_spec w) as (H1 & H2 & H3 & H4).
  rewrite handle_ncdestroy by (done || by rewrite H3). cbn [mbind option_bind]. rewrite H2, Hw. cbn [List.filter]. by rewrite Z.eqb_refl.
Qed.

(** ** The life of the object *)

(** Between events: the object owns exactly the window whose handle it holds, of a
    registered class; there is an engine exactly as long as there is a window, and
    nothing that hangs on the engine without it; one of the bridges at most. *)
Record settled (worker minimized : bool) (others : Z) (w : Win) : Prop := mkSettled {
  st_flutter : is_flutter w = true; st_worker : link_host_worker_ w = worker; st_minimized : start_minimized_ w = minimized;
  st_count : g_active_window_count w = others + 1;
  st_windows : windows w = option_list (window_handle_ w);
  st_class : window_handle_ w ≠ None → class_registered_ w = true;
  st_engine : window_handle_ w ≠ None ↔ flutter_controller_ w ≠ None;
  st_hangers : flutter_controller_ w = None →
    diagnostics_channel_ w = None ∧ link_agent_binding_bridge_ w = false ∧ link_host_bridge_ w = false ∧ next_frame w = false;
  st_bridges : (if worker then link_agent_binding_bridge_ w else link_host_bridge_ w) = false }.

(** Messages that Windows sends of its own accord, or another program. *)
Definition outside (m : Message) : Prop := m ≠ WM_NCCREATE ∧ m ≠ WM_DESTROY ∧ m ≠ WM_NCDESTROY.
(** Messages while the window is being created, before there is an engine. *)
Definition early (m : Message) : Prop := outside m ∧ m ≠ WM_CLOSE ∧ m ≠ WM_FONTCHANGE.
Definition admissible (e : WinEvent) : Prop :=
  match e with EvCreate env => Forall early (cr_messages env) | EvMessage m => outside m | _ => True end.

(** What [Destroy] and [WM_DESTROY] leave alone. *)
Record same_object (w w' : Win) : Prop := mkSame {
  so_flutter : is_flutter w' = is_flutter w; so_worker : link_host_worker_ w' = link_host_worker_ w;
  so_minimized : start_minimized_ w' = start_minimized_ w; so_count : g_active_window_count w' = g_active_window_count w;
  so_quit : quit_on_close_ w' = quit_on_close_ w }.

(** Without a window and an engine. *)
Record bare (w : Win) : Prop := mkBare {
  ba_windows : windows w = []; ba_handle : window_handle_ w = None; ba_engine : flutter_controller_ w = None;
  ba_channel : diagnostics_channel_ w = None; ba_agent : link_agent_binding_bridge_ w = false;
  ba_host : link_host_bridge_ w = false; ba_frame : next_frame w = false }.

Lemma let_go_bare w : is_flutter w = true → bare ((let_go w) <| windows := [] |>) ∧ same_object w ((let_go w) <| windows := [] |>) ∧
  asked (let_go w) = (if quit_on_close_ w then [PostQuit] else []) ++ asked w.
Proof.
  intros Hf. unfold let_go, OnDestroy. cbn. rewrite Hf. unfold UnregisterWindowClass, ask. cbn.
  destruct (g_active_window_count w =? 0); cbn; destruct (quit_on_close_ w) eqn:E; cbn; split_and!; try (by split); by split; cbn; rewrite ?Hf, ?E.
Qed.

Lemma OnDestroy_bare w : is_flutter w = true → windows w = [] → window_handle_ w = None → bare (OnDestroy w) ∧ same_object w (OnDestroy w) ∧ asked (OnDestroy w) = asked w.
Proof. intros Hf Hw Hh. unfold OnDestroy. rewrite Hf. split_and!; [by split|by split|done]. Qed.

(** Nothing new is shown. *)
Definition quiet (w w' : Win) : Prop := ∀ o, ShowNormal o ∈ asked w' → ShowNormal o ∈ asked w.
Lemma quiet_trans w1 w2 w3 : quiet w1 w2 → quiet w2 w3 → quiet w1 w3.
Proof. intros H1 H2 o H. by apply H1, H2. Qed.
Lemma quiet_ask c w : (∀ o, c ≠ ShowNormal o) → quiet w (ask c w).
Proof. intros Hc o [E|H]%elem_of_cons; [by destruct (Hc o)|done]. Qed.
Lemma quiet_let_go w : is_flutter w = true → quiet w ((let_go w) <| windows := [] |>).
Proof.
  intros Hf o. destruct (let_go_bare w Hf) as (_ & _ & E). cbn. rewrite E. destruct (quit_on_close_ w); [|done].
  by intros [?|?]%elem_of_cons.
Qed.

Lemma settled_ask worker minimized others c w : settled worker minimized others w → settled worker minimized others (ask c w).
Proof. intros []. by split. Qed.
Lemma settled_bare worker minimized others w w' : settled worker minimized others w → bare w' → same_object w w' →
  settled worker minimized others w'.
Proof.
  intros [H1 H2 H3 H4 H5 H6 H7 H8 H9] [B1 B2 B3 B4 B5 B6 B7] [S1 S2 S3 S4 S5].
  split; rewrite ?S1, ?S2, ?S3, ?S4, ?B1, ?B2, ?B3, ?B4, ?B5, ?B6, ?B7; try done. by destruct worker.
Qed.

(** A step from one settled state to another that shows nothing. *)
Definition steps (worker minimized : bool) (others : Z) (w : Win) (r : option Win) : Prop :=
  ∃ w', r = Some w' ∧ settled worker minimized others w' ∧ quiet w w'.

Section Settled.
Context (worker minimized : bool) (others : Z) (Hothers : 0 <= others).

Lemma steps_ask c w : settled worker minimized others w → (∀ o, c ≠ ShowNormal o) → steps worker minimized others w (Some (ask c w)).
Proof. intros H Hc. exists (ask c w). split; [done|]. split; [by apply settled_ask|by apply quiet_ask]. Qed.
Lemma steps_same w : settled worker minimized others w → steps worker minimized others w (Some w).
Proof. intros H. exists w. split; [done|]. split; [done|]. by intros o. Qed.

Lemma destroy_steps w h : settled worker minimized others w → window_handle_ w = Some h →
  destroy_window h w = Some ((let_go w) <| windows := [] |>) ∧
  steps worker minimized others w (destroy_window h w).
Proof.
  intros H Hh. pose proof H as [H1 _ _ _ H5 _ _ _ _]. unfold destroy_window. rewrite destroy_window_spec by (by rewrite H5, Hh).
  split; [done|]. eexists. split; [done|]. destruct (let_go_bare w H1) as (Hb & Hs & _).
  split; [by apply (settled_bare worker minimized others w)|by apply quiet_let_go].
Qed.

Lemma message_steps h m w : settled worker minimized others w → windows w = [h] → outside m →
  steps worker minimized others w (WndProc destroy_window h m w).
Proof.
  intros H Hw (O1 & O2 & O3). pose proof H as [H1 _ _ _ H5 _ H7 _ _].
  assert (window_handle_ w = Some h) as Hh by (rewrite H5 in Hw; destruct (window_handle_ w); by simplify_eq/=).
  assert (flutter_controller_ w ≠ None) as Hc by (apply H7; by rewrite Hh).
  assert (WndProc destroy_window h m w = MessageHandler destroy_window m w) as -> by (by destruct m).
  unfold MessageHandler. rewrite H1. rewrite bool_decide_true by done. cbn [andb].
  destruct (taken m); [by apply steps_same|]. destruct m; try done; cbn [mbind option_bind base_MessageHandler].
  - unfold DefWindowProc. rewrite Hh. by apply (destroy_steps w h).
  - by apply steps_ask.
  - destruct (child_content_ w); [by apply steps_ask|by apply steps_same].
  - destruct (child_content_ w); [by apply steps_ask|by apply steps_same].
  - unfold UpdateTheme. destruct light_mode; [by apply steps_ask|by apply steps_same].
  - destruct (flutter_controller_ w); [|done]. cbn [mbind option_bind]. unfold DefWindowProc. cbn.
    destruct (window_handle_ w); by apply steps_ask.
  - unfold DefWindowProc. by destruct (window_handle_ w); apply steps_same.
Qed.

Lemma Destroy_steps w : settled worker minimized others w →
  ∃ w', Destroy destroy_window w = Some w' ∧ settled worker minimized others w' ∧ bare w' ∧ quiet w w' ∧
    asked w' = (if bool_decide (window_handle_ w ≠ None) && quit_on_close_ w then [PostQuit] else []) ++ asked w.
Proof.
  intros H. pose proof H as [H1 H2 H3 H4 H5 H6 H7 H8 H9]. unfold Destroy.
  set (w1 := OnDestroy w). assert (is_flutter w1 = true) as F1 by (subst w1; by rewrite OnDestroy_flutter).
  pose proof (OnDestroy_handle w) as E1. fold w1 in E1.
  pose proof (OnDestroy_windows w) as E2. fold w1 in E2.
  assert (same_object w w1 ∧ asked w1 = asked w) as [S1 A1] by (subst w1; unfold OnDestroy; rewrite H1; by split).
  rewrite E1. destruct (window_handle_ w) as [h|] eqn:Eh; cbn [mbind option_bind].
  - clearbody w1. unfold destroy_window. rewrite destroy_window_spec by (by rewrite E2, H5). cbn [mbind option_bind].
    destruct (let_go_bare w1 F1) as (Hb & Hs & Ha). set (w2 := (let_go w1) <| windows := [] |>) in *.
    assert (bare (w2 <| window_handle_ := None |>)) as Hb2 by (destruct Hb; by split).
    assert (same_object w (w2 <| window_handle_ := None |>)) as Hs2.
    { destruct S1, Hs. split; cbn; etrans; eassumption. }
    rewrite (so_count _ _ Hs2), H4. destruct (Z.eqb_spec (others + 1) 0); [lia|]. eexists. split; [done|].
    split; [by apply (settled_bare worker minimized others w)|]. split; [done|].
    assert (asked (w2 <| window_handle_ := None |>) = (if quit_on_close_ w then [PostQuit] else []) ++ asked w) as Ea.
    { subst w2. cbn. by rewrite Ha, A1, (so_quit _ _ S1). }
    split; [|by rewrite Ea]. intros o. rewrite Ea. destruct (quit_on_close_ w); [by intros [?|?]%elem_of_cons|done].
  - destruct (OnDestroy_bare w H1) as (Hb & Hs & Ha); [by rewrite H5, ?Eh|done|]. fold w1 in Hb, Hs, Ha.
    rewrite (so_count _ _ Hs), H4. destruct (Z.eqb_spec (others + 1) 0); [lia|]. eexists. split; [done|].
    split; [by apply (settled_bare worker minimized others w)|]. split; [done|]. split; [|by rewrite Ha].
    intros o. by rewrite Ha.
Qed.
(** While the window is created: it is there, the engine is not. *)
Definition creating (h : Z) (w : Win) : Prop :=
  is_flutter w = true ∧ link_host_worker_ w = worker ∧ start_minimized_ w = minimized ∧ g_active_window_count w = others + 1 ∧
  windows w = [h] ∧ window_handle_ w = Some h ∧ class_registered_ w = true ∧ flutter_controller_ w = None ∧
  diagnostics_channel_ w = None ∧ link_agent_binding_bridge_ w = false ∧ link_host_bridge_ w = false ∧ next_frame w = false.

Lemma early_message h m w : creating h w → early m →
  ∃ w', WndProc destroy_window h m w = Some w' ∧ creating h w' ∧ quiet w w'.
Proof.
  intros H [(O1 & O2 & O3) [O4 O5]]. pose proof H as (H1 & _ & _ & _ & _ & H6 & _ & H8 & _).
  assert (∀ c, (∀ o, c ≠ ShowNormal o) → ∃ w', Some (ask c w) = Some w' ∧ creating h w' ∧ quiet w w') as Hask.
  { intros c Hc. eexists. split; [done|]. split; [exact H|by apply quiet_ask]. }
  assert (∃ w', Some w = Some w' ∧ creating h w' ∧ quiet w w') as Hsame by (exists w; split; [done|]; split; [done|by intros o]).
  assert (WndProc destroy_window h m w = MessageHandler destroy_window m w) as -> by (by destruct m).
  unfold MessageHandler. rewrite H1, H8. cbn [bool_decide andb]. rewrite bool_decide_false by tauto. cbn [andb].
  destruct m; try done; cbn [mbind option_bind base_MessageHandler].
  - by apply Hask.
  - destruct (child_content_ w); [by apply Hask|done].
  - destruct (child_content_ w); [by apply Hask|done].
  - unfold UpdateTheme. destruct light_mode; [by apply Hask|done].
Qed.

Lemma deliver_early h ms : Forall early ms → ∀ w, creating h w →
  ∃ w', deliver h ms w = Some w' ∧ creating h w' ∧ quiet w w'.
Proof.
  induction 1 as [|m ms Hm _ IH]; intros w H; [exists w; split; [done|]; split; [done|by intros o]|]. cbn [deliver].
  destruct (early_message h m w H Hm) as (w1 & -> & H1 & Q1). cbn [mbind option_bind].
  destruct (IH w1 H1) as (w2 & -> & H2 & Q2). exists w2. split; [done|]. split; [done|by eapply quiet_trans].
Qed.

Lemma OnCreate_steps env h w : creating h w → settled worker minimized others (OnCreate env w).2 ∧ quiet w (OnCreate env w).2.
Proof.
  intros (H1 & H2 & H3 & H4 & H5 & H6 & H7 & H8 & H9 & H10 & H11 & H12). unfold OnCreate.
  destruct (cr_view env) as [view|]; cbn [default from_option].
  - destruct (cr_engine env); cbn [negb snd].
    2: { split; [|by intros o]. split; cbn; rewrite ?H5, ?H6; try done. by destruct worker. }
    assert (quiet w (SetChildContent view w)) as Q.
    { intros o. unfold SetChildContent, ask. cbn. by intros [?|[?|[?|?]%elem_of_cons]%elem_of_cons]%elem_of_cons. }
    destruct (cr_channel env); cbn; rewrite H2; destruct worker; cbn;
      (split; [|exact Q]); split; cbn; rewrite ?H5, ?H6, ?H10, ?H11; done.
  - split; [|by intros o]. split; cbn; rewrite ?H5, ?H6; try done. by destruct worker.
Qed.

Lemma Create_steps env w : settled worker minimized others w → Forall early (cr_messages env) →
  ∃ r w', Create env w = Some (r, w') ∧ settled worker minimized others w' ∧ quiet w w'.
Proof.
  intros H Hms. unfold Create. destruct (Destroy_steps w H) as (w1 & -> & H1 & Hb & Q1 & _). cbn [mbind option_bind].
  pose proof H1 as [F1 F2 F3 F4 F5 F6 F7 F8 F9]. destruct Hb as [B1 B2 B3 B4 B5 B6 B7].
  destruct (cr_window env) as [h|]; cycle 1.
  { eexists _, _. split; [done|]. split; [|exact Q1]. unfold GetWindowClass. split; cbn; done. }
  set (w2 := (GetWindowClass w1) <| windows := h :: windows (GetWindowClass w1) |>). cbn [deliver WndProc].
  set (w3 := w2 <| window_handle_ := Some h |>). unfold DefWindowProc. cbn [mbind option_bind].
  assert (creating h w3) as H3 by (subst w3 w2; unfold creating; cbn; rewrite B1; done).
  destruct (deliver_early h (cr_messages env) Hms w3 H3) as (w4 & -> & H4 & Q4). cbn [mbind option_bind].
  assert (creating h (UpdateTheme w4) ∧ quiet w4 (UpdateTheme w4)) as [H5 Q5].
  { unfold UpdateTheme. destruct light_mode; [split; [exact H4|by apply quiet_ask]|split; [done|by intros o]]. }
  destruct (OnCreate_steps env h _ H5) as [H6 Q6]. destruct (OnCreate env (UpdateTheme w4)) as [r w5]. exists r, w5.
  split; [done|]. split; [done|]. eapply quiet_trans; [exact Q1|]. eapply quiet_trans; [exact Q4|]. by eapply quiet_trans.
Qed.

(** *** Runs *)
Lemma event_settled e w : settled worker minimized others w → admissible e →
  ∃ w', win_event e w = Some w' ∧ settled worker minimized others w' ∧
    (e ≠ EvShow → worker || minimized = true → quiet w w').
Proof.
  intros H He. destruct e as [env| |m| | |b]; cbn [win_event].
  - destruct (Create_steps env w H He) as (r & w' & -> & H' & Q). exists w'. split; [done|]. by split.
  - exists (Show w). split; [done|]. split; [by apply settled_ask|done].
  - destruct (windows w) as [|h ws] eqn:Ew; [exists w; split; [done|]; split; [done|by intros _ _ o]|].
    assert (ws = []) as ->.
    { pose proof (st_windows _ _ _ _ H) as E. rewrite Ew in E. destruct (window_handle_ w); by simplify_eq/=. }
    destruct (message_steps h m w H Ew He) as (w' & -> & H' & Q). exists w'. split; [done|]. by split.
  - unfold first_frame. destruct (next_frame w) eqn:En; [|exists w; split; [done|]; split; [done|by intros _ _ o]].
    assert (settled worker minimized others (w <| next_frame := false |>)) as H'.
    { destruct H as [H1 H2 H3 H4 H5 H6 H7 H8 H9]. split; cbn; try done. intros Hc. destruct (H8 Hc) as (? & ? & ? & ?). by split_and!. }
    cbn [link_host_worker_ start_minimized_]. rewrite (st_worker _ _ _ _ H'), (st_minimized _ _ _ _ H').
    destruct (negb worker && negb minimized) eqn:Ewm; (eexists; split; [done|]).
    + split; [by apply settled_ask|]. intros _ Hor. destruct worker, minimized; done.
    + split; [done|by intros _ _ o].
  - destruct (Destroy_steps w H) as (w' & -> & H' & _ & Q & _). exists w'. by split_and!.
  - eexists. split; [done|]. split; [|by intros _ _ o]. destruct H. by split.
Qed.

Lemma events_settled es : Forall admissible es → ∀ w, settled worker minimized others w →
  ∃ w', win_events es w = Some w' ∧ settled worker minimized others w' ∧ (EvShow ∉ es → worker || minimized = true → quiet w w').
Proof.
  induction 1 as [|e es He _ IH]; intros w H; [exists w; split; [done|]; split; [done|by intros _ _ o]|]. cbn [win_events].
  destruct (event_settled e w H He) as (w1 & -> & H1 & Q1). cbn [mbind option_bind].
  destruct (IH w1 H1) as (w2 & -> & H2 & Q2). exists w2. split; [done|]. split; [done|].
  intros [Hne Hnin]%not_elem_of_cons Hor. eapply quiet_trans; [by apply Q1|by apply Q2].
Qed.
(** What the derived destructor leaves to the base one. *)
Record underived (w w' : Win) : Prop := mkUnderived {
  un_flutter : is_flutter w' = false; un_windows : windows w' = windows w; un_handle : window_handle_ w' = window_handle_ w;
  un_count : g_active_window_count w' = g_active_window_count w; un_quit : quit_on_close_ w' = quit_on_close_ w;
  un_asked : asked w' = asked w; un_engine : flutter_controller_ w' = None; un_channel : diagnostics_channel_ w' = None;
  un_agent : link_agent_binding_bridge_ w' = false; un_host : link_host_bridge_ w' = false; un_frame : next_frame w' = false }.
Lemma delete_derived_spec w : underived w (delete_derived w).
Proof. destruct w as [? ? ? ? ? ? ? [] ? ? ? ? ? ? ?]; by constructor. Qed.

(** The base destructor on an object without engine. *)
Definition hollow (w : Win) : Prop :=
  is_flutter w = false ∧ flutter_controller_ w = None ∧ diagnostics_channel_ w = None ∧
  link_agent_binding_bridge_ w = false ∧ link_host_bridge_ w = false ∧ next_frame w = false.
Lemma Destroy_hollow w : hollow w → windows w = option_list (window_handle_ w) → ∃ w', Destroy destroy_window w = Some w' ∧ bare w' ∧
  g_active_window_count w' = g_active_window_count w ∧ (g_active_window_count w = 0 → class_registered_ w' = false) ∧
  asked w' = (if bool_decide (window_handle_ w ≠ None) && quit_on_close_ w then [PostQuit] else []) ++ asked w.
Proof.
  destruct w as [[h|] ? q ? ? ? ? ? ? ? ? n c ws l]; intros (H1 & H2 & H3 & H4 & H5 & H6) Hw;
    cbn in H1, H2, H3, H4, H5, H6, Hw; subst; unfold Destroy, OnDestroy; cbn [is_flutter window_handle_ mbind option_bind].
  - unfold destroy_window. rewrite destroy_window_spec by done. unfold let_go, OnDestroy, UnregisterWindowClass, ask.
    cbn. destruct (Z.eqb_spec n 0) as [E|E], q; cbn; rewrite ?(proj2 (Z.eqb_eq _ _) E), ?(proj2 (Z.eqb_neq _ _) E);
      (eexists; split; [reflexivity|]; cbn; split_and!; done).
  - cbn. destruct (Z.eqb_spec n 0); (eexists; split; [reflexivity|]; cbn; split_and!; done).
Qed.

(** What the destructor leaves. *)
Lemma delete_spec w : settled worker minimized others w → ∃ w', delete_window w = Some w' ∧ bare w' ∧
  g_active_window_count w' = others ∧ (others = 0 → class_registered_ w' = false) ∧
  asked w' = (if bool_decide (window_handle_ w ≠ None) && quit_on_close_ w then [PostQuit] else []) ++ asked w.
Proof.
  intros [_ _ _ H4 H5 _ _ _ _]. unfold delete_window, delete_base.
  destruct (delete_derived_spec w) as [F1 F2 F3 F4 F5 F6 F7 F8 F9 F10 F11]. revert F1 F2 F3 F4 F5 F6 F7 F8 F9 F10 F11.
  generalize (delete_derived w) as v. intros v F1 F2 F3 F4 F5 F6 F7 F8 F9 F10 F11.
  destruct (Destroy_hollow (v <| g_active_window_count := g_active_window_count v - 1 |>)) as (w' & E & Hb & Hc & Hr & Ha);
    [by split_and!|cbn; by rewrite F2, F3|]. cbn in Hc, Hr, Ha. exists w'. split; [done|]. split; [done|].
  rewrite F4, H4 in Hc, Hr. split; [lia|]. split; [intros ->; apply Hr; lia|]. by rewrite Ha, F3, F5, F6.
Qed.
End Settled.

(** The window object looks after what it owns. Whatever is asked of it, in any order,
    and whatever messages Windows delivers, also inside [CreateWindow] and
    [DestroyWindow], nothing is dereferenced that is not there, and between events the
    object owns exactly the window whose handle it holds, the engine exists exactly as
    long as the window, and no bridge and no channel outlives the engine. A worker and
    a minimised start show nothing by themselves. The destructor leaves no window, no
    engine and, for the last object, no window class, and ends the message loop when
    it closes a window that was to end it. *)
Theorem window_life worker minimized others registered es :
  0 <= others → Forall admissible es →
  ∃ w, win_events es (new_window worker minimized others registered) = Some w ∧ settled worker minimized others w ∧
    (worker || minimized = true → EvShow ∉ es → ∀ o, ShowNormal o ∉ asked w) ∧
    ∃ w', delete_window w = Some w' ∧ bare w' ∧ g_active_window_count w' = others ∧
      (others = 0 → class_registered_ w' = false) ∧
      (window_handle_ w ≠ None → quit_on_close_ w = true → asked w' = PostQuit :: asked w).
Proof.
  intros Ho Hes. assert (settled worker minimized others (new_window worker minimized others registered)) as H0.
  { split; cbn; try done. by destruct worker. }
  destruct (events_settled worker minimized others Ho es Hes _ H0) as (w & -> & H & Q). exists w. split; [done|]. split; [done|].
  split. { intros Hor Hnin o Hin. specialize (Q Hnin Hor o Hin). by apply not_elem_of_nil in Q. }
  destruct (delete_spec worker minimized others Ho w H) as (w' & -> & Hb & Hc & Hcl & Ha). exists w'. split_and!; [done..|].
  intros Hh Hq. rewrite Ha, bool_decide_true, Hq by done. done.
Qed.
End Window.

(** A link worker's window, created, resized and closed. *)
Lemma window_life_witness :
  let env := mkCreateEnv 96 (Some 7) [WM_SIZE; WM_OTHER 36] (Some 8) true true in
  ∃ w, win_events (λ _, mkRect 0 0 640 480) None (λ _, false) [EvCreate env; EvQuitOnClose true; EvMessage WM_SIZE; EvFrame; EvMessage WM_CLOSE]
      (new_window true false 0 false) = Some w ∧ windows w = [] ∧ PostQuit ∈ asked w ∧ ∀ o, ShowNormal o ∉ asked w.
Proof.
  intros env. set (es := [EvCreate env; EvQuitOnClose true; EvMessage WM_SIZE; EvFrame; EvMessage WM_CLOSE]).
  destruct (window_life (λ _, mkRect 0 0 640 480) None (λ _, false) eq_refl true false 0 false es) as (w & E & _ & Hs & _).
  - lia.
  - repeat constructor; cbn; done.
  - exists w. split; [exact E|]. vm_compute in E. injection E as <-. split; [reflexivity|]. split.
    + left.
    + apply Hs; [reflexivity|]. intros H. repeat (apply elem_of_cons in H as [?|H]; [discriminate|]). by apply elem_of_nil in H.
Defined.
