(* ===== verification/LinuxRunner.v ===== *)
(** * The Linux runner

    [linux/runner/my_application.cc]: the application object of the Linux build. GTK
    calls its methods; they are lists of calls back into GTK and the Flutter engine, in
    the order of the code, with the one member of the object. *)
From S2P Require Import Prelude.

Inductive GtkCall :=
| WindowNew | HeaderBar (title : str) | WindowTitle (title : str) | IconName (name : str) | DefaultSize (w h : Z)
| ProjectArguments (args : option (list str)) | ViewNew | Background (color : str) | ShowView | AddView
| OnFirstFrame | RealizeView | RegisterPlugins | GrabFocus | ShowToplevel
| Register (ok : bool) | Activate | ParentStartup | ParentShutdown | ParentDispose | FreeArguments (args : list str).

Definition title : str := B "Ligament Authenticator".
Definition icon : str := B "ligament-authenticator".

(** [_MyApplication], and everything called so far. *)
Record MyApplication := mkApp { dart_entrypoint_arguments : option (list str); called : list GtkCall }.
Definition call (cs : list GtkCall) (a : MyApplication) : MyApplication :=
  mkApp (dart_entrypoint_arguments a) (called a ++ cs).

(** [wm_name]: no X11 screen, or its window manager's name if it has one. *)
Definition use_header_bar (wm_name : option (option str)) : bool :=
  match wm_name with Some n => bool_decide (n = Some (B "GNOME Shell")) | None => true end.

Definition my_application_activate (wm_name : option (option str)) (a : MyApplication) : MyApplication :=
  call ([WindowNew] ++ (if use_header_bar wm_name then [HeaderBar title] else [WindowTitle title]) ++
    [IconName icon; DefaultSize 1000 700; ProjectArguments (dart_entrypoint_arguments a); ViewNew; Background (B "#000000");
     ShowView; AddView; OnFirstFrame; RealizeView; RegisterPlugins; GrabFocus]) a.

Definition first_frame_cb (a : MyApplication) : MyApplication := call [ShowToplevel] a.

Definition my_application_startup (a : MyApplication) : MyApplication := call [ParentStartup] a.
Definition my_application_shutdown (a : MyApplication) : MyApplication := call [ParentShutdown] a.

(** [arguments] starts with the program's name; the exit status. Inside
    [g_application_register] and [g_application_activate] GTK emits the signals whose
    handlers are the methods above. *)
Definition my_application_local_command_line (registered : bool) (wm_name : option (option str)) (arguments : list str)
    (a : MyApplication) : Z * MyApplication :=
  let a := mkApp (Some (tail arguments)) (called a) in
  let a := call [Register registered] a in
  if negb registered then (1, a) else (0, my_application_activate wm_name (call [Activate] (my_application_startup a))).

(** [g_clear_pointer] frees what is there and forgets it. *)
Definition my_application_dispose (a : MyApplication) : MyApplication :=
  let a := match dart_entrypoint_arguments a with
           | Some args => mkApp None (called a ++ [FreeArguments args])
           | None => a
           end in
  call [ParentDispose] a.

Definition my_application_new : MyApplication := mkApp None [].

(** [main]: the command line, a first frame of an engine that was started, the shutdown
    of a registered application, and as many [dispose]s as GObject sees fit. *)
Definition main (registered : bool) (wm_name : option (option str)) (argv : list str) (frame : bool) (disposes : nat) : Z * MyApplication :=
  let '(status, a) := my_application_local_command_line registered wm_name argv my_application_new in
  let a := if registered then my_application_shutdown (if frame then first_frame_cb a else a) else a in
  (status, Nat.iter disposes my_application_dispose a).

Lemma dispose_once n : ∀ a, dart_entrypoint_arguments a = None →
  called (Nat.iter n my_application_dispose a) = called a ++ replicate n ParentDispose.
Proof.
  intros a Ha. assert (dart_entrypoint_arguments (Nat.iter n my_application_dispose a) = None ∧
    called (Nat.iter n my_application_dispose a) = called a ++ replicate n ParentDispose) as [_ H]; [|done].
  induction n as [|n [IH1 IH2]]; [by rewrite app_nil_r|]. rewrite Nat.iter_succ. unfold my_application_dispose at 1 3.
  rewrite IH1. cbn. rewrite IH2, <- app_assoc. split; [done|]. f_equal. by rewrite <- replicate_cons_app.
Qed.

Definition is_free (c : GtkCall) : bool := match c with FreeArguments _ => true | _ => false end.

(** The arguments without the program's name reach the engine unchanged and are freed
    once, however often the object is disposed of; without a registration there is no
    window and the status is 1; the window is shown by the first frame only. *)
Theorem main_spec registered wm_name program args frame disposes :
  let '(status, a) := main registered wm_name (program :: args) frame (S disposes) in
  status = (if registered then 0 else 1) ∧
  (WindowNew ∈ called a ↔ registered = true) ∧
  (∀ x, ProjectArguments x ∈ called a → x = Some args) ∧
  List.filter is_free (called a) = [FreeArguments args] ∧
  (ShowToplevel ∈ called a ↔ frame = true ∧ registered = true).
Proof.
  unfold main. set (r := my_application_local_command_line _ _ _ _).
  assert (dart_entrypoint_arguments r.2 = Some args) as Ha by (by destruct registered).
  assert (r.1 = if registered then 0 else 1) as Hs by (by destruct registered).
  assert (List.filter is_free (called r.2) = [] ∧ (WindowNew ∈ called r.2 ↔ registered = true) ∧
    (∀ x, ProjectArguments x ∈ called r.2 → x = Some args) ∧ ShowToplevel ∉ called r.2) as (H1 & H2 & H3 & H4).
  { subst r. clear. destruct registered; cbn; [destruct (use_header_bar wm_name)|]; split_and!; cbn; set_solver. }
  clearbody r. destruct r as [status a]. cbn [fst snd] in *.
  set (a1 := if registered then _ else a).
  assert (dart_entrypoint_arguments a1 = Some args ∧ ∃ l, called a1 = called a ++ l ∧ Forall (λ c, c = ParentShutdown ∨ c = ShowToplevel ∧ frame = true ∧ registered = true) l ∧
    (frame = true → registered = true → ShowToplevel ∈ l)) as (Ha1 & l & El & Hl & Hshow).
  { subst a1. destruct registered; [destruct frame|]; (split; [done|]).
    - exists [ShowToplevel; ParentShutdown]. split; [cbn; by rewrite <- app_assoc|]. split; [constructor; [by right|]; constructor; [by left|done]|]. intros; by left.
    - exists [ParentShutdown]. split; [done|]. split; [constructor; [by left|done]|done].
    - exists []. split; [by rewrite app_nil_r|]. split; [constructor|done]. }
  clearbody a1. rewrite Nat.iter_succ_r, dispose_once by (unfold my_application_dispose; by rewrite Ha1).
  unfold my_application_dispose, call. rewrite Ha1. cbn [called dart_entrypoint_arguments]. rewrite El.
  rewrite !List.filter_app, H1. assert (List.filter is_free l = []) as ->.
  { clear El Hshow. induction Hl as [|c l [-> | [-> _]] _ IH]; [done|exact IH|exact IH]. }
  assert (List.filter is_free (replicate disposes ParentDispose) = []) as -> by (induction disposes; done).
  assert (∀ c, c ∈ l → c = ParentShutdown ∨ c = ShowToplevel ∧ frame = true ∧ registered = true) as Hl' by (by apply Forall_forall).
  assert (∀ c, c ∈ replicate disposes ParentDispose → c = ParentDispose) as Hd by (intros c [-> _]%elem_of_replicate; done).
  split; [done|]. split; [set_solver|]. split; [set_solver|]. split; [done|set_solver].
Qed.
